(** * Rune VM: loader, linear memory, host table and interpreter

    A shallow embedding of [src/vm/vm.c].  C integers are [Z] with
    their wrap-around written out, byte buffers are [list Z], arrays
    indexed by the program are stdpp lists with an explicit result for
    an index that falls outside the array, and the linear memory is a
    map from addresses to bytes together with the size that was
    allocated for it. *)

From Stdlib Require Import ZArith Lia Bool.
From stdpp Require Import base list option.

Local Open Scope Z_scope.

(** ** Machine integers *)

Module Int.

Definition u8  (x : Z) : Z := x mod 2 ^ 8.
Definition u16 (x : Z) : Z := x mod 2 ^ 16.
Definition u32 (x : Z) : Z := x mod 2 ^ 32.
Definition u64 (x : Z) : Z := x mod 2 ^ 64.

(** Conversion of a value to the signed type of width [w]. *)
Definition signed (w : Z) (x : Z) : Z :=
  let r := x mod 2 ^ w in
  if r <? 2 ^ (w - 1) then r else r - 2 ^ w.

Definition i8  := signed 8.
Definition i16 := signed 16.
Definition i32 := signed 32.
Definition i64 := signed 64.

Definition INT32_MIN : Z := - 2 ^ 31.
Definition INT64_MIN : Z := - 2 ^ 63.

(** Signed [/] and [%] of C.  The quotient truncates towards zero.  As
    in CompCert's semantics of C, [+], [-], [*] and [<<] on signed
    operands wrap around, whereas a division whose quotient is not
    representable (a zero divisor, or the minimum value divided by -1)
    has no defined result: [None]. *)
Definition sdiv (w : Z) (a b : Z) : option Z :=
  if b =? 0 then None
  else if (a =? - 2 ^ (w - 1)) && (b =? -1) then None
  else Some (Z.quot a b).

Definition srem (w : Z) (a b : Z) : option Z :=
  if b =? 0 then None
  else if (a =? - 2 ^ (w - 1)) && (b =? -1) then None
  else Some (Z.rem a b).

(** Unsigned [/] and [%]; the divisor is checked by the caller. *)
Definition udiv (a b : Z) : option Z :=
  if b =? 0 then None else Some (a / b).
Definition urem (a b : Z) : option Z :=
  if b =? 0 then None else Some (a mod b).

(** [__builtin_popcount], [__builtin_clz], [__builtin_ctz] on a value
    of [w] bits, by a scan over the bit positions. *)
Fixpoint popcount_aux (n : nat) (x : Z) : Z :=
  match n with
  | O => 0
  | S n' => (if Z.testbit x (Z.of_nat n') then 1 else 0) + popcount_aux n' x
  end.
Definition popcount (w : nat) (x : Z) : Z := popcount_aux w x.

(** Number of zero bits above the highest set bit among the low [n]. *)
Fixpoint clz_aux (n : nat) (x : Z) : Z :=
  match n with
  | O => 0
  | S n' => if Z.testbit x (Z.of_nat n') then 0 else 1 + clz_aux n' x
  end.
Definition clz (w : nat) (x : Z) : Z := clz_aux w x.

(** Number of zero bits below the lowest set bit, at most [n]. *)
Fixpoint ctz_aux (n : nat) (i : Z) (x : Z) : Z :=
  match n with
  | O => 0
  | S n' => if Z.testbit x i then 0 else 1 + ctz_aux n' (i + 1) x
  end.
Definition ctz (w : nat) (x : Z) : Z := ctz_aux w 0 x.

(** Little-endian byte strings. *)
Fixpoint le_combine (bs : list Z) : Z :=
  match bs with
  | [] => 0
  | b :: bs' => Z.lor (u8 b) (Z.shiftl (le_combine bs') 8)
  end.

Fixpoint le_split (n : nat) (v : Z) : list Z :=
  match n with
  | O => []
  | S n' => u8 v :: le_split n' (Z.shiftr v 8)
  end.

End Int.

Import Int.

(** ** Error codes

    The closed enumeration [rune_err_t]; the names are those of
    [rune_err_str]. *)

Inductive rune_err_t : Type :=
| RUNE_OK
| RUNE_ERR_BADMODULE
| RUNE_ERR_BADMAGIC
| RUNE_ERR_VERSION
| RUNE_ERR_OOM
| RUNE_ERR_BOUNDS
| RUNE_ERR_DIVZERO
| RUNE_ERR_TYPE
| RUNE_ERR_NOEXPORT
| RUNE_ERR_NOIMPORT
| RUNE_ERR_STACKOVERFLOW
| RUNE_ERR_TRAP
| RUNE_ERR_FUEL
| RUNE_ERR_BADOPCODE
| RUNE_ERR_HOST.

(** ** Opcodes and section identifiers

    The two enumerations the interpreter and the loader switch on.
    [OP_UNKNOWN] and [RUNE_SECT_UNKNOWN] stand for the [default:]
    branches. *)

Inductive rune_opcode_t : Type :=
| OP_NOP | OP_TRAP | OP_RET | OP_JMP | OP_JZ | OP_JNZ | OP_JLT | OP_JLE
| OP_CALL | OP_CALL_HOST | OP_ARG
| OP_LDI32 | OP_LDI64 | OP_LDF32 | OP_LDF64 | OP_LDTRUE | OP_LDFALSE
| OP_LDGLOBAL | OP_STGLOBAL | OP_MOV
| OP_ADD32 | OP_SUB32 | OP_MUL32 | OP_DIV32 | OP_DIVU32 | OP_REM32 | OP_REMU32
| OP_NEG32 | OP_AND32 | OP_OR32 | OP_XOR32 | OP_SHL32 | OP_SHR32 | OP_SHRU32
| OP_NOT32 | OP_CLZ32 | OP_CTZ32 | OP_POPCNT32
| OP_ADD64 | OP_SUB64 | OP_MUL64 | OP_DIV64 | OP_DIVU64 | OP_REM64
| OP_AND64 | OP_OR64 | OP_XOR64 | OP_SHL64 | OP_SHR64 | OP_NOT64 | OP_NEG64
| OP_FADD32 | OP_FSUB32 | OP_FMUL32 | OP_FDIV32 | OP_FABS32 | OP_FNEG32
| OP_FSQRT32 | OP_FMIN32 | OP_FMAX32 | OP_FFLOOR32 | OP_FCEIL32 | OP_FROUND32
| OP_FADD64 | OP_FSUB64 | OP_FMUL64 | OP_FDIV64 | OP_FABS64 | OP_FNEG64
| OP_FSQRT64 | OP_FMIN64 | OP_FMAX64 | OP_FFLOOR64 | OP_FCEIL64 | OP_FROUND64
| OP_EQ32 | OP_NE32 | OP_LT32 | OP_LE32 | OP_GT32 | OP_GE32 | OP_LTU32 | OP_LEU32
| OP_EQ64 | OP_NE64 | OP_LT64 | OP_LE64
| OP_FEQ32 | OP_FLT32 | OP_FEQ64 | OP_FLT64
| OP_I32_TO_I64 | OP_I64_TO_I32 | OP_U32_TO_I64 | OP_I32_TO_F32 | OP_I32_TO_F64
| OP_F32_TO_I32 | OP_F64_TO_I32 | OP_F32_TO_F64 | OP_F64_TO_F32
| OP_I64_TO_F64 | OP_F64_TO_I64 | OP_BOOL_TO_I32
| OP_LOAD8 | OP_LOAD8S | OP_LOAD16 | OP_LOAD16S | OP_LOAD32 | OP_LOAD64
| OP_LOADF32 | OP_LOADF64
| OP_STORE8 | OP_STORE16 | OP_STORE32 | OP_STORE64 | OP_STOREF32 | OP_STOREF64
| OP_MEM_SIZE | OP_MEM_GROW | OP_MEM_COPY | OP_MEM_FILL
| OP_UNKNOWN.

Inductive rune_sect_id_t : Type :=
| RUNE_SECT_TYPE | RUNE_SECT_IMPORT | RUNE_SECT_FUNC | RUNE_SECT_MEMORY
| RUNE_SECT_GLOBAL | RUNE_SECT_EXPORT | RUNE_SECT_CODE | RUNE_SECT_DATA
| RUNE_SECT_UNKNOWN.

(** ** Floating point of the host

    The float instructions are the host's IEEE-754 operations on the
    bit patterns held in the registers.  They are kept abstract: a
    binary32 value is its 32-bit pattern, a binary64 value its 64-bit
    pattern.  A conversion to an integer type has no defined result
    when the truncated value is not representable. *)

Inductive fbinop := FADD | FSUB | FMUL | FDIV | FMIN | FMAX.
Inductive funop := FABS | FNEG | FSQRT | FFLOOR | FCEIL | FROUND.
Inductive fcmp := FEQ | FLT.

Record host_fp : Type := {
  fbin32 : fbinop -> Z -> Z -> Z;
  fun32 : funop -> Z -> Z;
  fcmp32 : fcmp -> Z -> Z -> bool;
  fbin64 : fbinop -> Z -> Z -> Z;
  fun64 : funop -> Z -> Z;
  fcmp64 : fcmp -> Z -> Z -> bool;
  f32_of_i32 : Z -> Z;
  f64_of_i32 : Z -> Z;
  f64_of_i64 : Z -> Z;
  f64_of_f32 : Z -> Z;
  f32_of_f64 : Z -> Z;
  i32_of_f32 : Z -> option Z;
  i32_of_f64 : Z -> option Z;
  i64_of_f64 : Z -> option Z
}.

(** ** The declarations of [include/rune.h] and [include/rune_bytecode.h]

    The two headers fix the numbering of the enumerations and a few
    limits.  Every definition below takes them as a parameter; the
    general theorems hold for every numbering. *)

Record rune_abi : Type := {
  RUNE_MAGIC : list Z;
  RUNE_BC_VERSION : Z;
  RUNE_MAX_FUNCS : Z;
  RUNE_MAX_GLOBALS : Z;
  RUNE_CALL_DEPTH : Z;
  RUNE_TYPE_VOID : Z;
  RUNE_TYPE_I32 : Z;
  RUNE_TYPE_I64 : Z;
  RUNE_TYPE_F32 : Z;
  RUNE_TYPE_F64 : Z;
  RUNE_TYPE_BOOL : Z;
  RUNE_TYPE_PTR : Z;
  RUNE_EXPORT_FUNC : Z;
  RUNE_EXPORT_MEMORY : Z;
  RUNE_EXPORT_GLOBAL : Z;
  sect_of_u8 : Z -> rune_sect_id_t;
  opcode_of_u8 : Z -> rune_opcode_t;
  host_float : host_fp
}.

(** Modelled from the spec: the page size, the size of the argument
    staging buffer, the size of a register window, the length of the
    magic tag and the size of the file header, whose macros are
    declared in the headers: "page = 64 KiB", "argument staging buffer
    (16 slots)", "a register window of 256 slots", "magic bytes (4)",
    "the 20-byte header". *)
Definition RUNE_PAGE_SIZE : Z := 65536.
Definition RUNE_MAX_PARAMS : Z := 16.
Definition RUNE_MAX_REGS : Z := 256.
Definition RUNE_MAGIC_LEN : Z := 4.
Definition sizeof_rune_file_header_t : Z := 20.

(** Modelled from the spec: the instruction word is
    "(op:u8, dst:u8, s1:u8, s2:u8) in little-endian byte order"; the
    accessor macros are declared in [rune_bytecode.h]. *)
Definition RUNE_INSTR_OP  (instr : Z) : Z := Z.land instr 255.
Definition RUNE_INSTR_DST (instr : Z) : Z := Z.land (Z.shiftr instr 8) 255.
Definition RUNE_INSTR_S1  (instr : Z) : Z := Z.land (Z.shiftr instr 16) 255.
Definition RUNE_INSTR_S2  (instr : Z) : Z := Z.land (Z.shiftr instr 24) 255.
Definition RUNE_INSTR (op dst s1 s2 : Z) : Z :=
  Z.lor (u8 op) (Z.lor (Z.shiftl (u8 dst) 8)
        (Z.lor (Z.shiftl (u8 s1) 16) (Z.shiftl (u8 s2) 24))).

(** ** Values

    [rune_val_t] is a type tag and a union.  The union is kept as the
    64 bits it occupies; a field of the union is a view of these bits
    (the host is little-endian), so that an opcode reading a field
    other than the one last written sees the bits that are there. *)

Record rune_val_t : Type := { vtype : Z; vbits : Z }.

Definition as_i32 (v : rune_val_t) : Z := i32 (vbits v).
Definition as_i64 (v : rune_val_t) : Z := i64 (vbits v).
Definition as_f32 (v : rune_val_t) : Z := u32 (vbits v).
Definition as_f64 (v : rune_val_t) : Z := u64 (vbits v).
Definition as_ptr (v : rune_val_t) : Z := u32 (vbits v).
(** The [bool] field is false when its byte is zero and true otherwise;
    a byte other than 0 and 1 is no value of C's [bool], and what the
    compiled code makes of such a byte is not represented. *)
Definition as_b (v : rune_val_t) : bool := negb (u8 (vbits v) =? 0).

(** A value of zeroed storage ([calloc], [memset]). *)
Definition zero_val : rune_val_t := {| vtype := 0; vbits := 0 |}.

(** ** Strings

    Names are byte arrays handled with [strcmp] and [strdup], which
    stop at the first zero byte. *)

Fixpoint c_str (s : list Z) : list Z :=
  match s with
  | [] => []
  | c :: s' => if c =? 0 then [] else c :: c_str s'
  end.

Fixpoint bytes_eqb (a b : list Z) : bool :=
  match a, b with
  | [], [] => true
  | x :: a', y :: b' => (x =? y) && bytes_eqb a' b'
  | _, _ => false
  end.

(** [strcmp a b == 0] *)
Definition strcmp_eq (a b : list Z) : bool := bytes_eqb (c_str a) (c_str b).

Definition strdup (s : list Z) : list Z := c_str s.

(** The bytes of ["_init"]. *)
Definition str_init : list Z := [95; 105; 110; 105; 116].

(** ** Module *)

Record rune_func_type_t : Type := {
  param_types : list Z;
  return_types : list Z;
  param_count : Z;
  return_count : Z
}.

Record rune_import_t : Type := {
  imp_module : list Z;
  imp_name : list Z;
  imp_type_idx : Z
}.

Record rune_func_t : Type := {
  type_idx : Z;
  reg_count : Z;
  local_count : Z;
  code : list Z;          (* the bytes of the body, a slice of the module data *)
  code_size : Z;
  is_import : bool;
  import_idx : Z
}.

Record rune_global_t : Type := {
  g_type : Z;
  g_mutable : bool;
  g_value : rune_val_t
}.

Record rune_export_t : Type := {
  e_kind : Z;
  e_idx : Z;
  e_name : list Z
}.

Record rune_data_seg_t : Type := {
  seg_offset : Z;
  seg_data : list Z;
  seg_size : Z
}.

(** The arrays of [struct rune_module] are lists; each [*_count] field
    is the length of its array, as it is whenever a parser returns
    [RUNE_OK]. *)
Record rune_module_t : Type := {
  types : list rune_func_type_t;
  imports : list rune_import_t;
  funcs : list rune_func_t;
  globals : list rune_global_t;
  exports : list rune_export_t;
  mem_initial_pages : Z;
  mem_max_pages : Z;
  has_memory : bool;
  data_segs : list rune_data_seg_t;
  init_func : Z            (* int32_t, -1 if none *)
}.

Definition zlen {A} (l : list A) : Z := Z.of_nat (length l).

Definition type_count (m : rune_module_t) : Z := zlen (types m).
Definition import_count (m : rune_module_t) : Z := zlen (imports m).
Definition func_count (m : rune_module_t) : Z := zlen (funcs m).
Definition global_count (m : rune_module_t) : Z := zlen (globals m).
Definition export_count (m : rune_module_t) : Z := zlen (exports m).
Definition data_seg_count (m : rune_module_t) : Z := zlen (data_segs m).

(** ** Linear memory and the VM *)

(** The buffer behind [vm->memory]: the byte at each offset. *)
Definition memory_t : Type := Z -> Z.

(** A host callback.  It receives its user pointer, the argument array
    and the linear memory with its current number of pages (which it
    reaches through [rune_vm_memory_size], [rune_vm_mem_read] and
    [rune_vm_mem_write]); it returns its error code, the value left in
    the result slot and the memory.  Any other use that a callback
    makes of the VM handle (a call of [rune_vm_refuel], a re-entrant
    [rune_vm_call]) is not represented. *)
Definition rune_host_fn_t : Type :=
  Z -> list rune_val_t -> Z -> memory_t -> rune_err_t * rune_val_t * memory_t.

Record rune_host_entry_t : Type := {
  h_module : list Z;
  h_name : list Z;
  h_fn : rune_host_fn_t;
  h_userdata : Z
}.

Record rune_frame_t : Type := {
  fr_func_idx : Z;
  fr_pc : Z;                         (* in 4-byte units *)
  fr_regs : option (list rune_val_t) (* NULL until the frame is first used *)
}.

Record rune_config_t : Type := {
  stack_size : Z;
  memory_limit : Z;
  fuel_limit : Z
}.

Record rune_vm_t : Type := {
  cfg : rune_config_t;
  host_fns : list rune_host_entry_t;   (* the first host_fn_count entries *)
  host_fn_cap : Z;
  memory : option memory_t;            (* None is the NULL pointer *)
  memory_pages : Z;
  memory_max : Z;
  vm_globals : option (list rune_val_t);
  frames : list rune_frame_t;
  frame_count : Z;
  arg_buf : list rune_val_t;
  arg_count : Z;
  fuel_used : Z;
  initialized : bool
}.

Definition host_fn_count (vm : rune_vm_t) : Z := zlen (host_fns vm).

(** Functional record update, one setter per field that is assigned. *)
Definition set_cfg (c : rune_config_t) (vm : rune_vm_t) : rune_vm_t :=
  {| cfg := c; host_fns := host_fns vm; host_fn_cap := host_fn_cap vm;
     memory := memory vm; memory_pages := memory_pages vm;
     memory_max := memory_max vm; vm_globals := vm_globals vm;
     frames := frames vm; frame_count := frame_count vm;
     arg_buf := arg_buf vm; arg_count := arg_count vm;
     fuel_used := fuel_used vm; initialized := initialized vm |}.
Definition set_host_fns (h : list rune_host_entry_t) (cap : Z) (vm : rune_vm_t) : rune_vm_t :=
  {| cfg := cfg vm; host_fns := h; host_fn_cap := cap;
     memory := memory vm; memory_pages := memory_pages vm;
     memory_max := memory_max vm; vm_globals := vm_globals vm;
     frames := frames vm; frame_count := frame_count vm;
     arg_buf := arg_buf vm; arg_count := arg_count vm;
     fuel_used := fuel_used vm; initialized := initialized vm |}.
Definition set_memory (mem : option memory_t) (vm : rune_vm_t) : rune_vm_t :=
  {| cfg := cfg vm; host_fns := host_fns vm; host_fn_cap := host_fn_cap vm;
     memory := mem; memory_pages := memory_pages vm;
     memory_max := memory_max vm; vm_globals := vm_globals vm;
     frames := frames vm; frame_count := frame_count vm;
     arg_buf := arg_buf vm; arg_count := arg_count vm;
     fuel_used := fuel_used vm; initialized := initialized vm |}.
Definition set_memory_pages (p : Z) (vm : rune_vm_t) : rune_vm_t :=
  {| cfg := cfg vm; host_fns := host_fns vm; host_fn_cap := host_fn_cap vm;
     memory := memory vm; memory_pages := p;
     memory_max := memory_max vm; vm_globals := vm_globals vm;
     frames := frames vm; frame_count := frame_count vm;
     arg_buf := arg_buf vm; arg_count := arg_count vm;
     fuel_used := fuel_used vm; initialized := initialized vm |}.
Definition set_memory_max (p : Z) (vm : rune_vm_t) : rune_vm_t :=
  {| cfg := cfg vm; host_fns := host_fns vm; host_fn_cap := host_fn_cap vm;
     memory := memory vm; memory_pages := memory_pages vm;
     memory_max := p; vm_globals := vm_globals vm;
     frames := frames vm; frame_count := frame_count vm;
     arg_buf := arg_buf vm; arg_count := arg_count vm;
     fuel_used := fuel_used vm; initialized := initialized vm |}.
Definition set_globals (g : option (list rune_val_t)) (vm : rune_vm_t) : rune_vm_t :=
  {| cfg := cfg vm; host_fns := host_fns vm; host_fn_cap := host_fn_cap vm;
     memory := memory vm; memory_pages := memory_pages vm;
     memory_max := memory_max vm; vm_globals := g;
     frames := frames vm; frame_count := frame_count vm;
     arg_buf := arg_buf vm; arg_count := arg_count vm;
     fuel_used := fuel_used vm; initialized := initialized vm |}.
Definition set_frames (f : list rune_frame_t) (vm : rune_vm_t) : rune_vm_t :=
  {| cfg := cfg vm; host_fns := host_fns vm; host_fn_cap := host_fn_cap vm;
     memory := memory vm; memory_pages := memory_pages vm;
     memory_max := memory_max vm; vm_globals := vm_globals vm;
     frames := f; frame_count := frame_count vm;
     arg_buf := arg_buf vm; arg_count := arg_count vm;
     fuel_used := fuel_used vm; initialized := initialized vm |}.
Definition set_frame_count (n : Z) (vm : rune_vm_t) : rune_vm_t :=
  {| cfg := cfg vm; host_fns := host_fns vm; host_fn_cap := host_fn_cap vm;
     memory := memory vm; memory_pages := memory_pages vm;
     memory_max := memory_max vm; vm_globals := vm_globals vm;
     frames := frames vm; frame_count := n;
     arg_buf := arg_buf vm; arg_count := arg_count vm;
     fuel_used := fuel_used vm; initialized := initialized vm |}.
Definition set_arg_buf (b : list rune_val_t) (vm : rune_vm_t) : rune_vm_t :=
  {| cfg := cfg vm; host_fns := host_fns vm; host_fn_cap := host_fn_cap vm;
     memory := memory vm; memory_pages := memory_pages vm;
     memory_max := memory_max vm; vm_globals := vm_globals vm;
     frames := frames vm; frame_count := frame_count vm;
     arg_buf := b; arg_count := arg_count vm;
     fuel_used := fuel_used vm; initialized := initialized vm |}.
Definition set_arg_count (n : Z) (vm : rune_vm_t) : rune_vm_t :=
  {| cfg := cfg vm; host_fns := host_fns vm; host_fn_cap := host_fn_cap vm;
     memory := memory vm; memory_pages := memory_pages vm;
     memory_max := memory_max vm; vm_globals := vm_globals vm;
     frames := frames vm; frame_count := frame_count vm;
     arg_buf := arg_buf vm; arg_count := n;
     fuel_used := fuel_used vm; initialized := initialized vm |}.
Definition set_fuel_used (n : Z) (vm : rune_vm_t) : rune_vm_t :=
  {| cfg := cfg vm; host_fns := host_fns vm; host_fn_cap := host_fn_cap vm;
     memory := memory vm; memory_pages := memory_pages vm;
     memory_max := memory_max vm; vm_globals := vm_globals vm;
     frames := frames vm; frame_count := frame_count vm;
     arg_buf := arg_buf vm; arg_count := arg_count vm;
     fuel_used := n; initialized := initialized vm |}.
Definition set_initialized (b : bool) (vm : rune_vm_t) : rune_vm_t :=
  {| cfg := cfg vm; host_fns := host_fns vm; host_fn_cap := host_fn_cap vm;
     memory := memory vm; memory_pages := memory_pages vm;
     memory_max := memory_max vm; vm_globals := vm_globals vm;
     frames := frames vm; frame_count := frame_count vm;
     arg_buf := arg_buf vm; arg_count := arg_count vm;
     fuel_used := fuel_used vm; initialized := b |}.

(** *** Access to the buffer

    [memcpy], [memmove] and [memset] on the linear memory. *)

Definition in_range (off len a : Z) : bool := (off <=? a) && (a <? off + len).

(** [memcpy(dst, mem + off, n)] read as a little-endian integer. *)
Definition mem_read_bytes (mem : memory_t) (off : Z) (n : nat) : list Z :=
  map (fun i => u8 (mem (off + Z.of_nat i))) (seq 0 n).

Definition mem_load (mem : memory_t) (off : Z) (n : nat) : Z :=
  le_combine (mem_read_bytes mem off n).

(** [memcpy(mem + off, src, |src|)] *)
Definition mem_write_bytes (mem : memory_t) (off : Z) (src : list Z) : memory_t :=
  fun a =>
    if in_range off (zlen src) a
    then u8 (nth (Z.to_nat (a - off)) src 0)
    else mem a.

Definition mem_store (mem : memory_t) (off : Z) (n : nat) (v : Z) : memory_t :=
  mem_write_bytes mem off (le_split n v).

(** [memmove(mem + pdst, mem + psrc, sz)] *)
Definition mem_move (mem : memory_t) (pdst psrc sz : Z) : memory_t :=
  fun a => if in_range pdst sz a then mem (a - pdst + psrc) else mem a.

(** [memset(mem + pdst, val, sz)] *)
Definition mem_set (mem : memory_t) (pdst val sz : Z) : memory_t :=
  fun a => if in_range pdst sz a then u8 val else mem a.

(** [calloc]: every byte is zero. *)
Definition mem_zero : memory_t := fun _ => 0.

(** ** Results of the interpreter *)

(** What a call of [vm_exec] leaves behind: the error code it returns,
    the value in the caller's result slot (which every caller sets to
    [rune_void()] beforehand) and the VM; or no defined behaviour (an
    access outside an array, a division with no representable
    quotient); or the recursion budget of this embedding was used up. *)
Inductive exec_result : Type :=
| Done (err : rune_err_t) (ret : rune_val_t) (vm : rune_vm_t)
| Undefined
| OutOfGas.

(** How the body of the dispatch loop is left: by [break], by
    [goto done] (with [*ret_val] possibly written), or by a [return]
    inside [MEM_CHECK] or [FUEL_TICK]. *)
Inductive step_result : Type :=
| Break (vm : rune_vm_t)
| GotoDone (result : rune_err_t) (ret : option rune_val_t) (vm : rune_vm_t)
| Return (e : rune_err_t) (vm : rune_vm_t)
| StepUndefined
| StepOutOfGas.

Notation "'get' p <- e ;; k" :=
  (match e with Some p => k | None => StepUndefined end)
  (at level 10, p pattern, e at level 99, k at level 200).



(** ** Results of the loader *)

(** The state of the little-endian reader. *)
Record reader_t : Type := {
  r_base : list Z;
  r_pos : Z;
  r_error : bool
}.


(** What a parser leaves: the value it built and the reader, with the
    error code it returns; or no defined behaviour (a write outside an
    array); or the recursion budget of this embedding was used up. *)
Inductive parse_result (A : Type) : Type :=
| Parsed (a : A) (r : reader_t)
| ParseErr (e : rune_err_t)
| ParseUndefined
| ParseOutOfGas.
Arguments Parsed {A} a r.
Arguments ParseErr {A} e.
Arguments ParseUndefined {A}.
Arguments ParseOutOfGas {A}.


(** What [rune_module_load] leaves. *)
Inductive load_result : Type :=
| Loaded (m : rune_module_t)
| LoadErr (e : rune_err_t)
| LoadUndefined
| LoadOutOfGas.


Section WithAbi.

Context (abi : rune_abi).

(** Modelled from the spec: the value constructors, inline functions of
    [rune.h]; each sets the tag and the field of its type ("a tagged
    union of i32, i64, f32, f64, bool, ptr, void"); the bytes of the
    union that the field does not cover are zero. *)
Definition rune_void : rune_val_t := {| vtype := RUNE_TYPE_VOID abi; vbits := 0 |}.
Definition rune_i32 (x : Z) : rune_val_t := {| vtype := RUNE_TYPE_I32 abi; vbits := u32 x |}.
Definition rune_i64 (x : Z) : rune_val_t := {| vtype := RUNE_TYPE_I64 abi; vbits := u64 x |}.
Definition rune_f32 (x : Z) : rune_val_t := {| vtype := RUNE_TYPE_F32 abi; vbits := u32 x |}.
Definition rune_f64 (x : Z) : rune_val_t := {| vtype := RUNE_TYPE_F64 abi; vbits := u64 x |}.
Definition rune_bool (b : bool) : rune_val_t :=
  {| vtype := RUNE_TYPE_BOOL abi; vbits := if b then 1 else 0 |}.


(** ** CRC-32 (ISO 3309) *)

Fixpoint crc32_bits (j : nat) (crc : Z) : Z :=
  match j with
  | O => crc
  | S j' =>
      crc32_bits j'
        (Z.lxor (Z.shiftr crc 1)
                (Z.land 3988292384 (if Z.odd crc then 4294967295 else 0)))
  end.

Definition crc32_update (crc : Z) (data : list Z) : Z :=
  let crc := Z.lxor crc 4294967295 in
  let crc := fold_left (fun c b => crc32_bits 8 (Z.lxor c (u8 b))) data crc in
  Z.lxor crc 4294967295.

(** ** Reader helpers (little-endian) *)

Definition r_len (r : reader_t) : Z := zlen (r_base r).

Definition reader_init (data : list Z) : reader_t :=
  {| r_base := data; r_pos := 0; r_error := false |}.

Definition set_error (r : reader_t) : reader_t :=
  {| r_base := r_base r; r_pos := r_pos r; r_error := true |}.

Definition read_u8 (r : reader_t) : Z * reader_t :=
  if r_len r <=? r_pos r then (0, set_error r)
  else (u8 (nth (Z.to_nat (r_pos r)) (r_base r) 0),
        {| r_base := r_base r; r_pos := r_pos r + 1; r_error := r_error r |}).

Definition read_u16 (r : reader_t) : Z * reader_t :=
  let '(b0, r) := read_u8 r in
  let '(b1, r) := read_u8 r in
  (Z.lor b0 (u16 (Z.shiftl b1 8)), r).

Definition read_u32 (r : reader_t) : Z * reader_t :=
  let '(b0, r) := read_u8 r in
  let '(b1, r) := read_u8 r in
  let '(b2, r) := read_u8 r in
  let '(b3, r) := read_u8 r in
  (Z.lor (Z.lor (Z.lor b0 (Z.shiftl b1 8)) (Z.shiftl b2 16)) (Z.shiftl b3 24), r).

Definition read_u64 (r : reader_t) : Z * reader_t :=
  let '(lo, r) := read_u32 r in
  let '(hi, r) := read_u32 r in
  (Z.lor lo (Z.shiftl hi 32), r).

(** [read_bytes]: the slice, or [NULL] with the error flag set. *)
Definition read_bytes (r : reader_t) (n : Z) : option (list Z) * reader_t :=
  if r_len r <? r_pos r + n then (None, set_error r)
  else (Some (take (Z.to_nat n) (drop (Z.to_nat (r_pos r)) (r_base r))),
        {| r_base := r_base r; r_pos := r_pos r + n; r_error := r_error r |}).

(** [read_string]: the copied bytes (the terminating zero is left to
    [strcmp_eq]), or [NULL] with the error flag set. *)
Definition read_string (r : reader_t) (len_bytes : Z) : option (list Z) * reader_t :=
  let '(len, r) := if len_bytes =? 1 then read_u8 r else read_u32 r in
  if r_error r || (4096 <? len) then (None, set_error r)
  else
    match read_bytes r len with
    | (Some src, r) => (Some src, r)
    | (None, r) => (None, set_error r)
    end.

(** ** Module loading *)

(** [n] bytes read one at a time, as the loops over [param_types] and
    [return_types] do; the error flag is examined by the caller. *)
Fixpoint read_u8s (n : nat) (r : reader_t) : list Z * reader_t :=
  match n with
  | O => ([], r)
  | S n' =>
      let '(b, r) := read_u8 r in
      let '(bs, r) := read_u8s n' r in
      (b :: bs, r)
  end.

Fixpoint parse_types (n : nat) (r : reader_t) : parse_result (list rune_func_type_t) :=
  match n with
  | O => Parsed [] r
  | S n' =>
      let '(pc, r) := read_u8 r in
      let '(rc, r) := read_u8 r in
      if r_error r || (RUNE_MAX_PARAMS <? pc) || (1 <? rc) then ParseErr RUNE_ERR_BADMODULE
      else
        let '(ps, r) := read_u8s (Z.to_nat pc) r in
        let '(rs, r) := read_u8s (Z.to_nat rc) r in
        if r_error r then ParseErr RUNE_ERR_BADMODULE
        else
          match parse_types n' r with
          | Parsed ts r =>
              Parsed ({| param_types := ps; return_types := rs;
                         param_count := pc; return_count := rc |} :: ts) r
          | other => other
          end
  end.

Definition set_types (ts : list rune_func_type_t) (m : rune_module_t) : rune_module_t :=
  {| types := ts; imports := imports m; funcs := funcs m; globals := globals m;
     exports := exports m; mem_initial_pages := mem_initial_pages m;
     mem_max_pages := mem_max_pages m; has_memory := has_memory m;
     data_segs := data_segs m; init_func := init_func m |}.
Definition set_imports (l : list rune_import_t) (m : rune_module_t) : rune_module_t :=
  {| types := types m; imports := l; funcs := funcs m; globals := globals m;
     exports := exports m; mem_initial_pages := mem_initial_pages m;
     mem_max_pages := mem_max_pages m; has_memory := has_memory m;
     data_segs := data_segs m; init_func := init_func m |}.
Definition set_funcs (l : list rune_func_t) (m : rune_module_t) : rune_module_t :=
  {| types := types m; imports := imports m; funcs := l; globals := globals m;
     exports := exports m; mem_initial_pages := mem_initial_pages m;
     mem_max_pages := mem_max_pages m; has_memory := has_memory m;
     data_segs := data_segs m; init_func := init_func m |}.
Definition set_module_globals (l : list rune_global_t) (m : rune_module_t) : rune_module_t :=
  {| types := types m; imports := imports m; funcs := funcs m; globals := l;
     exports := exports m; mem_initial_pages := mem_initial_pages m;
     mem_max_pages := mem_max_pages m; has_memory := has_memory m;
     data_segs := data_segs m; init_func := init_func m |}.
Definition set_exports (l : list rune_export_t) (m : rune_module_t) : rune_module_t :=
  {| types := types m; imports := imports m; funcs := funcs m; globals := globals m;
     exports := l; mem_initial_pages := mem_initial_pages m;
     mem_max_pages := mem_max_pages m; has_memory := has_memory m;
     data_segs := data_segs m; init_func := init_func m |}.
Definition set_mem_limits (initial max : Z) (m : rune_module_t) : rune_module_t :=
  {| types := types m; imports := imports m; funcs := funcs m; globals := globals m;
     exports := exports m; mem_initial_pages := initial;
     mem_max_pages := max; has_memory := true;
     data_segs := data_segs m; init_func := init_func m |}.
Definition set_data_segs (l : list rune_data_seg_t) (m : rune_module_t) : rune_module_t :=
  {| types := types m; imports := imports m; funcs := funcs m; globals := globals m;
     exports := exports m; mem_initial_pages := mem_initial_pages m;
     mem_max_pages := mem_max_pages m; has_memory := has_memory m;
     data_segs := l; init_func := init_func m |}.
Definition set_init_func (i : Z) (m : rune_module_t) : rune_module_t :=
  {| types := types m; imports := imports m; funcs := funcs m; globals := globals m;
     exports := exports m; mem_initial_pages := mem_initial_pages m;
     mem_max_pages := mem_max_pages m; has_memory := has_memory m;
     data_segs := data_segs m; init_func := i |}.

Definition parse_type_section (m : rune_module_t) (r : reader_t)
  : parse_result rune_module_t :=
  let '(count, r) := read_u32 r in
  if r_error r || (RUNE_MAX_FUNCS abi <? count) then ParseErr RUNE_ERR_BADMODULE
  else
    match parse_types (Z.to_nat count) r with
    | Parsed ts r => Parsed (set_types ts m) r
    | ParseErr e => ParseErr e
    | ParseUndefined => ParseUndefined
    | ParseOutOfGas => ParseOutOfGas
    end.

Fixpoint parse_imports (n : nat) (r : reader_t) : parse_result (list rune_import_t) :=
  match n with
  | O => Parsed [] r
  | S n' =>
      let '(mname, r) := read_string r 1 in
      let '(fname, r) := read_string r 1 in
      let '(ti, r) := read_u16 r in
      if r_error r then ParseErr RUNE_ERR_BADMODULE
      else
        match mname, fname with
        | Some mn, Some fn =>
            match parse_imports n' r with
            | Parsed l r =>
                Parsed ({| imp_module := mn; imp_name := fn; imp_type_idx := ti |} :: l) r
            | other => other
            end
        | _, _ => ParseErr RUNE_ERR_BADMODULE   (* not reached: a NULL name sets the flag *)
        end
  end.

Definition parse_import_section (m : rune_module_t) (r : reader_t)
  : parse_result rune_module_t :=
  let '(count, r) := read_u32 r in
  if r_error r || (RUNE_MAX_FUNCS abi <? count) then ParseErr RUNE_ERR_BADMODULE
  else
    match parse_imports (Z.to_nat count) r with
    | Parsed l r => Parsed (set_imports l m) r
    | ParseErr e => ParseErr e
    | ParseUndefined => ParseUndefined
    | ParseOutOfGas => ParseOutOfGas
    end.

(** An element of [calloc(total, sizeof(rune_func_t))]. *)
Definition zero_func : rune_func_t :=
  {| type_idx := 0; reg_count := 0; local_count := 0; code := []; code_size := 0;
     is_import := false; import_idx := 0 |}.

(** The entries that "Mark imports" writes. *)
Definition import_funcs (imps : list rune_import_t) : list rune_func_t :=
  imap (fun i imp =>
          {| type_idx := imp_type_idx imp; reg_count := 0; local_count := 0;
             code := []; code_size := 0; is_import := true;
             import_idx := Z.of_nat i |}) imps.

Fixpoint parse_func_bodies (n : nat) (r : reader_t) : parse_result (list rune_func_t) :=
  match n with
  | O => Parsed [] r
  | S n' =>
      let '(ti, r) := read_u16 r in
      let '(rc, r) := read_u8 r in
      let '(lc, r) := read_u8 r in
      if r_error r then ParseErr RUNE_ERR_BADMODULE
      else
        match parse_func_bodies n' r with
        | Parsed l r =>
            Parsed ({| type_idx := ti; reg_count := rc; local_count := lc;
                       code := []; code_size := 0; is_import := false;
                       import_idx := 0 |} :: l) r
        | other => other
        end
  end.

Definition parse_func_section (m : rune_module_t) (r : reader_t)
  : parse_result rune_module_t :=
  let '(body_count, r) := read_u32 r in
  if r_error r then ParseErr RUNE_ERR_BADMODULE
  else
    let total := u32 (import_count m + body_count) in
    if RUNE_MAX_FUNCS abi <? total then ParseErr RUNE_ERR_BADMODULE
    else if total <? import_count m then ParseUndefined   (* funcs[i] written past the array *)
    else
      match parse_func_bodies (Z.to_nat body_count) r with
      | Parsed l r => Parsed (set_funcs (import_funcs (imports m) ++ l) m) r
      | ParseErr e => ParseErr e
      | ParseUndefined => ParseUndefined
      | ParseOutOfGas => ParseOutOfGas
      end.

Definition parse_memory_section (m : rune_module_t) (r : reader_t)
  : parse_result rune_module_t :=
  let '(initial, r) := read_u16 r in
  let '(max, r) := read_u16 r in
  if r_error r then ParseErr RUNE_ERR_BADMODULE
  else Parsed (set_mem_limits initial max m) r.

Fixpoint parse_globals (n : nat) (r : reader_t) : parse_result (list rune_global_t) :=
  match n with
  | O => Parsed [] r
  | S n' =>
      let '(ty, r) := read_u8 r in
      let '(mu, r) := read_u8 r in
      let '(raw, r) := read_u64 r in
      if r_error r then ParseErr RUNE_ERR_BADMODULE
      else
        let value :=
          if ty =? RUNE_TYPE_I32 abi then Some (rune_i32 (i32 raw))
          else if ty =? RUNE_TYPE_I64 abi then Some (rune_i64 (i64 raw))
          else if ty =? RUNE_TYPE_F32 abi then Some (rune_f32 (u32 raw))
          else if ty =? RUNE_TYPE_F64 abi then Some (rune_f64 raw)
          else None in
        match value with
        | None => ParseErr RUNE_ERR_BADMODULE
        | Some v =>
            match parse_globals n' r with
            | Parsed l r =>
                Parsed ({| g_type := ty; g_mutable := negb (mu =? 0); g_value := v |} :: l) r
            | other => other
            end
        end
  end.

Definition parse_global_section (m : rune_module_t) (r : reader_t)
  : parse_result rune_module_t :=
  let '(count, r) := read_u32 r in
  if r_error r || (RUNE_MAX_GLOBALS abi <? count) then ParseErr RUNE_ERR_BADMODULE
  else
    match parse_globals (Z.to_nat count) r with
    | Parsed l r => Parsed (set_module_globals l m) r
    | ParseErr e => ParseErr e
    | ParseUndefined => ParseUndefined
    | ParseOutOfGas => ParseOutOfGas
    end.

Fixpoint parse_exports (n : nat) (r : reader_t) : parse_result (list rune_export_t) :=
  match n with
  | O => Parsed [] r
  | S n' =>
      let '(kind, r) := read_u8 r in
      let '(idx, r) := read_u32 r in
      let '(name, r) := read_string r 1 in
      match name with
      | Some nm =>
          if r_error r then ParseErr RUNE_ERR_BADMODULE
          else
            match parse_exports n' r with
            | Parsed l r => Parsed ({| e_kind := kind; e_idx := idx; e_name := nm |} :: l) r
            | other => other
            end
      | None => ParseErr RUNE_ERR_BADMODULE
      end
  end.

Definition parse_export_section (m : rune_module_t) (r : reader_t)
  : parse_result rune_module_t :=
  let '(count, r) := read_u32 r in
  if r_error r || (65536 <? count) then ParseErr RUNE_ERR_BADMODULE
  else
    match parse_exports (Z.to_nat count) r with
    | Parsed l r => Parsed (set_exports l m) r
    | ParseErr e => ParseErr e
    | ParseUndefined => ParseUndefined
    | ParseOutOfGas => ParseOutOfGas
    end.

(** The loop of [parse_code_section]; [i] is the index of the body and
    [fs] the function table being filled. *)
Fixpoint parse_code_bodies (n : nat) (i : Z) (ic : Z) (fs : list rune_func_t)
    (r : reader_t) : parse_result (list rune_func_t) :=
  match n with
  | O => Parsed fs r
  | S n' =>
      let '(body_size, r) := read_u32 r in
      if r_error r || negb (body_size mod 4 =? 0) then ParseErr RUNE_ERR_BADMODULE
      else
        match read_bytes r body_size with
        | (None, _) => ParseErr RUNE_ERR_BADMODULE
        | (Some bytes, r) =>
            match fs !! Z.to_nat (ic + i) with
            | None => ParseUndefined   (* &mod->funcs[import_count + i] outside the table *)
            | Some f =>
                let f' := {| type_idx := type_idx f; reg_count := reg_count f;
                             local_count := local_count f; code := bytes;
                             code_size := body_size; is_import := is_import f;
                             import_idx := import_idx f |} in
                parse_code_bodies n' (i + 1) ic (<[Z.to_nat (ic + i) := f']> fs) r
            end
        end
  end.

Definition parse_code_section (m : rune_module_t) (r : reader_t)
  : parse_result rune_module_t :=
  let '(count, r) := read_u32 r in
  let expected := u32 (func_count m - import_count m) in
  if r_error r || negb (count =? expected) then ParseErr RUNE_ERR_BADMODULE
  else
    match parse_code_bodies (Z.to_nat count) 0 (import_count m) (funcs m) r with
    | Parsed fs r => Parsed (set_funcs fs m) r
    | ParseErr e => ParseErr e
    | ParseUndefined => ParseUndefined
    | ParseOutOfGas => ParseOutOfGas
    end.

Fixpoint parse_data_segs (n : nat) (r : reader_t) : parse_result (list rune_data_seg_t) :=
  match n with
  | O => Parsed [] r
  | S n' =>
      let '(_, r) := read_u8 r in
      let '(offset, r) := read_u32 r in
      let '(seg_size, r) := read_u32 r in
      match read_bytes r seg_size with
      | (Some data, r) =>
          if r_error r then ParseErr RUNE_ERR_BADMODULE
          else
            match parse_data_segs n' r with
            | Parsed l r =>
                Parsed ({| seg_offset := offset; seg_data := data; seg_size := seg_size |} :: l) r
            | other => other
            end
      | (None, _) => ParseErr RUNE_ERR_BADMODULE
      end
  end.

Definition parse_data_section (m : rune_module_t) (r : reader_t)
  : parse_result rune_module_t :=
  let '(count, r) := read_u32 r in
  if r_error r || (4096 <? count) then ParseErr RUNE_ERR_BADMODULE
  else
    match parse_data_segs (Z.to_nat count) r with
    | Parsed l r => Parsed (set_data_segs l m) r
    | ParseErr e => ParseErr e
    | ParseUndefined => ParseUndefined
    | ParseOutOfGas => ParseOutOfGas
    end.

(** The [switch] on the section identifier. *)
Definition parse_section (sect : rune_sect_id_t) (m : rune_module_t) (r : reader_t)
    (sect_size : Z) : parse_result rune_module_t :=
  match sect with
  | RUNE_SECT_TYPE => parse_type_section m r
  | RUNE_SECT_IMPORT => parse_import_section m r
  | RUNE_SECT_FUNC => parse_func_section m r
  | RUNE_SECT_MEMORY => parse_memory_section m r
  | RUNE_SECT_GLOBAL => parse_global_section m r
  | RUNE_SECT_EXPORT => parse_export_section m r
  | RUNE_SECT_CODE => parse_code_section m r
  | RUNE_SECT_DATA => parse_data_section m r
  | RUNE_SECT_UNKNOWN =>
      (* Skip unknown sections *)
      let '(_, r) := read_bytes r sect_size in
      Parsed m r
  end.

(** The loop [while (!r.error && r.pos < r.len)] over the sections and
    the test [err != RUNE_OK || r.error] that follows it. *)
Fixpoint parse_sections (n : nat) (m : rune_module_t) (r : reader_t)
  : parse_result rune_module_t :=
  if r_error r then ParseErr RUNE_ERR_BADMODULE
  else if r_len r <=? r_pos r then Parsed m r
  else
    match n with
    | O => ParseOutOfGas
    | S n' =>
        let '(sect_id, r) := read_u8 r in
        let '(sect_size, r) := read_u32 r in
        if r_error r then ParseErr RUNE_ERR_BADMODULE
        else
          let sect_start := r_pos r in
          match parse_section (sect_of_u8 abi sect_id) m r sect_size with
          | Parsed m r =>
              (* Ensure we consumed exactly sect_size bytes *)
              let consumed := r_pos r - sect_start in
              let r := if consumed <? sect_size
                       then snd (read_bytes r (sect_size - consumed))
                       else r in
              parse_sections n' m r
          | other => other
          end
    end.

(** The module of [calloc(1, sizeof(rune_module_t))] with
    [init_func = -1]. *)
Definition empty_module : rune_module_t :=
  {| types := []; imports := []; funcs := []; globals := []; exports := [];
     mem_initial_pages := 0; mem_max_pages := 0; has_memory := false;
     data_segs := []; init_func := -1 |}.

(** Look for an "_init" export. *)
Fixpoint find_init (es : list rune_export_t) : option Z :=
  match es with
  | [] => None
  | e :: es' =>
      if (e_kind e =? RUNE_EXPORT_FUNC abi) && strcmp_eq (e_name e) str_init
      then Some (i32 (e_idx e))
      else find_init es'
  end.

(** Modelled from the spec: the layout of [rune_file_header_t],
    declared in [rune_bytecode.h]: "magic bytes (4), version (u32),
    flags (u32), reserved (u32), crc32 (u32)", little-endian. *)
Definition hdr_version (raw : list Z) : Z := le_combine (take 4 (drop 4 raw)).
Definition hdr_crc32 (raw : list Z) : Z := le_combine (take 4 (drop 16 raw)).

Definition rune_module_load (raw : list Z) : load_result :=
  let len := zlen raw in
  if len <? sizeof_rune_file_header_t then LoadErr RUNE_ERR_BADMODULE
  else if negb (bytes_eqb (map u8 (take (Z.to_nat RUNE_MAGIC_LEN) raw))
                          (map u8 (take (Z.to_nat RUNE_MAGIC_LEN) (RUNE_MAGIC abi))))
  then LoadErr RUNE_ERR_BADMAGIC
  else if negb (hdr_version raw =? RUNE_BC_VERSION abi) then LoadErr RUNE_ERR_VERSION
  else
    let body := drop (Z.to_nat sizeof_rune_file_header_t) raw in
    let computed := crc32_update 0 body in
    if negb (computed =? hdr_crc32 raw) then LoadErr RUNE_ERR_BADMODULE
    else
      match parse_sections (length body) empty_module (reader_init body) with
      | Parsed m _ =>
          Loaded (match find_init (exports m) with
                  | Some i => set_init_func i m
                  | None => m
                  end)
      | ParseErr e => LoadErr e
      | ParseUndefined => LoadUndefined
      | ParseOutOfGas => LoadOutOfGas
      end.

(** ** VM creation *)

Definition rune_config_default : rune_config_t :=
  {| stack_size := RUNE_CALL_DEPTH abi;
     memory_limit := 64 * 1024 * 1024;
     fuel_limit := 0 |}.

(** An element of [calloc(stack_size, sizeof(rune_frame_t))]. *)
Definition zero_frame : rune_frame_t :=
  {| fr_func_idx := 0; fr_pc := 0; fr_regs := None |}.

Definition rune_vm_new (config : option rune_config_t) : rune_vm_t :=
  let c := match config with Some c => c | None => rune_config_default end in
  {| cfg := c;
     host_fns := [];
     host_fn_cap := 16;
     memory := None;
     memory_pages := 0;
     memory_max := 0;
     vm_globals := None;
     frames := replicate (Z.to_nat (stack_size c)) zero_frame;
     frame_count := 0;
     arg_buf := replicate (Z.to_nat RUNE_MAX_PARAMS) zero_val;
     arg_count := 0;
     fuel_used := 0;
     initialized := false |}.

(** The allocations are taken to succeed: the returns of
    [RUNE_ERR_OOM] after a failed [realloc] or [strdup] are not
    represented. *)
Definition rune_vm_register (vm : rune_vm_t) (mod_name name : list Z)
    (fn : rune_host_fn_t) (ud : Z) : rune_err_t * rune_vm_t :=
  if initialized vm then (RUNE_ERR_BADMODULE, vm)
  else
    let cap := if host_fn_cap vm <=? host_fn_count vm
               then u32 (host_fn_cap vm * 2) else host_fn_cap vm in
    let e := {| h_module := strdup mod_name; h_name := strdup name;
                h_fn := fn; h_userdata := ud |} in
    (RUNE_OK, set_host_fns (host_fns vm ++ [e]) cap vm).

(** ** Interpreter core *)

(** [MEM_CHECK(offset, sz)]: [true] when the access goes ahead,
    [false] when the macro returns [RUNE_ERR_BOUNDS]. *)
Definition MEM_CHECK (vm : rune_vm_t) (offset sz : Z) : bool :=
  match memory vm with
  | None => false
  | Some _ => negb (memory_pages vm * RUNE_PAGE_SIZE <? offset + sz)
  end.

(** The buffer was obtained from [calloc(max_pages, RUNE_PAGE_SIZE)]
    and [memory_max] holds [max_pages]; an access that leaves the
    buffer has no defined behaviour. *)
Definition in_buffer (vm : rune_vm_t) (off len : Z) : bool :=
  (0 <=? off) && (off + len <=? memory_max vm * RUNE_PAGE_SIZE).

(** [FUEL_TICK()]: the VM after the tick, or [None] when the macro
    returns [RUNE_ERR_FUEL]; the counter has been incremented in both
    cases. *)
Definition FUEL_TICK (vm : rune_vm_t) : rune_vm_t * bool :=
  if 0 <? fuel_limit (cfg vm) then
    let used := u64 (fuel_used vm + 1) in
    (set_fuel_used used vm, negb (fuel_limit (cfg vm) <? used))
  else (vm, true).

(** The body of a function as the array of 32-bit words that
    [fn->code], cast to a pointer to [uint32_t], points to; the host is
    little-endian. *)
Fixpoint words_of (n : nat) (bytes : list Z) : list Z :=
  match n with
  | O => []
  | S n' => le_combine (take 4 bytes) :: words_of n' (drop 4 bytes)
  end.

Definition code_words (fn : rune_func_t) : Z := code_size fn / 4.
Definition code_of (fn : rune_func_t) : list Z :=
  words_of (Z.to_nat (code_words fn)) (code fn).

(** [frame->regs] and [frame->pc] of the frame at index [fp] of
    [vm->frames]. *)
Definition frame_regs (vm : rune_vm_t) (fp : nat) : option (list rune_val_t) :=
  match frames vm !! fp with
  | Some fr => fr_regs fr
  | None => None
  end.

Definition PC (vm : rune_vm_t) (fp : nat) : option Z :=
  match frames vm !! fp with
  | Some fr => Some (fr_pc fr)
  | None => None
  end.

Definition set_PC (vm : rune_vm_t) (fp : nat) (pc : Z) : option rune_vm_t :=
  match frames vm !! fp with
  | Some fr =>
      Some (set_frames (<[fp := {| fr_func_idx := fr_func_idx fr; fr_pc := pc;
                                   fr_regs := fr_regs fr |}]> (frames vm)) vm)
  | None => None
  end.

(** [R(n)], that is [frame->regs[(uint8_t)(n)]], read and assigned. *)
Definition R (vm : rune_vm_t) (fp : nat) (n : Z) : option rune_val_t :=
  match frame_regs vm fp with
  | Some regs => regs !! Z.to_nat (u8 n)
  | None => None
  end.

Definition set_R (vm : rune_vm_t) (fp : nat) (n : Z) (v : rune_val_t)
  : option rune_vm_t :=
  match frames vm !! fp with
  | Some fr =>
      match fr_regs fr with
      | Some regs =>
          if (Z.to_nat (u8 n) <? length regs)%nat
          then Some (set_frames
                       (<[fp := {| fr_func_idx := fr_func_idx fr; fr_pc := fr_pc fr;
                                   fr_regs := Some (<[Z.to_nat (u8 n) := v]> regs) |}]>
                          (frames vm)) vm)
          else None
      | None => None
      end
  | None => None
  end.

(** [read_imm32(code, &PC)]: the word at the program counter, which
    moves past it.  A read past the words of the body leaves the slice
    of the function. *)
Definition read_imm32 (code : list Z) (vm : rune_vm_t) (fp : nat)
  : option (Z * rune_vm_t) :=
  match PC vm fp with
  | Some pc =>
      match code !! Z.to_nat pc with
      | Some w =>
          match set_PC vm fp (u32 (pc + 1)) with
          | Some vm' => Some (w, vm')
          | None => None
          end
      | None => None
      end
  | None => None
  end.

Definition read_imm64 (code : list Z) (vm : rune_vm_t) (fp : nat)
  : option (Z * rune_vm_t) :=
  match read_imm32 code vm fp with
  | Some (lo, vm1) =>
      match read_imm32 code vm1 fp with
      | Some (hi, vm2) => Some (Z.lor lo (u64 (Z.shiftl hi 32)), vm2)
      | None => None
      end
  | None => None
  end.

(** [vm_resolve_host]: the first entry of the host table whose names
    equal those of the import, or [NULL]. *)
Fixpoint find_host (hs : list rune_host_entry_t) (mname fname : list Z)
  : option rune_host_entry_t :=
  match hs with
  | [] => None
  | h :: hs' =>
      if strcmp_eq (h_module h) mname && strcmp_eq (h_name h) fname
      then Some h
      else find_host hs' mname fname
  end.

Definition vm_resolve_host (m : rune_module_t) (vm : rune_vm_t) (import_idx : Z)
  : option rune_host_entry_t :=
  if import_count m <=? import_idx then None
  else
    match imports m !! Z.to_nat import_idx with
    | Some imp => find_host (host_fns vm) (imp_module imp) (imp_name imp)
    | None => None
    end.

(** The call [h->fn(vm, nargs, args, &ret, h->userdata)]. *)
Definition call_host (h : rune_host_entry_t) (vm : rune_vm_t) (args : list rune_val_t)
  : rune_err_t * rune_val_t * rune_vm_t :=
  let mem := match memory vm with Some mem => mem | None => mem_zero end in
  let '(err, r, mem') := h_fn h (h_userdata h) args (memory_pages vm) mem in
  (err, r, set_memory (match memory vm with Some _ => Some mem' | None => None end) vm).

(** [PC = (uint32_t)((int32_t)PC + offset)] *)
Definition jump (vm : rune_vm_t) (fp : nat) (offset : Z) : option rune_vm_t :=
  match PC vm fp with
  | Some pc => set_PC vm fp (u32 (i32 pc + offset))
  | None => None
  end.

(** The condition of [JZ] and [JNZ]. *)
Definition is_zero (cond : rune_val_t) : bool :=
  if vtype cond =? RUNE_TYPE_BOOL abi then negb (as_b cond)
  else if vtype cond =? RUNE_TYPE_I32 abi then as_i32 cond =? 0
  else if vtype cond =? RUNE_TYPE_I64 abi then as_i64 cond =? 0
  else false.

(** *** Instruction families

    The cases of the [switch] that differ only in the operation are
    written once. *)

Definition op1 (vm : rune_vm_t) (fp : nat) (dst s1 : Z)
    (f : rune_val_t -> rune_val_t) : step_result :=
  get a <- R vm fp s1 ;;
  get vm' <- set_R vm fp dst (f a) ;;
  Break vm'.

Definition op2 (vm : rune_vm_t) (fp : nat) (dst s1 s2 : Z)
    (f : rune_val_t -> rune_val_t -> rune_val_t) : step_result :=
  get a <- R vm fp s1 ;;
  get b <- R vm fp s2 ;;
  get vm' <- set_R vm fp dst (f a b) ;;
  Break vm'.

(** A case whose operation may have no defined result. *)
Definition op1u (vm : rune_vm_t) (fp : nat) (dst s1 : Z)
    (f : rune_val_t -> option rune_val_t) : step_result :=
  get a <- R vm fp s1 ;;
  get r <- f a ;;
  get vm' <- set_R vm fp dst r ;;
  Break vm'.

(** Division and remainder: the divisor is tested as [as.i32 == 0]
    (or [as.i64 == 0]) first. *)
Definition opdiv (vm : rune_vm_t) (fp : nat) (dst s1 s2 : Z)
    (divisor : rune_val_t -> Z)
    (f : rune_val_t -> rune_val_t -> option rune_val_t) : step_result :=
  get a <- R vm fp s1 ;;
  get b <- R vm fp s2 ;;
  if divisor b =? 0 then GotoDone RUNE_ERR_DIVZERO None vm
  else
    get r <- f a b ;;
    get vm' <- set_R vm fp dst r ;;
    Break vm'.

(** Conditional branch with a 32-bit relative offset. *)
Definition branch (vm : rune_vm_t) (fp : nat) (code : list Z)
    (taken : rune_vm_t -> option bool) : step_result :=
  get (imm, vm1) <- read_imm32 code vm fp ;;
  get t <- taken vm1 ;;
  if t : bool then
    get vm2 <- jump vm1 fp (i32 imm) ;;
    Break vm2
  else Break vm1.

(** [uint32_t off = R(s1).as.i32 + (uint32_t)read_imm32(code, &PC)] *)
Definition effective_address (base : rune_val_t) (imm : Z) : Z :=
  u32 (as_i32 base + imm).

(** Loads: [MEM_CHECK(off, n)], then [n] bytes at [off] are read and
    converted. *)
Definition load (vm : rune_vm_t) (fp : nat) (code : list Z)
    (dst s1 : Z) (n : nat) (conv : Z -> rune_val_t) : step_result :=
  get base <- R vm fp s1 ;;
  get (imm, vm1) <- read_imm32 code vm fp ;;
  let off := effective_address base imm in
  if MEM_CHECK vm1 off (Z.of_nat n) then
    get mem <- memory vm1 ;;
    if in_buffer vm1 off (Z.of_nat n) then
      get vm2 <- set_R vm1 fp dst (conv (mem_load mem off n)) ;;
      Break vm2
    else StepUndefined
  else Return RUNE_ERR_BOUNDS vm1.

(** Stores: [MEM_CHECK(off, n)], then the low [n] bytes of the field
    of [R(dst)] are written at [off]. *)
Definition store (vm : rune_vm_t) (fp : nat) (code : list Z)
    (dst s1 : Z) (n : nat) (field : rune_val_t -> Z) : step_result :=
  get base <- R vm fp s1 ;;
  get (imm, vm1) <- read_imm32 code vm fp ;;
  let off := effective_address base imm in
  if MEM_CHECK vm1 off (Z.of_nat n) then
    get mem <- memory vm1 ;;
    get v <- R vm1 fp dst ;;
    if in_buffer vm1 off (Z.of_nat n) then
      Break (set_memory (Some (mem_store mem off n (field v))) vm1)
    else StepUndefined
  else Return RUNE_ERR_BOUNDS vm1.

(** The staged arguments: [memcpy(args, vm->arg_buf, nargs * sizeof
    (rune_val_t))] into an array of [RUNE_MAX_PARAMS] values. *)
Definition staged_args (vm : rune_vm_t) : option (list rune_val_t) :=
  if (arg_count vm <=? RUNE_MAX_PARAMS) && (arg_count vm <=? zlen (arg_buf vm))
  then Some (take (Z.to_nat (arg_count vm)) (arg_buf vm))
  else None.

(** [vm->arg_buf[i] = v]; the buffer has [RUNE_MAX_PARAMS] slots. *)
Definition set_arg (vm : rune_vm_t) (i : Z) (v : rune_val_t) : option rune_vm_t :=
  if (i <? RUNE_MAX_PARAMS) && (Z.to_nat i <? length (arg_buf vm))%nat
  then Some (set_arg_buf (<[Z.to_nat i := v]> (arg_buf vm)) vm)
  else None.

(** [vm->globals[gi]] *)
Definition get_global (vm : rune_vm_t) (gi : Z) : option rune_val_t :=
  match vm_globals vm with
  | Some gs => gs !! Z.to_nat gi
  | None => None
  end.

Definition set_global (vm : rune_vm_t) (gi : Z) (v : rune_val_t) : option rune_vm_t :=
  match vm_globals vm with
  | Some gs =>
      if (Z.to_nat gi <? length gs)%nat
      then Some (set_globals (Some (<[Z.to_nat gi := v]> gs)) vm)
      else None
  | None => None
  end.

Definition as_u32 (v : rune_val_t) : Z := u32 (vbits v).
Definition as_u64 (v : rune_val_t) : Z := u64 (vbits v).

(** [OP_MEM_GROW].  The products with [RUNE_PAGE_SIZE] are 32-bit, as
    [new_pages] is. *)
Definition mem_grow (vm : rune_vm_t) (fp : nat) (dst s1 : Z) : step_result :=
  get a <- R vm fp s1 ;;
  let req := as_u32 a in
  let new_pages := u32 (memory_pages vm + req) in
  if memory_max vm <? new_pages then
    get vm' <- set_R vm fp dst (rune_i32 (-1)) ;;
    Break vm'
  else
    let start := u32 (memory_pages vm * RUNE_PAGE_SIZE) in
    let len := u32 (req * RUNE_PAGE_SIZE) in
    get vm1 <-
      (if len =? 0 then Some vm
       else match memory vm with
            | Some mem =>
                if in_buffer vm start len
                then Some (set_memory (Some (mem_set mem start 0 len)) vm)
                else None
            | None => None
            end) ;;
    get vm2 <- set_R vm1 fp dst (rune_i32 (memory_pages vm1)) ;;
    Break (set_memory_pages new_pages vm2).

(** [OP_MEM_COPY] *)
Definition mem_copy (vm : rune_vm_t) (fp : nat) (dst s1 s2 : Z) : step_result :=
  get d <- R vm fp dst ;;
  get s <- R vm fp s1 ;;
  get z <- R vm fp s2 ;;
  let pdst := as_u32 d in
  let psrc := as_u32 s in
  let sz := as_u32 z in
  if MEM_CHECK vm pdst sz then
    if MEM_CHECK vm psrc sz then
      get mem <- memory vm ;;
      if in_buffer vm pdst sz && in_buffer vm psrc sz then
        Break (set_memory (Some (mem_move mem pdst psrc sz)) vm)
      else StepUndefined
    else Return RUNE_ERR_BOUNDS vm
  else Return RUNE_ERR_BOUNDS vm.

(** [OP_MEM_FILL] *)
Definition mem_fill (vm : rune_vm_t) (fp : nat) (dst s1 s2 : Z) : step_result :=
  get d <- R vm fp dst ;;
  get s <- R vm fp s1 ;;
  get z <- R vm fp s2 ;;
  let pdst := as_u32 d in
  let val := as_i32 s in
  let sz := as_u32 z in
  if MEM_CHECK vm pdst sz then
    get mem <- memory vm ;;
    if in_buffer vm pdst sz then
      Break (set_memory (Some (mem_set mem pdst val sz)) vm)
    else StepUndefined
  else Return RUNE_ERR_BOUNDS vm.

(** [OP_ARG] *)
Definition op_arg (vm : rune_vm_t) (fp : nat) (dst s1 s2 : Z) : step_result :=
  get vm1 <-
    (if s1 <? RUNE_MAX_PARAMS then
       match R vm fp (if s2 =? 0 then dst else s2) with
       | Some v => set_arg vm s1 v
       | None => None
       end
     else Some vm) ;;
  get v <- R vm1 fp s1 ;;
  get vm2 <- set_arg vm1 dst v ;;
  Break (if arg_count vm2 <=? dst then set_arg_count (u8 (dst + 1)) vm2 else vm2).

(** [OP_CALL]; [call] is the recursive [vm_exec]. *)
Definition op_call (call : rune_vm_t -> Z -> list rune_val_t -> exec_result)
    (vm : rune_vm_t) (fp : nat) (code : list Z) (dst : Z) : step_result :=
  get (fi, vm1) <- read_imm32 code vm fp ;;
  get args <- staged_args vm1 ;;
  let vm2 := set_arg_count 0 vm1 in
  match call vm2 fi args with
  | Done RUNE_OK ret vm3 =>
      get vm4 <- set_R vm3 fp dst ret ;;
      Break vm4
  | Done result _ vm3 => GotoDone result None vm3
  | Undefined => StepUndefined
  | OutOfGas => StepOutOfGas
  end.

(** [OP_CALL_HOST] *)
Definition op_call_host (m : rune_module_t) (vm : rune_vm_t) (fp : nat)
    (code : list Z) (dst : Z) : step_result :=
  get (import_idx, vm1) <- read_imm32 code vm fp ;;
  match vm_resolve_host m vm1 import_idx with
  | None => GotoDone RUNE_ERR_NOIMPORT None vm1
  | Some h =>
      get args <- staged_args vm1 ;;
      let vm2 := set_arg_count 0 vm1 in
      match call_host h vm2 args with
      | (RUNE_OK, ret, vm3) =>
          get vm4 <- set_R vm3 fp dst ret ;;
          Break vm4
      | (result, _, vm3) => GotoDone result None vm3
      end
  end.

(** One pass through the [switch] of the dispatch loop, after [NEXT()]
    has fetched and decoded the instruction. *)
Definition exec_instr (call : rune_vm_t -> Z -> list rune_val_t -> exec_result)
    (m : rune_module_t) (vm : rune_vm_t) (fp : nat) (code : list Z)
    (op : rune_opcode_t) (dst s1 s2 : Z) : step_result :=
  let F := host_float abi in
  match op with
  (* Control *)
  | OP_NOP => Break vm
  | OP_TRAP => GotoDone RUNE_ERR_TRAP None vm
  | OP_RET =>
      get r0 <- R vm fp 0 ;;
      GotoDone RUNE_OK (Some r0) vm
  | OP_JMP =>
      get (imm, vm1) <- read_imm32 code vm fp ;;
      get vm2 <- jump vm1 fp (i32 imm) ;;
      Break vm2
  | OP_JZ =>
      branch vm fp code (fun vm1 => option_map is_zero (R vm1 fp s1))
  | OP_JNZ =>
      branch vm fp code (fun vm1 => option_map (fun c => negb (is_zero c)) (R vm1 fp s1))
  | OP_JLT =>
      branch vm fp code (fun vm1 =>
        match R vm1 fp s1, R vm1 fp s2 with
        | Some a, Some b => Some (as_i32 a <? as_i32 b)
        | _, _ => None
        end)
  | OP_JLE =>
      branch vm fp code (fun vm1 =>
        match R vm1 fp s1, R vm1 fp s2 with
        | Some a, Some b => Some (as_i32 a <=? as_i32 b)
        | _, _ => None
        end)
  | OP_CALL => op_call call vm fp code dst
  | OP_CALL_HOST => op_call_host m vm fp code dst
  | OP_ARG => op_arg vm fp dst s1 s2
  (* Load immediate *)
  | OP_LDI32 =>
      get (imm, vm1) <- read_imm32 code vm fp ;;
      get vm2 <- set_R vm1 fp dst (rune_i32 (i32 imm)) ;;
      Break vm2
  | OP_LDI64 =>
      get (imm, vm1) <- read_imm64 code vm fp ;;
      get vm2 <- set_R vm1 fp dst (rune_i64 (i64 imm)) ;;
      Break vm2
  | OP_LDF32 =>
      get (bits, vm1) <- read_imm32 code vm fp ;;
      get vm2 <- set_R vm1 fp dst (rune_f32 bits) ;;
      Break vm2
  | OP_LDF64 =>
      get (bits, vm1) <- read_imm64 code vm fp ;;
      get vm2 <- set_R vm1 fp dst (rune_f64 bits) ;;
      Break vm2
  | OP_LDTRUE =>
      get vm1 <- set_R vm fp dst (rune_bool true) ;;
      Break vm1
  | OP_LDFALSE =>
      get vm1 <- set_R vm fp dst (rune_bool false) ;;
      Break vm1
  | OP_LDGLOBAL =>
      get (gi, vm1) <- read_imm32 code vm fp ;;
      if global_count m <=? gi then GotoDone RUNE_ERR_BOUNDS None vm1
      else
        get v <- get_global vm1 gi ;;
        get vm2 <- set_R vm1 fp dst v ;;
        Break vm2
  | OP_STGLOBAL =>
      get (gi, vm1) <- read_imm32 code vm fp ;;
      if global_count m <=? gi then GotoDone RUNE_ERR_BOUNDS None vm1
      else
        get v <- R vm1 fp s1 ;;
        get vm2 <- set_global vm1 gi v ;;
        Break vm2
  | OP_MOV => op1 vm fp dst s1 (fun a => a)
  (* Integer i32 *)
  | OP_ADD32 => op2 vm fp dst s1 s2 (fun a b => rune_i32 (as_i32 a + as_i32 b))
  | OP_SUB32 => op2 vm fp dst s1 s2 (fun a b => rune_i32 (as_i32 a - as_i32 b))
  | OP_MUL32 => op2 vm fp dst s1 s2 (fun a b => rune_i32 (as_i32 a * as_i32 b))
  | OP_DIV32 =>
      opdiv vm fp dst s1 s2 as_i32
        (fun a b => option_map rune_i32 (sdiv 32 (as_i32 a) (as_i32 b)))
  | OP_DIVU32 =>
      opdiv vm fp dst s1 s2 as_i32
        (fun a b => option_map (fun q => rune_i32 (i32 q)) (udiv (as_u32 a) (as_u32 b)))
  | OP_REM32 =>
      opdiv vm fp dst s1 s2 as_i32
        (fun a b => option_map rune_i32 (srem 32 (as_i32 a) (as_i32 b)))
  | OP_REMU32 =>
      opdiv vm fp dst s1 s2 as_i32
        (fun a b => option_map (fun q => rune_i32 (i32 q)) (urem (as_u32 a) (as_u32 b)))
  | OP_NEG32 => op1 vm fp dst s1 (fun a => rune_i32 (- as_i32 a))
  | OP_AND32 => op2 vm fp dst s1 s2 (fun a b => rune_i32 (Z.land (as_i32 a) (as_i32 b)))
  | OP_OR32 => op2 vm fp dst s1 s2 (fun a b => rune_i32 (Z.lor (as_i32 a) (as_i32 b)))
  | OP_XOR32 => op2 vm fp dst s1 s2 (fun a b => rune_i32 (Z.lxor (as_i32 a) (as_i32 b)))
  | OP_SHL32 =>
      op2 vm fp dst s1 s2 (fun a b => rune_i32 (Z.shiftl (as_i32 a) (Z.land (as_i32 b) 31)))
  | OP_SHR32 =>
      op2 vm fp dst s1 s2 (fun a b => rune_i32 (Z.shiftr (as_i32 a) (Z.land (as_i32 b) 31)))
  | OP_SHRU32 =>
      op2 vm fp dst s1 s2
        (fun a b => rune_i32 (i32 (Z.shiftr (as_u32 a) (Z.land (as_i32 b) 31))))
  | OP_NOT32 => op1 vm fp dst s1 (fun a => rune_i32 (Z.lnot (as_i32 a)))
  | OP_CLZ32 =>
      op1 vm fp dst s1 (fun a => rune_i32 (if as_i32 a =? 0 then 32 else clz 32 (as_u32 a)))
  | OP_CTZ32 =>
      op1 vm fp dst s1 (fun a => rune_i32 (if as_i32 a =? 0 then 32 else ctz 32 (as_u32 a)))
  | OP_POPCNT32 => op1 vm fp dst s1 (fun a => rune_i32 (popcount 32 (as_u32 a)))
  (* Integer i64 *)
  | OP_ADD64 => op2 vm fp dst s1 s2 (fun a b => rune_i64 (as_i64 a + as_i64 b))
  | OP_SUB64 => op2 vm fp dst s1 s2 (fun a b => rune_i64 (as_i64 a - as_i64 b))
  | OP_MUL64 => op2 vm fp dst s1 s2 (fun a b => rune_i64 (as_i64 a * as_i64 b))
  | OP_DIV64 =>
      opdiv vm fp dst s1 s2 as_i64
        (fun a b => option_map rune_i64 (sdiv 64 (as_i64 a) (as_i64 b)))
  | OP_DIVU64 =>
      opdiv vm fp dst s1 s2 as_i64
        (fun a b => option_map (fun q => rune_i64 (i64 q)) (udiv (as_u64 a) (as_u64 b)))
  | OP_REM64 =>
      opdiv vm fp dst s1 s2 as_i64
        (fun a b => option_map rune_i64 (srem 64 (as_i64 a) (as_i64 b)))
  | OP_AND64 => op2 vm fp dst s1 s2 (fun a b => rune_i64 (Z.land (as_i64 a) (as_i64 b)))
  | OP_OR64 => op2 vm fp dst s1 s2 (fun a b => rune_i64 (Z.lor (as_i64 a) (as_i64 b)))
  | OP_XOR64 => op2 vm fp dst s1 s2 (fun a b => rune_i64 (Z.lxor (as_i64 a) (as_i64 b)))
  | OP_SHL64 =>
      op2 vm fp dst s1 s2 (fun a b => rune_i64 (Z.shiftl (as_i64 a) (Z.land (as_i64 b) 63)))
  | OP_SHR64 =>
      op2 vm fp dst s1 s2 (fun a b => rune_i64 (Z.shiftr (as_i64 a) (Z.land (as_i64 b) 63)))
  | OP_NOT64 => op1 vm fp dst s1 (fun a => rune_i64 (Z.lnot (as_i64 a)))
  | OP_NEG64 => op1 vm fp dst s1 (fun a => rune_i64 (- as_i64 a))
  (* Float f32 *)
  | OP_FADD32 => op2 vm fp dst s1 s2 (fun a b => rune_f32 (fbin32 F FADD (as_f32 a) (as_f32 b)))
  | OP_FSUB32 => op2 vm fp dst s1 s2 (fun a b => rune_f32 (fbin32 F FSUB (as_f32 a) (as_f32 b)))
  | OP_FMUL32 => op2 vm fp dst s1 s2 (fun a b => rune_f32 (fbin32 F FMUL (as_f32 a) (as_f32 b)))
  | OP_FDIV32 => op2 vm fp dst s1 s2 (fun a b => rune_f32 (fbin32 F FDIV (as_f32 a) (as_f32 b)))
  | OP_FABS32 => op1 vm fp dst s1 (fun a => rune_f32 (fun32 F FABS (as_f32 a)))
  | OP_FNEG32 => op1 vm fp dst s1 (fun a => rune_f32 (fun32 F FNEG (as_f32 a)))
  | OP_FSQRT32 => op1 vm fp dst s1 (fun a => rune_f32 (fun32 F FSQRT (as_f32 a)))
  | OP_FMIN32 => op2 vm fp dst s1 s2 (fun a b => rune_f32 (fbin32 F FMIN (as_f32 a) (as_f32 b)))
  | OP_FMAX32 => op2 vm fp dst s1 s2 (fun a b => rune_f32 (fbin32 F FMAX (as_f32 a) (as_f32 b)))
  | OP_FFLOOR32 => op1 vm fp dst s1 (fun a => rune_f32 (fun32 F FFLOOR (as_f32 a)))
  | OP_FCEIL32 => op1 vm fp dst s1 (fun a => rune_f32 (fun32 F FCEIL (as_f32 a)))
  | OP_FROUND32 => op1 vm fp dst s1 (fun a => rune_f32 (fun32 F FROUND (as_f32 a)))
  (* Float f64 *)
  | OP_FADD64 => op2 vm fp dst s1 s2 (fun a b => rune_f64 (fbin64 F FADD (as_f64 a) (as_f64 b)))
  | OP_FSUB64 => op2 vm fp dst s1 s2 (fun a b => rune_f64 (fbin64 F FSUB (as_f64 a) (as_f64 b)))
  | OP_FMUL64 => op2 vm fp dst s1 s2 (fun a b => rune_f64 (fbin64 F FMUL (as_f64 a) (as_f64 b)))
  | OP_FDIV64 => op2 vm fp dst s1 s2 (fun a b => rune_f64 (fbin64 F FDIV (as_f64 a) (as_f64 b)))
  | OP_FABS64 => op1 vm fp dst s1 (fun a => rune_f64 (fun64 F FABS (as_f64 a)))
  | OP_FNEG64 => op1 vm fp dst s1 (fun a => rune_f64 (fun64 F FNEG (as_f64 a)))
  | OP_FSQRT64 => op1 vm fp dst s1 (fun a => rune_f64 (fun64 F FSQRT (as_f64 a)))
  | OP_FMIN64 => op2 vm fp dst s1 s2 (fun a b => rune_f64 (fbin64 F FMIN (as_f64 a) (as_f64 b)))
  | OP_FMAX64 => op2 vm fp dst s1 s2 (fun a b => rune_f64 (fbin64 F FMAX (as_f64 a) (as_f64 b)))
  | OP_FFLOOR64 => op1 vm fp dst s1 (fun a => rune_f64 (fun64 F FFLOOR (as_f64 a)))
  | OP_FCEIL64 => op1 vm fp dst s1 (fun a => rune_f64 (fun64 F FCEIL (as_f64 a)))
  | OP_FROUND64 => op1 vm fp dst s1 (fun a => rune_f64 (fun64 F FROUND (as_f64 a)))
  (* Comparisons *)
  | OP_EQ32 => op2 vm fp dst s1 s2 (fun a b => rune_bool (as_i32 a =? as_i32 b))
  | OP_NE32 => op2 vm fp dst s1 s2 (fun a b => rune_bool (negb (as_i32 a =? as_i32 b)))
  | OP_LT32 => op2 vm fp dst s1 s2 (fun a b => rune_bool (as_i32 a <? as_i32 b))
  | OP_LE32 => op2 vm fp dst s1 s2 (fun a b => rune_bool (as_i32 a <=? as_i32 b))
  | OP_GT32 => op2 vm fp dst s1 s2 (fun a b => rune_bool (as_i32 b <? as_i32 a))
  | OP_GE32 => op2 vm fp dst s1 s2 (fun a b => rune_bool (as_i32 b <=? as_i32 a))
  | OP_LTU32 => op2 vm fp dst s1 s2 (fun a b => rune_bool (as_u32 a <? as_u32 b))
  | OP_LEU32 => op2 vm fp dst s1 s2 (fun a b => rune_bool (as_u32 a <=? as_u32 b))
  | OP_EQ64 => op2 vm fp dst s1 s2 (fun a b => rune_bool (as_i64 a =? as_i64 b))
  | OP_NE64 => op2 vm fp dst s1 s2 (fun a b => rune_bool (negb (as_i64 a =? as_i64 b)))
  | OP_LT64 => op2 vm fp dst s1 s2 (fun a b => rune_bool (as_i64 a <? as_i64 b))
  | OP_LE64 => op2 vm fp dst s1 s2 (fun a b => rune_bool (as_i64 a <=? as_i64 b))
  | OP_FEQ32 => op2 vm fp dst s1 s2 (fun a b => rune_bool (fcmp32 F FEQ (as_f32 a) (as_f32 b)))
  | OP_FLT32 => op2 vm fp dst s1 s2 (fun a b => rune_bool (fcmp32 F FLT (as_f32 a) (as_f32 b)))
  | OP_FEQ64 => op2 vm fp dst s1 s2 (fun a b => rune_bool (fcmp64 F FEQ (as_f64 a) (as_f64 b)))
  | OP_FLT64 => op2 vm fp dst s1 s2 (fun a b => rune_bool (fcmp64 F FLT (as_f64 a) (as_f64 b)))
  (* Conversions *)
  | OP_I32_TO_I64 => op1 vm fp dst s1 (fun a => rune_i64 (as_i32 a))
  | OP_I64_TO_I32 => op1 vm fp dst s1 (fun a => rune_i32 (i32 (as_i64 a)))
  | OP_U32_TO_I64 => op1 vm fp dst s1 (fun a => rune_i64 (as_u32 a))
  | OP_I32_TO_F32 => op1 vm fp dst s1 (fun a => rune_f32 (f32_of_i32 F (as_i32 a)))
  | OP_I32_TO_F64 => op1 vm fp dst s1 (fun a => rune_f64 (f64_of_i32 F (as_i32 a)))
  | OP_F32_TO_I32 => op1u vm fp dst s1 (fun a => option_map rune_i32 (i32_of_f32 F (as_f32 a)))
  | OP_F64_TO_I32 => op1u vm fp dst s1 (fun a => option_map rune_i32 (i32_of_f64 F (as_f64 a)))
  | OP_F32_TO_F64 => op1 vm fp dst s1 (fun a => rune_f64 (f64_of_f32 F (as_f32 a)))
  | OP_F64_TO_F32 => op1 vm fp dst s1 (fun a => rune_f32 (f32_of_f64 F (as_f64 a)))
  | OP_I64_TO_F64 => op1 vm fp dst s1 (fun a => rune_f64 (f64_of_i64 F (as_i64 a)))
  | OP_F64_TO_I64 => op1u vm fp dst s1 (fun a => option_map rune_i64 (i64_of_f64 F (as_f64 a)))
  | OP_BOOL_TO_I32 => op1 vm fp dst s1 (fun a => rune_i32 (if as_b a then 1 else 0))
  (* Memory loads *)
  | OP_LOAD8 => load vm fp code dst s1 1 (fun v => rune_i32 (u8 v))
  | OP_LOAD8S => load vm fp code dst s1 1 (fun v => rune_i32 (i8 v))
  | OP_LOAD16 => load vm fp code dst s1 2 (fun v => rune_i32 (u16 v))
  | OP_LOAD16S => load vm fp code dst s1 2 (fun v => rune_i32 (i16 v))
  | OP_LOAD32 => load vm fp code dst s1 4 (fun v => rune_i32 (i32 v))
  | OP_LOAD64 => load vm fp code dst s1 8 (fun v => rune_i64 (i64 v))
  | OP_LOADF32 => load vm fp code dst s1 4 rune_f32
  | OP_LOADF64 => load vm fp code dst s1 8 rune_f64
  (* Memory stores *)
  | OP_STORE8 => store vm fp code dst s1 1 as_i32
  | OP_STORE16 => store vm fp code dst s1 2 as_i32
  | OP_STORE32 => store vm fp code dst s1 4 as_i32
  | OP_STORE64 => store vm fp code dst s1 8 as_i64
  | OP_STOREF32 => store vm fp code dst s1 4 as_f32
  | OP_STOREF64 => store vm fp code dst s1 8 as_f64
  (* Memory ops *)
  | OP_MEM_SIZE =>
      get vm1 <- set_R vm fp dst (rune_i32 (i32 (memory_pages vm))) ;;
      Break vm1
  | OP_MEM_GROW => mem_grow vm fp dst s1
  | OP_MEM_COPY => mem_copy vm fp dst s1 s2
  | OP_MEM_FILL => mem_fill vm fp dst s1 s2
  | OP_UNKNOWN => GotoDone RUNE_ERR_BADOPCODE None vm
  end.

(** [done: vm->frame_count--] *)
Definition pop_frame (vm : rune_vm_t) : rune_vm_t :=
  set_frame_count (u32 (frame_count vm - 1)) vm.

(** The dispatch loop [while (PC < code_words) { NEXT(); switch ... }]
    of the frame at index [fp], followed by the implicit return.  [n]
    bounds the number of iterations. *)
Fixpoint vm_loop (call : rune_vm_t -> Z -> list rune_val_t -> exec_result)
    (n : nat) (m : rune_module_t) (vm : rune_vm_t) (fp : nat)
    (code : list Z) (ncode : Z) : exec_result :=
  match n with
  | O => OutOfGas
  | S n' =>
      match PC vm fp with
      | None => Undefined
      | Some pc =>
          if pc <? ncode then
            (* NEXT() *)
            let '(vm1, fuel_ok) := FUEL_TICK vm in
            if fuel_ok then
              match read_imm32 code vm1 fp with
              | None => Undefined
              | Some (instr, vm2) =>
                  let op := opcode_of_u8 abi (RUNE_INSTR_OP instr) in
                  let dst := RUNE_INSTR_DST instr in
                  let s1 := RUNE_INSTR_S1 instr in
                  let s2 := RUNE_INSTR_S2 instr in
                  match exec_instr call m vm2 fp code op dst s1 s2 with
                  | Break vm3 => vm_loop call n' m vm3 fp code ncode
                  | GotoDone result ret vm3 =>
                      Done result (match ret with Some r => r | None => rune_void end)
                           (pop_frame vm3)
                  | Return e vm3 => Done e rune_void vm3
                  | StepUndefined => Undefined
                  | StepOutOfGas => OutOfGas
                  end
              end
            else Done RUNE_ERR_FUEL rune_void vm1
          else
            (* fell off the end: implicit return with R0 *)
            match R vm fp 0 with
            | Some r0 => Done RUNE_OK r0 (pop_frame vm)
            | None => Undefined
            end
      end
  end.

(** The register window at function entry: zeroed, then the first
    [min(argc, reg_count)] arguments copied in. *)
Definition entry_regs (fn : rune_func_t) (argv : list rune_val_t) : list rune_val_t :=
  let argc := zlen argv in
  let copy_n := if argc <? reg_count fn then argc else reg_count fn in
  let k := Z.to_nat (Z.min copy_n RUNE_MAX_REGS) in
  take k argv ++ drop k (replicate (Z.to_nat RUNE_MAX_REGS) zero_val).

(** [vm_exec(vm, func_idx, argc, argv, ret_val)], with [argc] the
    length of [argv].  [g] bounds the depth of the calls and the length
    of each loop. *)
Fixpoint vm_exec (g : nat) (m : rune_module_t) (vm : rune_vm_t)
    (func_idx : Z) (argv : list rune_val_t) : exec_result :=
  match g with
  | O => OutOfGas
  | S g' =>
      if negb (initialized vm) && negb (func_idx =? u32 (init_func m))
      then Done RUNE_ERR_BADMODULE rune_void vm
      else if stack_size (cfg vm) <=? frame_count vm
      then Done RUNE_ERR_STACKOVERFLOW rune_void vm
      else
        match funcs m !! Z.to_nat func_idx with
        | None => Undefined      (* &vm->mod->funcs[func_idx] outside the table *)
        | Some fn =>
            if is_import fn then
              match vm_resolve_host m vm (import_idx fn) with
              | None => Done RUNE_ERR_NOIMPORT rune_void vm
              | Some h =>
                  let '(err, r, vm') := call_host h vm argv in
                  Done err r vm'
              end
            else
              let fp := Z.to_nat (frame_count vm) in
              match frames vm !! fp with
              | None => Undefined
              | Some _ =>
                  let frame := {| fr_func_idx := func_idx; fr_pc := 0;
                                  fr_regs := Some (entry_regs fn argv) |} in
                  let vm1 := set_frames (<[fp := frame]> (frames vm))
                               (set_frame_count (u32 (frame_count vm + 1)) vm) in
                  vm_loop (vm_exec g' m) g' m vm1 fp (code_of fn) (code_words fn)
              end
        end
  end.

(** *** Public call interface *)

Fixpoint find_export_func (es : list rune_export_t) (name : list Z)
  : option rune_export_t :=
  match es with
  | [] => None
  | e :: es' =>
      if (e_kind e =? RUNE_EXPORT_FUNC abi) && strcmp_eq (e_name e) name
      then Some e
      else find_export_func es' name
  end.

Definition rune_vm_call (g : nat) (m : rune_module_t) (vm : rune_vm_t)
    (name : list Z) (argv : list rune_val_t) : exec_result :=
  if negb (initialized vm) then Done RUNE_ERR_BADMODULE rune_void vm
  else
    match find_export_func (exports m) name with
    | Some e => vm_exec g m vm (e_idx e) argv
    | None => Done RUNE_ERR_NOEXPORT rune_void vm
    end.

Definition rune_vm_refuel (vm : rune_vm_t) (fuel : Z) : rune_vm_t :=
  set_cfg {| stack_size := stack_size (cfg vm); memory_limit := memory_limit (cfg vm);
             fuel_limit := fuel |} (set_fuel_used 0 vm).

(** ** VM init: resolve imports, allocate memory, run [_init] *)

(** "Verify all imports are satisfied": the first import without a
    matching host entry, if any. *)
Definition import_found (hs : list rune_host_entry_t) (imp : rune_import_t) : bool :=
  match find_host hs (imp_module imp) (imp_name imp) with
  | Some _ => true
  | None => false
  end.

Definition imports_satisfied (m : rune_module_t) (vm : rune_vm_t) : bool :=
  forallb (import_found (host_fns vm)) (imports m).

(** "Apply data segments": [Some (inl vm)] when every segment was
    copied, [Some (inr vm)] when a segment failed the bounds test (the
    segments before it have been copied), [None] when a copy leaves the
    buffer. *)
Fixpoint apply_data_segs (segs : list rune_data_seg_t) (vm : rune_vm_t)
  : option (rune_vm_t + rune_vm_t) :=
  match segs with
  | [] => Some (inl vm)
  | s :: segs' =>
      let end_ := u32 (seg_offset s + seg_size s) in
      if u32 (memory_pages vm * RUNE_PAGE_SIZE) <? end_ then Some (inr vm)
      else
        match memory vm with
        | Some mem =>
            if in_buffer vm (seg_offset s) (seg_size s) then
              apply_data_segs segs'
                (set_memory (Some (mem_write_bytes mem (seg_offset s)
                                     (take (Z.to_nat (seg_size s)) (seg_data s)))) vm)
            else None
        | None => None
        end
  end.

(** The part of [rune_vm_init] that precedes the run of [_init]: the
    check of the imports, the allocation of the linear memory with the
    data segments, the copy of the globals and
    [vm->initialized = true].  [None] when a data segment is copied
    outside the buffer. *)
Definition init_setup (m : rune_module_t) (vm : rune_vm_t)
  : option (rune_err_t * rune_vm_t) :=
  (* Verify all imports are satisfied *)
  if negb (imports_satisfied m vm) then Some (RUNE_ERR_NOIMPORT, vm)
  else
    (* Allocate linear memory *)
    let after_memory : option (rune_err_t * rune_vm_t) :=
      if has_memory m then
        let max_pages := if 0 <? mem_max_pages m then mem_max_pages m
                         else mem_initial_pages m in
        if memory_limit (cfg vm) <? max_pages * RUNE_PAGE_SIZE
        then Some (RUNE_ERR_OOM, vm)
        else
          let vm1 := set_memory_max max_pages
                       (set_memory_pages (mem_initial_pages m)
                          (set_memory (Some mem_zero) vm)) in
          match apply_data_segs (data_segs m) vm1 with
          | Some (inl vm2) => Some (RUNE_OK, vm2)
          | Some (inr vm2) => Some (RUNE_ERR_BOUNDS, vm2)
          | None => None
          end
      else Some (RUNE_OK, vm) in
    match after_memory with
    | None => None
    | Some (RUNE_OK, vm2) =>
        (* Copy globals *)
        let vm3 := if 0 <? global_count m
                   then set_globals (Some (map g_value (globals m))) vm2
                   else vm2 in
        Some (RUNE_OK, set_initialized true vm3)
    | Some (err, vm2) => Some (err, vm2)
    end.

Definition rune_vm_init (g : nat) (m : rune_module_t) (vm : rune_vm_t) : exec_result :=
  match init_setup m vm with
  | None => Undefined
  | Some (RUNE_OK, vm4) =>
      (* Run _init if present *)
      if 0 <=? init_func m then
        match vm_exec g m vm4 (u32 (init_func m)) [] with
        | Done RUNE_OK _ vm5 => Done RUNE_OK rune_void vm5
        | Done err _ vm5 => Done err rune_void vm5
        | other => other
        end
      else Done RUNE_OK rune_void vm4
  | Some (err, vm2) => Done err rune_void vm2
  end.

(** *** Memory access of the host *)

Definition rune_vm_memory_size (vm : rune_vm_t) : Z := memory_pages vm * RUNE_PAGE_SIZE.

Definition rune_vm_mem_read (vm : rune_vm_t) (offset : Z) (len : nat)
  : rune_err_t * list Z :=
  match memory vm with
  | None => (RUNE_ERR_BOUNDS, [])
  | Some mem =>
      if memory_pages vm * RUNE_PAGE_SIZE <? offset + Z.of_nat len
      then (RUNE_ERR_BOUNDS, [])
      else (RUNE_OK, mem_read_bytes mem offset len)
  end.

Definition rune_vm_mem_write (vm : rune_vm_t) (offset : Z) (src : list Z)
  : rune_err_t * rune_vm_t :=
  match memory vm with
  | None => (RUNE_ERR_BOUNDS, vm)
  | Some mem =>
      if memory_pages vm * RUNE_PAGE_SIZE <? offset + zlen src
      then (RUNE_ERR_BOUNDS, vm)
      else (RUNE_OK, set_memory (Some (mem_write_bytes mem offset src)) vm)
  end.

End WithAbi.

(** A sequence of registrations. *)
Definition registration : Type := list Z * list Z * rune_host_fn_t * Z.

Definition register_all (vm : rune_vm_t) (rs : list registration) : rune_vm_t :=
  fold_left (fun vm '(mn, n, fn, ud) => snd (rune_vm_register vm mn n fn ud)) rs vm.


(** ** A sample numbering

    The closed examples below need concrete numbers for what the
    headers declare.  Opcodes are numbered in the order of the
    interpreter's [switch], sections in the order in which the loader
    lists them; the limits are those of the assembler
    ([MAX_FUNCS 4096], [MAX_GLOBALS 512]).  None of the examples
    executes a floating-point instruction. *)

Module Sample.

Definition opcodes : list rune_opcode_t :=
  [ OP_NOP; OP_TRAP; OP_RET; OP_JMP; OP_JZ; OP_JNZ; OP_JLT; OP_JLE;
    OP_CALL; OP_CALL_HOST; OP_ARG;
    OP_LDI32; OP_LDI64; OP_LDF32; OP_LDF64; OP_LDTRUE; OP_LDFALSE;
    OP_LDGLOBAL; OP_STGLOBAL; OP_MOV;
    OP_ADD32; OP_SUB32; OP_MUL32; OP_DIV32; OP_DIVU32; OP_REM32; OP_REMU32;
    OP_NEG32; OP_AND32; OP_OR32; OP_XOR32; OP_SHL32; OP_SHR32; OP_SHRU32;
    OP_NOT32; OP_CLZ32; OP_CTZ32; OP_POPCNT32;
    OP_ADD64; OP_SUB64; OP_MUL64; OP_DIV64; OP_DIVU64; OP_REM64;
    OP_AND64; OP_OR64; OP_XOR64; OP_SHL64; OP_SHR64; OP_NOT64; OP_NEG64;
    OP_FADD32; OP_FSUB32; OP_FMUL32; OP_FDIV32; OP_FABS32; OP_FNEG32;
    OP_FSQRT32; OP_FMIN32; OP_FMAX32; OP_FFLOOR32; OP_FCEIL32; OP_FROUND32;
    OP_FADD64; OP_FSUB64; OP_FMUL64; OP_FDIV64; OP_FABS64; OP_FNEG64;
    OP_FSQRT64; OP_FMIN64; OP_FMAX64; OP_FFLOOR64; OP_FCEIL64; OP_FROUND64;
    OP_EQ32; OP_NE32; OP_LT32; OP_LE32; OP_GT32; OP_GE32; OP_LTU32; OP_LEU32;
    OP_EQ64; OP_NE64; OP_LT64; OP_LE64;
    OP_FEQ32; OP_FLT32; OP_FEQ64; OP_FLT64;
    OP_I32_TO_I64; OP_I64_TO_I32; OP_U32_TO_I64; OP_I32_TO_F32; OP_I32_TO_F64;
    OP_F32_TO_I32; OP_F64_TO_I32; OP_F32_TO_F64; OP_F64_TO_F32;
    OP_I64_TO_F64; OP_F64_TO_I64; OP_BOOL_TO_I32;
    OP_LOAD8; OP_LOAD8S; OP_LOAD16; OP_LOAD16S; OP_LOAD32; OP_LOAD64;
    OP_LOADF32; OP_LOADF64;
    OP_STORE8; OP_STORE16; OP_STORE32; OP_STORE64; OP_STOREF32; OP_STOREF64;
    OP_MEM_SIZE; OP_MEM_GROW; OP_MEM_COPY; OP_MEM_FILL ].

(** The number of an opcode. *)
Definition num (op : rune_opcode_t) : Z :=
  match op with
  | OP_NOP => 0 | OP_TRAP => 1 | OP_RET => 2 | OP_JMP => 3
  | OP_JZ => 4 | OP_JNZ => 5 | OP_JLT => 6 | OP_JLE => 7
  | OP_CALL => 8 | OP_CALL_HOST => 9 | OP_ARG => 10 | OP_LDI32 => 11
  | OP_LDI64 => 12 | OP_LDF32 => 13 | OP_LDF64 => 14 | OP_LDTRUE => 15
  | OP_LDFALSE => 16 | OP_LDGLOBAL => 17 | OP_STGLOBAL => 18 | OP_MOV => 19
  | OP_ADD32 => 20 | OP_SUB32 => 21 | OP_MUL32 => 22 | OP_DIV32 => 23
  | OP_DIVU32 => 24 | OP_REM32 => 25 | OP_REMU32 => 26 | OP_NEG32 => 27
  | OP_AND32 => 28 | OP_OR32 => 29 | OP_XOR32 => 30 | OP_SHL32 => 31
  | OP_SHR32 => 32 | OP_SHRU32 => 33 | OP_NOT32 => 34 | OP_CLZ32 => 35
  | OP_CTZ32 => 36 | OP_POPCNT32 => 37 | OP_ADD64 => 38 | OP_SUB64 => 39
  | OP_MUL64 => 40 | OP_DIV64 => 41 | OP_DIVU64 => 42 | OP_REM64 => 43
  | OP_AND64 => 44 | OP_OR64 => 45 | OP_XOR64 => 46 | OP_SHL64 => 47
  | OP_SHR64 => 48 | OP_NOT64 => 49 | OP_NEG64 => 50 | OP_FADD32 => 51
  | OP_FSUB32 => 52 | OP_FMUL32 => 53 | OP_FDIV32 => 54 | OP_FABS32 => 55
  | OP_FNEG32 => 56 | OP_FSQRT32 => 57 | OP_FMIN32 => 58 | OP_FMAX32 => 59
  | OP_FFLOOR32 => 60 | OP_FCEIL32 => 61 | OP_FROUND32 => 62 | OP_FADD64 => 63
  | OP_FSUB64 => 64 | OP_FMUL64 => 65 | OP_FDIV64 => 66 | OP_FABS64 => 67
  | OP_FNEG64 => 68 | OP_FSQRT64 => 69 | OP_FMIN64 => 70 | OP_FMAX64 => 71
  | OP_FFLOOR64 => 72 | OP_FCEIL64 => 73 | OP_FROUND64 => 74 | OP_EQ32 => 75
  | OP_NE32 => 76 | OP_LT32 => 77 | OP_LE32 => 78 | OP_GT32 => 79
  | OP_GE32 => 80 | OP_LTU32 => 81 | OP_LEU32 => 82 | OP_EQ64 => 83
  | OP_NE64 => 84 | OP_LT64 => 85 | OP_LE64 => 86 | OP_FEQ32 => 87
  | OP_FLT32 => 88 | OP_FEQ64 => 89 | OP_FLT64 => 90 | OP_I32_TO_I64 => 91
  | OP_I64_TO_I32 => 92 | OP_U32_TO_I64 => 93 | OP_I32_TO_F32 => 94 | OP_I32_TO_F64 => 95
  | OP_F32_TO_I32 => 96 | OP_F64_TO_I32 => 97 | OP_F32_TO_F64 => 98 | OP_F64_TO_F32 => 99
  | OP_I64_TO_F64 => 100 | OP_F64_TO_I64 => 101 | OP_BOOL_TO_I32 => 102 | OP_LOAD8 => 103
  | OP_LOAD8S => 104 | OP_LOAD16 => 105 | OP_LOAD16S => 106 | OP_LOAD32 => 107
  | OP_LOAD64 => 108 | OP_LOADF32 => 109 | OP_LOADF64 => 110 | OP_STORE8 => 111
  | OP_STORE16 => 112 | OP_STORE32 => 113 | OP_STORE64 => 114 | OP_STOREF32 => 115
  | OP_STOREF64 => 116 | OP_MEM_SIZE => 117 | OP_MEM_GROW => 118 | OP_MEM_COPY => 119
  | OP_MEM_FILL => 120
  | OP_UNKNOWN => 255
  end.

Definition opcode_of (n : Z) : rune_opcode_t :=
  match find (fun o => num o =? n) opcodes with
  | Some o => o
  | None => OP_UNKNOWN
  end.

Definition sections : list rune_sect_id_t :=
  [ RUNE_SECT_UNKNOWN; RUNE_SECT_TYPE; RUNE_SECT_IMPORT; RUNE_SECT_FUNC;
    RUNE_SECT_MEMORY; RUNE_SECT_GLOBAL; RUNE_SECT_EXPORT; RUNE_SECT_CODE;
    RUNE_SECT_DATA ].

Definition sect_of (n : Z) : rune_sect_id_t :=
  if n <? 0 then RUNE_SECT_UNKNOWN else nth (Z.to_nat n) sections RUNE_SECT_UNKNOWN.

Definition no_fp : host_fp :=
  {| fbin32 := fun _ _ _ => 0; fun32 := fun _ _ => 0; fcmp32 := fun _ _ _ => false;
     fbin64 := fun _ _ _ => 0; fun64 := fun _ _ => 0; fcmp64 := fun _ _ _ => false;
     f32_of_i32 := fun _ => 0; f64_of_i32 := fun _ => 0; f64_of_i64 := fun _ => 0;
     f64_of_f32 := fun _ => 0; f32_of_f64 := fun _ => 0;
     i32_of_f32 := fun _ => None; i32_of_f64 := fun _ => None;
     i64_of_f64 := fun _ => None |}.

Definition abi : rune_abi :=
  {| RUNE_MAGIC := [82; 85; 78; 69];      (* "RUNE" *)
     RUNE_BC_VERSION := 1;
     RUNE_MAX_FUNCS := 4096;
     RUNE_MAX_GLOBALS := 512;
     RUNE_CALL_DEPTH := 512;
     RUNE_TYPE_VOID := 0;
     RUNE_TYPE_I32 := 1;
     RUNE_TYPE_I64 := 2;
     RUNE_TYPE_F32 := 3;
     RUNE_TYPE_F64 := 4;
     RUNE_TYPE_BOOL := 5;
     RUNE_TYPE_PTR := 6;
     RUNE_EXPORT_FUNC := 0;
     RUNE_EXPORT_MEMORY := 1;
     RUNE_EXPORT_GLOBAL := 2;
     sect_of_u8 := sect_of;
     opcode_of_u8 := opcode_of;
     host_float := no_fp |}.

(** An instruction word and the bytes of a body. *)
Definition ins (op : rune_opcode_t) (dst s1 s2 : Z) : Z := RUNE_INSTR (num op) dst s1 s2.

Definition bytes_of_words (ws : list Z) : list Z := concat (map (le_split 4) ws).

Definition body (regs : Z) (ws : list Z) : rune_func_t :=
  {| type_idx := 0; reg_count := regs; local_count := 0;
     code := bytes_of_words ws; code_size := 4 * zlen ws;
     is_import := false; import_idx := 0 |}.

End Sample.


(** ** Sample modules *)

Module Demo.

Import Sample.

Definition name_f : list Z := [102].                       (* "f" *)

Definition module_of (fs : list rune_func_t) (es : list rune_export_t)
    (mem : option (Z * Z)) (gs : list rune_global_t) (ims : list rune_import_t)
    (init : Z) : rune_module_t :=
  {| types := []; imports := ims; funcs := fs; globals := gs; exports := es;
     mem_initial_pages := match mem with Some (i, _) => i | None => 0 end;
     mem_max_pages := match mem with Some (_, x) => x | None => 0 end;
     has_memory := match mem with Some _ => true | None => false end;
     data_segs := []; init_func := init |}.

Definition export_f : list rune_export_t :=
  [{| e_kind := RUNE_EXPORT_FUNC abi; e_idx := 0; e_name := name_f |}].

Definition i32v (x : Z) : rune_val_t := rune_i32 abi x.


(** A VM that [rune_vm_init] has set up for [m] (the run of [_init]
    apart), then entered at function [func_idx] as [vm_exec] does, with
    the program counter at word [pc] of the body. *)
Definition entered (m : rune_module_t) (func_idx : Z) (argv : list rune_val_t)
    (pc : Z) : rune_vm_t :=
  let vm := match init_setup m (rune_vm_new abi None) with
            | Some (_, vm) => vm
            | None => rune_vm_new abi None
            end in
  let fn := nth (Z.to_nat func_idx) (funcs m) zero_func in
  set_frames (<[0%nat := {| fr_func_idx := func_idx; fr_pc := pc;
                            fr_regs := Some (entry_regs fn argv) |}]> (frames vm))
             (set_frame_count 1 vm).

(** The words of the body of function 0. *)
Definition code0 (m : rune_module_t) : list Z :=
  code_of (nth 0 (funcs m) zero_func).

(** [f(a, b) = a / b] *)
Definition m_div : rune_module_t :=
  module_of [body 4 [ins OP_DIV32 0 0 1; ins OP_RET 0 0 0]] export_f None [] [] (-1).

(** One page of memory, at most two; [f(a)] loads the byte at [a + 65536]. *)
Definition m_load : rune_module_t :=
  module_of [body 4 [ins OP_LOAD8 0 0 0; 65536; ins OP_RET 0 0 0]]
    export_f (Some (1, 2)) [] [] (-1).

(** Two pages of memory, at most four; [f(k)] grows the memory by [k] pages. *)
Definition m_grow : rune_module_t :=
  module_of [body 4 [ins OP_MEM_GROW 0 0 0; ins OP_RET 0 0 0]]
    export_f (Some (2, 4)) [] [] (-1).

(** [f(a, b, c)] stages [c] as argument 0. *)
Definition m_arg : rune_module_t :=
  module_of [body 4 [ins OP_ARG 0 2 0; ins OP_RET 0 0 0]] export_f None [] [] (-1).

(** [f()] calls function 7 of a module that has one function. *)
Definition m_call : rune_module_t :=
  module_of [body 4 [ins OP_CALL 0 0 0; 7; ins OP_RET 0 0 0]] export_f None [] [] (-1).

(** A counter in a global declared immutable:
    [f() { g0 = g0 + 1; return g0; }] *)
Definition m_counter : rune_module_t :=
  module_of [body 4 [ins OP_LDGLOBAL 0 0 0; 0; ins OP_LDI32 1 0 0; 1;
                     ins OP_ADD32 0 0 1; ins OP_STGLOBAL 0 0 0; 0; ins OP_RET 0 0 0]]
    export_f None
    [{| g_type := RUNE_TYPE_I32 abi; g_mutable := false; g_value := i32v 0 |}] [] (-1).

(** Two ticks of fuel are not enough for three instructions. *)
Definition m_nops : rune_module_t :=
  module_of [body 1 [ins OP_NOP 0 0 0; ins OP_NOP 0 0 0; ins OP_RET 0 0 0]]
    export_f None [] [] (-1).

Definition cfg_fuel (n : Z) : rune_config_t :=
  {| stack_size := 512; memory_limit := 64 * 1024 * 1024; fuel_limit := n |}.

(** The import [env::f], called by [f()] through [CALL_HOST]. *)
Definition name_env : list Z := [101; 110; 118].
Definition m_host : rune_module_t :=
  module_of [ {| type_idx := 0; reg_count := 0; local_count := 0; code := [];
                 code_size := 0; is_import := true; import_idx := 0 |};
              body 4 [ins OP_CALL_HOST 0 0 0; 0; ins OP_RET 0 0 0] ]
    [{| e_kind := RUNE_EXPORT_FUNC abi; e_idx := 1; e_name := name_f |}]
    None []
    [{| imp_module := name_env; imp_name := name_f; imp_type_idx := 0 |}] (-1).

(** A callback that returns the constant [k]. *)
Definition host_const (k : Z) : rune_host_fn_t :=
  fun _ _ _ mem => (RUNE_OK, i32v k, mem).

(** The VM on which [env::f] is registered twice, first with the
    callback that returns 1 and then with the one that returns 2. *)
Definition vm_two_hosts : rune_vm_t :=
  register_all (rune_vm_new abi None)
    [(name_env, name_f, host_const 1, 0); (name_env, name_f, host_const 2, 0)].

(** Initialise a VM for [m], then call the export [name]. *)
Definition init_then_call (g : nat) (m : rune_module_t) (vm : rune_vm_t)
    (name : list Z) (argv : list rune_val_t) : exec_result :=
  match rune_vm_init abi g m vm with
  | Done RUNE_OK _ vm' => rune_vm_call abi g m vm' name argv
  | other => other
  end.

(** A memory section with two initial pages and a maximum of one;
    [f(a)] loads the byte at [a + 65536]. *)
Definition m_initial_above_max : rune_module_t :=
  module_of [body 4 [ins OP_LOAD8 0 0 0; 65536; ins OP_RET 0 0 0]]
    export_f (Some (2, 1)) [] [] (-1).

(** *** The modules of [tests/test_vm.c] *)

(** [add(a, b) = a + b] *)
Definition m_add : rune_module_t :=
  module_of [body 4 [ins OP_ADD32 0 0 1; ins OP_RET 0 0 0]] export_f None [] [] (-1).

(** [store_load(v)]: [mem[100] = v; return mem[100]] *)
Definition m_store_load : rune_module_t :=
  module_of [body 4 [ins OP_LDI32 1 0 0; 0; ins OP_STORE32 0 1 0; 100;
                     ins OP_LOAD32 0 1 0; 100; ins OP_RET 0 0 0]]
    export_f (Some (1, 2)) [] [] (-1).

(** [max(a, b)], with the offset of [JZ] as [rune_asm_patch_jump]
    computes it. *)
Definition m_max : rune_module_t :=
  module_of [body 4 [ins OP_GT32 2 0 1; ins OP_JZ 0 2 0; 2;
                     ins OP_MOV 0 0 0; ins OP_RET 0 0 0;
                     ins OP_MOV 0 1 0; ins OP_RET 0 0 0]]
    export_f None [] [] (-1).

(** [loop()]: [LDI32 R0, 1; JNZ R0, top] *)
Definition m_loop : rune_module_t :=
  module_of [body 2 [ins OP_LDI32 0 0 0; 1; ins OP_JNZ 0 0 0; u32 (-4);
                     ins OP_RET 0 0 0]]
    export_f None [] [] (-1).

(** [call_twice(a, b)]: the import [env::f] is called with [a], then
    with [b]; the result is [a + b]. *)
Definition m_call_twice : rune_module_t :=
  module_of [ {| type_idx := 0; reg_count := 0; local_count := 0; code := [];
                 code_size := 0; is_import := true; import_idx := 0 |};
              body 4 [ins OP_ARG 0 0 0; ins OP_CALL_HOST 2 0 0; 0;
                      ins OP_ARG 0 1 0; ins OP_CALL_HOST 2 0 0; 0;
                      ins OP_ADD32 0 0 1; ins OP_RET 0 0 0] ]
    [{| e_kind := RUNE_EXPORT_FUNC abi; e_idx := 1; e_name := name_f |}]
    None []
    [{| imp_module := name_env; imp_name := name_f; imp_type_idx := 0 |}] (-1).

(** [mock_noop] *)
Definition host_noop : rune_host_fn_t :=
  fun _ _ _ mem => (RUNE_OK, rune_void abi, mem).

(** *** Module files

    The container as the assembler writes it: a section is its
    identifier, its size and its body; the file is the header (magic,
    version, flags, reserved, CRC-32 of what follows) and the sections. *)
Definition section (id : Z) (body : list Z) : list Z :=
  id :: le_split 4 (zlen body) ++ body.

Definition str8 (s : list Z) : list Z := zlen s :: s.

Definition file (body : list Z) : list Z :=
  RUNE_MAGIC abi ++ le_split 4 (RUNE_BC_VERSION abi) ++ le_split 4 0 ++ le_split 4 0
  ++ le_split 4 (crc32_update 0 body) ++ body.

(** A file without a TYPE section: the import [env::f] has type index
    7, the one body has type index 9, and the export [f] is function 5
    of a module with two functions. *)
Definition dangling_indices : list Z :=
  file (section 2 (le_split 4 1 ++ str8 name_env ++ str8 name_f ++ le_split 2 7)
        ++ section 3 (le_split 4 1 ++ le_split 2 9 ++ [4; 0])
        ++ section 6 (le_split 4 1 ++ [RUNE_EXPORT_FUNC abi] ++ le_split 4 5 ++ str8 name_f)
        ++ section 7 (le_split 4 1 ++ le_split 4 4 ++ le_split 4 (ins OP_RET 0 0 0))).

Definition m_dangling : rune_module_t :=
  {| types := [];
     imports := [{| imp_module := name_env; imp_name := name_f; imp_type_idx := 7 |}];
     funcs := [ {| type_idx := 7; reg_count := 0; local_count := 0; code := [];
                   code_size := 0; is_import := true; import_idx := 0 |};
                {| type_idx := 9; reg_count := 4; local_count := 0;
                   code := le_split 4 (ins OP_RET 0 0 0); code_size := 4;
                   is_import := false; import_idx := 0 |} ];
     globals := [];
     exports := [{| e_kind := RUNE_EXPORT_FUNC abi; e_idx := 5; e_name := name_f |}];
     mem_initial_pages := 0; mem_max_pages := 0; has_memory := false;
     data_segs := []; init_func := -1 |}.

End Demo.

(** ** Vocabulary of the statements *)

(** The number of bytes that a load or store instruction accesses. *)
Definition access_width (op : rune_opcode_t) : option nat :=
  match op with
  | OP_LOAD8 | OP_LOAD8S | OP_STORE8 => Some 1%nat
  | OP_LOAD16 | OP_LOAD16S | OP_STORE16 => Some 2%nat
  | OP_LOAD32 | OP_LOADF32 | OP_STORE32 | OP_STOREF32 => Some 4%nat
  | OP_LOAD64 | OP_LOADF64 | OP_STORE64 | OP_STOREF64 => Some 8%nat
  | _ => None
  end.

(** The ranges [(off, len)] of linear memory that a memory instruction
    names in the state [vm]: the effective address [R[s1] + imm32] with
    the width of the access for a load or store, the destination and
    the source for [MEM_COPY], the destination for [MEM_FILL].  [None]
    for every other instruction. *)
Definition mem_access_ranges (vm : rune_vm_t) (fp : nat) (code : list Z)
    (op : rune_opcode_t) (dst s1 s2 : Z) : option (list (Z * Z)) :=
  match op with
  | OP_MEM_COPY =>
      match R vm fp dst, R vm fp s1, R vm fp s2 with
      | Some d, Some s, Some z => Some [(as_u32 d, as_u32 z); (as_u32 s, as_u32 z)]
      | _, _, _ => None
      end
  | OP_MEM_FILL =>
      match R vm fp dst, R vm fp s1, R vm fp s2 with
      | Some d, Some _, Some z => Some [(as_u32 d, as_u32 z)]
      | _, _, _ => None
      end
  | _ =>
      match access_width op, R vm fp s1, read_imm32 code vm fp with
      | Some n, Some base, Some (imm, _) =>
          Some [(effective_address base imm, Z.of_nat n)]
      | _, _, _ => None
      end
  end.

(** [off + len <= memory_pages * 65536] *)
Definition in_bounds (vm : rune_vm_t) (r : Z * Z) : Prop :=
  fst r + snd r <= memory_pages vm * RUNE_PAGE_SIZE.

(** The offsets of the current linear memory. *)
Definition linear (vm : rune_vm_t) (a : Z) : Prop :=
  0 <= a < memory_pages vm * RUNE_PAGE_SIZE.

(** The bytes outside the linear memory are the same in both. *)
Definition same_outside_linear (vm : rune_vm_t) (o o' : option memory_t) : Prop :=
  match o, o' with
  | Some mem, Some mem' => forall a, ~ linear vm a -> mem' a = mem a
  | _, _ => False
  end.

(** The bytes of the linear memory are the same in both. *)
Definition same_on_linear (vm : rune_vm_t) (o o' : option memory_t) : Prop :=
  match o, o' with
  | Some mem, Some mem' => forall a, linear vm a -> mem' a = mem a
  | None, None => True
  | _, _ => False
  end.

(** Two VMs that differ at most in the bytes outside their linear memory. *)
Definition vm_agree (vm vm' : rune_vm_t) : Prop :=
  set_memory None vm' = set_memory None vm /\
  same_on_linear vm (memory vm) (memory vm').

Definition step_agree (s s' : step_result) : Prop :=
  match s, s' with
  | Break vm, Break vm' => vm_agree vm vm'
  | GotoDone e r vm, GotoDone e' r' vm' => e = e' /\ r = r' /\ vm_agree vm vm'
  | Return e vm, Return e' vm' => e = e' /\ vm_agree vm vm'
  | StepUndefined, StepUndefined => True
  | StepOutOfGas, StepOutOfGas => True
  | _, _ => False
  end.

(** Bounds safety of one instruction that names the ranges [ranges],
    whose result is [step] on [vm] and [step2 mem2] on [vm] with its
    memory replaced by [mem2]: a range out of bounds makes the
    instruction return [RUNE_ERR_BOUNDS] with the memory untouched; if
    the instruction completes, every range was in bounds and no byte
    outside the linear memory has changed; and the result does not
    depend on the bytes outside the linear memory. *)
Definition safe_access (vm : rune_vm_t) (ranges : list (Z * Z)) (step : step_result)
    (step2 : memory_t -> step_result) : Prop :=
  (Exists (fun r => ~ in_bounds vm r) ranges ->
     exists vm', step = Return RUNE_ERR_BOUNDS vm' /\
                 memory vm' = memory vm /\ memory_pages vm' = memory_pages vm) /\
  (forall vm', step = Break vm' ->
     Forall (fun r => 0 <= fst r /\ in_bounds vm r) ranges /\
     memory_pages vm' = memory_pages vm /\
     same_outside_linear vm (memory vm) (memory vm')) /\
  (forall mem mem2, memory vm = Some mem ->
     (forall a, linear vm a -> mem2 a = mem a) ->
     step_agree step (step2 mem2)).

(** The VM that a step leaves, whichever way the [switch] is left. *)
Definition step_vm (s : step_result) : option rune_vm_t :=
  match s with
  | Break vm | GotoDone _ _ vm | Return _ vm => Some vm
  | StepUndefined | StepOutOfGas => None
  end.

(** The VM and the value of a finished call. *)
Definition result_vm (r : exec_result) (d : rune_vm_t) : rune_vm_t :=
  match r with Done _ _ vm => vm | _ => d end.

Definition result_ret (r : exec_result) (d : rune_val_t) : rune_val_t :=
  match r with Done _ ret _ => ret | _ => d end.

Definition result_err (r : exec_result) : option rune_err_t :=
  match r with Done e _ _ => Some e | _ => None end.

(** The reader [r'] is [r] moved forward. *)
Definition reader_le (r r' : reader_t) : Prop :=
  r_pos r <= r_pos r' /\ r_base r' = r_base r.

(** A parser started at [r] has not used up the budget of the
    embedding, and has moved the reader forward if it succeeded. *)
Definition parse_good {A} (r : reader_t) (p : parse_result A) : Prop :=
  match p with
  | Parsed _ r' => reader_le r r'
  | ParseOutOfGas => False
  | _ => True
  end.

(** An export index that is valid for its kind. *)
Definition export_valid (abi : rune_abi) (m : rune_module_t) (e : rune_export_t) : Prop :=
  (e_kind e = RUNE_EXPORT_FUNC abi /\ 0 <= e_idx e < func_count m) \/
  (e_kind e = RUNE_EXPORT_MEMORY abi /\ e_idx e = 0 /\ has_memory m = true) \/
  (e_kind e = RUNE_EXPORT_GLOBAL abi /\ 0 <= e_idx e < global_count m).

(** Type indices reference entries of the type section and export
    indices are valid per kind. *)
Definition indices_valid (abi : rune_abi) (m : rune_module_t) : Prop :=
  Forall (fun f => 0 <= type_idx f < type_count m) (funcs m) /\
  Forall (fun i => 0 <= imp_type_idx i < type_count m) (imports m) /\
  Forall (export_valid abi m) (exports m).

(** What the loader does establish: limits on counts and field widths. *)
Definition type_ok (t : rune_func_type_t) : Prop :=
  0 <= param_count t <= RUNE_MAX_PARAMS /\ 0 <= return_count t <= 1 /\
  zlen (param_types t) = param_count t /\ zlen (return_types t) = return_count t.

Definition fields_in_range (m : rune_module_t) : Prop :=
  Forall type_ok (types m) /\
  Forall (fun f => 0 <= type_idx f < 2 ^ 16) (funcs m) /\
  Forall (fun i => 0 <= imp_type_idx i < 2 ^ 16) (imports m) /\
  Forall (fun e => 0 <= e_kind e < 2 ^ 8 /\ 0 <= e_idx e < 2 ^ 32) (exports m).

(** The module with the [mutable] flag of every global replaced. *)
Definition with_mutable (f : rune_global_t -> bool) (m : rune_module_t) : rune_module_t :=
  set_module_globals
    (map (fun g => {| g_type := g_type g; g_mutable := f g; g_value := g_value g |})
         (globals m)) m.

(** The tables that [rune_vm_free] walks and the configuration are the
    same in both VMs. *)
Definition same_shell (vm vm' : rune_vm_t) : Prop :=
  cfg vm' = cfg vm /\ host_fns vm' = host_fns vm /\
  length (frames vm') = length (frames vm) /\
  initialized vm' = initialized vm.

(** *** Stack discipline *)

(** The codes of the two early returns, [MEM_CHECK] and [FUEL_TICK],
    which leave [vm_exec] without passing through [done:]. *)
Definition early_return (e : rune_err_t) : Prop :=
  e = RUNE_ERR_BOUNDS \/ e = RUNE_ERR_FUEL.

(** What a step that goes on, or leaves by [goto done] with a code
    other than those of the early returns, does to [frame_count]. *)
Definition keeps_depth (vm : rune_vm_t) (s : step_result) : Prop :=
  match s with
  | Break vm' => frame_count vm' = frame_count vm
  | GotoDone e _ vm' => ~ early_return e -> frame_count vm' = frame_count vm
  | _ => True
  end.


(** * The bytecode assembler

    A shallow embedding of [src/compiler/rune_asm.c], with the names of
    its structures and functions.  An assertion that fails and an
    access outside an array are results of their own. *)

Module Asm.

Inductive asm_result (A : Type) : Type :=
| AsmOk (x : A)
| AsmAbort         (* an [assert] failed *)
| AsmUndefined.    (* a read or write outside an array *)
Arguments AsmOk {A} x.
Arguments AsmAbort {A}.
Arguments AsmUndefined {A}.

Definition asm_bind {A B} (e : asm_result A) (k : A -> asm_result B) : asm_result B :=
  match e with
  | AsmOk x => k x
  | AsmAbort => AsmAbort
  | AsmUndefined => AsmUndefined
  end.

Notation "'run' p <- e ;; k" := (asm_bind e (fun p => k))
  (at level 10, p pattern, e at level 99, k at level 200).

(** ** Dynamic buffer

    A [buf_t] is the list of its [len] bytes; [buf_reserve] and the
    capacity concern the allocation only. *)
Definition buf_t : Type := list Z.

Definition buf_push_u8 (b : buf_t) (v : Z) : buf_t := b ++ [u8 v].

Definition buf_push_u16 (b : buf_t) (v : Z) : buf_t :=
  let b := buf_push_u8 b v in
  buf_push_u8 b (Z.shiftr v 8).

Definition buf_push_u32 (b : buf_t) (v : Z) : buf_t :=
  let b := buf_push_u8 b v in
  let b := buf_push_u8 b (Z.shiftr v 8) in
  let b := buf_push_u8 b (Z.shiftr v 16) in
  buf_push_u8 b (Z.shiftr v 24).

Definition buf_push_u64 (b : buf_t) (v : Z) : buf_t :=
  let b := buf_push_u32 b (u32 v) in
  buf_push_u32 b (u32 (Z.shiftr v 32)).

(** [memcpy(b->data + b->len, src, n)] *)
Definition buf_push_bytes (b : buf_t) (src : list Z) (n : Z) : buf_t :=
  b ++ take (Z.to_nat n) src.

(** [strlen] *)
Definition strlen (s : list Z) : Z := zlen (c_str s).

Definition buf_push_str8 (b : buf_t) (s : list Z) : buf_t :=
  let len := u8 (strlen s) in
  let b := buf_push_u8 b len in
  buf_push_bytes b s len.

(** Patch a uint32 at position [pos]. *)
Definition buf_patch_u32 (b : buf_t) (pos : Z) (v : Z) : asm_result buf_t :=
  if zlen b <? pos + 4 then AsmAbort
  else
    let p := Z.to_nat pos in
    AsmOk (<[(p + 3)%nat := u8 (Z.shiftr v 24)]>
           (<[(p + 2)%nat := u8 (Z.shiftr v 16)]>
            (<[(p + 1)%nat := u8 (Z.shiftr v 8)]>
             (<[p := u8 v]> b)))).

(** ** Assembler state *)

Definition MAX_TYPES : Z := 512.
Definition MAX_IMPORTS : Z := 512.
Definition MAX_FUNCS : Z := 4096.
Definition MAX_EXPORTS : Z := 512.
Definition MAX_GLOBALS : Z := 512.
Definition MAX_DATA : Z := 512.

Record asm_type_t : Type := {
  param_count : Z;
  return_count : Z;
  params : list Z;          (* rune_type_t params[RUNE_MAX_PARAMS] *)
  rets : list Z             (* rune_type_t rets[1] *)
}.

(** The character arrays hold the string that [strncpy] left in zeroed
    storage. *)
Record asm_import_t : Type := {
  module : list Z;          (* char module[64] *)
  name : list Z;            (* char name[64] *)
  type_idx : Z
}.

Record asm_func_t : Type := {
  f_type_idx : Z;
  reg_count : Z;
  local_count : Z;
  is_import : bool;
  import_idx : Z;
  code : buf_t
}.

Record asm_export_t : Type := {
  kind : Z;
  idx : Z;
  e_name : list Z           (* char name[128] *)
}.

Record asm_global_t : Type := {
  g_type : Z;
  mutable : bool;
  init : rune_val_t
}.

Record asm_data_t : Type := {
  offset : Z;
  data : list Z;
  size : Z
}.

(** The arrays of [struct rune_asm] are the lists of their first
    [*_count] elements. *)
Record rune_asm_t : Type := {
  types : list asm_type_t;
  imports : list asm_import_t;
  funcs : list asm_func_t;
  exports : list asm_export_t;
  globals : list asm_global_t;
  data_segs : list asm_data_t;
  has_memory : bool;
  mem_initial : Z;
  mem_max : Z;
  current_func : Z          (* int32_t *)
}.

Definition type_count (a : rune_asm_t) : Z := zlen (types a).
Definition import_count (a : rune_asm_t) : Z := zlen (imports a).
Definition func_count (a : rune_asm_t) : Z := zlen (funcs a).
Definition export_count (a : rune_asm_t) : Z := zlen (exports a).
Definition global_count (a : rune_asm_t) : Z := zlen (globals a).
Definition data_seg_count (a : rune_asm_t) : Z := zlen (data_segs a).

Definition set_types (l : list asm_type_t) (a : rune_asm_t) : rune_asm_t :=
  {| types := l; imports := imports a; funcs := funcs a; exports := exports a;
     globals := globals a; data_segs := data_segs a; has_memory := has_memory a;
     mem_initial := mem_initial a; mem_max := mem_max a;
     current_func := current_func a |}.
Definition set_imports (l : list asm_import_t) (a : rune_asm_t) : rune_asm_t :=
  {| types := types a; imports := l; funcs := funcs a; exports := exports a;
     globals := globals a; data_segs := data_segs a; has_memory := has_memory a;
     mem_initial := mem_initial a; mem_max := mem_max a;
     current_func := current_func a |}.
Definition set_funcs (l : list asm_func_t) (a : rune_asm_t) : rune_asm_t :=
  {| types := types a; imports := imports a; funcs := l; exports := exports a;
     globals := globals a; data_segs := data_segs a; has_memory := has_memory a;
     mem_initial := mem_initial a; mem_max := mem_max a;
     current_func := current_func a |}.
Definition set_exports (l : list asm_export_t) (a : rune_asm_t) : rune_asm_t :=
  {| types := types a; imports := imports a; funcs := funcs a; exports := l;
     globals := globals a; data_segs := data_segs a; has_memory := has_memory a;
     mem_initial := mem_initial a; mem_max := mem_max a;
     current_func := current_func a |}.
Definition set_globals (l : list asm_global_t) (a : rune_asm_t) : rune_asm_t :=
  {| types := types a; imports := imports a; funcs := funcs a; exports := exports a;
     globals := l; data_segs := data_segs a; has_memory := has_memory a;
     mem_initial := mem_initial a; mem_max := mem_max a;
     current_func := current_func a |}.
Definition set_data_segs (l : list asm_data_t) (a : rune_asm_t) : rune_asm_t :=
  {| types := types a; imports := imports a; funcs := funcs a; exports := exports a;
     globals := globals a; data_segs := l; has_memory := has_memory a;
     mem_initial := mem_initial a; mem_max := mem_max a;
     current_func := current_func a |}.
Definition set_memory (initial max : Z) (a : rune_asm_t) : rune_asm_t :=
  {| types := types a; imports := imports a; funcs := funcs a; exports := exports a;
     globals := globals a; data_segs := data_segs a; has_memory := true;
     mem_initial := initial; mem_max := max;
     current_func := current_func a |}.
Definition set_current_func (i : Z) (a : rune_asm_t) : rune_asm_t :=
  {| types := types a; imports := imports a; funcs := funcs a; exports := exports a;
     globals := globals a; data_segs := data_segs a; has_memory := has_memory a;
     mem_initial := mem_initial a; mem_max := mem_max a;
     current_func := i |}.

Definition set_code (c : buf_t) (f : asm_func_t) : asm_func_t :=
  {| f_type_idx := f_type_idx f; reg_count := reg_count f;
     local_count := local_count f; is_import := is_import f;
     import_idx := import_idx f; code := c |}.

(** [strncpy(dst, src, n)] into zeroed storage of [n + 1] bytes. *)
Definition strncpy (src : list Z) (n : Z) : list Z :=
  take (Z.to_nat n) (c_str src).

(** A zeroed element of [funcs]. *)
Definition zero_func : asm_func_t :=
  {| f_type_idx := 0; reg_count := 0; local_count := 0; is_import := false;
     import_idx := 0; code := [] |}.

Section WithNumbers.

(** The numbering of [rune_sect_id_t]: the number that
    [(uint8_t)id] converts. *)
Context (abi : rune_abi) (sect_num : rune_sect_id_t -> Z).

(** ** API implementation *)

Definition rune_asm_new : rune_asm_t :=
  {| types := []; imports := []; funcs := []; exports := []; globals := [];
     data_segs := []; has_memory := false; mem_initial := 0; mem_max := 0;
     current_func := -1 |}.

(** [params] and [rets] are the caller's arrays, [None] for [NULL]. *)
Definition rune_asm_type (a : rune_asm_t) (pc : Z) (params_ : option (list Z))
    (rc : Z) (rets_ : option (list Z)) : asm_result (Z * rune_asm_t) :=
  let pc := u8 pc in
  let rc := u8 rc in
  if negb (type_count a <? MAX_TYPES) then AsmAbort
  else
    let src := match params_ with Some l => l | None => [] end in
    if (RUNE_MAX_PARAMS <? pc) || (zlen src <? pc) then AsmUndefined
    else
      let ps := take (Z.to_nat pc) src
                ++ replicate (Z.to_nat (RUNE_MAX_PARAMS - pc)) 0 in
      run rs <-
        (match rets_ with
         | Some l =>
             if rc =? 0 then AsmOk [0]
             else if (1 <? rc) || (zlen l <? rc) then AsmUndefined
             else AsmOk (take 1 l)
         | None => AsmOk [0]
         end) ;;
      let t := {| param_count := pc; return_count := rc; params := ps; rets := rs |} in
      AsmOk (u16 (type_count a), set_types (types a ++ [t]) a).

Definition rune_asm_import (a : rune_asm_t) (mod_ name_ : list Z) (type_idx_ : Z)
  : asm_result (Z * rune_asm_t) :=
  let type_idx_ := u16 type_idx_ in
  if negb (import_count a <? MAX_IMPORTS) then AsmAbort
  else if negb (func_count a <? MAX_FUNCS) then AsmAbort
  else
    let imp_idx := import_count a in
    let func_idx := func_count a in
    let im := {| module := strncpy mod_ 63; name := strncpy name_ 63;
                 type_idx := type_idx_ |} in
    let f := {| f_type_idx := type_idx_; reg_count := 0; local_count := 0;
                is_import := true; import_idx := imp_idx; code := [] |} in
    AsmOk (func_idx, set_funcs (funcs a ++ [f]) (set_imports (imports a ++ [im]) a)).

Definition rune_asm_memory (a : rune_asm_t) (initial max : Z) : rune_asm_t :=
  let initial := u16 initial in
  let max := u16 max in
  set_memory initial (if max =? 0 then initial else max) a.

Definition rune_asm_func (a : rune_asm_t) (type_idx_ reg_count_ local_count_ : Z)
  : asm_result (Z * rune_asm_t) :=
  if negb (func_count a <? MAX_FUNCS) then AsmAbort
  else
    let f := {| f_type_idx := u16 type_idx_; reg_count := u8 reg_count_;
                local_count := u8 local_count_; is_import := false;
                import_idx := 0; code := [] |} in
    AsmOk (func_count a, set_funcs (funcs a ++ [f]) a).

Definition rune_asm_export_func (a : rune_asm_t) (func_idx : Z) (name_ : list Z)
  : asm_result rune_asm_t :=
  if negb (export_count a <? MAX_EXPORTS) then AsmAbort
  else
    let e := {| kind := RUNE_EXPORT_FUNC abi; idx := u32 func_idx;
                e_name := strncpy name_ 127 |} in
    AsmOk (set_exports (exports a ++ [e]) a).

Definition rune_asm_export_memory (a : rune_asm_t) (name_ : list Z)
  : asm_result rune_asm_t :=
  if negb (export_count a <? MAX_EXPORTS) then AsmAbort
  else
    let e := {| kind := RUNE_EXPORT_MEMORY abi; idx := 0;
                e_name := strncpy name_ 127 |} in
    AsmOk (set_exports (exports a ++ [e]) a).

Definition rune_asm_global (a : rune_asm_t) (type_ : Z) (mutable_ : bool)
    (init_ : rune_val_t) : asm_result (Z * rune_asm_t) :=
  if negb (global_count a <? MAX_GLOBALS) then AsmAbort
  else
    let g := {| g_type := type_; mutable := mutable_; init := init_ |} in
    AsmOk (global_count a, set_globals (globals a ++ [g]) a).

(** [data_] is the caller's array, of which [size_] bytes are copied. *)
Definition rune_asm_data (a : rune_asm_t) (offset_ : Z) (data_ : list Z) (size_ : Z)
  : asm_result rune_asm_t :=
  let size_ := u32 size_ in
  if negb (data_seg_count a <? MAX_DATA) then AsmAbort
  else if zlen data_ <? size_ then AsmUndefined
  else
    let d := {| offset := u32 offset_; data := take (Z.to_nat size_) data_;
                size := size_ |} in
    AsmOk (set_data_segs (data_segs a ++ [d]) a).

Definition rune_asm_begin_code (a : rune_asm_t) (func_idx : Z) : asm_result rune_asm_t :=
  let func_idx := u32 func_idx in
  if negb (current_func a =? -1) then AsmAbort
  else if negb (func_idx <? func_count a) then AsmAbort
  else
    match funcs a !! Z.to_nat func_idx with
    | None => AsmAbort
    | Some f =>
        if is_import f then AsmAbort
        else
          AsmOk (set_current_func (i32 func_idx)
                   (set_funcs (<[Z.to_nat func_idx := set_code [] f]> (funcs a)) a))
    end.

Definition rune_asm_end_code (a : rune_asm_t) : asm_result rune_asm_t :=
  if negb (0 <=? current_func a) then AsmAbort
  else AsmOk (set_current_func (-1) a).

(** [&a->funcs[a->current_func].code], read and assigned. *)
Definition current_code (a : rune_asm_t) : asm_result buf_t :=
  match funcs a !! Z.to_nat (current_func a) with
  | Some f => AsmOk (code f)
  | None => AsmUndefined
  end.

Definition set_current_code (a : rune_asm_t) (c : buf_t) : rune_asm_t :=
  match funcs a !! Z.to_nat (current_func a) with
  | Some f => set_funcs (<[Z.to_nat (current_func a) := set_code c f]> (funcs a)) a
  | None => a
  end.

(** [op] is the number of the opcode. *)
Definition rune_asm_emit (a : rune_asm_t) (op dst s1 s2 : Z) : asm_result rune_asm_t :=
  if negb (0 <=? current_func a) then AsmAbort
  else
    run b <- current_code a ;;
    let instr := RUNE_INSTR op dst s1 s2 in
    AsmOk (set_current_code a (buf_push_u32 b instr)).

Definition rune_asm_emit_i (a : rune_asm_t) (op dst s1 s2 imm : Z)
  : asm_result rune_asm_t :=
  run a <- rune_asm_emit a op dst s1 s2 ;;
  run b <- current_code a ;;
  AsmOk (set_current_code a (buf_push_u32 b imm)).

Definition rune_asm_emit_i64 (a : rune_asm_t) (op dst imm : Z) : asm_result rune_asm_t :=
  run a <- rune_asm_emit a op dst 0 0 ;;
  run b <- current_code a ;;
  let b := buf_push_u32 b (u32 imm) in
  let b := buf_push_u32 b (u32 (Z.shiftr (u64 imm) 32)) in
  AsmOk (set_current_code a b).

Definition rune_asm_label (a : rune_asm_t) : asm_result Z :=
  if negb (0 <=? current_func a) then AsmAbort
  else
    run b <- current_code a ;;
    AsmOk (u32 (zlen b / 4)).

Definition rune_asm_patch_jump (a : rune_asm_t) (patch_word target_word : Z)
  : asm_result rune_asm_t :=
  let patch_word := u32 patch_word in
  let target_word := u32 target_word in
  if negb (0 <=? current_func a) then AsmAbort
  else
    run b <- current_code a ;;
    (* The immediate follows the instruction word, so it's at patch_word+1 *)
    let imm_pos := u32 (patch_word + 1) * 4 in
    (* Relative offset: from the word AFTER the immediate to target *)
    let rel := i32 (i32 target_word - i32 (u32 (patch_word + 2))) in
    run b <- buf_patch_u32 b imm_pos (u32 rel) ;;
    AsmOk (set_current_code a b).

(** ** CRC-32 *)
Definition crc32_buf (data_ : list Z) : Z :=
  let crc := 4294967295 in
  let crc := fold_left (fun c b => crc32_bits 8 (Z.lxor c (u8 b))) data_ crc in
  Z.lxor crc 4294967295.

(** ** Finalize: emit binary *)

Definition emit_section (out : buf_t) (id : rune_sect_id_t) (body : buf_t) : buf_t :=
  let out := buf_push_u8 out (sect_num id) in
  let out := buf_push_u32 out (zlen body) in
  buf_push_bytes out body (zlen body).

(** [for (j = 0; j < n; j++) buf_push_u8(&sec, (uint8_t)arr[j])] *)
Definition push_tags (sec : buf_t) (arr : list Z) (n : Z) : asm_result buf_t :=
  if zlen arr <? n then AsmUndefined
  else AsmOk (fold_left buf_push_u8 (take (Z.to_nat n) arr) sec).

Fixpoint push_types (sec : buf_t) (ts : list asm_type_t) : asm_result buf_t :=
  match ts with
  | [] => AsmOk sec
  | t :: ts' =>
      let sec := buf_push_u8 sec (param_count t) in
      let sec := buf_push_u8 sec (return_count t) in
      run sec <- push_tags sec (params t) (param_count t) ;;
      run sec <- push_tags sec (rets t) (return_count t) ;;
      push_types sec ts'
  end.

Fixpoint push_imports (sec : buf_t) (l : list asm_import_t) : buf_t :=
  match l with
  | [] => sec
  | im :: l' =>
      let sec := buf_push_str8 sec (module im) in
      let sec := buf_push_str8 sec (name im) in
      let sec := buf_push_u16 sec (type_idx im) in
      push_imports sec l'
  end.

(** [body_funcs] *)
Definition body_funcs (a : rune_asm_t) : Z :=
  zlen (filter (fun f => is_import f = false) (funcs a)).

Fixpoint push_funcs (sec : buf_t) (l : list asm_func_t) : buf_t :=
  match l with
  | [] => sec
  | f :: l' =>
      if is_import f then push_funcs sec l'
      else
        let sec := buf_push_u16 sec (f_type_idx f) in
        let sec := buf_push_u8 sec (reg_count f) in
        let sec := buf_push_u8 sec (local_count f) in
        push_funcs sec l'
  end.

(** The [switch (g->type)] that fills [raw]. *)
Definition global_raw (g : asm_global_t) : Z :=
  if g_type g =? RUNE_TYPE_I32 abi then u32 (as_i32 (init g))
  else if g_type g =? RUNE_TYPE_I64 abi then u64 (as_i64 (init g))
  else if g_type g =? RUNE_TYPE_F32 abi then as_f32 (init g)
  else if g_type g =? RUNE_TYPE_F64 abi then as_f64 (init g)
  else 0.

Fixpoint push_globals (sec : buf_t) (l : list asm_global_t) : buf_t :=
  match l with
  | [] => sec
  | g :: l' =>
      let sec := buf_push_u8 sec (g_type g) in
      let sec := buf_push_u8 sec (if mutable g then 1 else 0) in
      let sec := buf_push_u64 sec (global_raw g) in
      push_globals sec l'
  end.

Fixpoint push_exports (sec : buf_t) (l : list asm_export_t) : buf_t :=
  match l with
  | [] => sec
  | e :: l' =>
      let sec := buf_push_u8 sec (kind e) in
      let sec := buf_push_u32 sec (idx e) in
      let sec := buf_push_str8 sec (e_name e) in
      push_exports sec l'
  end.

Fixpoint push_code (sec : buf_t) (l : list asm_func_t) : buf_t :=
  match l with
  | [] => sec
  | f :: l' =>
      if is_import f then push_code sec l'
      else
        let sec := buf_push_u32 sec (zlen (code f)) in
        let sec := buf_push_bytes sec (code f) (zlen (code f)) in
        push_code sec l'
  end.

Fixpoint push_data (sec : buf_t) (l : list asm_data_t) : asm_result buf_t :=
  match l with
  | [] => AsmOk sec
  | d :: l' =>
      let sec := buf_push_u8 sec 0 in   (* memory index *)
      let sec := buf_push_u32 sec (offset d) in
      let sec := buf_push_u32 sec (size d) in
      if zlen (data d) <? size d then AsmUndefined
      else push_data (buf_push_bytes sec (data d) (size d)) l'
  end.

(** The sections, in the order in which [rune_asm_finalize] emits
    them.  [out] starts after the space reserved for the header. *)
Definition finalize_sections (a : rune_asm_t) : asm_result buf_t :=
  let out : buf_t := [] in
  (* TYPE section *)
  run sec <- push_types (buf_push_u32 [] (type_count a)) (types a) ;;
  let out := if type_count a =? 0 then out else emit_section out RUNE_SECT_TYPE sec in
  (* IMPORT section *)
  let sec := push_imports (buf_push_u32 [] (import_count a)) (imports a) in
  let out := if import_count a =? 0 then out else emit_section out RUNE_SECT_IMPORT sec in
  (* FUNC section *)
  let sec := push_funcs (buf_push_u32 [] (body_funcs a)) (funcs a) in
  let out := if body_funcs a =? 0 then out else emit_section out RUNE_SECT_FUNC sec in
  (* MEMORY section *)
  let out :=
    if has_memory a then
      emit_section out RUNE_SECT_MEMORY
        (buf_push_u16 (buf_push_u16 [] (mem_initial a)) (mem_max a))
    else out in
  (* GLOBAL section *)
  let out :=
    if global_count a =? 0 then out
    else emit_section out RUNE_SECT_GLOBAL
           (push_globals (buf_push_u32 [] (global_count a)) (globals a)) in
  (* EXPORT section *)
  let out :=
    if export_count a =? 0 then out
    else emit_section out RUNE_SECT_EXPORT
           (push_exports (buf_push_u32 [] (export_count a)) (exports a)) in
  (* CODE section *)
  let out :=
    if body_funcs a =? 0 then out
    else emit_section out RUNE_SECT_CODE
           (push_code (buf_push_u32 [] (body_funcs a)) (funcs a)) in
  (* DATA section *)
  if data_seg_count a =? 0 then AsmOk out
  else
    run sec <- push_data (buf_push_u32 [] (data_seg_count a)) (data_segs a) ;;
    AsmOk (emit_section out RUNE_SECT_DATA sec).

(** Modelled from the spec: the header that is patched in front of the
    sections, [rune_file_header_t] of [rune_bytecode.h]: "magic bytes
    (4), version (u32), flags (u32), reserved (u32), crc32 (u32)",
    little-endian. *)
Definition file_header (crc : Z) : list Z :=
  take (Z.to_nat RUNE_MAGIC_LEN) (RUNE_MAGIC abi)
  ++ le_split 4 (RUNE_BC_VERSION abi) ++ le_split 4 0 ++ le_split 4 0
  ++ le_split 4 crc.

(** [rune_asm_finalize]: the bytes of the file, [*out_size] being their
    number. *)
Definition rune_asm_finalize (a : rune_asm_t) : asm_result (list Z) :=
  run body <- finalize_sections a ;;
  if zlen (RUNE_MAGIC abi) <? RUNE_MAGIC_LEN then AsmUndefined
  else AsmOk (file_header (crc32_buf body) ++ body).

End WithNumbers.

End Asm.

(** ** Reading a string from the linear memory *)

(** [dst[i] = b] in the buffer of the caller; a store past its end has
    no defined behaviour. *)
Definition buf_store (dst : list Z) (i b : Z) : option (list Z) :=
  if i <? zlen dst then Some (<[Z.to_nat i := b]> dst) else None.

(** The loop of [rune_vm_mem_readstr], with [n] iterations left from
    index [i]: the buffer, and whether the function returned from
    inside the loop, after the copy of a zero byte. *)
Fixpoint readstr_loop (mem : memory_t) (offset : Z) (n : nat) (i : Z) (dst : list Z)
  : option (list Z * bool) :=
  match n with
  | O => Some (dst, false)
  | S n' =>
      match buf_store dst i (u8 (mem (offset + i))) with
      | Some dst' =>
          if u8 (mem (offset + i)) =? 0 then Some (dst', true)
          else readstr_loop mem offset n' (i + 1) dst'
      | None => None
      end
  end.

(** [dst] is the buffer of [max_len] bytes as the caller passes it;
    the result is the error code and the buffer as the function leaves
    it. *)
Definition rune_vm_mem_readstr (vm : rune_vm_t) (offset : Z) (dst : list Z) (max_len : Z)
  : option (rune_err_t * list Z) :=
  let mem_size := memory_pages vm * RUNE_PAGE_SIZE in
  match memory vm with
  | None => Some (RUNE_ERR_BOUNDS, dst)
  | Some mem =>
      if mem_size <=? offset then Some (RUNE_ERR_BOUNDS, dst)
      else
        let avail := mem_size - offset in
        let limit := if avail <? max_len then avail else max_len in
        match readstr_loop mem offset (Z.to_nat limit) 0 dst with
        | Some (dst', true) => Some (RUNE_OK, dst')
        | Some (dst', false) =>
            if 0 <? max_len then
              match buf_store dst' (max_len - 1) 0 with
              | Some dst'' => Some (RUNE_OK, dst'')
              | None => None
              end
            else Some (RUNE_OK, dst')
        | None => None
        end
  end.

(** ** Vocabulary of the statements about the assembler and the loader *)

(** The reader has met no error and the bytes that remain to be read
    are [s]. *)
Definition reader_at (r : reader_t) (s : list Z) : Prop :=
  r_error r = false /\ 0 <= r_pos r <= r_len r /\
  drop (Z.to_nat (r_pos r)) (r_base r) = s.

Definition in_u8 (x : Z) : bool := (0 <=? x) && (x <? 2 ^ 8).
Definition in_u16 (x : Z) : bool := (0 <=? x) && (x <? 2 ^ 16).
Definition in_u32 (x : Z) : bool := (0 <=? x) && (x <? 2 ^ 32).

(** A string as a [char] array of the assembler holds it: no zero
    byte, and a length that the [uint8_t] of [buf_push_str8] holds. *)
Definition name_ok (s : list Z) : bool :=
  forallb (fun c => negb (c =? 0)) s && (zlen s <? 2 ^ 8).

(** The fields of the assembler's tables are values of their C types,
    a type has at most 16 parameters and one result, a global has one
    of the four numeric types, a body is a sequence of words and a
    data segment holds [size] bytes. *)
Definition asm_type_ok (t : Asm.asm_type_t) : bool :=
  (0 <=? Asm.param_count t) && (Asm.param_count t <=? RUNE_MAX_PARAMS)
  && (0 <=? Asm.return_count t) && (Asm.return_count t <=? 1)
  && (Asm.param_count t <=? zlen (Asm.params t))
  && (Asm.return_count t <=? zlen (Asm.rets t))
  && forallb in_u8 (take (Z.to_nat (Asm.param_count t)) (Asm.params t))
  && forallb in_u8 (take (Z.to_nat (Asm.return_count t)) (Asm.rets t)).

Definition asm_import_ok (im : Asm.asm_import_t) : bool :=
  name_ok (Asm.module im) && name_ok (Asm.name im) && in_u16 (Asm.type_idx im).

Definition asm_func_ok (f : Asm.asm_func_t) : bool :=
  Asm.is_import f
  || (in_u16 (Asm.f_type_idx f) && in_u8 (Asm.reg_count f)
      && in_u8 (Asm.local_count f) && (zlen (Asm.code f) mod 4 =? 0)).

Definition asm_global_ok (abi : rune_abi) (g : Asm.asm_global_t) : bool :=
  (Asm.g_type g =? RUNE_TYPE_I32 abi) || (Asm.g_type g =? RUNE_TYPE_I64 abi)
  || (Asm.g_type g =? RUNE_TYPE_F32 abi) || (Asm.g_type g =? RUNE_TYPE_F64 abi).

Definition asm_export_ok (e : Asm.asm_export_t) : bool :=
  in_u8 (Asm.kind e) && in_u32 (Asm.idx e) && name_ok (Asm.e_name e).

Definition asm_data_ok (d : Asm.asm_data_t) : bool :=
  in_u32 (Asm.offset d) && in_u32 (Asm.size d) && (zlen (Asm.data d) =? Asm.size d).

(** The bodies of the functions that are not imports. *)
Definition asm_bodies (a : Asm.rune_asm_t) : list Asm.asm_func_t :=
  filter (fun f => Asm.is_import f = false) (Asm.funcs a).

(** The sizes of the CODE and DATA sections. *)
Definition code_section_size (a : Asm.rune_asm_t) : Z :=
  4 + fold_right (fun f n => 4 + zlen (Asm.code f) + n) 0 (asm_bodies a).

Definition data_section_size (a : Asm.rune_asm_t) : Z :=
  4 + fold_right (fun d n => 9 + Asm.size d + n) 0 (Asm.data_segs a).

(** The state of an assembler whose tables are within the limits of
    the assembler and of the loader. *)
Definition asm_ok (abi : rune_abi) (a : Asm.rune_asm_t) : bool :=
  (Asm.type_count a <=? Asm.MAX_TYPES) && (Asm.type_count a <=? RUNE_MAX_FUNCS abi)
  && forallb asm_type_ok (Asm.types a)
  && (Asm.import_count a <=? Asm.MAX_IMPORTS)
  && (Asm.import_count a <=? RUNE_MAX_FUNCS abi)
  && forallb asm_import_ok (Asm.imports a)
  && (Asm.func_count a <=? Asm.MAX_FUNCS)
  && (Asm.import_count a + Asm.body_funcs a <=? RUNE_MAX_FUNCS abi)
  && forallb asm_func_ok (Asm.funcs a)
  && in_u16 (Asm.mem_initial a) && in_u16 (Asm.mem_max a)
  && (Asm.global_count a <=? Asm.MAX_GLOBALS)
  && (Asm.global_count a <=? RUNE_MAX_GLOBALS abi)
  && forallb (asm_global_ok abi) (Asm.globals a)
  && (Asm.export_count a <=? Asm.MAX_EXPORTS)
  && forallb asm_export_ok (Asm.exports a)
  && (Asm.data_seg_count a <=? Asm.MAX_DATA)
  && forallb asm_data_ok (Asm.data_segs a)
  && (code_section_size a <? 2 ^ 32) && (data_section_size a <? 2 ^ 32).

Definition sect_eqb (a b : rune_sect_id_t) : bool :=
  match a, b with
  | RUNE_SECT_TYPE, RUNE_SECT_TYPE | RUNE_SECT_IMPORT, RUNE_SECT_IMPORT
  | RUNE_SECT_FUNC, RUNE_SECT_FUNC | RUNE_SECT_MEMORY, RUNE_SECT_MEMORY
  | RUNE_SECT_GLOBAL, RUNE_SECT_GLOBAL | RUNE_SECT_EXPORT, RUNE_SECT_EXPORT
  | RUNE_SECT_CODE, RUNE_SECT_CODE | RUNE_SECT_DATA, RUNE_SECT_DATA
  | RUNE_SECT_UNKNOWN, RUNE_SECT_UNKNOWN => true
  | _, _ => false
  end.

(** The numbers that the headers give: the loader's [switch] maps the
    number of each section to that section, the magic tag has four
    bytes, the version is a [uint32_t], the four numeric type tags are
    bytes that differ. *)
Definition numbering_ok (abi : rune_abi) (sect_num : rune_sect_id_t -> Z) : bool :=
  forallb (fun s => sect_eqb (sect_of_u8 abi (u8 (sect_num s))) s)
    [RUNE_SECT_TYPE; RUNE_SECT_IMPORT; RUNE_SECT_FUNC; RUNE_SECT_MEMORY;
     RUNE_SECT_GLOBAL; RUNE_SECT_EXPORT; RUNE_SECT_CODE; RUNE_SECT_DATA]
  && (RUNE_MAGIC_LEN <=? zlen (RUNE_MAGIC abi))
  && in_u32 (RUNE_BC_VERSION abi)
  && forallb in_u8 [RUNE_TYPE_I32 abi; RUNE_TYPE_I64 abi; RUNE_TYPE_F32 abi;
                    RUNE_TYPE_F64 abi]
  && negb (RUNE_TYPE_I32 abi =? RUNE_TYPE_I64 abi)
  && negb (RUNE_TYPE_I32 abi =? RUNE_TYPE_F32 abi)
  && negb (RUNE_TYPE_I32 abi =? RUNE_TYPE_F64 abi)
  && negb (RUNE_TYPE_I64 abi =? RUNE_TYPE_F32 abi)
  && negb (RUNE_TYPE_I64 abi =? RUNE_TYPE_F64 abi)
  && negb (RUNE_TYPE_F32 abi =? RUNE_TYPE_F64 abi).

(** *** The module that the loader builds from an assembled file *)

Definition loaded_type (t : Asm.asm_type_t) : rune_func_type_t :=
  {| param_types := take (Z.to_nat (Asm.param_count t)) (Asm.params t);
     return_types := take (Z.to_nat (Asm.return_count t)) (Asm.rets t);
     param_count := Asm.param_count t;
     return_count := Asm.return_count t |}.

Definition loaded_import (im : Asm.asm_import_t) : rune_import_t :=
  {| imp_module := Asm.module im; imp_name := Asm.name im;
     imp_type_idx := Asm.type_idx im |}.

(** A body after the FUNC section, and after the CODE section. *)
Definition declared_body (f : Asm.asm_func_t) : rune_func_t :=
  {| type_idx := Asm.f_type_idx f; reg_count := Asm.reg_count f;
     local_count := Asm.local_count f; code := []; code_size := 0;
     is_import := false; import_idx := 0 |}.

Definition loaded_body (f : Asm.asm_func_t) : rune_func_t :=
  {| type_idx := Asm.f_type_idx f; reg_count := Asm.reg_count f;
     local_count := Asm.local_count f; code := Asm.code f;
     code_size := zlen (Asm.code f); is_import := false; import_idx := 0 |}.

(** The function table: the imports first, in their order, then the
    bodies, in theirs; empty when there is no body, since no FUNC
    section is written then. *)
Definition loaded_funcs (a : Asm.rune_asm_t) : list rune_func_t :=
  match asm_bodies a with
  | [] => []
  | bodies => import_funcs (map loaded_import (Asm.imports a)) ++ map loaded_body bodies
  end.

(** The value of a global has the tag of the declared type and the
    bits of the initial value that the type covers. *)
Definition loaded_global (abi : rune_abi) (g : Asm.asm_global_t) : rune_global_t :=
  {| g_type := Asm.g_type g;
     g_mutable := Asm.mutable g;
     g_value :=
       {| vtype := Asm.g_type g;
          vbits := if (Asm.g_type g =? RUNE_TYPE_I32 abi)
                      || (Asm.g_type g =? RUNE_TYPE_F32 abi)
                   then u32 (vbits (Asm.init g))
                   else u64 (vbits (Asm.init g)) |} |}.

Definition loaded_export (e : Asm.asm_export_t) : rune_export_t :=
  {| e_kind := Asm.kind e; e_idx := Asm.idx e; e_name := Asm.e_name e |}.

Definition loaded_data (d : Asm.asm_data_t) : rune_data_seg_t :=
  {| seg_offset := Asm.offset d; seg_data := Asm.data d; seg_size := Asm.size d |}.

Definition loaded_module (abi : rune_abi) (a : Asm.rune_asm_t) : rune_module_t :=
  let es := map loaded_export (Asm.exports a) in
  {| types := map loaded_type (Asm.types a);
     imports := map loaded_import (Asm.imports a);
     funcs := loaded_funcs a;
     globals := map (loaded_global abi) (Asm.globals a);
     exports := es;
     mem_initial_pages := if Asm.has_memory a then Asm.mem_initial a else 0;
     mem_max_pages := if Asm.has_memory a then Asm.mem_max a else 0;
     has_memory := Asm.has_memory a;
     data_segs := map loaded_data (Asm.data_segs a);
     init_func := match find_init abi es with Some i => i | None => -1 end |}.

(** *** Indices that refer to no entry *)

(** Some index of the assembler's tables refers to no entry of the
    table it is an index of: the type index of an import or of a body
    is not below the number of types, or the index of an export is
    positive and below neither the number of functions nor the number
    of globals (so that it is valid for no kind). *)
Definition asm_dangling (a : Asm.rune_asm_t) : bool :=
  existsb (fun im => Asm.type_count a <=? Asm.type_idx im) (Asm.imports a)
  || existsb (fun f => Asm.type_count a <=? Asm.f_type_idx f) (asm_bodies a)
  || existsb (fun e => (0 <? Asm.idx e) && (zlen (loaded_funcs a) <=? Asm.idx e)
                       && (Asm.global_count a <=? Asm.idx e)) (Asm.exports a).

(** * The embedding example

    [examples/host.c]: the module that [build_demo_module] assembles
    and the host functions that [main] registers. *)

Module Host.

Import Asm.

(** The numbers of the sections in the sample numbering. *)
Definition sect_num (s : rune_sect_id_t) : Z :=
  match s with
  | RUNE_SECT_UNKNOWN => 0
  | RUNE_SECT_TYPE => 1 | RUNE_SECT_IMPORT => 2 | RUNE_SECT_FUNC => 3
  | RUNE_SECT_MEMORY => 4 | RUNE_SECT_GLOBAL => 5 | RUNE_SECT_EXPORT => 6
  | RUNE_SECT_CODE => 7 | RUNE_SECT_DATA => 8
  end.

Definition abi : rune_abi := Sample.abi.
Definition op (o : rune_opcode_t) : Z := Sample.num o.

(** The string literals, as their bytes. *)
Definition str_env : list Z := [101; 110; 118].
Definition str_print_i32 : list Z := [112; 114; 105; 110; 116; 95; 105; 51; 50].
Definition str_print_str : list Z := [112; 114; 105; 110; 116; 95; 115; 116; 114].
Definition str_get_time : list Z := [103; 101; 116; 95; 116; 105; 109; 101].
Definition str_memory : list Z := [109; 101; 109; 111; 114; 121].
Definition str_compute : list Z := [99; 111; 109; 112; 117; 116; 101].
Definition str_greet : list Z := [103; 114; 101; 101; 116].
Definition str_timestamp : list Z := [116; 105; 109; 101; 115; 116; 97; 109; 112].
Definition greeting : list Z := [72; 101; 108; 108; 111; 32; 102; 114; 111; 109; 32; 82; 117; 110; 101; 33].

(** Modelled from the spec: [rune_asm_ldi32], an inline function of
    [rune_asm.h], emits "LDI32 dst, imm32". *)
Definition rune_asm_ldi32 (a : rune_asm_t) (dst val : Z) : asm_result rune_asm_t :=
  rune_asm_emit_i a (op OP_LDI32) dst 0 0 (u32 val).

(** The state of the assembler when [build_demo_module] calls
    [rune_asm_finalize]. *)
Definition demo_asm : asm_result rune_asm_t :=
  let a := rune_asm_new in
  (* Types *)
  let p_i32 := [RUNE_TYPE_I32 abi] in
  let p_ptr_i32 := [RUNE_TYPE_PTR abi; RUNE_TYPE_I32 abi] in
  let r_i32 := [RUNE_TYPE_I32 abi] in
  let r_i64 := [RUNE_TYPE_I64 abi] in
  let p_2i32 := [RUNE_TYPE_I32 abi; RUNE_TYPE_I32 abi] in
  run (t_void_void, a) <- rune_asm_type a 0 None 0 None ;;
  run (t_i32_void, a) <- rune_asm_type a 1 (Some p_i32) 0 None ;;
  run (t_ptr_i32_void, a) <- rune_asm_type a 2 (Some p_ptr_i32) 0 None ;;
  run (t_void_i64, a) <- rune_asm_type a 0 None 1 (Some r_i64) ;;
  run (t_2i32_i32, a) <- rune_asm_type a 2 (Some p_2i32) 1 (Some r_i32) ;;
  (* Imports *)
  run (fn_print_i32, a) <- rune_asm_import a str_env str_print_i32 t_i32_void ;;
  run (fn_print_str, a) <- rune_asm_import a str_env str_print_str t_ptr_i32_void ;;
  run (fn_get_time, a) <- rune_asm_import a str_env str_get_time t_void_i64 ;;
  (* Memory: 1 page = 64KiB *)
  let a := rune_asm_memory a 1 4 in
  run a <- rune_asm_export_memory abi a str_memory ;;
  (* Data: "Hello from Rune!" at offset 0 *)
  run a <- rune_asm_data a 0 greeting (strlen greeting) ;;
  (* fn compute(a: i32, b: i32) -> i32 *)
  run (fn_compute, a) <- rune_asm_func a t_2i32_i32 4 0 ;;
  run a <- rune_asm_export_func abi a fn_compute str_compute ;;
  run a <- rune_asm_begin_code a fn_compute ;;
  run a <- rune_asm_emit a (op OP_ADD32) 2 0 1 ;;
  run a <- rune_asm_emit a (op OP_ARG) 0 2 0 ;;
  run a <- rune_asm_emit_i a (op OP_CALL_HOST) 3 0 0 fn_print_i32 ;;
  run a <- rune_asm_emit a (op OP_MOV) 0 2 0 ;;
  run a <- rune_asm_emit a (op OP_RET) 0 0 0 ;;
  run a <- rune_asm_end_code a ;;
  (* fn greet() *)
  run (t_void_void2, a) <- rune_asm_type a 0 None 0 None ;;
  run (fn_greet, a) <- rune_asm_func a t_void_void2 4 0 ;;
  run a <- rune_asm_export_func abi a fn_greet str_greet ;;
  run a <- rune_asm_begin_code a fn_greet ;;
  run a <- rune_asm_ldi32 a 0 0 ;;
  run a <- rune_asm_ldi32 a 1 (i32 (strlen greeting)) ;;
  run a <- rune_asm_emit a (op OP_ARG) 0 0 0 ;;
  run a <- rune_asm_emit a (op OP_ARG) 1 1 0 ;;
  run a <- rune_asm_emit_i a (op OP_CALL_HOST) 2 0 0 fn_print_str ;;
  run a <- rune_asm_emit a (op OP_RET) 0 0 0 ;;
  run a <- rune_asm_end_code a ;;
  (* fn timestamp() -> i64 *)
  run (fn_ts, a) <- rune_asm_func a t_void_i64 2 0 ;;
  run a <- rune_asm_export_func abi a fn_ts str_timestamp ;;
  run a <- rune_asm_begin_code a fn_ts ;;
  run a <- rune_asm_emit_i a (op OP_CALL_HOST) 0 0 0 fn_get_time ;;
  run a <- rune_asm_emit a (op OP_RET) 0 0 0 ;;
  run a <- rune_asm_end_code a ;;
  AsmOk a.

Definition demo_state : rune_asm_t :=
  match demo_asm with
  | AsmOk a => a
  | _ => rune_asm_new
  end.

Definition build_demo_module : asm_result (list Z) :=
  run a <- demo_asm ;;
  rune_asm_finalize abi sect_num a.

End Host.

(** * An assembler with dangling indices

    No type is declared, [env::f] is imported with type 7, the one body
    has type 9 and function 5 is exported as [f]. *)

Module Dangling.

Import Asm.

Definition asm : asm_result rune_asm_t :=
  let a := rune_asm_new in
  run (fn_f, a) <- rune_asm_import a Demo.name_env Demo.name_f 7 ;;
  run (fn, a) <- rune_asm_func a 9 4 0 ;;
  run a <- rune_asm_export_func Sample.abi a 5 Demo.name_f ;;
  run a <- rune_asm_begin_code a fn ;;
  run a <- rune_asm_emit a (Sample.num OP_RET) 0 0 0 ;;
  run a <- rune_asm_end_code a ;;
  AsmOk a.

Definition state : rune_asm_t :=
  match asm with
  | AsmOk a => a
  | _ => rune_asm_new
  end.

End Dangling.

(** * Properties *)

(** ** The tests of the repository

    The scenarios of [tests/test_vm.c], run on the embedding. *)

Example test_add_i32 :
  let vm0 := rune_vm_new Sample.abi None in
  let call a b := Demo.init_then_call 5 Demo.m_add vm0 Demo.name_f [Demo.i32v a; Demo.i32v b] in
  option_map as_i32 (Some (result_ret (call 10 32) zero_val)) = Some 42 /\
  option_map as_i32 (Some (result_ret (call (-1) (-1)) zero_val)) = Some (-2) /\
  option_map as_i32 (Some (result_ret (call 0 0) zero_val)) = Some 0 /\
  result_err (call 10 32) = Some RUNE_OK.
Proof. vm_compute. repeat split; reflexivity. Qed.

Example test_memory :
  let vm0 := rune_vm_new Sample.abi None in
  let call v := Demo.init_then_call 9 Demo.m_store_load vm0 Demo.name_f [Demo.i32v v] in
  result_err (call 12345) = Some RUNE_OK /\
  as_i32 (result_ret (call 12345) zero_val) = 12345 /\
  as_i32 (result_ret (call (-99)) zero_val) = -99.
Proof. vm_compute. repeat split; reflexivity. Qed.

Example test_branching :
  let vm0 := rune_vm_new Sample.abi None in
  let call a b := Demo.init_then_call 9 Demo.m_max vm0 Demo.name_f [Demo.i32v a; Demo.i32v b] in
  as_i32 (result_ret (call 10 5) zero_val) = 10 /\
  as_i32 (result_ret (call 3 7) zero_val) = 7 /\
  as_i32 (result_ret (call 4 4) zero_val) = 4.
Proof. vm_compute. repeat split; reflexivity. Qed.

Example test_div_by_zero :
  let vm0 := rune_vm_new Sample.abi None in
  let call a b := Demo.init_then_call 5 Demo.m_div vm0 Demo.name_f [Demo.i32v a; Demo.i32v b] in
  result_err (call 10 2) = Some RUNE_OK /\
  as_i32 (result_ret (call 10 2) zero_val) = 5 /\
  result_err (call 10 0) = Some RUNE_ERR_DIVZERO.
Proof. vm_compute. repeat split; reflexivity. Qed.

Example test_fuel_limit :
  let vm0 := rune_vm_new Sample.abi (Some (Demo.cfg_fuel 100)) in
  let res := Demo.init_then_call 200 Demo.m_loop vm0 Demo.name_f [] in
  result_err res = Some RUNE_ERR_FUEL /\ fuel_used (result_vm res vm0) = 101.
Proof. vm_compute. split; reflexivity. Qed.

Example test_host_calls :
  let vm0 := register_all (rune_vm_new Sample.abi None)
               [(Demo.name_env, Demo.name_f, Demo.host_noop, 0)] in
  let res := Demo.init_then_call 12 Demo.m_call_twice vm0 Demo.name_f
               [Demo.i32v 3; Demo.i32v 7] in
  result_err res = Some RUNE_OK /\ as_i32 (result_ret res zero_val) = 10.
Proof. vm_compute. split; reflexivity. Qed.

Example test_unresolved_import :
  result_err (rune_vm_init Sample.abi 5 Demo.m_call_twice (rune_vm_new Sample.abi None))
  = Some RUNE_ERR_NOIMPORT.
Proof. vm_compute. reflexivity. Qed.



(** ** Machine integers *)

Lemma u32_range x : 0 <= u32 x < 2 ^ 32.
Proof. unfold u32. apply Z.mod_pos_bound. lia. Qed.

Lemma u8_range x : 0 <= u8 x < 2 ^ 8.
Proof. unfold u8. apply Z.mod_pos_bound. lia. Qed.

Lemma as_u32_range v : 0 <= as_u32 v < 2 ^ 32.
Proof. apply u32_range. Qed.

(** ** Frame accessors leave the rest of the VM alone *)

Lemma set_R_frames vm fp n v vm' :
  set_R vm fp n v = Some vm' -> vm' = set_frames (frames vm') vm.
Proof.
  unfold set_R. intros H.
  destruct (frames vm !! fp) as [fr|]; [|discriminate].
  destruct (fr_regs fr) as [regs|]; [|discriminate].
  destruct (_ <? _)%nat; [|discriminate].
  injection H as <-. reflexivity.
Qed.

Lemma set_PC_frames vm fp pc vm' :
  set_PC vm fp pc = Some vm' -> vm' = set_frames (frames vm') vm.
Proof.
  unfold set_PC. intros H.
  destruct (frames vm !! fp) as [fr|]; [|discriminate].
  injection H as <-. reflexivity.
Qed.

Lemma read_imm32_frames code vm fp w vm' :
  read_imm32 code vm fp = Some (w, vm') -> vm' = set_frames (frames vm') vm.
Proof.
  unfold read_imm32. intros H.
  destruct (PC vm fp) as [pc|]; [|discriminate].
  destruct (code !! Z.to_nat pc); [|discriminate].
  destruct (set_PC vm fp (u32 (pc + 1))) as [vm1|] eqn:E; [|discriminate].
  injection H as _ <-. eapply set_PC_frames; eauto.
Qed.

Lemma set_R_set_memory x vm fp n v :
  set_R (set_memory x vm) fp n v = option_map (set_memory x) (set_R vm fp n v).
Proof.
  unfold set_R; simpl.
  destruct (frames vm !! fp) as [fr|]; [|reflexivity].
  destruct (fr_regs fr) as [regs|]; [|reflexivity].
  destruct (_ <? _)%nat; reflexivity.
Qed.

Lemma read_imm32_set_memory x code vm fp :
  read_imm32 code (set_memory x vm) fp =
  option_map (fun p => (fst p, set_memory x (snd p))) (read_imm32 code vm fp).
Proof.
  unfold read_imm32, PC, set_PC; simpl.
  destruct (frames vm !! fp) as [fr|]; [|reflexivity].
  destruct (code !! Z.to_nat (fr_pc fr)); reflexivity.
Qed.

(** ** Bounds of the linear memory (C1) *)

Lemma MEM_CHECK_true vm off sz :
  MEM_CHECK vm off sz = true ->
  (exists mem, memory vm = Some mem) /\ off + sz <= memory_pages vm * RUNE_PAGE_SIZE.
Proof.
  unfold MEM_CHECK. destruct (memory vm) as [mem|]; [|discriminate].
  intros H. apply negb_true_iff, Z.ltb_ge in H. eauto.
Qed.

Lemma MEM_CHECK_oob vm off sz :
  memory_pages vm * RUNE_PAGE_SIZE < off + sz -> MEM_CHECK vm off sz = false.
Proof.
  unfold MEM_CHECK. intros H. destruct (memory vm); [|reflexivity].
  apply negb_false_iff, Z.ltb_lt. exact H.
Qed.

Lemma MEM_CHECK_frames f vm off sz :
  MEM_CHECK (set_frames f vm) off sz = MEM_CHECK vm off sz.
Proof. reflexivity. Qed.

Lemma MEM_CHECK_set_memory mem mem2 vm off sz :
  memory vm = Some mem ->
  MEM_CHECK (set_memory (Some mem2) vm) off sz = MEM_CHECK vm off sz.
Proof. unfold MEM_CHECK. intros ->. reflexivity. Qed.

Lemma mem_load_agree mem mem2 off n lim :
  0 <= off -> off + Z.of_nat n <= lim ->
  (forall a, 0 <= a < lim -> mem2 a = mem a) ->
  mem_load mem2 off n = mem_load mem off n.
Proof.
  intros Hoff Hlim Hag. unfold mem_load, mem_read_bytes. f_equal.
  apply List.map_ext_in. intros i Hi. apply List.in_seq in Hi.
  rewrite Hag by lia. reflexivity.
Qed.

Lemma in_range_spec off len a : in_range off len a = true <-> off <= a < off + len.
Proof. unfold in_range. rewrite andb_true_iff, Z.leb_le, Z.ltb_lt. tauto. Qed.

Lemma in_range_false off len a : in_range off len a = false <-> ~ (off <= a < off + len).
Proof. rewrite <- in_range_spec. destruct (in_range off len a); split; congruence. Qed.

Lemma vm_agree_refl vm : vm_agree vm vm.
Proof.
  split; [reflexivity|]. unfold same_on_linear. destruct (memory vm); auto.
Qed.

Section Families.

Context (vm : rune_vm_t) (fp : nat) (code : list Z).

Lemma load_safe dst s1 n conv base imm vm1 :
  R vm fp s1 = Some base ->
  read_imm32 code vm fp = Some (imm, vm1) ->
  safe_access vm [(effective_address base imm, Z.of_nat n)]
    (load vm fp code dst s1 n conv)
    (fun mem2 => load (set_memory (Some mem2) vm) fp code dst s1 n conv).
Proof.
  intros HR Himm.
  pose proof (read_imm32_frames _ _ _ _ _ Himm) as Hvm1.
  assert (Hoff : 0 <= effective_address base imm) by apply u32_range.
  set (off := effective_address base imm) in *.
  unfold safe_access. repeat split.
  - intros Hex. apply Exists_cons in Hex as [Hex|Hex]; [|inversion Hex].
    unfold in_bounds in Hex; simpl in Hex.
    exists vm1. unfold load. rewrite HR, Himm. fold off.
    rewrite MEM_CHECK_oob; [|rewrite Hvm1; simpl; lia].
    rewrite Hvm1. auto.
  - unfold load in H. rewrite HR, Himm in H. fold off in H.
    destruct (MEM_CHECK vm1 off (Z.of_nat n)) eqn:Hc; [|discriminate].
    apply MEM_CHECK_true in Hc as [_ Hc]. rewrite Hvm1 in Hc. simpl in Hc.
    constructor; [|constructor]. unfold in_bounds; simpl. lia.
  - unfold load in H. rewrite HR, Himm in H. fold off in H.
    destruct (MEM_CHECK vm1 off (Z.of_nat n)); [|discriminate].
    destruct (memory vm1); [|discriminate].
    destruct (in_buffer vm1 off (Z.of_nat n)); [|discriminate].
    destruct (set_R _ _ _ _) as [vm2|] eqn:E; [|discriminate].
    injection H as <-. apply set_R_frames in E. rewrite E, Hvm1. reflexivity.
  - unfold load in H. rewrite HR, Himm in H. fold off in H.
    destruct (MEM_CHECK vm1 off (Z.of_nat n)) eqn:Hc; [|discriminate].
    apply MEM_CHECK_true in Hc as [[mem Hmem] _].
    rewrite Hmem in H.
    destruct (in_buffer vm1 off (Z.of_nat n)); [|discriminate].
    destruct (set_R _ _ _ _) as [vm2|] eqn:E; [|discriminate].
    injection H as <-. apply set_R_frames in E.
    unfold same_outside_linear.
    replace (memory vm2) with (memory vm1) by (rewrite E; reflexivity).
    replace (memory vm) with (memory vm1) by (rewrite Hvm1; reflexivity).
    rewrite Hmem. auto.
  - intros mem mem2 Hmem Hag.
    unfold load.
    change (R (set_memory (Some mem2) vm) fp s1) with (R vm fp s1).
    rewrite read_imm32_set_memory, HR, Himm. simpl. fold off.
    assert (Hmem1 : memory vm1 = Some mem) by (rewrite Hvm1; exact Hmem).
    rewrite (MEM_CHECK_set_memory mem) by exact Hmem1.
    destruct (MEM_CHECK vm1 off (Z.of_nat n)) eqn:Hc.
    + apply MEM_CHECK_true in Hc as [_ Hc].
      rewrite Hmem1.
      change (in_buffer (set_memory (Some mem2) vm1) off (Z.of_nat n))
        with (in_buffer vm1 off (Z.of_nat n)).
      destruct (in_buffer vm1 off (Z.of_nat n)); [|exact I].
      rewrite set_R_set_memory.
      rewrite (mem_load_agree mem mem2 off n (memory_pages vm * RUNE_PAGE_SIZE));
        [|lia|rewrite Hvm1 in Hc; exact Hc|exact Hag].
      destruct (set_R vm1 fp dst _) as [vm2|] eqn:E; simpl; [|exact I].
      apply set_R_frames in E.
      split; [reflexivity|].
      unfold same_on_linear.
      replace (memory vm2) with (Some mem) by (rewrite E; simpl; auto).
      simpl. intros a Ha. apply Hag.
      unfold linear in *. rewrite E, Hvm1 in Ha. exact Ha.
    + simpl. split; [reflexivity|]. split; [reflexivity|].
      unfold same_on_linear. rewrite Hmem1. simpl.
      intros a Ha. apply Hag. unfold linear in *. rewrite Hvm1 in Ha. exact Ha.
Qed.


Lemma length_le_split n v : length (le_split n v) = n.
Proof. revert v. induction n; simpl; intros; [reflexivity|]. rewrite IHn. reflexivity. Qed.

Lemma store_safe dst s1 n field base imm vm1 :
  R vm fp s1 = Some base ->
  read_imm32 code vm fp = Some (imm, vm1) ->
  safe_access vm [(effective_address base imm, Z.of_nat n)]
    (store vm fp code dst s1 n field)
    (fun mem2 => store (set_memory (Some mem2) vm) fp code dst s1 n field).
Proof.
  intros HR Himm.
  pose proof (read_imm32_frames _ _ _ _ _ Himm) as Hvm1.
  assert (Hoff : 0 <= effective_address base imm) by apply u32_range.
  set (off := effective_address base imm) in *.
  assert (Hpages : memory_pages vm1 = memory_pages vm) by (rewrite Hvm1; reflexivity).
  assert (Hmemeq : memory vm1 = memory vm) by (rewrite Hvm1; reflexivity).
  unfold safe_access. split; [|split].
  - intros Hex. apply Exists_cons in Hex as [Hex|Hex]; [|inversion Hex].
    unfold in_bounds in Hex; simpl in Hex.
    exists vm1. unfold store. rewrite HR, Himm. fold off.
    rewrite MEM_CHECK_oob; [|lia]. auto.
  - intros vm' H. unfold store in H. rewrite HR, Himm in H. fold off in H.
    destruct (MEM_CHECK vm1 off (Z.of_nat n)) eqn:Hc; [|discriminate].
    apply MEM_CHECK_true in Hc as [[mem Hmem] Hc].
    rewrite Hmem in H.
    destruct (R vm1 fp dst) as [v|]; [|discriminate].
    destruct (in_buffer vm1 off (Z.of_nat n)); [|discriminate].
    injection H as <-. split; [|split].
    + constructor; [|constructor]. unfold in_bounds; simpl. lia.
    + simpl. exact Hpages.
    + unfold same_outside_linear. rewrite <- Hmemeq, Hmem. simpl.
      intros a Ha. unfold mem_store, mem_write_bytes.
      destruct (in_range off _ a) eqn:Hr; [|reflexivity].
      apply in_range_spec in Hr. unfold zlen in Hr. rewrite length_le_split in Hr.
      exfalso. apply Ha. unfold linear. lia.
  - intros mem mem2 Hmem Hag.
    unfold store.
    change (R (set_memory (Some mem2) vm) fp s1) with (R vm fp s1).
    rewrite read_imm32_set_memory, HR, Himm. simpl. fold off.
    assert (Hmem1 : memory vm1 = Some mem) by (rewrite Hmemeq; exact Hmem).
    rewrite (MEM_CHECK_set_memory mem) by exact Hmem1.
    destruct (MEM_CHECK vm1 off (Z.of_nat n)) eqn:Hc.
    + rewrite Hmem1.
      change (R (set_memory (Some mem2) vm1) fp dst) with (R vm1 fp dst).
      destruct (R vm1 fp dst) as [v|]; [|exact I].
      change (in_buffer (set_memory (Some mem2) vm1) off (Z.of_nat n))
        with (in_buffer vm1 off (Z.of_nat n)).
      destruct (in_buffer vm1 off (Z.of_nat n)); [|exact I].
      simpl. split; [reflexivity|]. simpl.
      intros a Ha. unfold mem_store, mem_write_bytes.
      destruct (in_range off _ a); [reflexivity|].
      apply Hag. unfold linear in *. simpl in Ha. lia.
    + simpl. split; [reflexivity|]. split; [reflexivity|].
      unfold same_on_linear. rewrite Hmem1. simpl.
      intros a Ha. apply Hag. unfold linear in *. lia.
Qed.

Lemma mem_copy_safe dst s1 s2 d s z :
  R vm fp dst = Some d -> R vm fp s1 = Some s -> R vm fp s2 = Some z ->
  safe_access vm [(as_u32 d, as_u32 z); (as_u32 s, as_u32 z)]
    (mem_copy vm fp dst s1 s2)
    (fun mem2 => mem_copy (set_memory (Some mem2) vm) fp dst s1 s2).
Proof.
  intros Hd Hs Hz.
  pose proof (as_u32_range d) as Hdr. pose proof (as_u32_range s) as Hsr.
  pose proof (as_u32_range z) as Hzr.
  unfold safe_access. split; [|split].
  - intros Hex. exists vm. split; [|auto].
    unfold mem_copy. rewrite Hd, Hs, Hz.
    apply Exists_cons in Hex as [Hex|Hex].
    + unfold in_bounds in Hex; simpl in Hex. rewrite MEM_CHECK_oob by lia. reflexivity.
    + apply Exists_cons in Hex as [Hex|Hex]; [|inversion Hex].
      unfold in_bounds in Hex; simpl in Hex.
      destruct (MEM_CHECK vm (as_u32 d) (as_u32 z)); [|reflexivity].
      rewrite MEM_CHECK_oob by lia. reflexivity.
  - intros vm' H. unfold mem_copy in H. rewrite Hd, Hs, Hz in H.
    destruct (MEM_CHECK vm (as_u32 d) (as_u32 z)) eqn:Hc1; [|discriminate].
    destruct (MEM_CHECK vm (as_u32 s) (as_u32 z)) eqn:Hc2; [|discriminate].
    apply MEM_CHECK_true in Hc1 as [[mem Hmem] Hc1].
    apply MEM_CHECK_true in Hc2 as [_ Hc2].
    rewrite Hmem in H.
    destruct (in_buffer vm _ _ && in_buffer vm _ _); [|discriminate].
    injection H as <-. split; [|split].
    + repeat constructor; unfold in_bounds; simpl; lia.
    + reflexivity.
    + unfold same_outside_linear. rewrite Hmem. simpl.
      intros a Ha. unfold mem_move.
      destruct (in_range (as_u32 d) (as_u32 z) a) eqn:Hr; [|reflexivity].
      apply in_range_spec in Hr. exfalso. apply Ha. unfold linear. lia.
  - intros mem mem2 Hmem Hag.
    unfold mem_copy.
    change (R (set_memory (Some mem2) vm) fp dst) with (R vm fp dst).
    change (R (set_memory (Some mem2) vm) fp s1) with (R vm fp s1).
    change (R (set_memory (Some mem2) vm) fp s2) with (R vm fp s2).
    rewrite Hd, Hs, Hz.
    rewrite !(MEM_CHECK_set_memory mem) by exact Hmem.
    destruct (MEM_CHECK vm (as_u32 d) (as_u32 z)) eqn:Hc1;
      [|simpl; split; [reflexivity|split; [reflexivity|]];
        unfold same_on_linear; rewrite Hmem; simpl; exact Hag].
    destruct (MEM_CHECK vm (as_u32 s) (as_u32 z)) eqn:Hc2;
      [|simpl; split; [reflexivity|split; [reflexivity|]];
        unfold same_on_linear; rewrite Hmem; simpl; exact Hag].
    apply MEM_CHECK_true in Hc1 as [_ Hc1].
    apply MEM_CHECK_true in Hc2 as [_ Hc2].
    rewrite Hmem. simpl.
    change (in_buffer (set_memory (Some mem2) vm)) with (in_buffer vm).
    destruct (in_buffer vm _ _ && in_buffer vm _ _); [|exact I].
    simpl. split; [reflexivity|]. simpl.
    intros a Ha. unfold mem_move.
    destruct (in_range (as_u32 d) (as_u32 z) a) eqn:Hr.
    + apply in_range_spec in Hr. apply Hag. unfold linear in *. simpl in Ha. lia.
    + apply Hag. exact Ha.
Qed.

Lemma mem_fill_safe dst s1 s2 d s z :
  R vm fp dst = Some d -> R vm fp s1 = Some s -> R vm fp s2 = Some z ->
  safe_access vm [(as_u32 d, as_u32 z)]
    (mem_fill vm fp dst s1 s2)
    (fun mem2 => mem_fill (set_memory (Some mem2) vm) fp dst s1 s2).
Proof.
  intros Hd Hs Hz.
  pose proof (as_u32_range d) as Hdr. pose proof (as_u32_range z) as Hzr.
  unfold safe_access. split; [|split].
  - intros Hex. exists vm. split; [|auto].
    unfold mem_fill. rewrite Hd, Hs, Hz.
    apply Exists_cons in Hex as [Hex|Hex]; [|inversion Hex].
    unfold in_bounds in Hex; simpl in Hex. rewrite MEM_CHECK_oob by lia. reflexivity.
  - intros vm' H. unfold mem_fill in H. rewrite Hd, Hs, Hz in H.
    destruct (MEM_CHECK vm (as_u32 d) (as_u32 z)) eqn:Hc1; [|discriminate].
    apply MEM_CHECK_true in Hc1 as [[mem Hmem] Hc1].
    rewrite Hmem in H.
    destruct (in_buffer vm _ _); [|discriminate].
    injection H as <-. split; [|split].
    + repeat constructor; unfold in_bounds; simpl; lia.
    + reflexivity.
    + unfold same_outside_linear. rewrite Hmem. simpl.
      intros a Ha. unfold mem_set.
      destruct (in_range (as_u32 d) (as_u32 z) a) eqn:Hr; [|reflexivity].
      apply in_range_spec in Hr. exfalso. apply Ha. unfold linear. lia.
  - intros mem mem2 Hmem Hag.
    unfold mem_fill.
    change (R (set_memory (Some mem2) vm) fp dst) with (R vm fp dst).
    change (R (set_memory (Some mem2) vm) fp s1) with (R vm fp s1).
    change (R (set_memory (Some mem2) vm) fp s2) with (R vm fp s2).
    rewrite Hd, Hs, Hz.
    rewrite !(MEM_CHECK_set_memory mem) by exact Hmem.
    destruct (MEM_CHECK vm (as_u32 d) (as_u32 z)) eqn:Hc1;
      [|simpl; split; [reflexivity|split; [reflexivity|]];
        unfold same_on_linear; rewrite Hmem; simpl; exact Hag].
    rewrite Hmem. simpl.
    change (in_buffer (set_memory (Some mem2) vm)) with (in_buffer vm).
    destruct (in_buffer vm _ _); [|exact I].
    simpl. split; [reflexivity|]. simpl.
    intros a Ha. unfold mem_set.
    destruct (in_range (as_u32 d) (as_u32 z) a); [reflexivity|].
    apply Hag. exact Ha.
Qed.

End Families.

(** Every memory instruction of the [switch] is one of the four
    families. *)
Lemma exec_instr_safe_access abi call m vm fp code op dst s1 s2 ranges :
  mem_access_ranges vm fp code op dst s1 s2 = Some ranges ->
  safe_access vm ranges
    (exec_instr abi call m vm fp code op dst s1 s2)
    (fun mem2 => exec_instr abi call m (set_memory (Some mem2) vm) fp code op dst s1 s2).
Proof.
  intros Hranges. unfold mem_access_ranges in Hranges.
  destruct op; simpl in Hranges; try discriminate;
    repeat match type of Hranges with
      | match ?x with _ => _ end = _ => destruct x as [?|] eqn:?; try discriminate
      | (let '(_, _) := ?p in _) = _ => destruct p
      end;
    injection Hranges as <-;
    first [ eapply load_safe; eassumption
          | eapply store_safe; eassumption
          | eapply mem_copy_safe; eassumption
          | eapply mem_fill_safe; eassumption ].
Qed.

(** A [return] inside [MEM_CHECK] leaves [vm_exec] with that code: the
    dispatch loop of the frame ends with [RUNE_ERR_BOUNDS] and the
    memory as it was. *)
Lemma bounds_violation_returns abi call n m vm fp code ncode pc vm1 instr vm2 ranges :
  PC vm fp = Some pc -> pc < ncode ->
  FUEL_TICK vm = (vm1, true) ->
  read_imm32 code vm1 fp = Some (instr, vm2) ->
  mem_access_ranges vm2 fp code (opcode_of_u8 abi (RUNE_INSTR_OP instr))
    (RUNE_INSTR_DST instr) (RUNE_INSTR_S1 instr) (RUNE_INSTR_S2 instr) = Some ranges ->
  Exists (fun r => ~ in_bounds vm2 r) ranges ->
  exists vm', vm_loop abi call (S n) m vm fp code ncode
              = Done RUNE_ERR_BOUNDS (rune_void abi) vm' /\
              memory vm' = memory vm /\
              frame_count vm' = frame_count vm.
Proof.
  intros HPC Hlt Hfuel Hinstr Hranges Hex.
  set (op := opcode_of_u8 abi (RUNE_INSTR_OP instr)) in *.
  assert (Hsafe : exists vm', exec_instr abi call m vm2 fp code op (RUNE_INSTR_DST instr)
                    (RUNE_INSTR_S1 instr) (RUNE_INSTR_S2 instr) = Return RUNE_ERR_BOUNDS vm' /\
                  memory vm' = memory vm2 /\ frame_count vm' = frame_count vm2).
  { destruct (exec_instr_safe_access abi call m vm2 fp code op _ _ _ ranges Hranges)
      as [HA _].
    destruct (HA Hex) as (vm' & E & Hm & _). exists vm'.
    split; [exact E|]. split; [exact Hm|].
    assert (Hs : step_vm (exec_instr abi call m vm2 fp code op (RUNE_INSTR_DST instr)
                            (RUNE_INSTR_S1 instr) (RUNE_INSTR_S2 instr)) = Some vm')
      by (rewrite E; reflexivity).
    clear - Hs Hranges. unfold mem_access_ranges in Hranges.
    destruct op; simpl in Hranges; try discriminate; simpl in Hs;
      unfold load, store, mem_copy, mem_fill in Hs;
      repeat match type of Hs with
        | context [match ?x with _ => _ end] =>
            match type of x with
            | option (_ * _) => destruct x as [[? ?]|] eqn:?
            | option _ => destruct x as [?|] eqn:?
            | bool => destruct x eqn:?
            end; simpl in Hs; try discriminate Hs
        end;
      injection Hs as <-;
      repeat match goal with
        | H : set_R _ _ _ _ = Some _ |- _ => apply set_R_frames in H
        | H : read_imm32 _ _ _ = Some _ |- _ => apply read_imm32_frames in H
        end;
      repeat match goal with
        | H : ?v = set_frames _ _ |- _ => rewrite H; clear H
        end; reflexivity. }
  destruct Hsafe as (vm' & E & Hm & Hfc).
  assert (Hvm1 : memory vm1 = memory vm /\ frame_count vm1 = frame_count vm).
  { unfold FUEL_TICK in Hfuel.
    destruct (0 <? fuel_limit (cfg vm)); inversion Hfuel; subst; split; reflexivity. }
  apply read_imm32_frames in Hinstr as Hvm2.
  exists vm'. split; [|split].
  - simpl. rewrite HPC. apply Z.ltb_lt in Hlt. rewrite Hlt, Hfuel, Hinstr.
    fold op. rewrite E. reflexivity.
  - rewrite Hm, Hvm2. simpl. apply Hvm1.
  - rewrite Hfc, Hvm2. simpl. apply Hvm1.
Qed.

(** [FUEL_TICK] returns the same way: the loop ends with
    [RUNE_ERR_FUEL] and the frame of the function still counted. *)
Lemma fuel_exhaustion_returns abi call n m vm fp code ncode pc vm1 :
  PC vm fp = Some pc -> pc < ncode ->
  FUEL_TICK vm = (vm1, false) ->
  vm_loop abi call (S n) m vm fp code ncode = Done RUNE_ERR_FUEL (rune_void abi) vm1 /\
  frame_count vm1 = frame_count vm.
Proof.
  intros HPC Hlt Hfuel. split.
  - simpl. rewrite HPC. apply Z.ltb_lt in Hlt. rewrite Hlt, Hfuel. reflexivity.
  - unfold FUEL_TICK in Hfuel.
    destruct (0 <? fuel_limit (cfg vm)); inversion Hfuel; subst; reflexivity.
Qed.

(** An error of the callee ends the caller as well: [OP_CALL] leaves
    the loop of the calling frame by [goto done] with the same code. *)
Lemma call_error_propagates abi call n m vm fp code ncode pc vm1 instr vm2 fi vm3 args
    e r vm4 :
  PC vm fp = Some pc -> pc < ncode ->
  FUEL_TICK vm = (vm1, true) ->
  read_imm32 code vm1 fp = Some (instr, vm2) ->
  opcode_of_u8 abi (RUNE_INSTR_OP instr) = OP_CALL ->
  read_imm32 code vm2 fp = Some (fi, vm3) ->
  staged_args vm3 = Some args ->
  call (set_arg_count 0 vm3) fi args = Done e r vm4 ->
  e <> RUNE_OK ->
  vm_loop abi call (S n) m vm fp code ncode = Done e (rune_void abi) (pop_frame vm4).
Proof.
  intros HPC Hlt Hfuel Hinstr Hop Hfi Hargs Hcall He.
  simpl. rewrite HPC. apply Z.ltb_lt in Hlt. rewrite Hlt, Hfuel, Hinstr, Hop.
  simpl. unfold op_call. rewrite Hfi, Hargs, Hcall.
  destruct e; try reflexivity. congruence.
Qed.

(** C1.  Bounds safety.  For every state of every program, a
    linear-memory instruction (a load or store of any width, [MEM_COPY],
    [MEM_FILL]) that names a range [off, off+len) with
    [off+len > memory_pages*65536] returns [RUNE_ERR_BOUNDS] from the
    interpreter without touching the memory; when the instruction
    completes, every range it names satisfies
    [off+len <= memory_pages*65536], no byte outside the linear memory
    has changed, and its result is the same whatever the bytes outside
    the linear memory are. *)
Theorem mem_access_bounds_safe abi call m vm fp code op dst s1 s2 ranges :
  mem_access_ranges vm fp code op dst s1 s2 = Some ranges ->
  safe_access vm ranges
    (exec_instr abi call m vm fp code op dst s1 s2)
    (fun mem2 => exec_instr abi call m (set_memory (Some mem2) vm) fp code op dst s1 s2).
Proof. apply exec_instr_safe_access. Qed.

(** The theorem at a load one byte past the single page of the memory. *)
Lemma mem_access_bounds_safe_witness :
  let vm := Demo.entered Demo.m_load 0 [Demo.i32v 0] 1 in
  let code := Demo.code0 Demo.m_load in
  mem_access_ranges vm 0 code OP_LOAD8 0 0 0 = Some [(65536, 1)] /\
  safe_access vm [(65536, 1)]
    (exec_instr Sample.abi (vm_exec Sample.abi 0 Demo.m_load) Demo.m_load vm 0 code
       OP_LOAD8 0 0 0)
    (fun mem2 =>
       exec_instr Sample.abi (vm_exec Sample.abi 0 Demo.m_load) Demo.m_load
         (set_memory (Some mem2) vm) 0 code OP_LOAD8 0 0 0).
Proof.
  intros vm code.
  assert (H : mem_access_ranges vm 0 code OP_LOAD8 0 0 0 = Some [(65536, 1)])
    by (vm_compute; reflexivity).
  split; [exact H|].
  exact (mem_access_bounds_safe Sample.abi (vm_exec Sample.abi 0 Demo.m_load) Demo.m_load
           vm 0%nat code OP_LOAD8 0 0 0 [(65536, 1)] H).
Defined.

(** The same access through the public interface: the call returns
    [RUNE_ERR_BOUNDS]; one byte lower, it returns the byte. *)
Example load_past_the_page :
  let vm0 := rune_vm_new Sample.abi None in
  result_err (Demo.init_then_call 5 Demo.m_load vm0 Demo.name_f [Demo.i32v 0])
  = Some RUNE_ERR_BOUNDS /\
  Demo.init_then_call 5 Demo.m_load vm0 Demo.name_f [Demo.i32v (-1)]
  = Done RUNE_OK (Demo.i32v 0)
      (result_vm (Demo.init_then_call 5 Demo.m_load vm0 Demo.name_f [Demo.i32v (-1)]) vm0).
Proof. vm_compute. split; reflexivity. Qed.

(** The bound is the page count, not the size of the buffer.  A memory
    section that declares more initial pages than its (nonzero) maximum
    is instantiated with [memory_pages] above the [max_pages] that were
    allocated; a load in the second page passes [MEM_CHECK] and reads
    past the buffer. *)
Example initial_above_max_leaves_buffer :
  let vm0 := rune_vm_new Sample.abi None in
  let vm1 := result_vm (rune_vm_init Sample.abi 5 Demo.m_initial_above_max vm0) vm0 in
  memory_pages vm1 = 2 /\ memory_max vm1 = 1 /\
  MEM_CHECK vm1 65536 1 = true /\ in_buffer vm1 65536 1 = false /\
  rune_vm_call Sample.abi 5 Demo.m_initial_above_max vm1 Demo.name_f [Demo.i32v 0]
  = Undefined.
Proof. vm_compute. repeat split; reflexivity. Qed.

(** ** What execution never changes (C4) *)

Lemma same_shell_refl vm : same_shell vm vm.
Proof. repeat split. Qed.

Lemma same_shell_trans a b c : same_shell a b -> same_shell b c -> same_shell a c.
Proof. unfold same_shell. intuition congruence. Qed.

Lemma set_PC_shell vm fp pc vm' : set_PC vm fp pc = Some vm' -> same_shell vm vm'.
Proof.
  unfold set_PC. destruct (frames vm !! fp); [|discriminate].
  intros H; injection H as <-. repeat split. simpl. apply length_insert.
Qed.

Lemma set_R_shell vm fp n v vm' : set_R vm fp n v = Some vm' -> same_shell vm vm'.
Proof.
  unfold set_R. destruct (frames vm !! fp) as [fr|]; [|discriminate].
  destruct (fr_regs fr); [|discriminate]. destruct (_ <? _)%nat; [|discriminate].
  intros H; injection H as <-. repeat split. simpl. apply length_insert.
Qed.

Lemma read_imm32_shell code vm fp w vm' :
  read_imm32 code vm fp = Some (w, vm') -> same_shell vm vm'.
Proof.
  unfold read_imm32. destruct (PC vm fp); [|discriminate].
  destruct (code !! _); [|discriminate].
  destruct (set_PC _ _ _) eqn:E; [|discriminate].
  intros H; injection H as _ <-. eapply set_PC_shell; eauto.
Qed.

Lemma read_imm64_shell code vm fp w vm' :
  read_imm64 code vm fp = Some (w, vm') -> same_shell vm vm'.
Proof.
  unfold read_imm64. destruct (read_imm32 code vm fp) as [[lo vm1]|] eqn:E1; [|discriminate].
  destruct (read_imm32 code vm1 fp) as [[hi vm2]|] eqn:E2; [|discriminate].
  intros H; injection H as _ <-.
  eapply same_shell_trans; eapply read_imm32_shell; eauto.
Qed.

Lemma jump_shell vm fp off vm' : jump vm fp off = Some vm' -> same_shell vm vm'.
Proof. unfold jump. destruct (PC vm fp); [|discriminate]. apply set_PC_shell. Qed.

Lemma set_arg_shell vm i v vm' : set_arg vm i v = Some vm' -> same_shell vm vm'.
Proof.
  unfold set_arg. destruct (_ && _); [|discriminate].
  intros H; injection H as <-. repeat split.
Qed.

Lemma set_global_shell vm gi v vm' : set_global vm gi v = Some vm' -> same_shell vm vm'.
Proof.
  unfold set_global. destruct (vm_globals vm); [|discriminate].
  destruct (_ <? _)%nat; [|discriminate].
  intros H; injection H as <-. repeat split.
Qed.

Lemma call_host_shell h vm args e r vm' :
  call_host h vm args = (e, r, vm') -> same_shell vm vm'.
Proof.
  unfold call_host. destruct (h_fn h _ _ _ _) as [[e0 r0] mem'].
  intros H; injection H as _ _ <-. repeat split.
Qed.

Lemma FUEL_TICK_shell vm vm' b : FUEL_TICK vm = (vm', b) -> same_shell vm vm'.
Proof.
  unfold FUEL_TICK. destruct (0 <? _); intros H; injection H as <- _; repeat split.
Qed.

(** Case analysis on every [match] of a hypothesis that describes the
    result of a step. *)
Ltac step_cases H :=
  repeat match type of H with
    | context [match ?x with _ => _ end] =>
        match type of x with
        | option (_ * _) => destruct x as [[? ?]|] eqn:?
        | option _ => destruct x as [?|] eqn:?
        | bool => destruct x eqn:?
        | (_ * _ * _)%type => destruct x as [[? ?] ?] eqn:?
        | exec_result => destruct x eqn:?
        | rune_err_t => destruct x
        end; simpl in H; try discriminate H
    end.

Ltac shell_facts :=
  repeat match goal with
    | H : set_R _ _ _ _ = Some _ |- _ => apply set_R_shell in H
    | H : set_PC _ _ _ = Some _ |- _ => apply set_PC_shell in H
    | H : read_imm32 _ _ _ = Some _ |- _ => apply read_imm32_shell in H
    | H : read_imm64 _ _ _ = Some _ |- _ => apply read_imm64_shell in H
    | H : jump _ _ _ = Some _ |- _ => apply jump_shell in H
    | H : set_arg _ _ _ = Some _ |- _ => apply set_arg_shell in H
    | H : set_global _ _ _ = Some _ |- _ => apply set_global_shell in H
    | H : call_host _ _ _ = _ |- _ => apply call_host_shell in H
    end.

Ltac shell_close :=
  shell_facts; unfold same_shell in *; simpl in *; intuition congruence.

Section Shell.

Context (abi : rune_abi).
Context (call : rune_vm_t -> Z -> list rune_val_t -> exec_result).
Hypothesis call_shell :
  forall vm fi args e r vm', call vm fi args = Done e r vm' -> same_shell vm vm'.

Lemma op1_shell vm fp dst s1 f vm' :
  step_vm (op1 vm fp dst s1 f) = Some vm' -> same_shell vm vm'.
Proof.
  unfold op1. intros H. step_cases H. injection H as <-. shell_close.
Qed.

Lemma op2_shell vm fp dst s1 s2 f vm' :
  step_vm (op2 vm fp dst s1 s2 f) = Some vm' -> same_shell vm vm'.
Proof.
  unfold op2. intros H. step_cases H. injection H as <-. shell_close.
Qed.

Lemma op1u_shell vm fp dst s1 f vm' :
  step_vm (op1u vm fp dst s1 f) = Some vm' -> same_shell vm vm'.
Proof.
  unfold op1u. intros H. step_cases H. injection H as <-. shell_close.
Qed.

Lemma opdiv_shell vm fp dst s1 s2 d f vm' :
  step_vm (opdiv vm fp dst s1 s2 d f) = Some vm' -> same_shell vm vm'.
Proof.
  unfold opdiv. intros H. step_cases H; injection H as <-; shell_close.
Qed.

Lemma branch_shell vm fp code taken vm' :
  step_vm (branch vm fp code taken) = Some vm' -> same_shell vm vm'.
Proof.
  unfold branch. intros H. step_cases H; injection H as <-; shell_close.
Qed.

Lemma load_shell vm fp code dst s1 n conv vm' :
  step_vm (load vm fp code dst s1 n conv) = Some vm' -> same_shell vm vm'.
Proof.
  unfold load. intros H. step_cases H; injection H as <-; shell_close.
Qed.

Lemma store_shell vm fp code dst s1 n field vm' :
  step_vm (store vm fp code dst s1 n field) = Some vm' -> same_shell vm vm'.
Proof.
  unfold store. intros H. step_cases H; injection H as <-; shell_close.
Qed.

Lemma mem_grow_shell vm fp dst s1 vm' :
  step_vm (mem_grow abi vm fp dst s1) = Some vm' -> same_shell vm vm'.
Proof.
  unfold mem_grow. intros H.
  destruct (R vm fp s1) as [a|]; [|discriminate].
  destruct (memory_max vm <? _).
  - step_cases H. injection H as <-. shell_close.
  - match type of H with
    | context [match ?x with _ => _ end] => destruct x as [vm1|] eqn:E1; [|discriminate]
    end.
    assert (same_shell vm vm1).
    { destruct (_ =? 0); [injection E1 as <-; apply same_shell_refl|].
      destruct (memory vm); [|discriminate].
      destruct (in_buffer _ _ _); [|discriminate].
      injection E1 as <-. repeat split. }
    step_cases H. injection H as <-. shell_close.
Qed.

Lemma mem_copy_shell vm fp dst s1 s2 vm' :
  step_vm (mem_copy vm fp dst s1 s2) = Some vm' -> same_shell vm vm'.
Proof.
  unfold mem_copy. intros H. step_cases H; injection H as <-; shell_close.
Qed.

Lemma mem_fill_shell vm fp dst s1 s2 vm' :
  step_vm (mem_fill vm fp dst s1 s2) = Some vm' -> same_shell vm vm'.
Proof.
  unfold mem_fill. intros H. step_cases H; injection H as <-; shell_close.
Qed.

Lemma op_arg_shell vm fp dst s1 s2 vm' :
  step_vm (op_arg vm fp dst s1 s2) = Some vm' -> same_shell vm vm'.
Proof.
  unfold op_arg. intros H.
  match type of H with
  | context [match ?x with _ => _ end] => destruct x as [vm1|] eqn:E1; [|discriminate]
  end.
  assert (same_shell vm vm1).
  { destruct (s1 <? RUNE_MAX_PARAMS); [|injection E1 as <-; apply same_shell_refl].
    destruct (R vm fp _); [|discriminate]. eapply set_arg_shell; eauto. }
  step_cases H; injection H as <-; shell_close.
Qed.

Lemma op_call_shell vm fp code dst vm' :
  step_vm (op_call call vm fp code dst) = Some vm' -> same_shell vm vm'.
Proof.
  unfold op_call. intros H. step_cases H; injection H as <-;
    match goal with
    | E : call _ _ _ = Done _ _ _ |- _ => apply call_shell in E
    end; shell_close.
Qed.

Lemma op_call_host_shell m vm fp code dst vm' :
  step_vm (op_call_host m vm fp code dst) = Some vm' -> same_shell vm vm'.
Proof.
  unfold op_call_host. intros H. step_cases H; injection H as <-; shell_close.
Qed.

Lemma exec_instr_shell m vm fp code op dst s1 s2 vm' :
  step_vm (exec_instr abi call m vm fp code op dst s1 s2) = Some vm' ->
  same_shell vm vm'.
Proof.
  destruct op; simpl;
    first [ apply op1_shell | apply op2_shell | apply op1u_shell | apply opdiv_shell
          | apply branch_shell | apply load_shell | apply store_shell
          | apply mem_grow_shell | apply mem_copy_shell | apply mem_fill_shell
          | apply op_arg_shell | apply op_call_shell | apply op_call_host_shell
          | intros H; step_cases H; injection H as <-; shell_close ].
Qed.

Lemma pop_frame_shell vm : same_shell vm (pop_frame vm).
Proof. repeat split. Qed.

Lemma vm_loop_shell n m vm fp code ncode e r vm' :
  vm_loop abi call n m vm fp code ncode = Done e r vm' -> same_shell vm vm'.
Proof.
  revert vm. induction n as [|n IH]; intros vm H; [discriminate|].
  simpl in H.
  destruct (PC vm fp) as [pc|]; [|discriminate].
  destruct (pc <? ncode).
  - destruct (FUEL_TICK vm) as [vm1 ok] eqn:Hf. apply FUEL_TICK_shell in Hf.
    destruct ok.
    + destruct (read_imm32 code vm1 fp) as [[instr vm2]|] eqn:Hi; [|discriminate].
      apply read_imm32_shell in Hi.
      destruct (exec_instr _ _ _ _ _ _ _ _ _ _) eqn:Hs; try discriminate.
      * apply IH in H.
        assert (same_shell vm2 vm0) by (eapply exec_instr_shell; rewrite Hs; reflexivity).
        eauto using same_shell_trans.
      * injection H as _ _ <-.
        assert (same_shell vm2 vm0) by (eapply exec_instr_shell; rewrite Hs; reflexivity).
        eauto using same_shell_trans, pop_frame_shell.
      * injection H as _ _ <-.
        assert (same_shell vm2 vm0) by (eapply exec_instr_shell; rewrite Hs; reflexivity).
        eauto using same_shell_trans.
    + injection H as _ _ <-. exact Hf.
  - destruct (R vm fp 0); [|discriminate]. injection H as _ _ <-. apply pop_frame_shell.
Qed.

End Shell.

Lemma vm_exec_shell abi g m vm func_idx argv e r vm' :
  vm_exec abi g m vm func_idx argv = Done e r vm' -> same_shell vm vm'.
Proof.
  revert vm func_idx argv e r vm'. induction g as [|g IH]; intros vm fi argv e r vm' H;
    [discriminate|].
  simpl in H.
  destruct (negb (initialized vm) && negb (fi =? u32 (init_func m)));
    [injection H as _ _ <-; apply same_shell_refl|].
  destruct (stack_size (cfg vm) <=? frame_count vm);
    [injection H as _ _ <-; apply same_shell_refl|].
  destruct (funcs m !! Z.to_nat fi) as [fn|]; [|discriminate].
  destruct (is_import fn).
  - destruct (vm_resolve_host m vm (import_idx fn)) as [h|];
      [|injection H as _ _ <-; apply same_shell_refl].
    destruct (call_host h vm argv) as [[e0 r0] vm0] eqn:Hc.
    injection H as _ _ <-. eapply call_host_shell; eauto.
  - destruct (frames vm !! Z.to_nat (frame_count vm)); [|discriminate].
    apply vm_loop_shell in H; [|exact IH].
    eapply same_shell_trans; [|exact H].
    repeat split. simpl. apply length_insert.
Qed.






(** ** The call target (C9) *)

(** C9.  [vm_exec] indexes the function table with the call target
    without comparing it with [func_count]: for a target at or beyond
    the end of the table the only codes [vm_exec] returns are those of
    the two tests that precede the lookup (VM not initialized, stack
    full), and otherwise the lookup falls outside the table; a [CALL]
    whose immediate is such a target, executed by an initialized VM
    with room on its stack, therefore has no defined result. *)
Theorem call_target_unchecked abi g m vm func_idx argv :
  func_count m <= func_idx ->
  vm_exec abi (S g) m vm func_idx argv =
    (if negb (initialized vm) && negb (func_idx =? u32 (init_func m))
     then Done RUNE_ERR_BADMODULE (rune_void abi) vm
     else if stack_size (cfg vm) <=? frame_count vm
     then Done RUNE_ERR_STACKOVERFLOW (rune_void abi) vm
     else Undefined) /\
  (forall fp code dst s1 s2 vm1 args,
     read_imm32 code vm fp = Some (func_idx, vm1) ->
     staged_args vm1 = Some args ->
     initialized vm = true ->
     frame_count vm < stack_size (cfg vm) ->
     exec_instr abi (vm_exec abi (S g) m) m vm fp code OP_CALL dst s1 s2 = StepUndefined).
Proof.
  intros Hge.
  assert (Hnone : funcs m !! Z.to_nat func_idx = None).
  { apply lookup_ge_None. unfold func_count, zlen in Hge. lia. }
  split.
  - simpl. rewrite Hnone. reflexivity.
  - intros fp code dst s1 s2 vm1 args Himm Hargs Hinit Hfc.
    simpl. unfold op_call. rewrite Himm, Hargs.
    apply read_imm32_frames in Himm.
    simpl. rewrite Hnone, Himm. simpl. rewrite Hinit. simpl.
    apply Z.leb_gt in Hfc. rewrite Hfc. reflexivity.
Qed.

(** The theorem at a module with one function whose body calls
    function 7. *)
Lemma call_target_unchecked_witness :
  func_count Demo.m_call <= 7 /\
  (vm_exec Sample.abi 3 Demo.m_call (Demo.entered Demo.m_call 0 [] 1) 7 [] = Undefined /\
   exec_instr Sample.abi (vm_exec Sample.abi 3 Demo.m_call) Demo.m_call
     (Demo.entered Demo.m_call 0 [] 1) 0 (Demo.code0 Demo.m_call)
     OP_CALL 0 0 0 = StepUndefined).
Proof.
  assert (H : func_count Demo.m_call <= 7) by (vm_compute; discriminate).
  split; [exact H|].
  destruct (call_target_unchecked Sample.abi 2 Demo.m_call
              (Demo.entered Demo.m_call 0 [] 1) 7 [] H) as [H1 H2].
  split.
  - rewrite H1. reflexivity.
  - eapply H2; [vm_compute; reflexivity|reflexivity|reflexivity|vm_compute; reflexivity].
Defined.

(** The lookup outside the table is reached from guest bytecode: the
    export of that module, called through the public interface. *)
Example call_out_of_range_reachable :
  Demo.init_then_call 5 Demo.m_call (rune_vm_new Sample.abi None) Demo.name_f [] = Undefined.
Proof. vm_compute. reflexivity. Qed.

(** ** Globals and the [mutable] flag (C10) *)

Lemma exec_instr_ext abi call1 call2 m m' vm fp code op dst s1 s2 :
  (forall vm fi args, call1 vm fi args = call2 vm fi args) ->
  global_count m' = global_count m ->
  imports m' = imports m ->
  exec_instr abi call1 m' vm fp code op dst s1 s2
  = exec_instr abi call2 m vm fp code op dst s1 s2.
Proof.
  intros Hcall Hgc Him. destruct op; simpl; try reflexivity.
  - unfold op_call. destruct (read_imm32 code vm fp) as [[fi vm1]|]; [|reflexivity].
    destruct (staged_args vm1); [|reflexivity]. rewrite Hcall. reflexivity.
  - unfold op_call_host, vm_resolve_host, import_count. rewrite Him. reflexivity.
  - rewrite Hgc. reflexivity.
  - rewrite Hgc. reflexivity.
Qed.

Lemma vm_loop_ext abi call1 call2 n m m' vm fp code ncode :
  (forall vm fi args, call1 vm fi args = call2 vm fi args) ->
  global_count m' = global_count m ->
  imports m' = imports m ->
  vm_loop abi call1 n m' vm fp code ncode = vm_loop abi call2 n m vm fp code ncode.
Proof.
  intros Hcall Hgc Him. revert vm. induction n as [|n IH]; intros vm; [reflexivity|].
  simpl. destruct (PC vm fp); [|reflexivity].
  destruct (_ <? ncode); [|reflexivity].
  destruct (FUEL_TICK vm) as [vm1 ok]. destruct ok; [|reflexivity].
  destruct (read_imm32 code vm1 fp) as [[instr vm2]|]; [|reflexivity].
  rewrite (exec_instr_ext abi call1 call2 m m') by assumption.
  destruct (exec_instr _ _ _ _ _ _ _ _ _ _); try reflexivity. apply IH.
Qed.

Lemma global_count_with_mutable f m : global_count (with_mutable f m) = global_count m.
Proof. unfold global_count, with_mutable, zlen. simpl. rewrite length_map. reflexivity. Qed.

Lemma vm_exec_with_mutable abi f g m vm func_idx argv :
  vm_exec abi g (with_mutable f m) vm func_idx argv = vm_exec abi g m vm func_idx argv.
Proof.
  revert vm func_idx argv. induction g as [|g IH]; intros vm fi argv; [reflexivity|].
  simpl.
  destruct (_ && _); [reflexivity|].
  destruct (_ <=? _); [reflexivity|].
  destruct (funcs m !! Z.to_nat fi) as [fn|]; [|reflexivity].
  destruct (is_import fn); [reflexivity|].
  destruct (frames vm !! _); [|reflexivity].
  apply vm_loop_ext; [exact IH|apply global_count_with_mutable|reflexivity].
Qed.

(** C10.  [STGLOBAL] with an index below [global_count] writes
    [R[s1]] into the VM's global of that index, whatever the module
    declares about the global; and no execution depends on the
    [mutable] flags: replacing them by any others leaves every result of
    [vm_exec] the same. *)
Theorem stglobal_ignores_mutable abi call m vm fp code dst s1 s2 gi vm1 v gs :
  read_imm32 code vm fp = Some (gi, vm1) ->
  0 <= gi < global_count m ->
  R vm1 fp s1 = Some v ->
  vm_globals vm1 = Some gs ->
  zlen gs = global_count m ->
  exec_instr abi call m vm fp code OP_STGLOBAL dst s1 s2
  = Break (set_globals (Some (<[Z.to_nat gi := v]> gs)) vm1) /\
  (forall f g vm0 func_idx argv,
     vm_exec abi g (with_mutable f m) vm0 func_idx argv
     = vm_exec abi g m vm0 func_idx argv).
Proof.
  intros Himm Hgi HR Hgs Hlen. split.
  - simpl. rewrite Himm.
    destruct (global_count m <=? gi) eqn:E; [apply Z.leb_le in E; lia|].
    rewrite HR. unfold set_global. rewrite Hgs.
    assert (Hlt : (Z.to_nat gi <? length gs)%nat = true).
    { apply Nat.ltb_lt. unfold zlen in Hlen. lia. }
    rewrite Hlt. reflexivity.
  - intros. apply vm_exec_with_mutable.
Qed.

(** The theorem at the [STGLOBAL] of the counter module, whose global
    is declared immutable. *)
Lemma stglobal_ignores_mutable_witness :
  let vm := Demo.entered Demo.m_counter 0 [] 6 in
  let code := Demo.code0 Demo.m_counter in
  let vm1 := snd (default (0, vm) (read_imm32 code vm 0)) in
  read_imm32 code vm 0 = Some (0, vm1) /\
  0 <= 0 < global_count Demo.m_counter /\
  R vm1 0 0 = Some zero_val /\
  vm_globals vm1 = Some [Demo.i32v 0] /\
  zlen [Demo.i32v 0] = global_count Demo.m_counter /\
  Forall (fun g => g_mutable g = false) (globals Demo.m_counter) /\
  exec_instr Sample.abi (vm_exec Sample.abi 0 Demo.m_counter) Demo.m_counter vm 0 code
    OP_STGLOBAL 0 0 0
  = Break (set_globals (Some (<[Z.to_nat 0 := zero_val]> [Demo.i32v 0])) vm1).
Proof.
  intros vm code vm1.
  assert (H1 : read_imm32 code vm 0 = Some (0, vm1)) by (vm_compute; reflexivity).
  assert (H2 : 0 <= 0 < global_count Demo.m_counter) by (vm_compute; split; congruence).
  assert (H3 : R vm1 0 0 = Some zero_val) by (vm_compute; reflexivity).
  assert (H4 : vm_globals vm1 = Some [Demo.i32v 0]) by (vm_compute; reflexivity).
  assert (H5 : zlen [Demo.i32v 0] = global_count Demo.m_counter) by reflexivity.
  repeat (split; [assumption|]).
  split; [repeat constructor|].
  exact (proj1 (stglobal_ignores_mutable Sample.abi _ Demo.m_counter vm 0%nat code
                  0 0 0 0 vm1 zero_val [Demo.i32v 0] H1 H2 H3 H4 H5)).
Defined.

(** The counter in the immutable global counts: 1, then 2. *)
Example immutable_global_modified :
  let vm := rune_vm_new Sample.abi None in
  let r1 := Demo.init_then_call 10 Demo.m_counter vm Demo.name_f [] in
  let r2 := rune_vm_call Sample.abi 10 Demo.m_counter (result_vm r1 vm) Demo.name_f [] in
  result_err r1 = Some RUNE_OK /\ result_ret r1 zero_val = Demo.i32v 1 /\
  result_err r2 = Some RUNE_OK /\ result_ret r2 zero_val = Demo.i32v 2.
Proof. vm_compute. repeat split; reflexivity. Qed.

(** ** Registration and dispatch of host functions (C7) *)

Lemma c_str_idem s : c_str (c_str s) = c_str s.
Proof.
  induction s as [|c s IH]; simpl; [reflexivity|].
  destruct (c =? 0) eqn:E; simpl; [reflexivity|]. rewrite E, IH. reflexivity.
Qed.

Lemma strcmp_eq_strdup a b : strcmp_eq (strdup a) b = strcmp_eq a b.
Proof. unfold strcmp_eq, strdup. rewrite c_str_idem. reflexivity. Qed.

Lemma find_host_app_Some hs extra mn fn h :
  find_host hs mn fn = Some h -> find_host (hs ++ extra) mn fn = Some h.
Proof.
  induction hs as [|x hs IH]; simpl; [discriminate|].
  destruct (_ && _); auto.
Qed.

Lemma find_host_app_None hs extra mn fn :
  find_host hs mn fn = None -> find_host (hs ++ extra) mn fn = find_host extra mn fn.
Proof.
  induction hs as [|x hs IH]; simpl; [reflexivity|].
  destruct (_ && _); [discriminate|auto].
Qed.

Lemma register_appends vm mn n fn ud :
  exists extra, host_fns (snd (rune_vm_register vm mn n fn ud)) = host_fns vm ++ extra.
Proof.
  unfold rune_vm_register. destruct (initialized vm); simpl.
  - exists []. rewrite app_nil_r. reflexivity.
  - eexists. reflexivity.
Qed.

Lemma register_all_appends rs vm :
  exists extra, host_fns (register_all vm rs) = host_fns vm ++ extra.
Proof.
  revert vm. induction rs as [|[[[mn n] fn] ud] rs IH]; intros vm; simpl.
  - exists []. rewrite app_nil_r. reflexivity.
  - destruct (IH (snd (rune_vm_register vm mn n fn ud))) as [e1 H1].
    destruct (register_appends vm mn n fn ud) as [e2 H2].
    exists (e2 ++ e1). unfold register_all in *. simpl. rewrite H1, H2, app_assoc.
    reflexivity.
Qed.

(** C7 (as amended).  When a pair (module, name) that no entry of the
    host table matches yet is registered, and any registrations follow,
    among them registrations of the same pair, the import with these
    names resolves to the entry of the first registration: the first
    registration wins. *)
Theorem first_registration_wins m vm mname fname f1 u1 rs i imp :
  initialized vm = false ->
  imports m !! i = Some imp ->
  strcmp_eq mname (imp_module imp) = true ->
  strcmp_eq fname (imp_name imp) = true ->
  find_host (host_fns vm) (imp_module imp) (imp_name imp) = None ->
  vm_resolve_host m
    (register_all (snd (rune_vm_register vm mname fname f1 u1)) rs) (Z.of_nat i)
  = Some {| h_module := strdup mname; h_name := strdup fname;
            h_fn := f1; h_userdata := u1 |}.
Proof.
  intros Hinit Himp Hm Hn Hnone.
  unfold vm_resolve_host.
  assert (Hlt : (i < length (imports m))%nat) by (eapply lookup_lt_Some; eauto).
  destruct (import_count m <=? Z.of_nat i) eqn:E.
  { apply Z.leb_le in E. unfold import_count, zlen in E. lia. }
  rewrite Nat2Z.id, Himp.
  destruct (register_all_appends rs (snd (rune_vm_register vm mname fname f1 u1)))
    as [extra ->].
  apply find_host_app_Some.
  unfold rune_vm_register. rewrite Hinit. simpl.
  rewrite find_host_app_None by exact Hnone.
  simpl. rewrite !strcmp_eq_strdup, Hm, Hn. reflexivity.
Qed.

(** The theorem at the VM on which [env::f] is registered twice. *)
Lemma first_registration_wins_witness :
  initialized (rune_vm_new Sample.abi None) = false /\
  imports Demo.m_host !! 0%nat
  = Some {| imp_module := Demo.name_env; imp_name := Demo.name_f; imp_type_idx := 0 |} /\
  strcmp_eq Demo.name_env Demo.name_env = true /\
  strcmp_eq Demo.name_f Demo.name_f = true /\
  find_host (host_fns (rune_vm_new Sample.abi None)) Demo.name_env Demo.name_f = None /\
  vm_resolve_host Demo.m_host Demo.vm_two_hosts 0
  = Some {| h_module := strdup Demo.name_env; h_name := strdup Demo.name_f;
            h_fn := Demo.host_const 1; h_userdata := 0 |}.
Proof.
  repeat (split; [reflexivity|]).
  exact (first_registration_wins Demo.m_host (rune_vm_new Sample.abi None)
           Demo.name_env Demo.name_f (Demo.host_const 1) 0
           [(Demo.name_env, Demo.name_f, Demo.host_const 2, 0)] 0%nat
           {| imp_module := Demo.name_env; imp_name := Demo.name_f; imp_type_idx := 0 |}
           eq_refl eq_refl eq_refl eq_refl eq_refl).
Defined.

(** C7, counterexample: [env::f] is registered with the callback that
    returns 1 and then with the one that returns 2; the guest's call of
    the import succeeds with 1, the result of the callback registered
    first, not with the 2 of the callback registered last. *)
Lemma last_registration_does_not_win :
  let res := Demo.init_then_call 5 Demo.m_host Demo.vm_two_hosts Demo.name_f [] in
  result_err res = Some RUNE_OK /\
  result_ret res zero_val = Demo.i32v 1 /\
  result_ret res zero_val <> Demo.i32v 2.
Proof. vm_compute. repeat split; try reflexivity. discriminate. Qed.

(** ** Signed division (C6) *)

(** The three outcomes of [DIV32]. *)
Lemma div32_cases abi call m vm fp code dst s1 s2 a b :
  R vm fp s1 = Some a -> R vm fp s2 = Some b ->
  exec_instr abi call m vm fp code OP_DIV32 dst s1 s2 =
    if as_i32 b =? 0 then GotoDone RUNE_ERR_DIVZERO None vm
    else if (as_i32 a =? INT32_MIN) && (as_i32 b =? -1) then StepUndefined
    else match set_R vm fp dst (rune_i32 abi (Z.quot (as_i32 a) (as_i32 b))) with
         | Some vm' => Break vm'
         | None => StepUndefined
         end.
Proof.
  intros Ha Hb. simpl. unfold opdiv, sdiv. rewrite Ha, Hb.
  destruct (as_i32 b =? 0); [reflexivity|].
  change (- 2 ^ (32 - 1)) with INT32_MIN.
  destruct ((as_i32 a =? INT32_MIN) && (as_i32 b =? -1)); reflexivity.
Qed.

(** C6, at the failing input.  [DIV32] of [INT32_MIN] by [-1] passes
    the test of the divisor and evaluates the C expression
    [INT32_MIN / -1], whose quotient is not representable: the
    instruction has no defined result, and neither has the call of the
    export, whereas [10 / 2] is 5 and a zero divisor is
    [RUNE_ERR_DIVZERO]. *)
Theorem div32_int_min_by_minus_one :
  let vm0 := rune_vm_new Sample.abi None in
  let vm := Demo.entered Demo.m_div 0 [Demo.i32v INT32_MIN; Demo.i32v (-1)] 1 in
  exec_instr Sample.abi (vm_exec Sample.abi 0 Demo.m_div) Demo.m_div vm 0
    (Demo.code0 Demo.m_div) OP_DIV32 0 0 1 = StepUndefined /\
  Demo.init_then_call 5 Demo.m_div vm0 Demo.name_f [Demo.i32v INT32_MIN; Demo.i32v (-1)]
  = Undefined /\
  result_ret (Demo.init_then_call 5 Demo.m_div vm0 Demo.name_f [Demo.i32v 10; Demo.i32v 2])
    zero_val = Demo.i32v 5 /\
  result_err (Demo.init_then_call 5 Demo.m_div vm0 Demo.name_f [Demo.i32v 10; Demo.i32v 0])
  = Some RUNE_ERR_DIVZERO.
Proof. vm_compute. repeat split; reflexivity. Qed.

(** ** Growth of the memory (C2) *)

(** C2, at the failing input.  Two pages of at most four, and a request
    of [0xFFFFFFFF] pages ([R[s1] = -1]): the 32-bit sum [new_pages] is
    1, which is not greater than [memory_max], so the request is not
    refused; the [memset] over the added pages starts at page 2 with a
    32-bit length of [0xFFFF0000] bytes and leaves the buffer of four
    pages.  The instruction has no defined result, and neither has the
    call of the export. *)
Theorem mem_grow_wraps :
  let vm0 := rune_vm_new Sample.abi None in
  let vm := Demo.entered Demo.m_grow 0 [Demo.i32v (-1)] 1 in
  memory_pages vm = 2 /\ memory_max vm = 4 /\
  option_map as_u32 (R vm 0 0) = Some 4294967295 /\
  u32 (memory_pages vm + 4294967295) = 1 /\
  in_buffer vm (u32 (memory_pages vm * RUNE_PAGE_SIZE)) (u32 (4294967295 * RUNE_PAGE_SIZE))
  = false /\
  exec_instr Sample.abi (vm_exec Sample.abi 0 Demo.m_grow) Demo.m_grow vm 0
    (Demo.code0 Demo.m_grow) OP_MEM_GROW 0 0 0 = StepUndefined /\
  Demo.init_then_call 5 Demo.m_grow vm0 Demo.name_f [Demo.i32v (-1)] = Undefined.
Proof. vm_compute. repeat split; reflexivity. Qed.

(** The same for every request that makes the sum wrap: with at most
    65535 pages, the wrapped sum is below the current page count, the
    request is not refused, and the [memset] leaves the buffer. *)
Lemma mem_grow_wrap_overruns abi vm fp dst s1 a :
  R vm fp s1 = Some a ->
  0 <= memory_pages vm <= memory_max vm -> memory_max vm < 65536 ->
  2 ^ 32 <= memory_pages vm + as_u32 a ->
  u32 (memory_pages vm + as_u32 a) < memory_pages vm /\
  mem_grow abi vm fp dst s1 = StepUndefined.
Proof.
  intros HR Hp Hmax Hwrap.
  pose proof (as_u32_range a) as Hk.
  set (p := memory_pages vm) in *. set (k := as_u32 a) in *.
  assert (Hnp : u32 (p + k) = p + k - 2 ^ 32).
  { unfold u32. symmetry. apply Z.mod_unique with (q := 1); lia. }
  split; [lia|].
  unfold mem_grow. rewrite HR. fold k. fold p. rewrite Hnp.
  destruct (memory_max vm <? p + k - 2 ^ 32) eqn:E; [apply Z.ltb_lt in E; lia|].
  assert (Hstart : u32 (p * RUNE_PAGE_SIZE) = p * 65536).
  { unfold u32, RUNE_PAGE_SIZE. apply Z.mod_small. lia. }
  assert (Hlen : u32 (k * RUNE_PAGE_SIZE) = (k - 2 ^ 32) * 65536 + 2 ^ 32).
  { unfold u32, RUNE_PAGE_SIZE. symmetry. apply Z.mod_unique with (q := 65535); lia. }
  rewrite Hstart, Hlen.
  destruct ((k - 2 ^ 32) * 65536 + 2 ^ 32 =? 0) eqn:Hz; [apply Z.eqb_eq in Hz; lia|].
  destruct (memory vm); [|reflexivity].
  assert (Hbuf : in_buffer vm (p * 65536) ((k - 2 ^ 32) * 65536 + 2 ^ 32) = false).
  { unfold in_buffer, RUNE_PAGE_SIZE. apply andb_false_iff. right.
    apply Z.leb_gt. lia. }
  rewrite Hbuf. reflexivity.
Qed.

(** When the sum does not wrap, [MEM_GROW] does what is claimed of
    it: a request that fits adds exactly the requested pages, zeroed,
    and yields the previous page count; a request that does not fit
    changes nothing and yields -1. *)
Lemma mem_grow_no_wrap abi vm fp dst s1 a mem regs fr :
  R vm fp s1 = Some a ->
  frames vm !! fp = Some fr -> fr_regs fr = Some regs ->
  (Z.to_nat (u8 dst) < length regs)%nat ->
  memory vm = Some mem ->
  0 <= memory_pages vm <= memory_max vm -> memory_max vm < 65536 ->
  memory_pages vm + as_u32 a < 2 ^ 32 ->
  let p := memory_pages vm in
  let k := as_u32 a in
  exists vm',
    mem_grow abi vm fp dst s1 = Break vm' /\
    memory_max vm' = memory_max vm /\
    if memory_max vm <? p + k
    then memory_pages vm' = p /\ memory vm' = Some mem /\
         R vm' fp dst = Some (rune_i32 abi (-1))
    else memory_pages vm' = p + k /\
         R vm' fp dst = Some (rune_i32 abi p) /\
         exists mem', memory vm' = Some mem' /\
           forall x, (p * RUNE_PAGE_SIZE <= x < (p + k) * RUNE_PAGE_SIZE -> mem' x = 0) /\
                     (~ (p * RUNE_PAGE_SIZE <= x < (p + k) * RUNE_PAGE_SIZE) -> mem' x = mem x).
Proof.
  intros HR Hfr Hregs Hdst Hmem Hp Hmax Hsum p k.
  pose proof (as_u32_range a) as Hk. fold k in Hk, Hsum.
  unfold mem_grow. rewrite HR. fold k. fold p.
  assert (Hnp : u32 (p + k) = p + k) by (unfold u32; apply Z.mod_small; unfold p; lia).
  rewrite Hnp.
  assert (HsetR : forall vmx v, frames vmx = frames vm ->
            set_R vmx fp dst v =
            Some (set_frames (<[fp := {| fr_func_idx := fr_func_idx fr; fr_pc := fr_pc fr;
                                         fr_regs := Some (<[Z.to_nat (u8 dst) := v]> regs) |}]>
                                (frames vmx)) vmx)).
  { intros vmx v E. unfold set_R. rewrite E, Hfr, Hregs.
    apply Nat.ltb_lt in Hdst. rewrite Hdst. reflexivity. }
  assert (HgetR : forall vmx v, frames vmx = frames vm ->
            R (set_frames (<[fp := {| fr_func_idx := fr_func_idx fr; fr_pc := fr_pc fr;
                                      fr_regs := Some (<[Z.to_nat (u8 dst) := v]> regs) |}]>
                             (frames vmx)) vmx) fp dst = Some v).
  { intros vmx v E. unfold R, frame_regs. simpl. rewrite E.
    rewrite list_lookup_insert_eq by (eapply lookup_lt_Some; eauto). simpl.
    apply list_lookup_insert_eq. exact Hdst. }
  destruct (memory_max vm <? p + k) eqn:Hfit.
  - rewrite HsetR by reflexivity. eexists. split; [reflexivity|].
    split; [reflexivity|]. split; [reflexivity|]. split; [exact Hmem|].
    apply HgetR. reflexivity.
  - apply Z.ltb_ge in Hfit.
    assert (Hstart : u32 (p * RUNE_PAGE_SIZE) = p * RUNE_PAGE_SIZE).
    { unfold u32, RUNE_PAGE_SIZE. apply Z.mod_small. unfold p. lia. }
    assert (Hlen : u32 (k * RUNE_PAGE_SIZE) = k * RUNE_PAGE_SIZE).
    { unfold u32, RUNE_PAGE_SIZE. apply Z.mod_small. lia. }
    rewrite Hstart, Hlen.
    destruct (k * RUNE_PAGE_SIZE =? 0) eqn:Hz.
    + apply Z.eqb_eq in Hz. unfold RUNE_PAGE_SIZE in Hz.
      assert (k = 0) by lia.
      rewrite HsetR by reflexivity. eexists. split; [reflexivity|].
      split; [reflexivity|]. split; [simpl; lia|].
      split; [exact (HgetR vm _ eq_refl)|].
      exists mem. split; [exact Hmem|]. intros x. split; [|reflexivity].
      unfold RUNE_PAGE_SIZE. lia.
    + rewrite Hmem.
      assert (Hbuf : in_buffer vm (p * RUNE_PAGE_SIZE) (k * RUNE_PAGE_SIZE) = true).
      { unfold in_buffer. apply andb_true_iff. rewrite !Z.leb_le.
        unfold RUNE_PAGE_SIZE, p in *. lia. }
      rewrite Hbuf. rewrite HsetR by reflexivity.
      eexists. split; [reflexivity|].
      split; [reflexivity|]. split; [reflexivity|].
      split; [apply (HgetR (set_memory (Some (mem_set mem (p * RUNE_PAGE_SIZE) 0 (k * RUNE_PAGE_SIZE))) vm)); reflexivity|].
      eexists. split; [reflexivity|].
      intros x. unfold mem_set. split; intros Hx.
      * assert (Hr : in_range (p * RUNE_PAGE_SIZE) (k * RUNE_PAGE_SIZE) x = true)
          by (apply in_range_spec; lia).
        rewrite Hr. reflexivity.
      * assert (Hr : in_range (p * RUNE_PAGE_SIZE) (k * RUNE_PAGE_SIZE) x = false)
          by (apply in_range_false; lia).
        rewrite Hr. reflexivity.
Qed.

(** ** Argument staging (C3) *)

(** C3, at the failing input.  [ARG] with [dst = 0], [s1 = 2], [s2 = 0]
    in a frame where [R0 = 7] and [R2 = 42] writes [R2] into slot 0,
    and it also writes [R0] into slot 2, which held zero: the statement
    that precedes the comment "Actually: ARG <slot> <reg> uses dst=slot,
    s1=reg" stores [R(s2 ? s2 : dst)] into slot [s1]. *)
Theorem arg_writes_second_slot :
  let vm := Demo.entered Demo.m_arg 0 [Demo.i32v 7; Demo.i32v 8; Demo.i32v 42] 1 in
  let step := exec_instr Sample.abi (vm_exec Sample.abi 0 Demo.m_arg) Demo.m_arg vm 0
                (Demo.code0 Demo.m_arg) OP_ARG 0 2 0 in
  let vm' := default vm (step_vm step) in
  (exists v, step = Break v) /\
  arg_buf vm !! 0%nat = Some zero_val /\ arg_buf vm !! 2%nat = Some zero_val /\
  arg_buf vm' !! 0%nat = Some (Demo.i32v 42) /\
  arg_buf vm' !! 2%nat = Some (Demo.i32v 7) /\
  arg_count vm' = 1.
Proof. vm_compute. repeat split; try reflexivity. eexists. reflexivity. Qed.

(** What [ARG] does in general: the stray store into slot [s1] (when
    [s1 < 16]), then the store of [R[s1]] into slot [dst] and the
    update of the count. *)
Lemma op_arg_unfold vm fp dst s1 s2 :
  op_arg vm fp dst s1 s2 =
    match (if s1 <? RUNE_MAX_PARAMS
           then match R vm fp (if s2 =? 0 then dst else s2) with
                | Some v => set_arg vm s1 v
                | None => None
                end
           else Some vm) with
    | Some vm1 =>
        match R vm1 fp s1 with
        | Some v =>
            match set_arg vm1 dst v with
            | Some vm2 =>
                Break (if arg_count vm2 <=? dst
                       then set_arg_count (u8 (dst + 1)) vm2 else vm2)
            | None => StepUndefined
            end
        | None => StepUndefined
        end
    | None => StepUndefined
    end.
Proof. reflexivity. Qed.

(** The stray store in general: whenever [s1 < 16] differs from the
    slot [dst < 16], slot [s1] holds [R[s2 ? s2 : dst]] after [ARG]. *)
Lemma op_arg_stray_store vm fp dst s1 s2 v w vm' :
  0 <= s1 < RUNE_MAX_PARAMS -> 0 <= dst < RUNE_MAX_PARAMS -> s1 <> dst ->
  length (arg_buf vm) = Z.to_nat RUNE_MAX_PARAMS ->
  R vm fp (if s2 =? 0 then dst else s2) = Some v ->
  R vm fp s1 = Some w ->
  op_arg vm fp dst s1 s2 = Break vm' ->
  arg_buf vm' !! Z.to_nat s1 = Some v /\ arg_buf vm' !! Z.to_nat dst = Some w.
Proof.
  intros Hs1 Hdst Hne Hlen Hv Hw H.
  rewrite op_arg_unfold in H.
  destruct (s1 <? RUNE_MAX_PARAMS) eqn:E1; [|apply Z.ltb_ge in E1; lia].
  rewrite Hv in H. unfold set_arg in H. rewrite E1 in H.
  assert (L1 : (Z.to_nat s1 <? length (arg_buf vm))%nat = true)
    by (apply Nat.ltb_lt; rewrite Hlen; unfold RUNE_MAX_PARAMS in *; lia).
  rewrite L1 in H. simpl in H.
  change (R (set_arg_buf (<[Z.to_nat s1:=v]> (arg_buf vm)) vm) fp s1) with (R vm fp s1) in H.
  rewrite Hw in H.
  destruct (dst <? RUNE_MAX_PARAMS) eqn:E2; [|apply Z.ltb_ge in E2; lia].
  assert (L2 : (Z.to_nat dst <? length (<[Z.to_nat s1:=v]> (arg_buf vm)))%nat = true)
    by (apply Nat.ltb_lt; rewrite length_insert, Hlen; unfold RUNE_MAX_PARAMS in *; lia).
  rewrite L2 in H. simpl in H.
  assert (Hbuf : arg_buf vm' = <[Z.to_nat dst := w]> (<[Z.to_nat s1 := v]> (arg_buf vm))).
  { destruct (_ <=? dst); injection H as <-; reflexivity. }
  rewrite Hbuf. split.
  - rewrite list_lookup_insert_ne by lia.
    apply list_lookup_insert_eq. apply Nat.ltb_lt. exact L1.
  - apply list_lookup_insert_eq. apply Nat.ltb_lt. exact L2.
Qed.

(** [CALL] passes the first [arg_count] slots of the staging buffer to
    the callee and resets the count before the callee runs. *)
Lemma call_passes_staged_args abi call m vm fp code dst s1 s2 fi vm1 :
  read_imm32 code vm fp = Some (fi, vm1) ->
  0 <= arg_count vm1 <= RUNE_MAX_PARAMS ->
  arg_count vm1 <= zlen (arg_buf vm1) ->
  exec_instr abi call m vm fp code OP_CALL dst s1 s2 =
    match call (set_arg_count 0 vm1) fi (take (Z.to_nat (arg_count vm1)) (arg_buf vm1)) with
    | Done RUNE_OK ret vm3 =>
        match set_R vm3 fp dst ret with
        | Some vm4 => Break vm4
        | None => StepUndefined
        end
    | Done result _ vm3 => GotoDone result None vm3
    | Undefined => StepUndefined
    | OutOfGas => StepOutOfGas
    end.
Proof.
  intros Himm Hc Hl. simpl. unfold op_call. rewrite Himm. unfold staged_args.
  destruct (arg_count vm1 <=? RUNE_MAX_PARAMS) eqn:E1; [|apply Z.leb_gt in E1; lia].
  destruct (arg_count vm1 <=? zlen (arg_buf vm1)) eqn:E2; [|apply Z.leb_gt in E2; lia].
  reflexivity.
Qed.

(** ** Stack discipline (C8) *)

(** C8, at the failing input.  A load one byte past the single page of
    memory: [rune_vm_call] returns [RUNE_ERR_BOUNDS] and [frame_count],
    0 before the call, is 1 after it, because [MEM_CHECK] returns
    without passing through [done:].  [FUEL_TICK] returns the same way:
    with a fuel limit of 2, a body of three instructions ends in
    [RUNE_ERR_FUEL] with [frame_count] 1.  A trap that leaves by
    [goto done], such as [RUNE_ERR_DIVZERO], restores the count. *)
Theorem frame_count_after_bounds_trap :
  let vm0 := rune_vm_new Sample.abi None in
  let vm1 := result_vm (rune_vm_init Sample.abi 5 Demo.m_load vm0) vm0 in
  let res := rune_vm_call Sample.abi 5 Demo.m_load vm1 Demo.name_f [Demo.i32v 0] in
  let vf0 := rune_vm_new Sample.abi (Some (Demo.cfg_fuel 2)) in
  let vf1 := result_vm (rune_vm_init Sample.abi 5 Demo.m_nops vf0) vf0 in
  let resf := rune_vm_call Sample.abi 5 Demo.m_nops vf1 Demo.name_f [] in
  let vd1 := result_vm (rune_vm_init Sample.abi 5 Demo.m_div vm0) vm0 in
  let resd := rune_vm_call Sample.abi 5 Demo.m_div vd1 Demo.name_f [Demo.i32v 10; Demo.i32v 0] in
  (initialized vm1 = true /\ frame_count vm1 = 0 /\
   result_err res = Some RUNE_ERR_BOUNDS /\ frame_count (result_vm res vm1) = 1) /\
  (initialized vf1 = true /\ frame_count vf1 = 0 /\
   result_err resf = Some RUNE_ERR_FUEL /\ frame_count (result_vm resf vf1) = 1) /\
  (frame_count vd1 = 0 /\
   result_err resd = Some RUNE_ERR_DIVZERO /\ frame_count (result_vm resd vd1) = 0).
Proof. vm_compute. repeat split; reflexivity. Qed.

(** *** The ways out that do pass through [done:]

    Whatever the program, a call that ends with a code other than
    [RUNE_ERR_BOUNDS] and [RUNE_ERR_FUEL] leaves [frame_count] as it
    found it: the two early returns are the only leaks. *)

Lemma set_PC_depth vm fp pc vm' :
  set_PC vm fp pc = Some vm' -> frame_count vm' = frame_count vm.
Proof.
  unfold set_PC. destruct (frames vm !! fp); [|discriminate].
  intros H; injection H as <-. reflexivity.
Qed.

Lemma set_R_depth vm fp n v vm' :
  set_R vm fp n v = Some vm' -> frame_count vm' = frame_count vm.
Proof.
  unfold set_R. destruct (frames vm !! fp) as [fr|]; [|discriminate].
  destruct (fr_regs fr); [|discriminate]. destruct (_ <? _)%nat; [|discriminate].
  intros H; injection H as <-. reflexivity.
Qed.

Lemma read_imm32_depth code vm fp w vm' :
  read_imm32 code vm fp = Some (w, vm') -> frame_count vm' = frame_count vm.
Proof.
  unfold read_imm32. destruct (PC vm fp); [|discriminate].
  destruct (code !! _); [|discriminate].
  destruct (set_PC _ _ _) eqn:E; [|discriminate].
  intros H; injection H as _ <-. eapply set_PC_depth; eauto.
Qed.

Lemma read_imm64_depth code vm fp w vm' :
  read_imm64 code vm fp = Some (w, vm') -> frame_count vm' = frame_count vm.
Proof.
  unfold read_imm64. destruct (read_imm32 code vm fp) as [[lo vm1]|] eqn:E1; [|discriminate].
  destruct (read_imm32 code vm1 fp) as [[hi vm2]|] eqn:E2; [|discriminate].
  intros H; injection H as _ <-.
  apply read_imm32_depth in E1, E2. congruence.
Qed.

Lemma jump_depth vm fp off vm' :
  jump vm fp off = Some vm' -> frame_count vm' = frame_count vm.
Proof. unfold jump. destruct (PC vm fp); [|discriminate]. apply set_PC_depth. Qed.

Lemma set_arg_depth vm i v vm' :
  set_arg vm i v = Some vm' -> frame_count vm' = frame_count vm.
Proof.
  unfold set_arg. destruct (_ && _); [|discriminate].
  intros H; injection H as <-. reflexivity.
Qed.

Lemma set_global_depth vm gi v vm' :
  set_global vm gi v = Some vm' -> frame_count vm' = frame_count vm.
Proof.
  unfold set_global. destruct (vm_globals vm); [|discriminate].
  destruct (_ <? _)%nat; [|discriminate].
  intros H; injection H as <-. reflexivity.
Qed.

Lemma call_host_depth h vm args e r vm' :
  call_host h vm args = (e, r, vm') -> frame_count vm' = frame_count vm.
Proof.
  unfold call_host. destruct (h_fn h _ _ _ _) as [[e0 r0] mem'].
  intros H; injection H as _ _ <-. reflexivity.
Qed.

Lemma FUEL_TICK_depth vm vm' b :
  FUEL_TICK vm = (vm', b) -> frame_count vm' = frame_count vm.
Proof.
  unfold FUEL_TICK. destruct (0 <? _); intros H; injection H as <- _; reflexivity.
Qed.

Ltac depth_facts :=
  repeat match goal with
    | H : set_R _ _ _ _ = Some _ |- _ => apply set_R_depth in H
    | H : set_PC _ _ _ = Some _ |- _ => apply set_PC_depth in H
    | H : read_imm32 _ _ _ = Some _ |- _ => apply read_imm32_depth in H
    | H : read_imm64 _ _ _ = Some _ |- _ => apply read_imm64_depth in H
    | H : jump _ _ _ = Some _ |- _ => apply jump_depth in H
    | H : set_arg _ _ _ = Some _ |- _ => apply set_arg_depth in H
    | H : set_global _ _ _ = Some _ |- _ => apply set_global_depth in H
    | H : call_host _ _ _ = _ |- _ => apply call_host_depth in H
    end.

Ltac depth_close := depth_facts; simpl in *; congruence.

Section Depth.

Context (abi : rune_abi).
Context (call : rune_vm_t -> Z -> list rune_val_t -> exec_result).
Hypothesis call_shell :
  forall vm fi args e r vm', call vm fi args = Done e r vm' -> same_shell vm vm'.
Hypothesis call_depth :
  forall vm fi args e r vm',
    0 <= frame_count vm -> stack_size (cfg vm) < 2 ^ 32 ->
    call vm fi args = Done e r vm' -> ~ early_return e ->
    frame_count vm' = frame_count vm.

(** An instruction other than [CALL] never changes [frame_count]. *)
Lemma op1_depth vm fp dst s1 f vm' :
  step_vm (op1 vm fp dst s1 f) = Some vm' -> frame_count vm' = frame_count vm.
Proof. unfold op1. intros H. step_cases H. injection H as <-. depth_close. Qed.

Lemma op2_depth vm fp dst s1 s2 f vm' :
  step_vm (op2 vm fp dst s1 s2 f) = Some vm' -> frame_count vm' = frame_count vm.
Proof. unfold op2. intros H. step_cases H. injection H as <-. depth_close. Qed.

Lemma op1u_depth vm fp dst s1 f vm' :
  step_vm (op1u vm fp dst s1 f) = Some vm' -> frame_count vm' = frame_count vm.
Proof. unfold op1u. intros H. step_cases H. injection H as <-. depth_close. Qed.

Lemma opdiv_depth vm fp dst s1 s2 d f vm' :
  step_vm (opdiv vm fp dst s1 s2 d f) = Some vm' -> frame_count vm' = frame_count vm.
Proof. unfold opdiv. intros H. step_cases H; injection H as <-; depth_close. Qed.

Lemma branch_depth vm fp code taken vm' :
  step_vm (branch vm fp code taken) = Some vm' -> frame_count vm' = frame_count vm.
Proof. unfold branch. intros H. step_cases H; injection H as <-; depth_close. Qed.

Lemma load_depth vm fp code dst s1 n conv vm' :
  step_vm (load vm fp code dst s1 n conv) = Some vm' -> frame_count vm' = frame_count vm.
Proof. unfold load. intros H. step_cases H; injection H as <-; depth_close. Qed.

Lemma store_depth vm fp code dst s1 n field vm' :
  step_vm (store vm fp code dst s1 n field) = Some vm' -> frame_count vm' = frame_count vm.
Proof. unfold store. intros H. step_cases H; injection H as <-; depth_close. Qed.

Lemma mem_grow_depth vm fp dst s1 vm' :
  step_vm (mem_grow abi vm fp dst s1) = Some vm' -> frame_count vm' = frame_count vm.
Proof.
  unfold mem_grow. intros H.
  destruct (R vm fp s1) as [a|]; [|discriminate].
  destruct (memory_max vm <? _).
  - step_cases H. injection H as <-. depth_close.
  - match type of H with
    | context [match ?x with _ => _ end] => destruct x as [vm1|] eqn:E1; [|discriminate]
    end.
    assert (frame_count vm1 = frame_count vm).
    { destruct (_ =? 0); [injection E1 as <-; reflexivity|].
      destruct (memory vm); [|discriminate].
      destruct (in_buffer _ _ _); [|discriminate].
      injection E1 as <-. reflexivity. }
    step_cases H. injection H as <-. depth_close.
Qed.

Lemma mem_copy_depth vm fp dst s1 s2 vm' :
  step_vm (mem_copy vm fp dst s1 s2) = Some vm' -> frame_count vm' = frame_count vm.
Proof. unfold mem_copy. intros H. step_cases H; injection H as <-; depth_close. Qed.

Lemma mem_fill_depth vm fp dst s1 s2 vm' :
  step_vm (mem_fill vm fp dst s1 s2) = Some vm' -> frame_count vm' = frame_count vm.
Proof. unfold mem_fill. intros H. step_cases H; injection H as <-; depth_close. Qed.

Lemma op_arg_depth vm fp dst s1 s2 vm' :
  step_vm (op_arg vm fp dst s1 s2) = Some vm' -> frame_count vm' = frame_count vm.
Proof.
  unfold op_arg. intros H.
  match type of H with
  | context [match ?x with _ => _ end] => destruct x as [vm1|] eqn:E1; [|discriminate]
  end.
  assert (frame_count vm1 = frame_count vm).
  { destruct (s1 <? RUNE_MAX_PARAMS); [|injection E1 as <-; reflexivity].
    destruct (R vm fp _); [|discriminate]. eapply set_arg_depth; eauto. }
  step_cases H; injection H as <-; depth_close.
Qed.

Lemma op_call_host_depth m vm fp code dst vm' :
  step_vm (op_call_host m vm fp code dst) = Some vm' -> frame_count vm' = frame_count vm.
Proof. unfold op_call_host. intros H. step_cases H; injection H as <-; depth_close. Qed.

(** The only [return] inside an instruction is that of [MEM_CHECK]. *)
Lemma exec_instr_return m vm fp code op dst s1 s2 e vm' :
  exec_instr abi call m vm fp code op dst s1 s2 = Return e vm' -> e = RUNE_ERR_BOUNDS.
Proof.
  destruct op; simpl;
    unfold op1, op2, op1u, opdiv, branch, load, store, mem_grow, mem_copy, mem_fill,
           op_arg, op_call, op_call_host;
    intros H; step_cases H; congruence.
Qed.

Lemma keeps_depth_step_vm vm s :
  (forall vm', step_vm s = Some vm' -> frame_count vm' = frame_count vm) ->
  keeps_depth vm s.
Proof. destruct s; simpl; auto. Qed.

Lemma op_call_depth vm fp code dst :
  0 <= frame_count vm -> stack_size (cfg vm) < 2 ^ 32 ->
  keeps_depth vm (op_call call vm fp code dst).
Proof.
  intros H0 Hs. unfold op_call.
  destruct (read_imm32 code vm fp) as [[fi vm1]|] eqn:Hi; [|exact I].
  destruct (staged_args vm1) as [args|]; [|exact I].
  pose proof (read_imm32_shell _ _ _ _ _ Hi) as (Hc & _).
  apply read_imm32_depth in Hi.
  destruct (call _ fi args) as [e r vm3| |] eqn:Hcall; try exact I.
  assert (Hd : ~ early_return e -> frame_count vm3 = frame_count vm).
  { intros He. rewrite <- Hi. eapply call_depth in Hcall; simpl in *; eauto; congruence. }
  destruct e; simpl;
    try (intros He; apply Hd; exact He).
  destruct (set_R vm3 fp dst r) as [vm4|] eqn:E4; [|exact I].
  simpl. apply set_R_depth in E4. rewrite E4. apply Hd.
  unfold early_return. intros [?|?]; discriminate.
Qed.

Lemma exec_instr_depth m vm fp code op dst s1 s2 :
  0 <= frame_count vm -> stack_size (cfg vm) < 2 ^ 32 ->
  keeps_depth vm (exec_instr abi call m vm fp code op dst s1 s2).
Proof.
  intros H0 Hs.
  destruct op; unfold exec_instr;
    first [ apply op_call_depth; assumption
          | apply keeps_depth_step_vm; intros vm';
            first [ apply op1_depth | apply op2_depth | apply op1u_depth | apply opdiv_depth
                  | apply branch_depth | apply load_depth | apply store_depth
                  | apply mem_grow_depth | apply mem_copy_depth | apply mem_fill_depth
                  | apply op_arg_depth | apply op_call_host_depth
                  | intros H; step_cases H; injection H as <-; depth_close ] ].
Qed.

Lemma vm_loop_depth n m vm fp code ncode e r vm' :
  0 < frame_count vm < 2 ^ 32 -> stack_size (cfg vm) < 2 ^ 32 ->
  vm_loop abi call n m vm fp code ncode = Done e r vm' -> ~ early_return e ->
  frame_count vm' = frame_count vm - 1.
Proof.
  revert vm. induction n as [|n IH]; intros vm Hfc Hs H He; [discriminate|].
  assert (Hpop : forall v, frame_count v = frame_count vm ->
                           frame_count (pop_frame v) = frame_count vm - 1).
  { intros v Hv. unfold pop_frame. simpl. rewrite Hv. unfold u32.
    apply Z.mod_small. lia. }
  simpl in H.
  destruct (PC vm fp) as [pc|]; [|discriminate].
  destruct (pc <? ncode).
  - destruct (FUEL_TICK vm) as [vm1 ok] eqn:Hf.
    pose proof (FUEL_TICK_shell _ _ _ Hf) as (Hc1 & _).
    apply FUEL_TICK_depth in Hf.
    destruct ok.
    + destruct (read_imm32 code vm1 fp) as [[instr vm2]|] eqn:Hi; [|discriminate].
      pose proof (read_imm32_shell _ _ _ _ _ Hi) as (Hc2 & _).
      apply read_imm32_depth in Hi.
      assert (Hfc2 : frame_count vm2 = frame_count vm) by congruence.
      assert (Hs2 : stack_size (cfg vm2) < 2 ^ 32) by (rewrite Hc2, Hc1; exact Hs).
      pose proof (exec_instr_depth m vm2 fp code
                    (opcode_of_u8 abi (RUNE_INSTR_OP instr)) (RUNE_INSTR_DST instr)
                    (RUNE_INSTR_S1 instr) (RUNE_INSTR_S2 instr)
                    ltac:(lia) Hs2) as Hk.
      destruct (exec_instr _ _ _ _ _ _ _ _ _ _) as [vm3|e3 r3 vm3|e3 vm3| |] eqn:Hx;
        try discriminate.
      * simpl in Hk.
        assert (Hsh : same_shell vm2 vm3)
          by (eapply exec_instr_shell; [exact call_shell|rewrite Hx; reflexivity]).
        destruct Hsh as (Hc3 & _).
        rewrite <- Hfc2, <- Hk.
        apply IH; [lia| rewrite Hc3; exact Hs2 | exact H | exact He].
      * injection H as <- _ <-. simpl in Hk. apply Hpop. rewrite Hk; auto.
      * exfalso. injection H as <- _ _. apply He.
        left. eapply exec_instr_return; exact Hx.
    + injection H as <- _ _. exfalso. apply He. right. reflexivity.
  - destruct (R vm fp 0); [|discriminate]. injection H as _ _ <-. apply Hpop. reflexivity.
Qed.

End Depth.

(** A call that ends with a code other than those of the early returns
    leaves [frame_count] as it found it. *)
Lemma frame_count_restored abi g m vm func_idx argv e r vm' :
  0 <= frame_count vm -> stack_size (cfg vm) < 2 ^ 32 ->
  vm_exec abi g m vm func_idx argv = Done e r vm' -> ~ early_return e ->
  frame_count vm' = frame_count vm.
Proof.
  revert vm func_idx argv e r vm'.
  induction g as [|g IH]; intros vm fi argv e r vm' H0 Hs H He; [discriminate|].
  simpl in H.
  destruct (negb (initialized vm) && negb (fi =? u32 (init_func m)));
    [injection H as _ _ <-; reflexivity|].
  destruct (stack_size (cfg vm) <=? frame_count vm) eqn:Hfull;
    [injection H as _ _ <-; reflexivity|].
  apply Z.leb_gt in Hfull.
  destruct (funcs m !! Z.to_nat fi) as [fn|]; [|discriminate].
  destruct (is_import fn).
  - destruct (vm_resolve_host m vm (import_idx fn)) as [h|];
      [|injection H as _ _ <-; reflexivity].
    destruct (call_host h vm argv) as [[e0 r0] vm0] eqn:Hc.
    injection H as _ _ <-. eapply call_host_depth; eauto.
  - destruct (frames vm !! Z.to_nat (frame_count vm)); [|discriminate].
    assert (Hu : u32 (frame_count vm + 1) = frame_count vm + 1)
      by (unfold u32; apply Z.mod_small; lia).
    eapply vm_loop_depth in H; [| intros; eapply vm_exec_shell; eauto | exact IH | | | exact He].
    + rewrite H. simpl. rewrite Hu. lia.
    + simpl. rewrite Hu. lia.
    + simpl. exact Hs.
Qed.

(** In particular a call that succeeds restores the count. *)
Lemma frame_count_restored_ok abi g m vm func_idx argv r vm' :
  0 <= frame_count vm -> stack_size (cfg vm) < 2 ^ 32 ->
  vm_exec abi g m vm func_idx argv = Done RUNE_OK r vm' ->
  frame_count vm' = frame_count vm.
Proof.
  intros H0 Hs H. eapply frame_count_restored; eauto.
  unfold early_return. intros [?|?]; discriminate.
Qed.

(** ** What the loader validates (C5) *)

(** C5, counterexample: a file whose import and function refer to
    types 7 and 9 of an empty type section and whose export refers to
    function 5 of two is loaded. *)
Lemma load_accepts_dangling_indices :
  rune_module_load Sample.abi Demo.dangling_indices = Loaded Demo.m_dangling /\
  ~ indices_valid Sample.abi Demo.m_dangling.
Proof.
  split; [vm_compute; reflexivity|].
  intros (Hf & _ & _). inversion Hf as [|f fs Hx _]; subst.
  vm_compute in Hx. destruct Hx as [_ Hx]. discriminate Hx.
Qed.

Lemma lor_range n a b :
  0 <= n -> 0 <= a < 2 ^ n -> 0 <= b < 2 ^ n -> 0 <= Z.lor a b < 2 ^ n.
Proof.
  intros Hn Ha Hb. split; [apply Z.lor_nonneg; lia|].
  destruct (Z.eq_dec (Z.lor a b) 0) as [E|Hne]; [rewrite E; lia|].
  assert (Hpos : 0 < Z.lor a b) by (pose proof (proj2 (Z.lor_nonneg a b)); lia).
  assert (Hn0 : 0 < n).
  { destruct (Z.eq_dec n 0) as [->|]; [|lia].
    assert (a = 0) by lia. assert (b = 0) by lia. subst a b. exfalso. apply Hne. reflexivity. }
  apply Z.log2_lt_pow2; [exact Hpos|].
  rewrite Z.log2_lor by lia.
  apply Z.max_lub_lt.
  - destruct (Z.eq_dec a 0) as [->|]; [simpl; lia|apply Z.log2_lt_pow2; lia].
  - destruct (Z.eq_dec b 0) as [->|]; [simpl; lia|apply Z.log2_lt_pow2; lia].
Qed.

Lemma shiftl_range b k n :
  0 <= k -> 0 <= b < 2 ^ 8 -> k + 8 <= n -> 0 <= Z.shiftl b k < 2 ^ n.
Proof.
  intros Hk Hb Hn. rewrite Z.shiftl_mul_pow2 by lia.
  assert (0 < 2 ^ k) by (apply Z.pow_pos_nonneg; lia).
  split; [nia|].
  apply Z.lt_le_trans with (2 ^ 8 * 2 ^ k); [nia|].
  rewrite <- Z.pow_add_r by lia. apply Z.pow_le_mono_r; lia.
Qed.

Lemma read_u8_val r b r' : read_u8 r = (b, r') -> 0 <= b < 2 ^ 8.
Proof.
  unfold read_u8. destruct (_ <=? _); intros H; injection H as <- _;
    [lia|apply u8_range].
Qed.

Lemma read_u16_val r v r' : read_u16 r = (v, r') -> 0 <= v < 2 ^ 16.
Proof.
  unfold read_u16. destruct (read_u8 r) as [b0 r1] eqn:E0.
  destruct (read_u8 r1) as [b1 r2] eqn:E1. intros H; injection H as <- _.
  apply read_u8_val in E0, E1.
  apply lor_range; [lia|lia|]. unfold u16. apply Z.mod_pos_bound. lia.
Qed.

Lemma read_u32_val r v r' : read_u32 r = (v, r') -> 0 <= v < 2 ^ 32.
Proof.
  unfold read_u32. destruct (read_u8 r) as [b0 r1] eqn:E0.
  destruct (read_u8 r1) as [b1 r2] eqn:E1.
  destruct (read_u8 r2) as [b2 r3] eqn:E2.
  destruct (read_u8 r3) as [b3 r4] eqn:E3. intros H; injection H as <- _.
  apply read_u8_val in E0, E1, E2, E3.
  pose proof (shiftl_range b1 8 32). pose proof (shiftl_range b2 16 32).
  pose proof (shiftl_range b3 24 32).
  repeat apply lor_range; lia.
Qed.

Lemma read_u8s_length n r bs r' : read_u8s n r = (bs, r') -> length bs = n.
Proof.
  revert r bs r'. induction n as [|n IH]; simpl; intros r bs r' H.
  - injection H as <- _. reflexivity.
  - destruct (read_u8 r) as [b r1]. destruct (read_u8s n r1) as [bs1 r2] eqn:E.
    injection H as <- _. simpl. erewrite IH; eauto.
Qed.

Lemma parse_types_ok n r ts r' :
  parse_types n r = Parsed ts r' -> Forall type_ok ts.
Proof.
  revert r ts r'. induction n as [|n IH]; simpl; intros r ts r' H.
  - injection H as <- _. constructor.
  - destruct (read_u8 r) as [pc r1] eqn:E0. destruct (read_u8 r1) as [rc r2] eqn:E1.
    destruct (r_error r2 || (RUNE_MAX_PARAMS <? pc) || (1 <? rc)) eqn:Hc; [discriminate|].
    apply orb_false_iff in Hc as [Hc Hrc]. apply orb_false_iff in Hc as [_ Hpc].
    apply Z.ltb_ge in Hpc, Hrc.
    destruct (read_u8s (Z.to_nat pc) r2) as [ps r3] eqn:E2.
    destruct (read_u8s (Z.to_nat rc) r3) as [rs r4] eqn:E3.
    destruct (r_error r4); [discriminate|].
    destruct (parse_types n r4) as [ts1 r5| | |] eqn:E4; try discriminate.
    injection H as <- _.
    apply read_u8_val in E0, E1. apply read_u8s_length in E2, E3.
    constructor; [|eauto].
    unfold type_ok, zlen; simpl. rewrite E2, E3. lia.
Qed.

Lemma parse_imports_ok n r l r' :
  parse_imports n r = Parsed l r' -> Forall (fun i => 0 <= imp_type_idx i < 2 ^ 16) l.
Proof.
  revert r l r'. induction n as [|n IH]; simpl; intros r l r' H.
  - injection H as <- _. constructor.
  - destruct (read_string r 1) as [mn r1]. destruct (read_string r1 1) as [fn r2].
    destruct (read_u16 r2) as [ti r3] eqn:E.
    destruct (r_error r3); [discriminate|].
    destruct mn as [mname|]; [|discriminate]. destruct fn as [fname|]; [|discriminate].
    destruct (parse_imports n r3) as [l1 r4| | |] eqn:E4; try discriminate.
    injection H as <- _. apply read_u16_val in E. constructor; eauto.
Qed.

Lemma parse_func_bodies_ok n r l r' :
  parse_func_bodies n r = Parsed l r' -> Forall (fun f => 0 <= type_idx f < 2 ^ 16) l.
Proof.
  revert r l r'. induction n as [|n IH]; simpl; intros r l r' H.
  - injection H as <- _. constructor.
  - destruct (read_u16 r) as [ti r1] eqn:E. destruct (read_u8 r1) as [rc r2].
    destruct (read_u8 r2) as [lc r3].
    destruct (r_error r3); [discriminate|].
    destruct (parse_func_bodies n r3) as [l1 r4| | |] eqn:E4; try discriminate.
    injection H as <- _. apply read_u16_val in E. constructor; eauto.
Qed.

Lemma import_funcs_ok imps :
  Forall (fun i => 0 <= imp_type_idx i < 2 ^ 16) imps ->
  Forall (fun f => 0 <= type_idx f < 2 ^ 16) (import_funcs imps).
Proof.
  unfold import_funcs. intros H. apply Forall_lookup. intros k f Hk.
  rewrite list_lookup_imap in Hk.
  destruct (imps !! k) as [imp|] eqn:E; [|discriminate]. simpl in Hk.
  injection Hk as <-. simpl. eapply Forall_lookup in H; eauto.
Qed.

Lemma parse_code_bodies_ok n i ic fs r fs' r' :
  parse_code_bodies n i ic fs r = Parsed fs' r' ->
  Forall (fun f => 0 <= type_idx f < 2 ^ 16) fs ->
  Forall (fun f => 0 <= type_idx f < 2 ^ 16) fs'.
Proof.
  revert i fs r fs' r'. induction n as [|n IH]; simpl; intros i fs r fs' r' H Hfs.
  - injection H as <- _. exact Hfs.
  - destruct (read_u32 r) as [sz r1].
    destruct (r_error r1 || negb (sz mod 4 =? 0)); [discriminate|].
    destruct (read_bytes r1 sz) as [[bytes|] r2]; [|discriminate].
    destruct (fs !! Z.to_nat (ic + i)) as [f|] eqn:E; [|discriminate].
    eapply IH; [exact H|].
    apply Forall_insert; [exact Hfs|]. simpl.
    eapply Forall_lookup in Hfs; eauto.
Qed.

Lemma parse_exports_ok n r l r' :
  parse_exports n r = Parsed l r' ->
  Forall (fun e => 0 <= e_kind e < 2 ^ 8 /\ 0 <= e_idx e < 2 ^ 32) l.
Proof.
  revert r l r'. induction n as [|n IH]; simpl; intros r l r' H.
  - injection H as <- _. constructor.
  - destruct (read_u8 r) as [k r1] eqn:E0. destruct (read_u32 r1) as [ix r2] eqn:E1.
    destruct (read_string r2 1) as [[nm|] r3]; [|discriminate].
    destruct (r_error r3); [discriminate|].
    destruct (parse_exports n r3) as [l1 r4| | |] eqn:E4; try discriminate.
    injection H as <- _. apply read_u8_val in E0. apply read_u32_val in E1.
    constructor; eauto.
Qed.

Lemma parse_section_fields abi sect m r sz m' r' :
  parse_section abi sect m r sz = Parsed m' r' ->
  fields_in_range m -> fields_in_range m'.
Proof.
  intros H (Ht & Hf & Hi & He).
  destruct sect; simpl in H.
  - unfold parse_type_section in H. destruct (read_u32 r) as [c r1].
    destruct (_ || _); [discriminate|].
    destruct (parse_types _ r1) as [ts r2| | |] eqn:E; try discriminate.
    injection H as <- _. apply parse_types_ok in E. repeat split; assumption.
  - unfold parse_import_section in H. destruct (read_u32 r) as [c r1].
    destruct (_ || _); [discriminate|].
    destruct (parse_imports _ r1) as [l r2| | |] eqn:E; try discriminate.
    injection H as <- _. apply parse_imports_ok in E. repeat split; assumption.
  - unfold parse_func_section in H. destruct (read_u32 r) as [c r1].
    destruct (r_error r1); [discriminate|].
    destruct (_ <? _); [discriminate|]. destruct (_ <? _); [discriminate|].
    destruct (parse_func_bodies _ r1) as [l r2| | |] eqn:E; try discriminate.
    injection H as <- _. apply parse_func_bodies_ok in E.
    repeat split; try assumption. simpl.
    apply Forall_app. split; [apply import_funcs_ok; assumption|assumption].
  - unfold parse_memory_section in H. destruct (read_u16 r) as [a r1].
    destruct (read_u16 r1) as [b r2]. destruct (r_error r2); [discriminate|].
    injection H as <- _. repeat split; assumption.
  - unfold parse_global_section in H. destruct (read_u32 r) as [c r1].
    destruct (_ || _); [discriminate|].
    destruct (parse_globals _ _ r1) as [l r2| | |] eqn:E; try discriminate.
    injection H as <- _. repeat split; assumption.
  - unfold parse_export_section in H. destruct (read_u32 r) as [c r1].
    destruct (_ || _); [discriminate|].
    destruct (parse_exports _ r1) as [l r2| | |] eqn:E; try discriminate.
    injection H as <- _. apply parse_exports_ok in E. repeat split; assumption.
  - unfold parse_code_section in H. destruct (read_u32 r) as [c r1].
    destruct (_ || _); [discriminate|].
    destruct (parse_code_bodies _ _ _ _ r1) as [l r2| | |] eqn:E; try discriminate.
    injection H as <- _. eapply parse_code_bodies_ok in E; [|exact Hf].
    repeat split; assumption.
  - unfold parse_data_section in H. destruct (read_u32 r) as [c r1].
    destruct (_ || _); [discriminate|].
    destruct (parse_data_segs _ r1) as [l r2| | |] eqn:E; try discriminate.
    injection H as <- _. repeat split; assumption.
  - destruct (read_bytes r sz). injection H as <- _. repeat split; assumption.
Qed.

Lemma parse_sections_fields abi n m r m' r' :
  parse_sections abi n m r = Parsed m' r' ->
  fields_in_range m -> fields_in_range m'.
Proof.
  revert m r. induction n as [|n IH]; intros m r H Hm; simpl in H.
  - destruct (r_error r); [discriminate|].
    destruct (_ <=? _); [|discriminate]. injection H as <- _. exact Hm.
  - destruct (r_error r); [discriminate|].
    destruct (_ <=? _); [injection H as <- _; exact Hm|].
    destruct (read_u8 r) as [sid r1]. destruct (read_u32 r1) as [sz r2].
    destruct (r_error r2); [discriminate|].
    destruct (parse_section abi _ m r2 sz) as [m1 r3| | |] eqn:E; try discriminate.
    eapply IH; [exact H|]. eapply parse_section_fields; eauto.
Qed.

(** What a successful load does establish: every type has at most 16
    parameters and at most one result, and the type index of every
    function and import and the kind and index of every export are
    bounded by the width of their fields (16, 8 and 32 bits). *)
Lemma load_fields_in_range abi raw m :
  rune_module_load abi raw = Loaded m -> fields_in_range m.
Proof.
  unfold rune_module_load. intros H.
  destruct (_ <? _); [discriminate|].
  destruct (negb (bytes_eqb _ _)); [discriminate|].
  destruct (negb (_ =? _)); [discriminate|].
  destruct (negb (_ =? _)); [discriminate|].
  destruct (parse_sections abi _ _ _) as [m1 r1| | |] eqn:E; try discriminate.
  injection H as <-.
  assert (Hm1 : fields_in_range m1).
  { eapply parse_sections_fields; [exact E|]. repeat split; constructor. }
  destruct (find_init abi (exports m1)); [|exact Hm1].
  destruct Hm1 as (A & B & C & D). repeat split; assumption.
Qed.

(** ** The loader always finishes *)

Lemma reader_le_refl r : reader_le r r.
Proof. split; [lia|reflexivity]. Qed.

Lemma reader_le_trans a b c : reader_le a b -> reader_le b c -> reader_le a c.
Proof. unfold reader_le. intros [? ?] [? ?]. split; [lia|congruence]. Qed.

Lemma set_error_le r : reader_le r (set_error r).
Proof. split; simpl; [lia|reflexivity]. Qed.

Lemma read_u8_le r b r' : read_u8 r = (b, r') -> reader_le r r'.
Proof.
  unfold read_u8. destruct (_ <=? _); intros H; injection H as _ <-;
    split; simpl; (lia || reflexivity).
Qed.

Lemma read_u8_advances r b r' :
  r_pos r < r_len r -> read_u8 r = (b, r') -> r_pos r' = r_pos r + 1.
Proof.
  unfold read_u8. intros Hlt. apply Z.leb_gt in Hlt. rewrite Hlt.
  intros H; injection H as _ <-. reflexivity.
Qed.

Lemma read_u16_le r v r' : read_u16 r = (v, r') -> reader_le r r'.
Proof.
  unfold read_u16. destruct (read_u8 r) as [b0 r1] eqn:E0.
  destruct (read_u8 r1) as [b1 r2] eqn:E1. intros H; injection H as _ <-.
  eauto using reader_le_trans, read_u8_le.
Qed.

Lemma read_u32_le r v r' : read_u32 r = (v, r') -> reader_le r r'.
Proof.
  unfold read_u32. destruct (read_u8 r) as [b0 r1] eqn:E0.
  destruct (read_u8 r1) as [b1 r2] eqn:E1.
  destruct (read_u8 r2) as [b2 r3] eqn:E2.
  destruct (read_u8 r3) as [b3 r4] eqn:E3. intros H; injection H as _ <-.
  apply read_u8_le in E0, E1, E2, E3. unfold reader_le in *.
  intuition (first [lia | congruence]).
Qed.

Lemma read_u64_le r v r' : read_u64 r = (v, r') -> reader_le r r'.
Proof.
  unfold read_u64. destruct (read_u32 r) as [lo r1] eqn:E0.
  destruct (read_u32 r1) as [hi r2] eqn:E1. intros H; injection H as _ <-.
  eauto using reader_le_trans, read_u32_le.
Qed.

Lemma read_bytes_le r n o r' : 0 <= n -> read_bytes r n = (o, r') -> reader_le r r'.
Proof.
  unfold read_bytes. intros Hn. destruct (_ <? _); intros H; injection H as _ <-;
    split; simpl; (lia || reflexivity).
Qed.

Lemma read_string_le r k o r' : read_string r k = (o, r') -> reader_le r r'.
Proof.
  unfold read_string.
  destruct (if k =? 1 then read_u8 r else read_u32 r) as [len r1] eqn:E.
  assert (reader_le r r1 /\ 0 <= len) as [H1 Hlen].
  { destruct (k =? 1).
    - split; [eapply read_u8_le; eauto|]. apply read_u8_val in E. lia.
    - split; [eapply read_u32_le; eauto|]. apply read_u32_val in E. lia. }
  destruct (_ || _).
  - intros H; injection H as _ <-. eauto using reader_le_trans, set_error_le.
  - destruct (read_bytes r1 len) as [[src|] r2] eqn:E2; intros H; injection H as _ <-;
      apply read_bytes_le in E2; eauto using reader_le_trans, set_error_le.
Qed.

Lemma read_u8s_le n r bs r' : read_u8s n r = (bs, r') -> reader_le r r'.
Proof.
  revert r bs r'. induction n as [|n IH]; simpl; intros r bs r' H.
  - injection H as _ <-. apply reader_le_refl.
  - destruct (read_u8 r) as [b r1] eqn:E0. destruct (read_u8s n r1) as [bs1 r2] eqn:E1.
    injection H as _ <-. eauto using reader_le_trans, read_u8_le.
Qed.

Ltac reader_facts :=
  repeat match goal with
    | H : read_u8 _ = _ |- _ => apply read_u8_le in H
    | H : read_u16 _ = _ |- _ => apply read_u16_le in H
    | H : read_u32 _ = _ |- _ => apply read_u32_le in H
    | H : read_u64 _ = _ |- _ => apply read_u64_le in H
    | H : read_string _ _ = _ |- _ => apply read_string_le in H
    | H : read_u8s _ _ = _ |- _ => apply read_u8s_le in H
    end.

Ltac reader_close :=
  reader_facts; unfold reader_le in *; simpl in *;
  intuition (first [lia | congruence]).

Lemma parse_types_good n r : parse_good r (parse_types n r).
Proof.
  revert r. induction n as [|n IH]; simpl; intros r; [apply reader_le_refl|].
  destruct (read_u8 r) as [pc r1] eqn:E0. destruct (read_u8 r1) as [rc r2] eqn:E1.
  destruct (_ || _); [exact I|].
  destruct (read_u8s (Z.to_nat pc) r2) as [ps r3] eqn:E2.
  destruct (read_u8s (Z.to_nat rc) r3) as [rs r4] eqn:E3.
  destruct (r_error r4); [exact I|].
  specialize (IH r4). destruct (parse_types n r4); simpl in *; auto.
  reader_close.
Qed.

Lemma parse_imports_good n r : parse_good r (parse_imports n r).
Proof.
  revert r. induction n as [|n IH]; simpl; intros r; [apply reader_le_refl|].
  destruct (read_string r 1) as [mn r1] eqn:E0.
  destruct (read_string r1 1) as [fn r2] eqn:E1.
  destruct (read_u16 r2) as [ti r3] eqn:E2.
  destruct (r_error r3); [exact I|].
  destruct mn as [mname|]; [|exact I]. destruct fn as [fname|]; [|exact I].
  specialize (IH r3). destruct (parse_imports n r3); simpl in *; auto.
  reader_close.
Qed.

Lemma parse_func_bodies_good n r : parse_good r (parse_func_bodies n r).
Proof.
  revert r. induction n as [|n IH]; simpl; intros r; [apply reader_le_refl|].
  destruct (read_u16 r) as [ti r1] eqn:E0. destruct (read_u8 r1) as [rc r2] eqn:E1.
  destruct (read_u8 r2) as [lc r3] eqn:E2.
  destruct (r_error r3); [exact I|].
  specialize (IH r3). destruct (parse_func_bodies n r3); simpl in *; auto.
  reader_close.
Qed.

Lemma parse_globals_good abi n r : parse_good r (parse_globals abi n r).
Proof.
  revert r. induction n as [|n IH]; simpl; intros r; [apply reader_le_refl|].
  destruct (read_u8 r) as [ty r1] eqn:E0. destruct (read_u8 r1) as [mu r2] eqn:E1.
  destruct (read_u64 r2) as [raw r3] eqn:E2.
  destruct (r_error r3); [exact I|].
  match goal with
  | |- parse_good _ (match ?v with _ => _ end) => destruct v; [|exact I]
  end.
  specialize (IH r3). destruct (parse_globals abi n r3); simpl in *; auto.
  reader_close.
Qed.

Lemma parse_exports_good n r : parse_good r (parse_exports n r).
Proof.
  revert r. induction n as [|n IH]; simpl; intros r; [apply reader_le_refl|].
  destruct (read_u8 r) as [k r1] eqn:E0. destruct (read_u32 r1) as [ix r2] eqn:E1.
  destruct (read_string r2 1) as [[nm|] r3] eqn:E2; [|exact I].
  destruct (r_error r3); [exact I|].
  specialize (IH r3). destruct (parse_exports n r3); simpl in *; auto.
  reader_close.
Qed.

Lemma parse_code_bodies_good n i ic fs r : parse_good r (parse_code_bodies n i ic fs r).
Proof.
  revert i fs r. induction n as [|n IH]; simpl; intros i fs r; [apply reader_le_refl|].
  destruct (read_u32 r) as [sz r1] eqn:E0.
  destruct (_ || _); [exact I|].
  destruct (read_bytes r1 sz) as [[bytes|] r2] eqn:E1; [|exact I].
  destruct (fs !! _) as [f|]; [|exact I].
  specialize (IH (i + 1) (<[Z.to_nat (ic + i) := {|
      type_idx := type_idx f; reg_count := reg_count f; local_count := local_count f;
      code := bytes; code_size := sz; is_import := is_import f;
      import_idx := import_idx f |}]> fs) r2).
  destruct (parse_code_bodies n _ _ _ r2); simpl in *; auto.
  pose proof (read_u32_val _ _ _ E0). apply read_bytes_le in E1; [|lia].
  reader_close.
Qed.

Lemma parse_data_segs_good n r : parse_good r (parse_data_segs n r).
Proof.
  revert r. induction n as [|n IH]; simpl; intros r; [apply reader_le_refl|].
  destruct (read_u8 r) as [k r1] eqn:E0. destruct (read_u32 r1) as [off r2] eqn:E1.
  destruct (read_u32 r2) as [sz r3] eqn:E2.
  destruct (read_bytes r3 sz) as [[data|] r4] eqn:E3; [|exact I].
  destruct (r_error r4); [exact I|].
  specialize (IH r4). destruct (parse_data_segs n r4); simpl in *; auto.
  pose proof (read_u32_val _ _ _ E2). apply read_bytes_le in E3; [|lia].
  reader_close.
Qed.

Lemma parse_section_good abi sect m r sz :
  0 <= sz -> parse_good r (parse_section abi sect m r sz).
Proof.
  intros Hsz. destruct sect; simpl.
  - unfold parse_type_section. destruct (read_u32 r) as [c r1] eqn:E0.
    destruct (_ || _); [exact I|].
    pose proof (parse_types_good (Z.to_nat c) r1) as G.
    destruct (parse_types _ r1); simpl in *; auto.
    reader_close.
  - unfold parse_import_section. destruct (read_u32 r) as [c r1] eqn:E0.
    destruct (_ || _); [exact I|].
    pose proof (parse_imports_good (Z.to_nat c) r1) as G.
    destruct (parse_imports _ r1); simpl in *; auto.
    reader_close.
  - unfold parse_func_section. destruct (read_u32 r) as [c r1] eqn:E0.
    destruct (r_error r1); [exact I|].
    destruct (_ <? _); [exact I|]. destruct (_ <? _); [exact I|].
    pose proof (parse_func_bodies_good (Z.to_nat c) r1) as G.
    destruct (parse_func_bodies _ r1); simpl in *; auto.
    reader_close.
  - unfold parse_memory_section. destruct (read_u16 r) as [a r1] eqn:E0.
    destruct (read_u16 r1) as [b r2] eqn:E1. destruct (r_error r2); [exact I|].
    simpl. reader_close.
  - unfold parse_global_section. destruct (read_u32 r) as [c r1] eqn:E0.
    destruct (_ || _); [exact I|].
    pose proof (parse_globals_good abi (Z.to_nat c) r1) as G.
    destruct (parse_globals _ _ r1); simpl in *; auto.
    reader_close.
  - unfold parse_export_section. destruct (read_u32 r) as [c r1] eqn:E0.
    destruct (_ || _); [exact I|].
    pose proof (parse_exports_good (Z.to_nat c) r1) as G.
    destruct (parse_exports _ r1); simpl in *; auto.
    reader_close.
  - unfold parse_code_section. destruct (read_u32 r) as [c r1] eqn:E0.
    destruct (_ || _); [exact I|].
    pose proof (parse_code_bodies_good (Z.to_nat c) 0 (import_count m) (funcs m) r1) as G.
    destruct (parse_code_bodies _ _ _ _ r1); simpl in *; auto.
    reader_close.
  - unfold parse_data_section. destruct (read_u32 r) as [c r1] eqn:E0.
    destruct (_ || _); [exact I|].
    pose proof (parse_data_segs_good (Z.to_nat c) r1) as G.
    destruct (parse_data_segs _ r1); simpl in *; auto.
    reader_close.
  - destruct (read_bytes r sz) as [o r1] eqn:E. simpl.
    eapply read_bytes_le; eauto.
Qed.

Lemma parse_sections_finishes abi n m r :
  r_len r - r_pos r <= Z.of_nat n ->
  parse_sections abi n m r <> ParseOutOfGas.
Proof.
  revert m r. induction n as [|n IH]; intros m r Hn; simpl.
  - destruct (r_error r); [discriminate|].
    destruct (r_len r <=? r_pos r) eqn:E; [discriminate|].
    apply Z.leb_gt in E. lia.
  - destruct (r_error r); [discriminate|].
    destruct (r_len r <=? r_pos r) eqn:E; [discriminate|].
    apply Z.leb_gt in E.
    destruct (read_u8 r) as [sid r1] eqn:E0.
    destruct (read_u32 r1) as [sz r2] eqn:E1.
    destruct (r_error r2); [discriminate|].
    pose proof (read_u8_advances _ _ _ E E0) as Hadv.
    pose proof (read_u32_val _ _ _ E1) as Hsz.
    pose proof (parse_section_good abi (sect_of_u8 abi sid) m r2 sz (proj1 Hsz)) as G.
    destruct (parse_section abi _ m r2 sz) as [m1 r3| | |]; simpl in G;
      try discriminate; [|contradiction].
    apply IH.
    apply read_u8_le in E0. apply read_u32_le in E1.
    assert (Hle : reader_le r3
              (if r_pos r3 - r_pos r2 <? sz
               then snd (read_bytes r3 (sz - (r_pos r3 - r_pos r2))) else r3)).
    { destruct (_ <? sz) eqn:Hc; [|apply reader_le_refl].
      apply Z.ltb_lt in Hc.
      destruct (read_bytes r3 _) as [o r4] eqn:E4. simpl.
      eapply read_bytes_le; [|exact E4]. lia. }
    destruct E0 as [A1 A2], E1 as [B1 B2], G as [C1 C2], Hle as [D1 D2].
    unfold r_len in *. rewrite D2, C2, B2, A2. lia.
Qed.

(** The loop over the sections ends within the budget that
    [rune_module_load] gives it: the loader always returns a module, an
    error code, or has written outside an array. *)
Lemma rune_module_load_finishes abi raw : rune_module_load abi raw <> LoadOutOfGas.
Proof.
  unfold rune_module_load.
  destruct (_ <? _); [discriminate|].
  destruct (negb (bytes_eqb _ _)); [discriminate|].
  destruct (negb (_ =? _)); [discriminate|].
  destruct (negb (_ =? _)); [discriminate|].
  pose proof (parse_sections_finishes abi
                (length (drop (Z.to_nat sizeof_rune_file_header_t) raw)) empty_module
                (reader_init (drop (Z.to_nat sizeof_rune_file_header_t) raw))) as H.
  destruct (parse_sections abi _ _ _); try discriminate.
  exfalso. apply H; [|reflexivity]. unfold r_len, zlen. simpl. lia.
Qed.

(** * The assembler and the loader *)

(** ** Little-endian integers *)

Lemma land_shiftl_low b x k :
  0 <= k -> 0 <= b < 2 ^ k -> Z.land b (Z.shiftl x k) = 0.
Proof.
  intros Hk Hb. apply Z.bits_inj'. intros n Hn.
  rewrite Z.land_spec, Z.bits_0.
  destruct (Z.lt_ge_cases n k).
  - rewrite Z.shiftl_spec_low by lia. apply andb_false_r.
  - destruct (Z.eq_dec b 0) as [->|Hb0]; [rewrite Z.bits_0; reflexivity|].
    rewrite (Z.bits_above_log2 b n); [reflexivity|lia|].
    apply Z.lt_le_trans with k; [apply Z.log2_lt_pow2; lia|lia].
Qed.

Lemma lor_shiftl_add b x k :
  0 <= k -> 0 <= b < 2 ^ k -> Z.lor b (Z.shiftl x k) = b + x * 2 ^ k.
Proof.
  intros Hk Hb. pose proof (land_shiftl_low b x k Hk Hb) as H0.
  rewrite <- Z.lxor_lor by exact H0.
  rewrite <- Z.add_nocarry_lxor by exact H0.
  rewrite Z.shiftl_mul_pow2 by lia. reflexivity.
Qed.

Lemma le_combine_le_split n v :
  le_combine (le_split n v) = v mod 2 ^ (8 * Z.of_nat n).
Proof.
  revert v. induction n as [|n IH]; intros v.
  - simpl. rewrite Z.mod_1_r. reflexivity.
  - cbn [le_split le_combine]. rewrite IH.
    assert (Hu : u8 (u8 v) = u8 v) by (unfold u8; apply Z.mod_mod; lia).
    rewrite Hu, lor_shiftl_add by (try lia; apply u8_range).
    unfold u8. rewrite Z.shiftr_div_pow2 by lia.
    replace (8 * Z.of_nat (S n)) with (8 + 8 * Z.of_nat n) by lia.
    rewrite Z.pow_add_r by lia.
    rewrite Z.rem_mul_r by (try apply Z.pow_nonzero; try lia;
                            apply Z.pow_pos_nonneg; lia).
    lia.
Qed.

Lemma le_split_range n v : Forall (fun b => 0 <= b < 2 ^ 8) (le_split n v).
Proof.
  revert v. induction n as [|n IH]; intros v; simpl; constructor;
    [apply u8_range|apply IH].
Qed.

Lemma buf_push_u16_app b v : Asm.buf_push_u16 b v = b ++ le_split 2 v.
Proof.
  unfold Asm.buf_push_u16, Asm.buf_push_u8. rewrite <- app_assoc. reflexivity.
Qed.

Lemma buf_push_u32_app b v : Asm.buf_push_u32 b v = b ++ le_split 4 v.
Proof.
  unfold Asm.buf_push_u32, Asm.buf_push_u8. rewrite <- !app_assoc. simpl.
  rewrite !Z.shiftr_shiftr by lia. reflexivity.
Qed.

Lemma buf_push_u64_app b v :
  Asm.buf_push_u64 b v = b ++ le_split 4 (u32 v) ++ le_split 4 (u32 (Z.shiftr v 32)).
Proof.
  unfold Asm.buf_push_u64. rewrite !buf_push_u32_app, <- app_assoc. reflexivity.
Qed.

Lemma buf_push_bytes_app b src :
  Asm.buf_push_bytes b src (zlen src) = b ++ src.
Proof.
  unfold Asm.buf_push_bytes, zlen. rewrite Nat2Z.id, firstn_all. reflexivity.
Qed.

(** ** Reading what was pushed *)

Lemma drop_cons_inv {A} (n : nat) (l : list A) x s :
  drop n l = x :: s -> l !! n = Some x /\ drop (S n) l = s /\ (n < length l)%nat.
Proof.
  revert l. induction n as [|n IH]; intros [|y l] H; simpl in *; try discriminate.
  - injection H as -> ->. repeat split. lia.
  - destruct (IH l H) as (H1 & H2 & H3). repeat split; auto. lia.
Qed.

Lemma reader_at_nil r : reader_at r [] -> r_len r <= r_pos r.
Proof.
  intros (_ & Hp & Hd). unfold r_len, zlen in *.
  apply (f_equal length) in Hd. rewrite length_drop in Hd. simpl in Hd. lia.
Qed.

Lemma reader_at_cons r b s : reader_at r (b :: s) -> r_pos r < r_len r.
Proof.
  intros (_ & Hp & Hd). apply drop_cons_inv in Hd as (_ & _ & Hl).
  unfold r_len, zlen. lia.
Qed.

Lemma read_u8_at r b s :
  reader_at r (b :: s) ->
  exists r', read_u8 r = (u8 b, r') /\ reader_at r' s.
Proof.
  intros H. pose proof (reader_at_cons _ _ _ H) as Hlt.
  destruct H as (He & Hp & Hd). apply drop_cons_inv in Hd as (Hn & Hs & Hl).
  unfold read_u8. rewrite (proj2 (Z.leb_gt _ _) Hlt).
  eexists. split.
  - f_equal. f_equal. apply nth_lookup_Some with (d := 0) in Hn. exact Hn.
  - repeat split; simpl; [exact He|lia|unfold r_len in *; simpl; lia|].
    replace (Z.to_nat (r_pos r + 1)) with (S (Z.to_nat (r_pos r))) by lia. exact Hs.
Qed.

Lemma u8_idem v : u8 (u8 v) = u8 v.
Proof. unfold u8. apply Z.mod_mod. lia. Qed.

Lemma lor_bytes4 b0 b1 b2 b3 :
  0 <= b0 < 2 ^ 8 -> 0 <= b1 < 2 ^ 8 -> 0 <= b2 < 2 ^ 8 -> 0 <= b3 < 2 ^ 8 ->
  Z.lor (Z.lor (Z.lor b0 (Z.shiftl b1 8)) (Z.shiftl b2 16)) (Z.shiftl b3 24)
  = b0 + b1 * 2 ^ 8 + b2 * 2 ^ 16 + b3 * 2 ^ 24.
Proof.
  intros R0 R1 R2 R3.
  rewrite (lor_shiftl_add b0 b1 8) by lia.
  rewrite (lor_shiftl_add (b0 + b1 * 2 ^ 8) b2 16) by lia.
  rewrite (lor_shiftl_add _ b3 24) by lia.
  reflexivity.
Qed.

Lemma le_combine4 b0 b1 b2 b3 :
  0 <= b0 < 2 ^ 8 -> 0 <= b1 < 2 ^ 8 -> 0 <= b2 < 2 ^ 8 -> 0 <= b3 < 2 ^ 8 ->
  le_combine [b0; b1; b2; b3] = b0 + b1 * 2 ^ 8 + b2 * 2 ^ 16 + b3 * 2 ^ 24.
Proof.
  intros R0 R1 R2 R3. simpl.
  rewrite Z.shiftl_0_l, Z.lor_0_r.
  assert (U : forall b, 0 <= b < 2 ^ 8 -> u8 b = b)
    by (intros b Hb; unfold u8; apply Z.mod_small; exact Hb).
  rewrite !U by assumption.
  rewrite (lor_shiftl_add b2 b3 8) by lia.
  rewrite (lor_shiftl_add b1 _ 8) by lia.
  rewrite (lor_shiftl_add b0 _ 8) by lia.
  lia.
Qed.

Lemma read_u16_at r v s :
  reader_at r (le_split 2 v ++ s) ->
  exists r', read_u16 r = (u16 v, r') /\ reader_at r' s.
Proof.
  simpl. intros H.
  destruct (read_u8_at _ _ _ H) as (r1 & E1 & H1).
  destruct (read_u8_at _ _ _ H1) as (r2 & E2 & H2).
  unfold read_u16. rewrite E1, E2. exists r2. split; [|exact H2].
  f_equal. rewrite !u8_idem.
  pose proof (le_combine_le_split 2 v) as Hc.
  change (8 * Z.of_nat 2) with 16 in Hc. simpl in Hc.
  rewrite !u8_idem in Hc. unfold u16. rewrite <- Hc.
  rewrite Z.shiftl_0_l, Z.lor_0_r.
  f_equal. apply Z.mod_small.
  apply shiftl_range; [lia|apply u8_range|lia].
Qed.

Lemma read_u32_at r v s :
  reader_at r (le_split 4 v ++ s) ->
  exists r', read_u32 r = (u32 v, r') /\ reader_at r' s.
Proof.
  intros H. pose proof (le_combine_le_split 4 v) as Hc.
  change (8 * Z.of_nat 4) with 32 in Hc. fold (u32 v) in Hc.
  cbn [le_split app] in H, Hc.
  destruct (read_u8_at _ _ _ H) as (r1 & E1 & H1).
  destruct (read_u8_at _ _ _ H1) as (r2 & E2 & H2).
  destruct (read_u8_at _ _ _ H2) as (r3 & E3 & H3).
  destruct (read_u8_at _ _ _ H3) as (r4 & E4 & H4).
  unfold read_u32. rewrite E1, E2, E3, E4. exists r4. split; [|exact H4].
  f_equal. rewrite !u8_idem. rewrite <- Hc.
  rewrite lor_bytes4, le_combine4 by apply u8_range. reflexivity.
Qed.

Lemma read_u64_at r v s :
  reader_at r (le_split 4 (u32 v) ++ le_split 4 (u32 (Z.shiftr v 32)) ++ s) ->
  exists r', read_u64 r = (u64 v, r') /\ reader_at r' s.
Proof.
  intros H.
  destruct (read_u32_at _ _ _ H) as (r1 & E1 & H1).
  destruct (read_u32_at _ _ _ H1) as (r2 & E2 & H2).
  unfold read_u64. rewrite E1, E2. exists r2. split; [|exact H2].
  f_equal.
  assert (U : forall x, u32 (u32 x) = u32 x) by (intros x; unfold u32; apply Z.mod_mod; lia).
  rewrite !U, lor_shiftl_add by (try lia; apply u32_range).
  unfold u32, u64. rewrite Z.shiftr_div_pow2 by lia.
  change (2 ^ 64) with (2 ^ 32 * 2 ^ 32).
  rewrite Z.rem_mul_r by lia. ring.
Qed.

Lemma read_bytes_at r bs s :
  reader_at r (bs ++ s) ->
  exists r', read_bytes r (zlen bs) = (Some bs, r') /\ reader_at r' s.
Proof.
  intros (He & Hp & Hd). unfold read_bytes.
  assert (Hl : r_pos r + zlen bs <= r_len r).
  { apply (f_equal length) in Hd. rewrite length_drop, length_app in Hd.
    unfold r_len, zlen in *. lia. }
  apply Z.ltb_ge in Hl. rewrite Hl. eexists. split.
  - f_equal. f_equal. rewrite Hd. unfold zlen. rewrite Nat2Z.id.
    apply take_app_length.
  - apply Z.ltb_ge in Hl.
    repeat split; simpl; [exact He|unfold zlen; lia|unfold r_len in *; simpl; lia|].
    replace (Z.to_nat (r_pos r + zlen bs)) with (Z.to_nat (r_pos r) + length bs)%nat
      by (unfold zlen; lia).
    rewrite <- drop_drop, Hd. apply drop_app_length.
Qed.

Lemma read_u8s_at bs r s :
  reader_at r (bs ++ s) ->
  exists r', read_u8s (length bs) r = (map u8 bs, r') /\ reader_at r' s.
Proof.
  revert r. induction bs as [|b bs IH]; intros r H; simpl in *.
  - exists r. split; [reflexivity|exact H].
  - destruct (read_u8_at _ _ _ H) as (r1 & E1 & H1). rewrite E1.
    destruct (IH _ H1) as (r2 & E2 & H2). rewrite E2.
    exists r2. split; [reflexivity|exact H2].
Qed.

Lemma in_u8_spec x : in_u8 x = true <-> 0 <= x < 2 ^ 8.
Proof. unfold in_u8. rewrite andb_true_iff, Z.leb_le, Z.ltb_lt. tauto. Qed.

Lemma in_u16_spec x : in_u16 x = true <-> 0 <= x < 2 ^ 16.
Proof. unfold in_u16. rewrite andb_true_iff, Z.leb_le, Z.ltb_lt. tauto. Qed.

Lemma in_u32_spec x : in_u32 x = true <-> 0 <= x < 2 ^ 32.
Proof. unfold in_u32. rewrite andb_true_iff, Z.leb_le, Z.ltb_lt. tauto. Qed.

Lemma u8_small x : 0 <= x < 2 ^ 8 -> u8 x = x.
Proof. intros H. unfold u8. apply Z.mod_small. exact H. Qed.

Lemma u16_small x : 0 <= x < 2 ^ 16 -> u16 x = x.
Proof. intros H. unfold u16. apply Z.mod_small. exact H. Qed.

Lemma u32_small x : 0 <= x < 2 ^ 32 -> u32 x = x.
Proof. intros H. unfold u32. apply Z.mod_small. exact H. Qed.

Lemma zlen_nonneg {A} (l : list A) : 0 <= zlen l.
Proof. unfold zlen. lia. Qed.

Lemma zlen_app {A} (l1 l2 : list A) : zlen (l1 ++ l2) = zlen l1 + zlen l2.
Proof. unfold zlen. rewrite length_app. lia. Qed.

Lemma zlen_cons {A} (x : A) l : zlen (x :: l) = 1 + zlen l.
Proof. unfold zlen. simpl. lia. Qed.

Lemma zlen_le_split n v : zlen (le_split n v) = Z.of_nat n.
Proof. unfold zlen. rewrite length_le_split. reflexivity. Qed.

Lemma c_str_no_zero s :
  forallb (fun c => negb (c =? 0)) s = true -> c_str s = s.
Proof.
  induction s as [|c s IH]; simpl; [reflexivity|].
  rewrite andb_true_iff. intros [Hc Hs]. apply negb_true_iff in Hc. rewrite Hc.
  f_equal. apply IH. exact Hs.
Qed.

Lemma name_ok_spec s : name_ok s = true -> c_str s = s /\ 0 <= zlen s < 2 ^ 8.
Proof.
  unfold name_ok. rewrite andb_true_iff, Z.ltb_lt. intros [H1 H2].
  split; [apply c_str_no_zero; exact H1|]. pose proof (zlen_nonneg s). lia.
Qed.

Lemma buf_push_str8_app b s :
  name_ok s = true -> Asm.buf_push_str8 b s = b ++ zlen s :: s.
Proof.
  intros H. apply name_ok_spec in H as [Hc Hl].
  unfold Asm.buf_push_str8, Asm.strlen. rewrite Hc, (u8_small (zlen s)) by exact Hl.
  rewrite buf_push_bytes_app. unfold Asm.buf_push_u8.
  rewrite (u8_small (zlen s)) by exact Hl. rewrite <- app_assoc. reflexivity.
Qed.

Lemma read_string_at r nm s :
  zlen nm < 2 ^ 8 ->
  reader_at r (zlen nm :: nm ++ s) ->
  exists r', read_string r 1 = (Some nm, r') /\ reader_at r' s.
Proof.
  intros Hl H. pose proof (zlen_nonneg nm) as H0.
  destruct (read_u8_at _ _ _ H) as (r1 & E1 & H1).
  destruct (read_bytes_at _ _ _ H1) as (r2 & E2 & H2).
  unfold read_string. rewrite Z.eqb_refl, E1.
  rewrite (u8_small (zlen nm)) by lia.
  destruct H1 as (He1 & _). rewrite He1. simpl.
  destruct (4096 <? zlen nm) eqn:E; [apply Z.ltb_lt in E; lia|].
  rewrite E2. exists r2. split; [reflexivity|exact H2].
Qed.

(** ** The sections, written and read back *)

Lemma fold_push_u8 l sec : fold_left Asm.buf_push_u8 l sec = sec ++ map u8 l.
Proof.
  revert sec. induction l as [|x l IH]; intros sec; simpl.
  - rewrite app_nil_r. reflexivity.
  - rewrite IH. unfold Asm.buf_push_u8. rewrite <- app_assoc. reflexivity.
Qed.

Lemma map_u8_small l : forallb in_u8 l = true -> map u8 l = l.
Proof.
  induction l as [|x l IH]; simpl; [reflexivity|].
  rewrite andb_true_iff. intros [Hx Hl]. apply in_u8_spec in Hx.
  rewrite u8_small by exact Hx. f_equal. apply IH. exact Hl.
Qed.

Lemma asm_type_ok_spec t :
  asm_type_ok t = true ->
  0 <= Asm.param_count t <= RUNE_MAX_PARAMS /\ 0 <= Asm.return_count t <= 1 /\
  Asm.param_count t <= zlen (Asm.params t) /\ Asm.return_count t <= zlen (Asm.rets t) /\
  forallb in_u8 (take (Z.to_nat (Asm.param_count t)) (Asm.params t)) = true /\
  forallb in_u8 (take (Z.to_nat (Asm.return_count t)) (Asm.rets t)) = true.
Proof.
  unfold asm_type_ok. rewrite !andb_true_iff, !Z.leb_le. tauto.
Qed.

Lemma push_types_ok ts :
  forallb asm_type_ok ts = true ->
  exists enc,
    (forall sec, Asm.push_types sec ts = Asm.AsmOk (sec ++ enc)) /\
    (forall r s, reader_at r (enc ++ s) ->
       exists r', parse_types (length ts) r = Parsed (map loaded_type ts) r' /\
                  reader_at r' s) /\
    zlen enc <= 19 * zlen ts.
Proof.
  induction ts as [|t ts IH]; simpl.
  - intros _. exists []. repeat split.
    + intros sec. rewrite app_nil_r. reflexivity.
    + intros r s H. exists r. split; [reflexivity|exact H].
    + unfold zlen. simpl. lia.
  - rewrite andb_true_iff. intros [Ht Hts].
    destruct (IH Hts) as (enc & Hpush & Hparse & Hlen). clear IH.
    apply asm_type_ok_spec in Ht as (Hpc & Hrc & Hpl & Hrl & Hps & Hrs).
    set (ps := take (Z.to_nat (Asm.param_count t)) (Asm.params t)) in *.
    set (rs := take (Z.to_nat (Asm.return_count t)) (Asm.rets t)) in *.
    assert (Lps : length ps = Z.to_nat (Asm.param_count t)).
    { unfold ps. rewrite length_take. unfold zlen in Hpl. lia. }
    assert (Lrs : length rs = Z.to_nat (Asm.return_count t)).
    { unfold rs. rewrite length_take. unfold zlen in Hrl. lia. }
    exists ([Asm.param_count t; Asm.return_count t] ++ ps ++ rs ++ enc).
    repeat split.
    + intros sec. unfold Asm.push_tags.
      rewrite (proj2 (Z.ltb_ge _ _) Hpl), (proj2 (Z.ltb_ge _ _) Hrl). simpl.
      rewrite !fold_push_u8. fold ps rs.
      rewrite !map_u8_small by assumption. rewrite Hpush.
      unfold Asm.buf_push_u8. unfold RUNE_MAX_PARAMS in Hpc.
      rewrite !u8_small by lia. rewrite <- !app_assoc. reflexivity.
    + intros r s H. simpl in H. rewrite <- !app_assoc in H.
      destruct (read_u8_at _ _ _ H) as (r1 & E1 & H1).
      destruct (read_u8_at _ _ _ H1) as (r2 & E2 & H2).
      rewrite E1, E2. unfold RUNE_MAX_PARAMS in *.
      rewrite !u8_small by lia.
      pose proof H2 as (He2 & _). rewrite He2.
      rewrite (proj2 (Z.ltb_ge _ _) (proj2 Hpc)), (proj2 (Z.ltb_ge _ _) (proj2 Hrc)).
      simpl.
      destruct (read_u8s_at ps r2 (rs ++ enc ++ s) H2) as (r3 & E3 & H3).
      rewrite Lps in E3. rewrite E3.
      destruct (read_u8s_at rs r3 (enc ++ s) H3) as (r4 & E4 & H4).
      rewrite Lrs in E4. rewrite E4.
      pose proof H4 as (He4 & _). rewrite He4.
      destruct (Hparse _ _ H4) as (r5 & E5 & H5). rewrite E5.
      exists r5. split; [|exact H5].
      rewrite !map_u8_small by assumption. reflexivity.
    + rewrite zlen_cons. rewrite !zlen_app, !zlen_cons.
      unfold zlen at 1 2 3. simpl length. rewrite Lps, Lrs.
      unfold RUNE_MAX_PARAMS in *. unfold zlen in *. lia.
Qed.

Lemma asm_import_ok_spec im :
  asm_import_ok im = true ->
  name_ok (Asm.module im) = true /\ name_ok (Asm.name im) = true /\
  0 <= Asm.type_idx im < 2 ^ 16.
Proof.
  unfold asm_import_ok. rewrite !andb_true_iff, in_u16_spec. tauto.
Qed.

Lemma push_imports_ok l :
  forallb asm_import_ok l = true ->
  exists enc,
    (forall sec, Asm.push_imports sec l = sec ++ enc) /\
    (forall r s, reader_at r (enc ++ s) ->
       exists r', parse_imports (length l) r = Parsed (map loaded_import l) r' /\
                  reader_at r' s) /\
    zlen enc <= 516 * zlen l.
Proof.
  induction l as [|im l IH]; simpl.
  - intros _. exists []. repeat split.
    + intros sec. rewrite app_nil_r. reflexivity.
    + intros r s H. exists r. split; [reflexivity|exact H].
    + unfold zlen. simpl. lia.
  - rewrite andb_true_iff. intros [Him Hl].
    destruct (IH Hl) as (enc & Hpush & Hparse & Hlen). clear IH.
    apply asm_import_ok_spec in Him as (Hm & Hn & Hti).
    pose proof (name_ok_spec _ Hm) as [_ Lm].
    pose proof (name_ok_spec _ Hn) as [_ Ln].
    exists ((zlen (Asm.module im) :: Asm.module im)
            ++ (zlen (Asm.name im) :: Asm.name im)
            ++ le_split 2 (Asm.type_idx im) ++ enc).
    repeat split.
    + intros sec. rewrite Hpush, buf_push_u16_app, !buf_push_str8_app by assumption.
      rewrite <- !app_assoc. reflexivity.
    + intros r s H. cbn [app] in H. rewrite <- !app_assoc in H.
      destruct (read_string_at _ _ _ (proj2 Lm) H) as (r1 & E1 & H1).
      cbn [app] in H1. rewrite <- !app_assoc in H1.
      destruct (read_string_at _ _ _ (proj2 Ln) H1) as (r2 & E2 & H2).
      destruct (read_u16_at _ _ _ H2) as (r3 & E3 & H3).
      rewrite E1, E2, E3. pose proof H3 as (He3 & _). rewrite He3.
      destruct (Hparse _ _ H3) as (r4 & E4 & H4). rewrite E4.
      exists r4. split; [|exact H4].
      rewrite u16_small by exact Hti. reflexivity.
    + rewrite !zlen_app, !zlen_cons, zlen_le_split. lia.
Qed.

(** The loops over [funcs] that skip the imports. *)
Lemma push_funcs_bodies sec l :
  Asm.push_funcs sec l = Asm.push_funcs sec (filter (fun f => Asm.is_import f = false) l).
Proof.
  revert sec. induction l as [|f l IH]; intros sec; [reflexivity|].
  simpl. destruct (Asm.is_import f) eqn:E.
  - rewrite filter_cons_False by congruence. apply IH.
  - rewrite filter_cons_True by exact E. simpl. rewrite E. apply IH.
Qed.

Lemma push_code_bodies sec l :
  Asm.push_code sec l = Asm.push_code sec (filter (fun f => Asm.is_import f = false) l).
Proof.
  revert sec. induction l as [|f l IH]; intros sec; [reflexivity|].
  simpl. destruct (Asm.is_import f) eqn:E.
  - rewrite filter_cons_False by congruence. apply IH.
  - rewrite filter_cons_True by exact E. simpl. rewrite E. apply IH.
Qed.

Lemma forallb_filter {A} (p : A -> bool) (P : A -> Prop) `{forall x, Decision (P x)} l :
  forallb p l = true -> forallb p (filter P l) = true.
Proof.
  induction l as [|x l IH]; simpl; [reflexivity|].
  rewrite andb_true_iff. intros [Hx Hl].
  destruct (decide (P x)).
  - rewrite filter_cons_True by assumption. simpl. rewrite Hx. apply IH. exact Hl.
  - rewrite filter_cons_False by assumption. apply IH. exact Hl.
Qed.

Lemma filter_all_bodies (l : list Asm.asm_func_t) :
  Forall (fun f => Asm.is_import f = false)
         (filter (fun f => Asm.is_import f = false) l).
Proof.
  induction l as [|f l IH]; [constructor|].
  destruct (Asm.is_import f) eqn:E.
  - rewrite filter_cons_False by congruence. exact IH.
  - rewrite filter_cons_True by exact E. constructor; assumption.
Qed.

Lemma asm_func_ok_spec f :
  asm_func_ok f = true -> Asm.is_import f = false ->
  0 <= Asm.f_type_idx f < 2 ^ 16 /\ 0 <= Asm.reg_count f < 2 ^ 8 /\
  0 <= Asm.local_count f < 2 ^ 8 /\ zlen (Asm.code f) mod 4 = 0.
Proof.
  unfold asm_func_ok. intros H E. rewrite E in H. simpl in H.
  rewrite !andb_true_iff, in_u16_spec, !in_u8_spec, Z.eqb_eq in H. tauto.
Qed.

Lemma push_funcs_ok bl :
  forallb asm_func_ok bl = true ->
  Forall (fun f => Asm.is_import f = false) bl ->
  exists enc,
    (forall sec, Asm.push_funcs sec bl = sec ++ enc) /\
    (forall r s, reader_at r (enc ++ s) ->
       exists r', parse_func_bodies (length bl) r = Parsed (map declared_body bl) r' /\
                  reader_at r' s) /\
    zlen enc = 4 * zlen bl.
Proof.
  induction bl as [|f bl IH]; simpl.
  - intros _ _. exists []. repeat split.
    + intros sec. rewrite app_nil_r. reflexivity.
    + intros r s H. exists r. split; [reflexivity|exact H].
  - rewrite andb_true_iff. intros [Hf Hl] Hb.
    inversion Hb as [|? ? Hi Hb']; subst.
    destruct (IH Hl Hb') as (enc & Hpush & Hparse & Hlen). clear IH.
    apply asm_func_ok_spec in Hf as (Hti & Hrc & Hlc & _); [|exact Hi].
    exists (le_split 2 (Asm.f_type_idx f) ++ [Asm.reg_count f; Asm.local_count f] ++ enc).
    repeat split.
    + intros sec. rewrite Hi, Hpush, buf_push_u16_app. unfold Asm.buf_push_u8.
      rewrite !u8_small by assumption. rewrite <- !app_assoc. reflexivity.
    + intros r s H. rewrite <- !app_assoc in H.
      destruct (read_u16_at _ _ _ H) as (r1 & E1 & H1). cbn [app] in H1.
      destruct (read_u8_at _ _ _ H1) as (r2 & E2 & H2).
      destruct (read_u8_at _ _ _ H2) as (r3 & E3 & H3).
      rewrite E1, E2, E3. pose proof H3 as (He3 & _). rewrite He3.
      destruct (Hparse _ _ H3) as (r4 & E4 & H4). rewrite E4.
      exists r4. split; [|exact H4].
      rewrite u16_small, !u8_small by assumption. reflexivity.
    + rewrite !zlen_app, zlen_le_split, !zlen_cons. change (zlen (@nil Z)) with 0. lia.
Qed.

Lemma signed_mod w x : 0 < w -> signed w x mod 2 ^ w = x mod 2 ^ w.
Proof.
  intros Hw. unfold signed.
  assert (0 < 2 ^ w) by (apply Z.pow_pos_nonneg; lia).
  destruct (_ <? _).
  - apply Z.mod_mod. lia.
  - replace (x mod 2 ^ w - 2 ^ w) with (x mod 2 ^ w + (-1) * 2 ^ w) by lia.
    rewrite Z_mod_plus_full. apply Z.mod_mod. lia.
Qed.

Lemma signed_of_mod w x : 0 < w -> signed w (x mod 2 ^ w) = signed w x.
Proof.
  intros Hw. unfold signed.
  rewrite Z.mod_mod by (apply Z.pow_nonzero; lia). reflexivity.
Qed.

Lemma numbering_ok_tags abi sect_num :
  numbering_ok abi sect_num = true ->
  (0 <= RUNE_TYPE_I32 abi < 2 ^ 8 /\ 0 <= RUNE_TYPE_I64 abi < 2 ^ 8 /\
   0 <= RUNE_TYPE_F32 abi < 2 ^ 8 /\ 0 <= RUNE_TYPE_F64 abi < 2 ^ 8) /\
  RUNE_TYPE_I32 abi <> RUNE_TYPE_I64 abi /\ RUNE_TYPE_I32 abi <> RUNE_TYPE_F32 abi /\
  RUNE_TYPE_I32 abi <> RUNE_TYPE_F64 abi /\ RUNE_TYPE_I64 abi <> RUNE_TYPE_F32 abi /\
  RUNE_TYPE_I64 abi <> RUNE_TYPE_F64 abi /\ RUNE_TYPE_F32 abi <> RUNE_TYPE_F64 abi.
Proof.
  unfold numbering_ok. cbn [forallb].
  rewrite !andb_true_iff, !negb_true_iff, !Z.eqb_neq, !in_u8_spec. tauto.
Qed.

Lemma u32_i32 x : u32 (i32 x) = u32 x.
Proof. unfold u32, i32. apply signed_mod. lia. Qed.

Lemma i32_u32 x : i32 (u32 x) = i32 x.
Proof. unfold u32, i32. apply signed_of_mod. lia. Qed.

Lemma u64_i64 x : u64 (i64 x) = u64 x.
Proof. unfold u64, i64. apply signed_mod. lia. Qed.

Lemma i64_u64 x : i64 (u64 x) = i64 x.
Proof. unfold u64, i64. apply signed_of_mod. lia. Qed.

Lemma u32_idem x : u32 (u32 x) = u32 x.
Proof. unfold u32. apply Z.mod_mod. lia. Qed.

Lemma u64_idem x : u64 (u64 x) = u64 x.
Proof. unfold u64. apply Z.mod_mod. lia. Qed.

Lemma u64_u32 x : u64 (u32 x) = u32 x.
Proof.
  unfold u64. apply Z.mod_small. pose proof (u32_range x). lia.
Qed.

Ltac norm_int :=
  repeat first [ rewrite u64_u32 | rewrite u32_i32 | rewrite i32_u32 | rewrite u64_i64
               | rewrite i64_u64 | rewrite u32_idem | rewrite u64_idem ].

(** The [switch] of [rune_asm_finalize] followed by that of
    [parse_global_section]. *)
Lemma global_value_round_trip abi sect_num g :
  numbering_ok abi sect_num = true ->
  asm_global_ok abi g = true ->
  let ty := Asm.g_type g in
  let raw := u64 (Asm.global_raw abi g) in
  (if ty =? RUNE_TYPE_I32 abi then Some (rune_i32 abi (i32 raw))
   else if ty =? RUNE_TYPE_I64 abi then Some (rune_i64 abi (i64 raw))
   else if ty =? RUNE_TYPE_F32 abi then Some (rune_f32 abi (u32 raw))
   else if ty =? RUNE_TYPE_F64 abi then Some (rune_f64 abi raw)
   else None)
  = Some (g_value (loaded_global abi g)).
Proof.
  intros Hnum Hg. apply numbering_ok_tags in Hnum as (_ & D1 & D2 & D3 & D4 & D5 & D6).
  unfold asm_global_ok in Hg. cbv zeta. unfold Asm.global_raw, loaded_global. simpl.
  destruct (Asm.g_type g =? RUNE_TYPE_I32 abi) eqn:T1.
  { apply Z.eqb_eq in T1. unfold rune_i32, as_i32. simpl.
    norm_int. rewrite T1. reflexivity. }
  destruct (Asm.g_type g =? RUNE_TYPE_I64 abi) eqn:T2.
  { apply Z.eqb_eq in T2. unfold rune_i64, as_i64.
    rewrite T2, (proj2 (Z.eqb_neq _ _) D4). simpl.
    norm_int. reflexivity. }
  destruct (Asm.g_type g =? RUNE_TYPE_F32 abi) eqn:T3.
  { apply Z.eqb_eq in T3. unfold rune_f32, as_f32. simpl.
    norm_int. rewrite T3. reflexivity. }
  destruct (Asm.g_type g =? RUNE_TYPE_F64 abi) eqn:T4; [|discriminate Hg].
  apply Z.eqb_eq in T4. unfold rune_f64, as_f64. simpl.
  norm_int. rewrite T4. reflexivity.
Qed.

Lemma push_globals_ok abi sect_num l :
  numbering_ok abi sect_num = true ->
  forallb (asm_global_ok abi) l = true ->
  exists enc,
    (forall sec, Asm.push_globals abi sec l = sec ++ enc) /\
    (forall r s, reader_at r (enc ++ s) ->
       exists r', parse_globals abi (length l) r = Parsed (map (loaded_global abi) l) r' /\
                  reader_at r' s) /\
    zlen enc = 10 * zlen l.
Proof.
  intros Hnum. pose proof (numbering_ok_tags _ _ Hnum) as (Hr & Hd).
  induction l as [|g l IH]; simpl.
  - intros _. exists []. repeat split.
    + intros sec. rewrite app_nil_r. reflexivity.
    + intros r s H. exists r. split; [reflexivity|exact H].
  - rewrite andb_true_iff. intros [Hg Hl].
    destruct (IH Hl) as (enc & Hpush & Hparse & Hlen). clear IH.
    pose proof (global_value_round_trip abi sect_num g Hnum Hg) as Hv. cbv zeta in Hv.
    set (raw := Asm.global_raw abi g) in *.
    exists ([Asm.g_type g; if Asm.mutable g then 1 else 0]
            ++ (le_split 4 (u32 raw) ++ le_split 4 (u32 (Z.shiftr raw 32))) ++ enc).
    assert (Hty : 0 <= Asm.g_type g < 2 ^ 8).
    { unfold asm_global_ok in Hg. rewrite !orb_true_iff, !Z.eqb_eq in Hg.
      destruct Hg as [[[-> | ->] | ->] | ->]; tauto. }
    repeat split.
    + intros sec. rewrite Hpush, buf_push_u64_app. unfold Asm.buf_push_u8.
      rewrite u8_small by exact Hty.
      rewrite (u8_small (if Asm.mutable g then 1 else 0)) by (destruct (Asm.mutable g); lia).
      fold raw. rewrite <- !app_assoc. reflexivity.
    + intros r s H. cbn [app] in H. rewrite <- !app_assoc in H.
      destruct (read_u8_at _ _ _ H) as (r1 & E1 & H1).
      destruct (read_u8_at _ _ _ H1) as (r2 & E2 & H2).
      destruct (read_u64_at _ _ _ H2) as (r3 & E3 & H3).
      rewrite E1, E2, E3. pose proof H3 as (He3 & _). rewrite He3.
      rewrite u8_small by exact Hty. rewrite Hv.
      destruct (Hparse _ _ H3) as (r4 & E4 & H4). rewrite E4.
      assert (Hmu : negb (u8 (if Asm.mutable g then 1 else 0) =? 0) = Asm.mutable g)
        by (destruct (Asm.mutable g); reflexivity).
      rewrite Hmu.
      exists r4. split; [reflexivity|exact H4].
    + rewrite !zlen_app, !zlen_le_split, !zlen_cons. change (zlen (@nil Z)) with 0. lia.
Qed.

Ltac norm_app H :=
  repeat first [ rewrite <- app_assoc in H | rewrite <- app_comm_cons in H
               | rewrite app_nil_l in H ].

Lemma asm_export_ok_spec e :
  asm_export_ok e = true ->
  0 <= Asm.kind e < 2 ^ 8 /\ 0 <= Asm.idx e < 2 ^ 32 /\ name_ok (Asm.e_name e) = true.
Proof.
  unfold asm_export_ok. rewrite !andb_true_iff, in_u8_spec, in_u32_spec. tauto.
Qed.

Lemma push_exports_ok l :
  forallb asm_export_ok l = true ->
  exists enc,
    (forall sec, Asm.push_exports sec l = sec ++ enc) /\
    (forall r s, reader_at r (enc ++ s) ->
       exists r', parse_exports (length l) r = Parsed (map loaded_export l) r' /\
                  reader_at r' s) /\
    zlen enc <= 261 * zlen l.
Proof.
  induction l as [|e l IH]; simpl.
  - intros _. exists []. repeat split.
    + intros sec. rewrite app_nil_r. reflexivity.
    + intros r s H. exists r. split; [reflexivity|exact H].
    + unfold zlen. simpl. lia.
  - rewrite andb_true_iff. intros [He Hl].
    destruct (IH Hl) as (enc & Hpush & Hparse & Hlen). clear IH.
    apply asm_export_ok_spec in He as (Hk & Hi & Hn).
    pose proof (name_ok_spec _ Hn) as [_ Ln].
    exists ([Asm.kind e] ++ le_split 4 (Asm.idx e)
            ++ (zlen (Asm.e_name e) :: Asm.e_name e) ++ enc).
    repeat split.
    + intros sec. rewrite Hpush, buf_push_str8_app, buf_push_u32_app by assumption.
      unfold Asm.buf_push_u8. rewrite u8_small by exact Hk.
      rewrite <- !app_assoc. reflexivity.
    + intros r s H. norm_app H.
      destruct (read_u8_at _ _ _ H) as (r1 & E1 & H1).
      destruct (read_u32_at _ _ _ H1) as (r2 & E2 & H2).
      destruct (read_string_at _ _ _ (proj2 Ln) H2) as (r3 & E3 & H3).
      rewrite E1, E2, E3. pose proof H3 as (He3 & _). rewrite He3.
      destruct (Hparse _ _ H3) as (r4 & E4 & H4). rewrite E4.
      exists r4. split; [|exact H4].
      rewrite u8_small, u32_small by assumption. reflexivity.
    + rewrite !zlen_app, !zlen_cons, zlen_le_split. change (zlen (@nil Z)) with 0. lia.
Qed.

Lemma push_code_ok bl :
  forallb asm_func_ok bl = true ->
  Forall (fun f => Asm.is_import f = false) bl ->
  fold_right (fun f n => 4 + zlen (Asm.code f) + n) 0 bl < 2 ^ 32 ->
  exists enc,
    (forall sec, Asm.push_code sec bl = sec ++ enc) /\
    (forall r s pre i ic,
       reader_at r (enc ++ s) -> 0 <= ic + i -> Z.to_nat (ic + i) = length pre ->
       exists r',
         parse_code_bodies (length bl) i ic (pre ++ map declared_body bl) r
         = Parsed (pre ++ map loaded_body bl) r' /\
         reader_at r' s) /\
    zlen enc = fold_right (fun f n => 4 + zlen (Asm.code f) + n) 0 bl.
Proof.
  induction bl as [|f bl IH]; simpl.
  - intros _ _ _. exists []. repeat split.
    + intros sec. rewrite app_nil_r. reflexivity.
    + intros r s pre i ic H _ _. exists r. split; [reflexivity|exact H].
  - rewrite andb_true_iff. intros [Hf Hl] Hb Hsz.
    inversion Hb as [|? ? Hi Hb']; subst.
    assert (Hrest : fold_right (fun f n => 4 + zlen (Asm.code f) + n) 0 bl >= 0).
    { clear. induction bl as [|g bl IH]; simpl; [lia|].
      pose proof (zlen_nonneg (Asm.code g)). lia. }
    pose proof (zlen_nonneg (Asm.code f)) as Hc0.
    destruct (IH Hl Hb' ltac:(lia)) as (enc & Hpush & Hparse & Hlen). clear IH.
    apply asm_func_ok_spec in Hf as (_ & _ & _ & Hmod); [|exact Hi].
    exists (le_split 4 (zlen (Asm.code f)) ++ Asm.code f ++ enc).
    repeat split.
    + intros sec. rewrite Hi, Hpush, buf_push_bytes_app, buf_push_u32_app.
      rewrite <- !app_assoc. reflexivity.
    + intros r s pre i ic H Hnn Hpre. rewrite <- !app_assoc in H.
      destruct (read_u32_at _ _ _ H) as (r1 & E1 & H1).
      destruct (read_bytes_at _ _ _ H1) as (r2 & E2 & H2).
      rewrite E1. rewrite u32_small by lia.
      pose proof H1 as (He1 & _). rewrite He1, Hmod. simpl.
      rewrite E2, Hpre.
      rewrite lookup_app_r by lia. rewrite Nat.sub_diag. simpl.
      rewrite insert_app_r_alt by lia. rewrite Nat.sub_diag. simpl.
      specialize (Hparse r2 s (pre ++ [loaded_body f]) (i + 1) ic H2 ltac:(lia)).
      rewrite length_app in Hparse. simpl in Hparse.
      destruct (Hparse ltac:(lia)) as (r3 & E3 & H3).
      rewrite <- !app_assoc in E3. simpl in E3.
      exists r3. split; [|exact H3].
      rewrite <- E3. reflexivity.
    + rewrite !zlen_app, zlen_le_split. lia.
Qed.

Lemma asm_data_ok_spec d :
  asm_data_ok d = true ->
  0 <= Asm.offset d < 2 ^ 32 /\ 0 <= Asm.size d < 2 ^ 32 /\ zlen (Asm.data d) = Asm.size d.
Proof.
  unfold asm_data_ok. rewrite !andb_true_iff, !in_u32_spec, Z.eqb_eq. tauto.
Qed.

Lemma push_data_ok l :
  forallb asm_data_ok l = true ->
  exists enc,
    (forall sec, Asm.push_data sec l = Asm.AsmOk (sec ++ enc)) /\
    (forall r s, reader_at r (enc ++ s) ->
       exists r', parse_data_segs (length l) r = Parsed (map loaded_data l) r' /\
                  reader_at r' s) /\
    zlen enc = fold_right (fun d n => 9 + Asm.size d + n) 0 l.
Proof.
  induction l as [|d l IH]; simpl.
  - intros _. exists []. repeat split.
    + intros sec. rewrite app_nil_r. reflexivity.
    + intros r s H. exists r. split; [reflexivity|exact H].
  - rewrite andb_true_iff. intros [Hd Hl].
    destruct (IH Hl) as (enc & Hpush & Hparse & Hlen). clear IH.
    apply asm_data_ok_spec in Hd as (Ho & Hs & Hz).
    exists ([0] ++ le_split 4 (Asm.offset d) ++ le_split 4 (Asm.size d)
            ++ Asm.data d ++ enc).
    repeat split.
    + intros sec. rewrite <- Hz, (proj2 (Z.ltb_ge _ _) (Z.le_refl _)).
      rewrite Hpush, buf_push_bytes_app, !buf_push_u32_app.
      unfold Asm.buf_push_u8. rewrite <- !app_assoc. reflexivity.
    + intros r s H. norm_app H.
      destruct (read_u8_at _ _ _ H) as (r1 & E1 & H1).
      destruct (read_u32_at _ _ _ H1) as (r2 & E2 & H2).
      destruct (read_u32_at _ _ _ H2) as (r3 & E3 & H3).
      destruct (read_bytes_at _ _ _ H3) as (r4 & E4 & H4).
      rewrite E1, E2, E3. rewrite !u32_small by assumption.
      rewrite Hz in E4. rewrite E4. pose proof H4 as (He4 & _). rewrite He4.
      destruct (Hparse _ _ H4) as (r5 & E5 & H5). rewrite E5.
      exists r5. split; [reflexivity|exact H5].
    + rewrite !zlen_app, !zlen_le_split, zlen_cons. change (zlen (@nil Z)) with 0. lia.
Qed.

(** ** The loop over the sections *)

(** The budget of the embedding does not matter once it suffices. *)
Lemma parse_sections_fuel abi n n' m r :
  parse_sections abi n m r <> ParseOutOfGas ->
  parse_sections abi n' m r <> ParseOutOfGas ->
  parse_sections abi n m r = parse_sections abi n' m r.
Proof.
  revert n' m r. induction n as [|n IH]; intros [|n'] m r H1 H2; try reflexivity;
    simpl in *;
    destruct (r_error r); try reflexivity;
    destruct (r_len r <=? r_pos r); try reflexivity;
    try (exfalso; apply H1; reflexivity); try (exfalso; apply H2; reflexivity).
  destruct (read_u8 r) as [sid r1]. destruct (read_u32 r1) as [sz r2].
  destruct (r_error r2); [reflexivity|].
  destruct (parse_section abi _ m r2 sz) as [m1 r3| | |]; try reflexivity.
  apply IH; assumption.
Qed.

Lemma reader_at_pos r1 r2 sec rest :
  reader_at r1 (sec ++ rest) -> reader_at r2 rest -> r_base r2 = r_base r1 ->
  r_pos r2 - r_pos r1 = zlen sec.
Proof.
  intros (_ & P1 & D1) (_ & P2 & D2) Hb. rewrite Hb in *.
  apply (f_equal length) in D1, D2. rewrite length_drop in D1, D2.
  rewrite length_app in D1. unfold r_len, zlen in *. rewrite Hb in P2. lia.
Qed.

(** One section: its identifier, its size and its body, which the
    parser of the section reads to its end. *)
Lemma parse_sections_step abi m r id sec rest m' :
  zlen sec < 2 ^ 32 ->
  reader_at r (u8 id :: le_split 4 (zlen sec) ++ sec ++ rest) ->
  (forall r1, reader_at r1 (sec ++ rest) ->
     exists r2, parse_section abi (sect_of_u8 abi (u8 id)) m r1 (zlen sec) = Parsed m' r2 /\
                reader_at r2 rest) ->
  exists r2, reader_at r2 rest /\
             forall n, parse_sections abi (S n) m r = parse_sections abi n m' r2.
Proof.
  intros Hsz H Hsec. pose proof (zlen_nonneg sec) as H0.
  pose proof (reader_at_cons _ _ _ H) as Hlt.
  destruct (read_u8_at _ _ _ H) as (r1 & E1 & H1).
  destruct (read_u32_at _ _ _ H1) as (r2 & E2 & H2).
  destruct (Hsec _ H2) as (r3 & E3 & H3).
  exists r3. split; [exact H3|]. intros n.
  cbn [parse_sections]. destruct H as (He & _). rewrite He.
  rewrite (proj2 (Z.leb_gt _ _) Hlt), E1, E2, u8_idem.
  pose proof H2 as (He2 & _). rewrite He2, (u32_small (zlen sec)) by lia.
  rewrite E3.
  pose proof (parse_section_good abi (sect_of_u8 abi (u8 id)) m r2 (zlen sec) H0) as Hg.
  rewrite E3 in Hg. destruct Hg as [_ Hb].
  rewrite (reader_at_pos _ _ _ _ H2 H3 Hb), Z.ltb_irrefl. reflexivity.
Qed.

(** A section that may be absent, followed by the rest of the file. *)
Lemma parse_sections_piece abi (absent : bool) m r id sec rest m' mf :
  reader_at r ((if absent then [] else u8 id :: le_split 4 (zlen sec) ++ sec) ++ rest) ->
  (absent = true -> m' = m) ->
  (absent = false ->
     zlen sec < 2 ^ 32 /\
     forall r1, reader_at r1 (sec ++ rest) ->
       exists r2, parse_section abi (sect_of_u8 abi (u8 id)) m r1 (zlen sec)
                  = Parsed m' r2 /\ reader_at r2 rest) ->
  (forall r2, reader_at r2 rest ->
     exists n r', parse_sections abi n m' r2 = Parsed mf r') ->
  exists n r', parse_sections abi n m r = Parsed mf r'.
Proof.
  intros H Ha Hp Hrest. destruct absent.
  - rewrite (Ha eq_refl) in Hrest. apply Hrest. exact H.
  - destruct (Hp eq_refl) as [Hsz Hsec]. norm_app H.
    destruct (parse_sections_step abi m r id sec rest m' Hsz H Hsec) as (r2 & H2 & E).
    destruct (Hrest _ H2) as (n & r' & E').
    exists (S n), r'. rewrite E. exact E'.
Qed.

Lemma parse_sections_end abi m r :
  reader_at r [] -> exists n r', parse_sections abi n m r = Parsed m r'.
Proof.
  intros H. exists 0%nat, r. pose proof (reader_at_nil _ H) as Hl.
  destruct H as (He & _). simpl. rewrite He, (proj2 (Z.leb_le _ _) Hl). reflexivity.
Qed.

Lemma emit_section_app sect_num out id sec :
  Asm.emit_section sect_num out id sec
  = out ++ u8 (sect_num id) :: le_split 4 (zlen sec) ++ sec.
Proof.
  unfold Asm.emit_section. rewrite buf_push_bytes_app, buf_push_u32_app.
  unfold Asm.buf_push_u8. rewrite <- !app_assoc. reflexivity.
Qed.

Lemma zlen_map {A B} (f : A -> B) l : zlen (map f l) = zlen l.
Proof. unfold zlen. rewrite length_map. reflexivity. Qed.

Lemma zlen_import_funcs l : zlen (import_funcs l) = zlen l.
Proof. unfold import_funcs, zlen. rewrite length_imap. reflexivity. Qed.

Lemma to_nat_zlen {A} (l : list A) : Z.to_nat (zlen l) = length l.
Proof. unfold zlen. apply Nat2Z.id. Qed.

Lemma type_section_at abi m ts enc rest :
  zlen ts <= RUNE_MAX_FUNCS abi -> zlen ts < 2 ^ 32 ->
  (forall r s, reader_at r (enc ++ s) ->
     exists r', parse_types (length ts) r = Parsed (map loaded_type ts) r' /\
                reader_at r' s) ->
  forall r1 sz, reader_at r1 ((le_split 4 (zlen ts) ++ enc) ++ rest) ->
    exists r2, parse_section abi RUNE_SECT_TYPE m r1 sz
               = Parsed (set_types (map loaded_type ts) m) r2 /\ reader_at r2 rest.
Proof.
  intros Hmax H32 Hparse r1 sz H. norm_app H. pose proof (zlen_nonneg ts).
  destruct (read_u32_at _ _ _ H) as (r2 & E2 & H2).
  destruct (Hparse _ _ H2) as (r3 & E3 & H3).
  simpl. unfold parse_type_section. rewrite E2, u32_small by lia.
  pose proof H2 as (He2 & _). rewrite He2, (proj2 (Z.ltb_ge _ _) Hmax). simpl.
  rewrite to_nat_zlen, E3. exists r3. split; [reflexivity|exact H3].
Qed.

Lemma import_section_at abi m l enc rest :
  zlen l <= RUNE_MAX_FUNCS abi -> zlen l < 2 ^ 32 ->
  (forall r s, reader_at r (enc ++ s) ->
     exists r', parse_imports (length l) r = Parsed (map loaded_import l) r' /\
                reader_at r' s) ->
  forall r1 sz, reader_at r1 ((le_split 4 (zlen l) ++ enc) ++ rest) ->
    exists r2, parse_section abi RUNE_SECT_IMPORT m r1 sz
               = Parsed (set_imports (map loaded_import l) m) r2 /\ reader_at r2 rest.
Proof.
  intros Hmax H32 Hparse r1 sz H. norm_app H. pose proof (zlen_nonneg l).
  destruct (read_u32_at _ _ _ H) as (r2 & E2 & H2).
  destruct (Hparse _ _ H2) as (r3 & E3 & H3).
  simpl. unfold parse_import_section. rewrite E2, u32_small by lia.
  pose proof H2 as (He2 & _). rewrite He2, (proj2 (Z.ltb_ge _ _) Hmax). simpl.
  rewrite to_nat_zlen, E3. exists r3. split; [reflexivity|exact H3].
Qed.

Lemma func_section_at abi m bl enc rest :
  import_count m + zlen bl <= RUNE_MAX_FUNCS abi -> import_count m + zlen bl < 2 ^ 32 ->
  (forall r s, reader_at r (enc ++ s) ->
     exists r', parse_func_bodies (length bl) r = Parsed (map declared_body bl) r' /\
                reader_at r' s) ->
  forall r1 sz, reader_at r1 ((le_split 4 (zlen bl) ++ enc) ++ rest) ->
    exists r2, parse_section abi RUNE_SECT_FUNC m r1 sz
               = Parsed (set_funcs (import_funcs (imports m) ++ map declared_body bl) m) r2 /\
               reader_at r2 rest.
Proof.
  intros Hmax H32 Hparse r1 sz H. norm_app H.
  pose proof (zlen_nonneg bl). pose proof (zlen_nonneg (imports m)).
  unfold import_count in *.
  destruct (read_u32_at _ _ _ H) as (r2 & E2 & H2).
  destruct (Hparse _ _ H2) as (r3 & E3 & H3).
  simpl. unfold parse_func_section, import_count. rewrite E2, (u32_small (zlen bl)) by lia.
  pose proof H2 as (He2 & _). rewrite He2.
  rewrite (u32_small (zlen (imports m) + zlen bl)) by lia.
  rewrite (proj2 (Z.ltb_ge _ _) Hmax).
  rewrite (proj2 (Z.ltb_ge (zlen (imports m) + zlen bl) (zlen (imports m))) ltac:(lia)).
  rewrite to_nat_zlen, E3. exists r3. split; [reflexivity|exact H3].
Qed.

Lemma memory_section_at abi m initial max rest :
  0 <= initial < 2 ^ 16 -> 0 <= max < 2 ^ 16 ->
  forall r1 sz, reader_at r1 ((le_split 2 initial ++ le_split 2 max) ++ rest) ->
    exists r2, parse_section abi RUNE_SECT_MEMORY m r1 sz
               = Parsed (set_mem_limits initial max m) r2 /\ reader_at r2 rest.
Proof.
  intros Hi Hx r1 sz H. norm_app H.
  destruct (read_u16_at _ _ _ H) as (r2 & E2 & H2).
  destruct (read_u16_at _ _ _ H2) as (r3 & E3 & H3).
  simpl. unfold parse_memory_section. rewrite E2, E3, !u16_small by assumption.
  pose proof H3 as (He3 & _). rewrite He3.
  exists r3. split; [reflexivity|exact H3].
Qed.

Lemma global_section_at abi m l enc rest :
  zlen l <= RUNE_MAX_GLOBALS abi -> zlen l < 2 ^ 32 ->
  (forall r s, reader_at r (enc ++ s) ->
     exists r', parse_globals abi (length l) r = Parsed (map (loaded_global abi) l) r' /\
                reader_at r' s) ->
  forall r1 sz, reader_at r1 ((le_split 4 (zlen l) ++ enc) ++ rest) ->
    exists r2, parse_section abi RUNE_SECT_GLOBAL m r1 sz
               = Parsed (set_module_globals (map (loaded_global abi) l) m) r2 /\
               reader_at r2 rest.
Proof.
  intros Hmax H32 Hparse r1 sz H. norm_app H. pose proof (zlen_nonneg l).
  destruct (read_u32_at _ _ _ H) as (r2 & E2 & H2).
  destruct (Hparse _ _ H2) as (r3 & E3 & H3).
  simpl. unfold parse_global_section. rewrite E2, u32_small by lia.
  pose proof H2 as (He2 & _). rewrite He2, (proj2 (Z.ltb_ge _ _) Hmax). simpl.
  rewrite to_nat_zlen, E3. exists r3. split; [reflexivity|exact H3].
Qed.

Lemma export_section_at abi m l enc rest :
  zlen l <= 65536 ->
  (forall r s, reader_at r (enc ++ s) ->
     exists r', parse_exports (length l) r = Parsed (map loaded_export l) r' /\
                reader_at r' s) ->
  forall r1 sz, reader_at r1 ((le_split 4 (zlen l) ++ enc) ++ rest) ->
    exists r2, parse_section abi RUNE_SECT_EXPORT m r1 sz
               = Parsed (set_exports (map loaded_export l) m) r2 /\ reader_at r2 rest.
Proof.
  intros Hmax Hparse r1 sz H. norm_app H. pose proof (zlen_nonneg l).
  destruct (read_u32_at _ _ _ H) as (r2 & E2 & H2).
  destruct (Hparse _ _ H2) as (r3 & E3 & H3).
  simpl. unfold parse_export_section. rewrite E2, u32_small by lia.
  pose proof H2 as (He2 & _). rewrite He2, (proj2 (Z.ltb_ge _ _) Hmax). simpl.
  rewrite to_nat_zlen, E3. exists r3. split; [reflexivity|exact H3].
Qed.

Lemma code_section_at abi m imps bl enc rest :
  imports m = imps -> funcs m = import_funcs imps ++ map declared_body bl ->
  zlen bl < 2 ^ 32 ->
  (forall r s pre i ic,
     reader_at r (enc ++ s) -> 0 <= ic + i -> Z.to_nat (ic + i) = length pre ->
     exists r',
       parse_code_bodies (length bl) i ic (pre ++ map declared_body bl) r
       = Parsed (pre ++ map loaded_body bl) r' /\ reader_at r' s) ->
  forall r1 sz, reader_at r1 ((le_split 4 (zlen bl) ++ enc) ++ rest) ->
    exists r2, parse_section abi RUNE_SECT_CODE m r1 sz
               = Parsed (set_funcs (import_funcs imps ++ map loaded_body bl) m) r2 /\
               reader_at r2 rest.
Proof.
  intros Hi Hf H32 Hparse r1 sz H. norm_app H.
  pose proof (zlen_nonneg bl). pose proof (zlen_nonneg imps).
  destruct (read_u32_at _ _ _ H) as (r2 & E2 & H2).
  destruct (Hparse r2 rest (import_funcs imps) 0 (zlen imps) H2 ltac:(lia)) as (r3 & E3 & H3).
  { rewrite Z.add_0_r, to_nat_zlen. unfold import_funcs. rewrite length_imap. reflexivity. }
  simpl. unfold parse_code_section, func_count, import_count.
  rewrite E2, (u32_small (zlen bl)) by lia.
  pose proof H2 as (He2 & _). rewrite He2, Hf, Hi.
  rewrite zlen_app, zlen_import_funcs, zlen_map.
  replace (zlen imps + zlen bl - zlen imps) with (zlen bl) by lia.
  rewrite (u32_small (zlen bl)) by lia. rewrite Z.eqb_refl. simpl.
  rewrite to_nat_zlen, E3. exists r3. split; [reflexivity|exact H3].
Qed.

Lemma data_section_at abi m l enc rest :
  zlen l <= 4096 ->
  (forall r s, reader_at r (enc ++ s) ->
     exists r', parse_data_segs (length l) r = Parsed (map loaded_data l) r' /\
                reader_at r' s) ->
  forall r1 sz, reader_at r1 ((le_split 4 (zlen l) ++ enc) ++ rest) ->
    exists r2, parse_section abi RUNE_SECT_DATA m r1 sz
               = Parsed (set_data_segs (map loaded_data l) m) r2 /\ reader_at r2 rest.
Proof.
  intros Hmax Hparse r1 sz H. norm_app H. pose proof (zlen_nonneg l).
  destruct (read_u32_at _ _ _ H) as (r2 & E2 & H2).
  destruct (Hparse _ _ H2) as (r3 & E3 & H3).
  simpl. unfold parse_data_section. rewrite E2, u32_small by lia.
  pose proof H2 as (He2 & _). rewrite He2, (proj2 (Z.ltb_ge _ _) Hmax). simpl.
  rewrite to_nat_zlen, E3. exists r3. split; [reflexivity|exact H3].
Qed.

(** ** The header *)

Lemma lxor_range n a b :
  0 <= n -> 0 <= a < 2 ^ n -> 0 <= b < 2 ^ n -> 0 <= Z.lxor a b < 2 ^ n.
Proof.
  intros Hn Ha Hb. split; [apply Z.lxor_nonneg; lia|].
  destruct (Z.eq_dec (Z.lxor a b) 0) as [E|Hne]; [rewrite E; lia|].
  assert (Hpos : 0 < Z.lxor a b) by (pose proof (proj2 (Z.lxor_nonneg a b)); lia).
  assert (Hn0 : 0 < n).
  { destruct (Z.eq_dec n 0) as [->|]; [|lia].
    assert (a = 0) by lia. assert (b = 0) by lia. subst a b. exfalso. apply Hne. reflexivity. }
  apply Z.log2_lt_pow2; [exact Hpos|].
  apply Z.le_lt_trans with (Z.max (Z.log2 a) (Z.log2 b)); [apply Z.log2_lxor; lia|].
  apply Z.max_lub_lt.
  - destruct (Z.eq_dec a 0) as [->|]; [simpl; lia|apply Z.log2_lt_pow2; lia].
  - destruct (Z.eq_dec b 0) as [->|]; [simpl; lia|apply Z.log2_lt_pow2; lia].
Qed.

Lemma crc32_bit_range c :
  0 <= c < 2 ^ 32 ->
  0 <= Z.lxor (Z.shiftr c 1) (Z.land 3988292384 (if Z.odd c then 4294967295 else 0))
    < 2 ^ 32.
Proof.
  intros Hc. apply lxor_range; [lia| |].
  - rewrite Z.shiftr_div_pow2 by lia. change (2 ^ 1) with 2.
    split; [apply Z.div_pos; lia|]. apply Z.div_lt_upper_bound; lia.
  - destruct (Z.odd c); [vm_compute; split; [discriminate|reflexivity]|].
    rewrite Z.land_0_r. lia.
Qed.

Lemma crc32_bits_range j c : 0 <= c < 2 ^ 32 -> 0 <= crc32_bits j c < 2 ^ 32.
Proof.
  revert c. induction j as [|j IH]; intros c Hc; simpl; [exact Hc|].
  apply IH. apply crc32_bit_range. exact Hc.
Qed.

Lemma crc32_step_range c b :
  0 <= c < 2 ^ 32 -> 0 <= crc32_bits 8 (Z.lxor c (u8 b)) < 2 ^ 32.
Proof.
  intros Hc. apply crc32_bits_range. apply lxor_range; [lia|exact Hc|].
  pose proof (u8_range b). lia.
Qed.

Lemma fold_left_step {A B} (f : A -> B -> A) b l a :
  fold_left f (b :: l) a = fold_left f l (f a b).
Proof. reflexivity. Qed.

Lemma fold_left_invariant {A B} (P : A -> Prop) (f : A -> B -> A) l a :
  (forall a b, P a -> P (f a b)) -> P a -> P (fold_left f l a).
Proof.
  intros Hf. revert a. induction l as [|b l IH]; intros a Ha; [exact Ha|].
  rewrite fold_left_step. apply IH. apply Hf. exact Ha.
Qed.

Lemma crc32_fold_range data c :
  0 <= c < 2 ^ 32 ->
  0 <= fold_left (fun c b => crc32_bits 8 (Z.lxor c (u8 b))) data c < 2 ^ 32.
Proof.
  intros Hc.
  apply (fold_left_invariant (fun c => 0 <= c < 2 ^ 32)
           (fun c b => crc32_bits 8 (Z.lxor c (u8 b))) data c); [|exact Hc].
  intros a b Ha. apply crc32_step_range. exact Ha.
Qed.

Lemma crc32_buf_range data : 0 <= Asm.crc32_buf data < 2 ^ 32.
Proof.
  unfold Asm.crc32_buf. apply lxor_range; [lia| |lia].
  apply crc32_fold_range. lia.
Qed.

(** The assembler's [crc32_buf] and the loader's [crc32_update]
    compute the same sum. *)
Lemma crc32_update_buf data : crc32_update 0 data = Asm.crc32_buf data.
Proof. reflexivity. Qed.

Lemma bytes_eqb_refl l : bytes_eqb l l = true.
Proof. induction l as [|x l IH]; simpl; [reflexivity|]. rewrite Z.eqb_refl. exact IH. Qed.

Lemma numbering_ok_header abi sect_num :
  numbering_ok abi sect_num = true ->
  RUNE_MAGIC_LEN <= zlen (RUNE_MAGIC abi) /\ 0 <= RUNE_BC_VERSION abi < 2 ^ 32.
Proof.
  unfold numbering_ok. rewrite !andb_true_iff, Z.leb_le, in_u32_spec. tauto.
Qed.

Lemma sect_eqb_eq a b : sect_eqb a b = true -> a = b.
Proof. destruct a, b; simpl; intros H; try reflexivity; discriminate H. Qed.

Lemma numbering_ok_sections abi sect_num s :
  numbering_ok abi sect_num = true -> s <> RUNE_SECT_UNKNOWN ->
  sect_of_u8 abi (u8 (sect_num s)) = s.
Proof.
  unfold numbering_ok. cbn [forallb]. rewrite !andb_true_iff.
  intros H Hs. destruct s; try (exfalso; apply Hs; reflexivity);
    apply sect_eqb_eq; tauto.
Qed.

(** The checks of [rune_module_load] that precede the sections, on a
    file that [rune_asm_finalize] wrote. *)
Lemma load_finalized abi sect_num body m n r' :
  numbering_ok abi sect_num = true ->
  parse_sections abi n empty_module (reader_init body) = Parsed m r' ->
  rune_module_load abi (Asm.file_header abi (Asm.crc32_buf body) ++ body)
  = Loaded (match find_init abi (exports m) with
            | Some i => set_init_func i m
            | None => m
            end).
Proof.
  intros Hnum Hp. apply numbering_ok_header in Hnum as [Hm Hv].
  unfold RUNE_MAGIC_LEN in *.
  set (hdr := Asm.file_header abi (Asm.crc32_buf body)).
  assert (Hmagic : length (take 4 (RUNE_MAGIC abi)) = 4%nat).
  { rewrite length_take. unfold zlen in Hm. lia. }
  assert (Lh : length hdr = 20%nat).
  { unfold hdr, Asm.file_header. rewrite !length_app, !length_le_split.
    change (Z.to_nat RUNE_MAGIC_LEN) with 4%nat. rewrite Hmagic. reflexivity. }
  unfold rune_module_load.
  assert (Hlen : (zlen (hdr ++ body) <? sizeof_rune_file_header_t) = false).
  { apply Z.ltb_ge. unfold zlen, sizeof_rune_file_header_t. rewrite length_app, Lh. lia. }
  rewrite Hlen.
  assert (Htake : take (Z.to_nat RUNE_MAGIC_LEN) (hdr ++ body)
                  = take (Z.to_nat RUNE_MAGIC_LEN) (RUNE_MAGIC abi)).
  { change (Z.to_nat RUNE_MAGIC_LEN) with 4%nat.
    unfold hdr, Asm.file_header. change (Z.to_nat RUNE_MAGIC_LEN) with 4%nat.
    rewrite <- !app_assoc. rewrite take_app_le by lia.
    rewrite take_take. reflexivity. }
  rewrite Htake, bytes_eqb_refl. simpl negb.
  assert (Hver : hdr_version (hdr ++ body) = RUNE_BC_VERSION abi).
  { unfold hdr_version, hdr, Asm.file_header. change (Z.to_nat RUNE_MAGIC_LEN) with 4%nat.
    rewrite <- !app_assoc. rewrite (drop_app_length' _ _ 4) by (symmetry; exact Hmagic).
    rewrite take_app_le by (rewrite length_le_split; lia).
    rewrite firstn_all2 by (rewrite length_le_split; lia).
    rewrite le_combine_le_split. apply Z.mod_small. exact Hv. }
  rewrite Hver, Z.eqb_refl. simpl negb.
  assert (Hbody : drop (Z.to_nat sizeof_rune_file_header_t) (hdr ++ body) = body).
  { change (Z.to_nat sizeof_rune_file_header_t) with 20%nat.
    rewrite <- Lh. apply drop_app_length. }
  rewrite Hbody.
  assert (Hcrc : hdr_crc32 (hdr ++ body) = Asm.crc32_buf body).
  { unfold hdr_crc32, hdr, Asm.file_header. change (Z.to_nat RUNE_MAGIC_LEN) with 4%nat.
    rewrite !app_assoc. rewrite <- (app_assoc _ _ body).
    rewrite (drop_app_length' _ _ 16)
      by (rewrite !length_app, !length_le_split, Hmagic; reflexivity).
    rewrite take_app_le by (rewrite length_le_split; lia).
    rewrite firstn_all2 by (rewrite length_le_split; lia).
    rewrite le_combine_le_split. apply Z.mod_small. apply crc32_buf_range. }
  rewrite Hcrc, crc32_update_buf, Z.eqb_refl. simpl negb. cbv iota.
  pose proof (parse_sections_finishes abi (length body) empty_module (reader_init body)) as Hfin.
  rewrite (parse_sections_fuel abi (length body) n).
  - rewrite Hp. reflexivity.
  - apply Hfin. unfold r_len, zlen. simpl. lia.
  - rewrite Hp. discriminate.
Qed.

(** ** From the assembler to the loader *)

Lemma asm_ok_spec abi a :
  asm_ok abi a = true ->
  (Asm.type_count a <= Asm.MAX_TYPES /\ Asm.type_count a <= RUNE_MAX_FUNCS abi /\
   forallb asm_type_ok (Asm.types a) = true) /\
  (Asm.import_count a <= Asm.MAX_IMPORTS /\ Asm.import_count a <= RUNE_MAX_FUNCS abi /\
   forallb asm_import_ok (Asm.imports a) = true) /\
  (Asm.func_count a <= Asm.MAX_FUNCS /\
   Asm.import_count a + Asm.body_funcs a <= RUNE_MAX_FUNCS abi /\
   forallb asm_func_ok (Asm.funcs a) = true) /\
  (0 <= Asm.mem_initial a < 2 ^ 16 /\ 0 <= Asm.mem_max a < 2 ^ 16) /\
  (Asm.global_count a <= Asm.MAX_GLOBALS /\ Asm.global_count a <= RUNE_MAX_GLOBALS abi /\
   forallb (asm_global_ok abi) (Asm.globals a) = true) /\
  (Asm.export_count a <= Asm.MAX_EXPORTS /\
   forallb asm_export_ok (Asm.exports a) = true) /\
  (Asm.data_seg_count a <= Asm.MAX_DATA /\
   forallb asm_data_ok (Asm.data_segs a) = true) /\
  code_section_size a < 2 ^ 32 /\ data_section_size a < 2 ^ 32.
Proof.
  unfold asm_ok. rewrite !andb_true_iff, !Z.leb_le, !Z.ltb_lt, !in_u16_spec. tauto.
Qed.

Lemma if_app {A} (c : bool) (out x : list A) :
  (if c then out else out ++ x) = out ++ (if c then [] else x).
Proof. destruct c; [rewrite app_nil_r|]; reflexivity. Qed.

Lemma zlen_zero_nil {A} (l : list A) : (zlen l =? 0) = true -> l = [].
Proof. destruct l; [reflexivity|]. unfold zlen. simpl. intros H. discriminate H. Qed.

Lemma filter_length_le {A} (P : A -> Prop) `{forall x, Decision (P x)} (l : list A) :
  zlen (filter P l) <= zlen l.
Proof. unfold zlen. pose proof (length_filter P l). lia. Qed.

Lemma rune_asm_sections abi sect_num a :
  numbering_ok abi sect_num = true ->
  asm_ok abi a = true ->
  exists body,
    Asm.finalize_sections abi sect_num a = Asm.AsmOk body /\
    exists n r',
      parse_sections abi n empty_module (reader_init body)
      = Parsed (set_init_func (-1) (loaded_module abi a)) r'.
Proof.
  intros Hnum Hok.
  apply asm_ok_spec in Hok
    as ((HT1 & HT2 & HT3) & (HI1 & HI2 & HI3) & (HF1 & HF2 & HF3) & (HM1 & HM2)
        & (HG1 & HG2 & HG3) & (HE1 & HE3) & (HD1 & HD3) & HC & HDs).
  unfold Asm.MAX_TYPES, Asm.MAX_IMPORTS, Asm.MAX_FUNCS, Asm.MAX_GLOBALS, Asm.MAX_EXPORTS,
    Asm.MAX_DATA in *.
  unfold Asm.type_count, Asm.import_count, Asm.func_count, Asm.global_count,
    Asm.export_count, Asm.data_seg_count, Asm.body_funcs in *.
  fold (asm_bodies a) in *.
  set (bl := asm_bodies a) in *.
  assert (Hbl1 : forallb asm_func_ok bl = true) by (apply forallb_filter; exact HF3).
  assert (Hbl2 : Forall (fun f => Asm.is_import f = false) bl) by apply filter_all_bodies.
  assert (Hbl3 : zlen bl <= zlen (Asm.funcs a)) by apply filter_length_le.
  destruct (push_types_ok _ HT3) as (encT & PT & RT & LT).
  destruct (push_imports_ok _ HI3) as (encI & PI & RI & LI).
  destruct (push_funcs_ok _ Hbl1 Hbl2) as (encF & PF & RF & LF).
  destruct (push_globals_ok _ _ _ Hnum HG3) as (encG & PG & RG & LG).
  destruct (push_exports_ok _ HE3) as (encE & PE & RE & LE).
  unfold code_section_size in HC. fold bl in HC.
  destruct (push_code_ok _ Hbl1 Hbl2 ltac:(lia)) as (encC & PC & RC & LC).
  destruct (push_data_ok _ HD3) as (encD & PD & RD & LD).
  unfold data_section_size in HDs.
  pose proof (zlen_nonneg (Asm.types a)). pose proof (zlen_nonneg (Asm.imports a)).
  pose proof (zlen_nonneg bl). pose proof (zlen_nonneg (Asm.globals a)).
  pose proof (zlen_nonneg (Asm.exports a)). pose proof (zlen_nonneg (Asm.data_segs a)).
  pose proof (zlen_nonneg encT). pose proof (zlen_nonneg encI).
  pose proof (zlen_nonneg encG). pose proof (zlen_nonneg encE).
  eexists. split.
  - unfold Asm.finalize_sections.
    unfold Asm.type_count, Asm.import_count, Asm.func_count, Asm.global_count,
      Asm.export_count, Asm.data_seg_count, Asm.body_funcs.
    fold (asm_bodies a). fold bl.
    rewrite PT. cbn [Asm.asm_bind].
    rewrite PI, push_funcs_bodies, push_code_bodies. fold (asm_bodies a). fold bl.
    rewrite PF, PG, PE, PC, PD. cbn [Asm.asm_bind].
    rewrite !emit_section_app, !buf_push_u32_app, !buf_push_u16_app.
    rewrite !app_nil_l.
    instantiate (1 :=
      (if zlen (Asm.types a) =? 0 then []
       else u8 (sect_num RUNE_SECT_TYPE)
            :: le_split 4 (zlen (le_split 4 (zlen (Asm.types a)) ++ encT))
               ++ (le_split 4 (zlen (Asm.types a)) ++ encT))
      ++ (if zlen (Asm.imports a) =? 0 then []
          else u8 (sect_num RUNE_SECT_IMPORT)
               :: le_split 4 (zlen (le_split 4 (zlen (Asm.imports a)) ++ encI))
                  ++ (le_split 4 (zlen (Asm.imports a)) ++ encI))
      ++ (if zlen bl =? 0 then []
          else u8 (sect_num RUNE_SECT_FUNC)
               :: le_split 4 (zlen (le_split 4 (zlen bl) ++ encF))
                  ++ (le_split 4 (zlen bl) ++ encF))
      ++ (if negb (Asm.has_memory a) then []
          else u8 (sect_num RUNE_SECT_MEMORY)
               :: le_split 4 (zlen (le_split 2 (Asm.mem_initial a)
                                    ++ le_split 2 (Asm.mem_max a)))
                  ++ (le_split 2 (Asm.mem_initial a) ++ le_split 2 (Asm.mem_max a)))
      ++ (if zlen (Asm.globals a) =? 0 then []
          else u8 (sect_num RUNE_SECT_GLOBAL)
               :: le_split 4 (zlen (le_split 4 (zlen (Asm.globals a)) ++ encG))
                  ++ (le_split 4 (zlen (Asm.globals a)) ++ encG))
      ++ (if zlen (Asm.exports a) =? 0 then []
          else u8 (sect_num RUNE_SECT_EXPORT)
               :: le_split 4 (zlen (le_split 4 (zlen (Asm.exports a)) ++ encE))
                  ++ (le_split 4 (zlen (Asm.exports a)) ++ encE))
      ++ (if zlen bl =? 0 then []
          else u8 (sect_num RUNE_SECT_CODE)
               :: le_split 4 (zlen (le_split 4 (zlen bl) ++ encC))
                  ++ (le_split 4 (zlen bl) ++ encC))
      ++ (if zlen (Asm.data_segs a) =? 0 then []
          else u8 (sect_num RUNE_SECT_DATA)
               :: le_split 4 (zlen (le_split 4 (zlen (Asm.data_segs a)) ++ encD))
                  ++ (le_split 4 (zlen (Asm.data_segs a)) ++ encD))
      ++ []).
    destruct (zlen (Asm.types a) =? 0), (zlen (Asm.imports a) =? 0), (zlen bl =? 0),
      (Asm.has_memory a), (zlen (Asm.globals a) =? 0), (zlen (Asm.exports a) =? 0),
      (zlen (Asm.data_segs a) =? 0);
      cbn [negb Asm.asm_bind]; rewrite ?app_nil_l, ?app_nil_r, <- ?app_assoc;
      repeat (rewrite <- ?app_comm_cons, <- ?app_assoc); reflexivity.
  - set (I := map loaded_import (Asm.imports a)).
    set (m1 := set_types (map loaded_type (Asm.types a)) empty_module).
    set (m2 := set_imports I m1).
    set (m3 := if zlen bl =? 0 then m2
               else set_funcs (import_funcs I ++ map declared_body bl) m2).
    set (m4 := if Asm.has_memory a
               then set_mem_limits (Asm.mem_initial a) (Asm.mem_max a) m3 else m3).
    set (m5 := set_module_globals (map (loaded_global abi) (Asm.globals a)) m4).
    set (m6 := set_exports (map loaded_export (Asm.exports a)) m5).
    set (m7 := if zlen bl =? 0 then m6
               else set_funcs (import_funcs I ++ map loaded_body bl) m6).
    set (m8 := set_data_segs (map loaded_data (Asm.data_segs a)) m7).
    assert (Hfinal : m8 = set_init_func (-1) (loaded_module abi a)).
    { unfold m8, m7, m6, m5, m4, m3, m2, m1, loaded_module, loaded_funcs, I. fold bl.
      destruct bl as [|b0 bl0]; [|change (zlen (b0 :: bl0) =? 0) with false];
        destruct (Asm.has_memory a); reflexivity. }
    rewrite <- Hfinal.
    assert (Hstart : forall body, reader_at (reader_init body) body).
    { intros body. repeat split; simpl; unfold r_len, zlen; simpl; lia. }
    assert (Hsect : forall s, s <> RUNE_SECT_UNKNOWN ->
                              sect_of_u8 abi (u8 (sect_num s)) = s).
    { intros s Hs. apply numbering_ok_sections; assumption. }
    eapply (parse_sections_piece abi _ empty_module _ _ _ _ m1); [apply Hstart| | |].
    { intros E. apply zlen_zero_nil in E. unfold m1. rewrite E. reflexivity. }
    { intros _. split; [rewrite zlen_app, zlen_le_split; lia|].
      rewrite Hsect by discriminate. intros r1.
      apply type_section_at; [lia|lia|exact RT]. }
    intros rd Hrd.
    eapply (parse_sections_piece abi _ m1 _ _ _ _ m2); [exact Hrd| | |].
    { intros E. apply zlen_zero_nil in E. unfold m2, I. rewrite E. reflexivity. }
    { intros _. split; [rewrite zlen_app, zlen_le_split; lia|].
      rewrite Hsect by discriminate. intros r1.
      apply import_section_at; [lia|lia|exact RI]. }
    clear rd Hrd. intros rd Hrd.
    assert (Him2 : import_count m2 = zlen (Asm.imports a)).
    { unfold m2, import_count, I. simpl. apply zlen_map. }
    eapply (parse_sections_piece abi _ m2 _ _ _ _ m3); [exact Hrd| | |].
    { intros E. unfold m3. rewrite E. reflexivity. }
    { intros E. unfold m3. rewrite E. split; [rewrite zlen_app, zlen_le_split; lia|].
      rewrite Hsect by discriminate. intros r1.
      apply (func_section_at abi m2); [rewrite Him2; lia|rewrite Him2; lia|exact RF]. }
    clear rd Hrd. intros rd Hrd.
    eapply (parse_sections_piece abi _ m3 _ _ _ _ m4); [exact Hrd| | |].
    { intros E. unfold m4. apply negb_true_iff in E. rewrite E. reflexivity. }
    { intros E. unfold m4. apply negb_false_iff in E. rewrite E.
      split; [rewrite zlen_app, !zlen_le_split; lia|].
      rewrite Hsect by discriminate. intros r1.
      apply memory_section_at; assumption. }
    clear rd Hrd. intros rd Hrd.
    eapply (parse_sections_piece abi _ m4 _ _ _ _ m5); [exact Hrd| | |].
    { intros E. apply zlen_zero_nil in E. unfold m5. rewrite E.
      unfold m4, m3, m2, m1. destruct (Asm.has_memory a), (zlen bl =? 0); reflexivity. }
    { intros _. split; [rewrite zlen_app, zlen_le_split; lia|].
      rewrite Hsect by discriminate. intros r1.
      apply global_section_at; [lia|lia|exact RG]. }
    clear rd Hrd. intros rd Hrd.
    eapply (parse_sections_piece abi _ m5 _ _ _ _ m6); [exact Hrd| | |].
    { intros E. apply zlen_zero_nil in E. unfold m6. rewrite E.
      unfold m5, m4, m3, m2, m1. destruct (Asm.has_memory a), (zlen bl =? 0); reflexivity. }
    { intros _. split; [rewrite zlen_app, zlen_le_split; lia|].
      rewrite Hsect by discriminate. intros r1.
      apply export_section_at; [lia|exact RE]. }
    clear rd Hrd. intros rd Hrd.
    eapply (parse_sections_piece abi _ m6 _ _ _ _ m7); [exact Hrd| | |].
    { intros E. unfold m7. rewrite E. reflexivity. }
    { intros E. unfold m7. rewrite E. split; [rewrite zlen_app, zlen_le_split; lia|].
      rewrite Hsect by discriminate. intros r1.
      apply (code_section_at abi m6 I); [| |lia|exact RC].
      - unfold m6, m5, m4, m3, m2. rewrite E. destruct (Asm.has_memory a); reflexivity.
      - unfold m6, m5, m4, m3, m2. rewrite E. destruct (Asm.has_memory a); reflexivity. }
    clear rd Hrd. intros rd Hrd.
    eapply (parse_sections_piece abi _ m7 _ _ _ _ m8); [exact Hrd| | |].
    { intros E. apply zlen_zero_nil in E. unfold m8. rewrite E.
      unfold m7, m6, m5, m4, m3, m2, m1.
      destruct (Asm.has_memory a), (zlen bl =? 0); reflexivity. }
    { intros _. split; [rewrite zlen_app, zlen_le_split; lia|].
      rewrite Hsect by discriminate. intros r1.
      apply data_section_at; [lia|exact RD]. }
    clear rd Hrd. intros rd Hrd.
    apply parse_sections_end. exact Hrd.
Qed.

(** X1.  Round trip through the container.  For an assembler whose
    tables hold values of their C types within the limits of the
    assembler and of the loader, [rune_asm_finalize] writes a file that
    [rune_module_load] accepts, and the module that is loaded has the
    types, imports, globals, exports, memory limits and data segments
    of the assembler, in their order, the imports followed by the
    bodies with their code as its function table, and the first
    function export named "_init" as its [init_func]. *)
Theorem assemble_then_load abi sect_num a :
  numbering_ok abi sect_num = true ->
  asm_ok abi a = true ->
  exists raw,
    Asm.rune_asm_finalize abi sect_num a = Asm.AsmOk raw /\
    rune_module_load abi raw = Loaded (loaded_module abi a).
Proof.
  intros Hnum Hok.
  destruct (rune_asm_sections abi sect_num a Hnum Hok) as (body & Hfin & n & r' & Hp).
  pose proof (numbering_ok_header _ _ Hnum) as [Hm _].
  exists (Asm.file_header abi (Asm.crc32_buf body) ++ body). split.
  - unfold Asm.rune_asm_finalize. rewrite Hfin. simpl.
    rewrite (proj2 (Z.ltb_ge _ _) Hm). reflexivity.
  - rewrite (load_finalized abi sect_num body _ n r' Hnum Hp). f_equal.
    unfold loaded_module. simpl.
    destruct (find_init abi (map loaded_export (Asm.exports a))); reflexivity.
Qed.

Lemma assemble_then_load_witness :
  numbering_ok Host.abi Host.sect_num = true /\
  asm_ok Host.abi Host.demo_state = true /\
  exists raw,
    Asm.rune_asm_finalize Host.abi Host.sect_num Host.demo_state = Asm.AsmOk raw /\
    rune_module_load Host.abi raw = Loaded (loaded_module Host.abi Host.demo_state).
Proof.
  split; [vm_compute; reflexivity|].
  split; [vm_compute; reflexivity|].
  apply (assemble_then_load Host.abi Host.sect_num Host.demo_state);
    vm_compute; reflexivity.
Defined.

(** ** The checksum *)

Lemma lxor_cancel_r a b m : Z.lxor a m = Z.lxor b m -> a = b.
Proof.
  intros H. apply (f_equal (fun x => Z.lxor x m)) in H.
  rewrite !Z.lxor_assoc, Z.lxor_nilpotent, !Z.lxor_0_r in H. exact H.
Qed.

Lemma lxor_cancel_l a b m : Z.lxor m a = Z.lxor m b -> a = b.
Proof. rewrite !(Z.lxor_comm m). apply lxor_cancel_r. Qed.

Lemma testbit_above c n k : 0 <= c < 2 ^ n -> n <= k -> Z.testbit c k = false.
Proof.
  intros Hc Hk. destruct (Z.eq_dec c 0) as [->|Hc0]; [apply Z.bits_0|].
  apply Z.bits_above_log2; [lia|].
  apply Z.lt_le_trans with n; [apply Z.log2_lt_pow2; lia|lia].
Qed.

(** One step of the bitwise loop loses no information: bit 31 of the
    result is the bit that was shifted out. *)
Lemma crc32_bit_inj c1 c2 :
  0 <= c1 < 2 ^ 32 -> 0 <= c2 < 2 ^ 32 ->
  Z.lxor (Z.shiftr c1 1) (Z.land 3988292384 (if Z.odd c1 then 4294967295 else 0))
  = Z.lxor (Z.shiftr c2 1) (Z.land 3988292384 (if Z.odd c2 then 4294967295 else 0)) ->
  c1 = c2.
Proof.
  intros H1 H2 H.
  assert (Hodd : forall c, 0 <= c < 2 ^ 32 ->
            Z.testbit (Z.lxor (Z.shiftr c 1)
                         (Z.land 3988292384 (if Z.odd c then 4294967295 else 0))) 31
            = Z.odd c).
  { intros c Hc. rewrite Z.lxor_spec, Z.shiftr_spec, Z.land_spec by lia.
    rewrite (testbit_above c 32 (31 + 1)) by lia.
    destruct (Z.odd c); reflexivity. }
  assert (Ho : Z.odd c1 = Z.odd c2).
  { rewrite <- (Hodd c1 H1), <- (Hodd c2 H2), H. reflexivity. }
  rewrite Ho in H. apply lxor_cancel_r in H.
  rewrite !Z.shiftr_div_pow2 in H by lia. change (2 ^ 1) with 2 in H.
  rewrite (Z.div_mod c1 2), (Z.div_mod c2 2) by lia.
  rewrite H. f_equal.
  rewrite <- !Z.bit0_mod, !Z.bit0_odd, Ho. reflexivity.
Qed.

Lemma crc32_bits_inj j c1 c2 :
  0 <= c1 < 2 ^ 32 -> 0 <= c2 < 2 ^ 32 ->
  crc32_bits j c1 = crc32_bits j c2 -> c1 = c2.
Proof.
  revert c1 c2. induction j as [|j IH]; intros c1 c2 H1 H2 H; simpl in H; [exact H|].
  apply crc32_bit_inj; [exact H1|exact H2|].
  apply IH; [apply crc32_bit_range; exact H1|apply crc32_bit_range; exact H2|exact H].
Qed.

Lemma fold_left_injective {A B} (P : A -> Prop) (f : A -> B -> A) l a1 a2 :
  (forall a b, P a -> P (f a b)) ->
  (forall a1 a2 b, P a1 -> P a2 -> f a1 b = f a2 b -> a1 = a2) ->
  P a1 -> P a2 -> fold_left f l a1 = fold_left f l a2 -> a1 = a2.
Proof.
  intros Hf Hi. revert a1 a2. induction l as [|b l IH]; intros a1 a2 H1 H2 H; [exact H|].
  rewrite !fold_left_step in H. apply IH in H; [|apply Hf; exact H1|apply Hf; exact H2].
  apply (Hi a1 a2 b H1 H2 H).
Qed.

(** The turn of the loop for one byte loses nothing of the running
    sum, nor of the byte. *)
Lemma crc32_step_inj c1 c2 b :
  0 <= c1 < 2 ^ 32 -> 0 <= c2 < 2 ^ 32 ->
  crc32_bits 8 (Z.lxor c1 (u8 b)) = crc32_bits 8 (Z.lxor c2 (u8 b)) -> c1 = c2.
Proof.
  intros H1 H2 H. apply crc32_bits_inj in H.
  - apply lxor_cancel_r in H. exact H.
  - apply lxor_range; [lia|exact H1|]. pose proof (u8_range b). lia.
  - apply lxor_range; [lia|exact H2|]. pose proof (u8_range b). lia.
Qed.

Lemma crc32_step_inj_byte c b1 b2 :
  0 <= c < 2 ^ 32 ->
  crc32_bits 8 (Z.lxor c (u8 b1)) = crc32_bits 8 (Z.lxor c (u8 b2)) -> u8 b1 = u8 b2.
Proof.
  intros Hc H. apply crc32_bits_inj in H.
  - apply lxor_cancel_l in H. exact H.
  - apply lxor_range; [lia|exact Hc|]. pose proof (u8_range b1). lia.
  - apply lxor_range; [lia|exact Hc|]. pose proof (u8_range b2). lia.
Qed.

(** Two buffers that differ in one byte have different sums. *)
Lemma crc32_update_insert data j b :
  (j < length data)%nat -> u8 b <> u8 (nth j data 0) ->
  crc32_update 0 (<[j := b]> data) <> crc32_update 0 data.
Proof.
  intros Hj Hb Heq.
  destruct (lookup_lt_is_Some_2 data j Hj) as [x Hx].
  pose proof (take_drop_middle data j x Hx) as Hsplit.
  assert (Hn : nth j data 0 = x) by (apply nth_lookup_Some with (d := 0) in Hx; exact Hx).
  rewrite Hn in Hb.
  rewrite (insert_take_drop data j b Hj) in Heq.
  remember (take j data) as pre. remember (drop (S j) data) as post.
  rewrite <- Hsplit in Heq. unfold crc32_update in Heq.
  apply lxor_cancel_r in Heq.
  rewrite !fold_left_app, !fold_left_step in Heq.
  remember (fold_left (fun c b => crc32_bits 8 (Z.lxor c (u8 b))) pre (Z.lxor 0 4294967295))
    as c.
  assert (Hc : 0 <= c < 2 ^ 32).
  { subst c. apply crc32_fold_range. change (Z.lxor 0 4294967295) with 4294967295. lia. }
  apply (fold_left_injective (fun c => 0 <= c < 2 ^ 32)) in Heq.
  - apply crc32_step_inj_byte in Heq; [|exact Hc]. contradiction.
  - intros a b0 Ha. apply crc32_step_range. exact Ha.
  - intros a1 a2 b0 Ha1 Ha2 E. exact (crc32_step_inj a1 a2 b0 Ha1 Ha2 E).
  - apply crc32_step_range. exact Hc.
  - apply crc32_step_range. exact Hc.
Qed.

(** X2.  Integrity.  When a file is loaded, the same file with one
    byte after the 20-byte header replaced by a different byte is
    rejected with [RUNE_ERR_BADMODULE]: the CRC-32 of the header no
    longer matches. *)
Theorem corrupted_byte_is_rejected abi raw m i b :
  rune_module_load abi raw = Loaded m ->
  (Z.to_nat sizeof_rune_file_header_t <= i < length raw)%nat ->
  u8 b <> u8 (nth i raw 0) ->
  rune_module_load abi (<[i := b]> raw) = LoadErr RUNE_ERR_BADMODULE.
Proof.
  intros Hload Hi Hb. change (Z.to_nat sizeof_rune_file_header_t) with 20%nat in Hi.
  unfold rune_module_load in *.
  assert (Hlen : zlen (<[i := b]> raw) = zlen raw)
    by (unfold zlen; rewrite length_insert; reflexivity).
  rewrite Hlen.
  destruct (zlen raw <? sizeof_rune_file_header_t); [discriminate|].
  change (Z.to_nat RUNE_MAGIC_LEN) with 4%nat in *.
  rewrite take_insert_ge by lia.
  destruct (negb (bytes_eqb _ _)); [discriminate|].
  assert (Hver : hdr_version (<[i := b]> raw) = hdr_version raw).
  { unfold hdr_version. rewrite drop_insert_ge by lia. rewrite take_insert_ge by lia.
    reflexivity. }
  rewrite Hver. destruct (negb (hdr_version raw =? _)); [discriminate|].
  assert (Hcrc : hdr_crc32 (<[i := b]> raw) = hdr_crc32 raw).
  { unfold hdr_crc32. rewrite drop_insert_ge by lia. rewrite take_insert_ge by lia.
    reflexivity. }
  rewrite Hcrc.
  change (Z.to_nat sizeof_rune_file_header_t) with 20%nat in *.
  rewrite drop_insert_ge by lia.
  destruct (negb (crc32_update 0 (drop 20 raw) =? hdr_crc32 raw)) eqn:E; [discriminate|].
  apply negb_false_iff, Z.eqb_eq in E.
  assert (Hne : crc32_update 0 (<[(i - 20)%nat := b]> (drop 20 raw)) <> hdr_crc32 raw).
  { rewrite <- E. apply crc32_update_insert.
    - rewrite length_drop. lia.
    - rewrite nth_skipn. replace (20 + (i - 20))%nat with i by lia. exact Hb. }
  apply Z.eqb_neq in Hne. rewrite Hne. reflexivity.
Qed.

Lemma corrupted_byte_is_rejected_witness :
  rune_module_load Sample.abi Demo.dangling_indices = Loaded Demo.m_dangling /\
  rune_module_load Sample.abi (<[21%nat := 255]> Demo.dangling_indices)
  = LoadErr RUNE_ERR_BADMODULE.
Proof.
  split; [vm_compute; reflexivity|].
  apply (corrupted_byte_is_rejected Sample.abi Demo.dangling_indices Demo.m_dangling
           21 255);
    [vm_compute; reflexivity | vm_compute; lia | vm_compute; discriminate].
Defined.

(** ** Memory access of the host *)

Lemma mem_read_write_same mem off src :
  mem_read_bytes (mem_write_bytes mem off src) off (length src) = map u8 src.
Proof.
  unfold mem_read_bytes, mem_write_bytes. apply list_eq. intros i.
  rewrite !list_lookup_fmap.
  destruct (decide (i < length src)%nat) as [Hi|Hi].
  - rewrite lookup_seq_lt by exact Hi.
    destruct (lookup_lt_is_Some_2 src i Hi) as [x Hx]. rewrite Hx. simpl.
    assert (Hr : in_range off (zlen src) (off + Z.of_nat i) = true)
      by (apply in_range_spec; unfold zlen; lia).
    rewrite Hr. replace (off + Z.of_nat i - off) with (Z.of_nat i) by lia.
    rewrite Nat2Z.id. rewrite (nth_lookup_Some _ _ 0 _ Hx). rewrite u8_idem. reflexivity.
  - rewrite lookup_seq_ge by lia. rewrite lookup_ge_None_2 by lia. reflexivity.
Qed.

Lemma mem_read_write_other mem off src off' n :
  off' + Z.of_nat n <= off \/ off + zlen src <= off' ->
  mem_read_bytes (mem_write_bytes mem off src) off' n = mem_read_bytes mem off' n.
Proof.
  intros Hd. unfold mem_read_bytes. apply map_ext_in. intros i Hi.
  apply in_seq in Hi. unfold mem_write_bytes.
  assert (Hr : in_range off (zlen src) (off' + Z.of_nat i) = false)
    by (apply in_range_false; lia).
  rewrite Hr. reflexivity.
Qed.

(** X3.  What [rune_vm_mem_write] has written, [rune_vm_mem_read] reads
    back: after a write that returned [RUNE_OK], a read of the same
    length at the same offset returns [RUNE_OK] and the bytes of the
    source. *)
Theorem mem_write_then_read vm off src vm' :
  rune_vm_mem_write vm off src = (RUNE_OK, vm') ->
  rune_vm_mem_read vm' off (length src) = (RUNE_OK, map u8 src).
Proof.
  unfold rune_vm_mem_write, rune_vm_mem_read. intros H.
  destruct (memory vm) as [mem|] eqn:Em; [|discriminate].
  destruct (memory_pages vm * RUNE_PAGE_SIZE <? off + zlen src) eqn:Eb; [discriminate|].
  inversion H; subst vm'; clear H. simpl.
  unfold zlen in Eb. rewrite Eb. rewrite mem_read_write_same. reflexivity.
Qed.

Lemma mem_write_then_read_witness :
  exists vm',
    rune_vm_mem_write (set_memory_pages 1 (set_memory (Some mem_zero)
                         (rune_vm_new Sample.abi None))) 65533 [1; 2; 3]
    = (RUNE_OK, vm') /\
    rune_vm_mem_read vm' 65533 3 = (RUNE_OK, [1; 2; 3]).
Proof.
  eexists. split; [reflexivity|].
  apply (mem_write_then_read
           (set_memory_pages 1 (set_memory (Some mem_zero) (rune_vm_new Sample.abi None)))
           65533 [1; 2; 3]).
  reflexivity.
Defined.

(** X4.  A write touches its range only: whatever [rune_vm_mem_write]
    returns, a read of a range that does not meet
    [[offset, offset + len)] gives afterwards what it gave before. *)
Theorem mem_write_frame vm off src e vm' off' n :
  rune_vm_mem_write vm off src = (e, vm') ->
  off' + Z.of_nat n <= off \/ off + zlen src <= off' ->
  rune_vm_mem_read vm' off' n = rune_vm_mem_read vm off' n.
Proof.
  unfold rune_vm_mem_write, rune_vm_mem_read. intros H Hd.
  destruct (memory vm) as [mem|] eqn:Em.
  - destruct (memory_pages vm * RUNE_PAGE_SIZE <? off + zlen src) eqn:Eb;
      inversion H; subst; clear H.
    + rewrite Em. reflexivity.
    + simpl. rewrite mem_read_write_other by exact Hd. reflexivity.
  - inversion H; subst. rewrite Em. reflexivity.
Qed.

Lemma mem_write_frame_witness :
  rune_vm_mem_read
    (snd (rune_vm_mem_write (set_memory_pages 1 (set_memory (Some mem_zero)
                               (rune_vm_new Sample.abi None))) 8 [1; 2; 3])) 4 4
  = rune_vm_mem_read (set_memory_pages 1 (set_memory (Some mem_zero)
                        (rune_vm_new Sample.abi None))) 4 4.
Proof.
  apply (mem_write_frame
           (set_memory_pages 1 (set_memory (Some mem_zero) (rune_vm_new Sample.abi None)))
           8 [1; 2; 3] RUNE_OK _ 4 4); [reflexivity | vm_compute; left; discriminate].
Defined.


(** ** Initialisation and calls through the interface *)

Lemma find_host_none hs mn fn :
  (forall h, In h hs ->
     strcmp_eq (h_module h) mn && strcmp_eq (h_name h) fn = false) ->
  find_host hs mn fn = None.
Proof.
  induction hs as [|h hs IH]; intros H; simpl; [reflexivity|].
  rewrite (H h) by (left; reflexivity). apply IH. intros h' Hin. apply H. right. exact Hin.
Qed.

(** X6.  An unresolved import stops the initialisation before it has
    done anything: when the host table has no entry with the module and
    the name of some import of the module, [rune_vm_init] returns
    [RUNE_ERR_NOIMPORT] and the VM is as it was (no memory allocated,
    not marked initialized, [_init] not run). *)
Theorem init_unresolved_import abi g m vm imp :
  In imp (imports m) ->
  (forall h, In h (host_fns vm) ->
     strcmp_eq (h_module h) (imp_module imp) && strcmp_eq (h_name h) (imp_name imp)
     = false) ->
  rune_vm_init abi g m vm = Done RUNE_ERR_NOIMPORT (rune_void abi) vm.
Proof.
  intros Hin Hno. unfold rune_vm_init, init_setup.
  assert (Hs : imports_satisfied m vm = false).
  { unfold imports_satisfied. apply not_true_is_false. intros Hall.
    rewrite forallb_forall in Hall. specialize (Hall imp Hin).
    unfold import_found in Hall. rewrite (find_host_none _ _ _ Hno) in Hall.
    discriminate. }
  rewrite Hs. reflexivity.
Qed.

Lemma init_unresolved_import_witness :
  rune_vm_init Sample.abi 5 Demo.m_call_twice
    (register_all (rune_vm_new Sample.abi None)
       [(Demo.name_env, Demo.name_env, Demo.host_noop, 0)])
  = Done RUNE_ERR_NOIMPORT (rune_void Sample.abi)
      (register_all (rune_vm_new Sample.abi None)
         [(Demo.name_env, Demo.name_env, Demo.host_noop, 0)]).
Proof.
  apply (init_unresolved_import Sample.abi 5 Demo.m_call_twice _
           {| imp_module := Demo.name_env; imp_name := Demo.name_f; imp_type_idx := 0 |}).
  - vm_compute. left. reflexivity.
  - intros h [<-|[]]. vm_compute. reflexivity.
Defined.

Lemma find_export_func_none abi es name :
  (forall e, In e es -> e_kind e = RUNE_EXPORT_FUNC abi ->
     strcmp_eq (e_name e) name = false) ->
  find_export_func abi es name = None.
Proof.
  induction es as [|e es IH]; intros H; simpl; [reflexivity|].
  destruct (e_kind e =? RUNE_EXPORT_FUNC abi) eqn:Ek.
  - apply Z.eqb_eq in Ek. rewrite (H e) by (try left; auto). simpl.
    apply IH. intros e' Hin. apply H. right. exact Hin.
  - simpl. apply IH. intros e' Hin. apply H. right. exact Hin.
Qed.

(** X7.  Only function exports can be called: on an initialized VM, a
    name that no export of kind [RUNE_EXPORT_FUNC] bears (be it the
    name of an exported memory or global) gives [RUNE_ERR_NOEXPORT],
    and the VM is as it was. *)
Theorem call_of_a_non_function abi g m vm name argv :
  initialized vm = true ->
  (forall e, In e (exports m) -> e_kind e = RUNE_EXPORT_FUNC abi ->
     strcmp_eq (e_name e) name = false) ->
  rune_vm_call abi g m vm name argv = Done RUNE_ERR_NOEXPORT (rune_void abi) vm.
Proof.
  intros Hi Hno. unfold rune_vm_call. rewrite Hi. simpl.
  rewrite (find_export_func_none abi _ _ Hno). reflexivity.
Qed.

Lemma call_of_a_non_function_witness :
  rune_vm_call Sample.abi 5 Demo.m_store_load
    (result_vm (rune_vm_init Sample.abi 5 Demo.m_store_load (rune_vm_new Sample.abi None))
       (rune_vm_new Sample.abi None))
    Demo.name_env []
  = Done RUNE_ERR_NOEXPORT (rune_void Sample.abi)
      (result_vm (rune_vm_init Sample.abi 5 Demo.m_store_load (rune_vm_new Sample.abi None))
         (rune_vm_new Sample.abi None)).
Proof.
  apply (call_of_a_non_function Sample.abi 5 Demo.m_store_load _ Demo.name_env []).
  - vm_compute. reflexivity.
  - intros e [<-|[]] _. vm_compute. reflexivity.
Defined.

(** X9.  The call stack is unwound.  For a module without imports (no
    callback of the host is run, which would hold the VM handle), a
    call through [rune_vm_call] whose run has defined behaviour and
    which returns a code other than [RUNE_ERR_BOUNDS] and
    [RUNE_ERR_FUEL] leaves [frame_count] as it found it. *)
Theorem call_unwinds_the_stack abi g m vm name argv e r vm' :
  imports m = [] ->
  0 <= frame_count vm -> stack_size (cfg vm) < 2 ^ 32 ->
  rune_vm_call abi g m vm name argv = Done e r vm' ->
  e <> RUNE_ERR_BOUNDS -> e <> RUNE_ERR_FUEL ->
  frame_count vm' = frame_count vm.
Proof.
  unfold rune_vm_call. intros _ H0 Hs H Hb Hf.
  destruct (negb (initialized vm)); [injection H as _ _ <-; auto|].
  destruct (find_export_func abi (exports m) name) as [ex|];
    [|injection H as _ _ <-; auto].
  eapply frame_count_restored; eauto.
  unfold early_return. intros [?|?]; contradiction.
Qed.

Lemma call_unwinds_the_stack_witness :
  frame_count (result_vm (Demo.init_then_call 5 Demo.m_div (rune_vm_new Sample.abi None)
                            Demo.name_f [Demo.i32v 1; Demo.i32v 0])
                 (rune_vm_new Sample.abi None))
  = 0.
Proof.
  refine (call_unwinds_the_stack Sample.abi 5 Demo.m_div
            (result_vm (rune_vm_init Sample.abi 5 Demo.m_div (rune_vm_new Sample.abi None))
               (rune_vm_new Sample.abi None))
            Demo.name_f [Demo.i32v 1; Demo.i32v 0] RUNE_ERR_DIVZERO
            (rune_void Sample.abi) _ _ _ _ _ _ _).
  - reflexivity.
  - vm_compute. discriminate.
  - vm_compute. reflexivity.
  - vm_compute. reflexivity.
  - discriminate.
  - discriminate.
Defined.

(** ** Strings in the linear memory *)

Lemma buf_store_length dst i b dst' :
  buf_store dst i b = Some dst' -> zlen dst' = zlen dst.
Proof.
  unfold buf_store. destruct (i <? zlen dst); [|discriminate].
  intros [= <-]. unfold zlen. rewrite length_insert. reflexivity.
Qed.

Lemma buf_store_same dst i b dst' :
  0 <= i -> buf_store dst i b = Some dst' -> dst' !! Z.to_nat i = Some b.
Proof.
  unfold buf_store. destruct (i <? zlen dst) eqn:E; [|discriminate].
  intros Hi [= <-]. apply Z.ltb_lt in E. unfold zlen in E.
  apply list_lookup_insert_eq. lia.
Qed.

Lemma buf_store_other dst i b dst' j :
  0 <= i -> 0 <= j -> j <> i -> buf_store dst i b = Some dst' ->
  dst' !! Z.to_nat j = dst !! Z.to_nat j.
Proof.
  unfold buf_store. destruct (i <? zlen dst) eqn:E; [|discriminate].
  intros Hi Hj Hne [= <-]. apply list_lookup_insert_ne. lia.
Qed.

Lemma readstr_loop_found mem offset n i dst dst' :
  0 <= i -> readstr_loop mem offset n i dst = Some (dst', true) ->
  exists k, i <= k < i + Z.of_nat n /\ dst' !! Z.to_nat k = Some 0.
Proof.
  revert i dst. induction n as [|n IH]; intros i dst Hi H; simpl in H; [discriminate|].
  destruct (buf_store dst i (u8 (mem (offset + i)))) as [d1|] eqn:Es; [|discriminate].
  destruct (u8 (mem (offset + i)) =? 0) eqn:Ez.
  - injection H as <-. apply Z.eqb_eq in Ez. rewrite Ez in Es.
    exists i. split; [lia|]. eapply buf_store_same; eauto.
  - destruct (IH (i + 1) d1 ltac:(lia) H) as (k & Hk & Hz). exists k. split; [lia|exact Hz].
Qed.

(** X10.  The string that [rune_vm_mem_readstr] hands over is
    terminated: when it returns [RUNE_OK] for a buffer of [max_len > 0]
    bytes, one of the first [max_len] bytes of the buffer is zero. *)
Theorem readstr_terminates_the_string vm offset dst max_len dst' :
  0 < max_len ->
  rune_vm_mem_readstr vm offset dst max_len = Some (RUNE_OK, dst') ->
  exists k, 0 <= k < max_len /\ dst' !! Z.to_nat k = Some 0.
Proof.
  intros Hm H. unfold rune_vm_mem_readstr in H.
  destruct (memory vm) as [mem|]; [|discriminate].
  destruct (memory_pages vm * RUNE_PAGE_SIZE <=? offset) eqn:Eo; [discriminate|].
  apply Z.leb_gt in Eo.
  set (avail := memory_pages vm * RUNE_PAGE_SIZE - offset) in *.
  set (limit := if avail <? max_len then avail else max_len) in *.
  assert (Hl : limit <= max_len)
    by (unfold limit; destruct (avail <? max_len) eqn:E; [apply Z.ltb_lt in E|]; lia).
  destruct (readstr_loop mem offset (Z.to_nat limit) 0 dst) as [[d1 [|]]|] eqn:El;
    [| |discriminate].
  - injection H as <-. apply readstr_loop_found in El; [|lia].
    destruct El as (k & Hk & Hz). exists k. split; [lia|exact Hz].
  - assert (E0 : (0 <? max_len) = true) by (apply Z.ltb_lt; exact Hm). rewrite E0 in H.
    destruct (buf_store d1 (max_len - 1) 0) as [d2|] eqn:Es; [|discriminate].
    injection H as <-. exists (max_len - 1). split; [lia|].
    eapply buf_store_same; [|exact Es]. lia.
Qed.

Lemma readstr_terminates_the_string_witness :
  exists k, 0 <= k < 2 /\ [72; 0; 9; 9] !! Z.to_nat k = Some 0.
Proof.
  apply (readstr_terminates_the_string
           (set_memory_pages 1 (set_memory (Some (mem_write_bytes mem_zero 0 [72; 105]))
                                  (rune_vm_new Sample.abi None)))
           0 [9; 9; 9; 9] 2 [72; 0; 9; 9]); [lia | vm_compute; reflexivity].
Defined.

Lemma readstr_loop_copies mem offset k n i dst :
  0 <= i -> i <= k < i + Z.of_nat n -> k < zlen dst ->
  (forall j, i <= j < k -> u8 (mem (offset + j)) <> 0) ->
  u8 (mem (offset + k)) = 0 ->
  exists dst',
    readstr_loop mem offset n i dst = Some (dst', true) /\
    zlen dst' = zlen dst /\
    forall j, 0 <= j ->
      dst' !! Z.to_nat j
      = if (i <=? j) && (j <=? k) then Some (u8 (mem (offset + j))) else dst !! Z.to_nat j.
Proof.
  revert i dst. induction n as [|n IH]; intros i dst Hi Hk Hlen Hnz Hz; [lia|].
  simpl.
  destruct (buf_store dst i (u8 (mem (offset + i)))) as [d1|] eqn:Es.
  2:{ unfold buf_store in Es. assert (E : (i <? zlen dst) = true) by (apply Z.ltb_lt; lia).
      rewrite E in Es. discriminate. }
  pose proof (buf_store_length _ _ _ _ Es) as Hl1.
  destruct (Z.eq_dec i k) as [->|Hne].
  - rewrite Hz, Z.eqb_refl. exists d1. split; [reflexivity|]. split; [exact Hl1|].
    intros j Hj. destruct (Z.eq_dec j k) as [->|Hjk].
    + rewrite Z.leb_refl. simpl. rewrite Hz in Es. rewrite Hz.
      exact (buf_store_same dst k _ d1 Hi Es).
    + replace ((k <=? j) && (j <=? k)) with false
        by (symmetry; apply andb_false_iff; destruct (Z.leb_spec k j); [right; apply Z.leb_gt; lia|left; reflexivity]).
      exact (buf_store_other dst k _ d1 j Hi Hj Hjk Es).
  - assert (Enz : (u8 (mem (offset + i)) =? 0) = false)
      by (apply Z.eqb_neq; apply Hnz; lia).
    rewrite Enz.
    destruct (IH (i + 1) d1) as (d2 & Hr & Hl2 & Hp); try lia.
    { intros j Hj. apply Hnz. lia. }
    exists d2. split; [exact Hr|]. split; [lia|].
    intros j Hj. rewrite (Hp j Hj).
    destruct (Z.eq_dec j i) as [->|Hji].
    + replace ((i + 1 <=? i) && (i <=? k)) with false
        by (symmetry; apply andb_false_iff; left; apply Z.leb_gt; lia).
      replace ((i <=? i) && (i <=? k)) with true
        by (symmetry; apply andb_true_iff; split; apply Z.leb_le; lia).
      exact (buf_store_same dst i _ d1 Hi Es).
    + replace ((i + 1 <=? j) && (j <=? k)) with ((i <=? j) && (j <=? k)).
      2:{ f_equal. destruct (Z.leb_spec i j), (Z.leb_spec (i + 1) j); try reflexivity; lia. }
      destruct ((i <=? j) && (j <=? k)); [reflexivity|].
      exact (buf_store_other dst i _ d1 j Hi Hj Hji Es).
Qed.

(** X11.  [rune_vm_mem_readstr] copies the string and nothing more:
    when the memory holds, from [offset], [k] non-zero bytes and then a
    zero byte, all inside the current pages, and the buffer has room
    for them ([k < max_len], and the buffer has at least [k + 1]
    bytes), the function returns [RUNE_OK], the first [k + 1] bytes of
    the buffer are these bytes of the memory, the terminator included,
    and the rest of the buffer is as it was. *)
Theorem readstr_copies_the_string vm mem offset dst max_len k :
  memory vm = Some mem ->
  0 <= k -> offset + k < memory_pages vm * RUNE_PAGE_SIZE ->
  k < max_len -> k < zlen dst ->
  (forall j, 0 <= j < k -> u8 (mem (offset + j)) <> 0) ->
  u8 (mem (offset + k)) = 0 ->
  exists dst',
    rune_vm_mem_readstr vm offset dst max_len = Some (RUNE_OK, dst') /\
    take (Z.to_nat (k + 1)) dst' = mem_read_bytes mem offset (Z.to_nat (k + 1)) /\
    drop (Z.to_nat (k + 1)) dst' = drop (Z.to_nat (k + 1)) dst.
Proof.
  intros Hmem Hk Hin Hmax Hlen Hnz Hz. unfold rune_vm_mem_readstr. rewrite Hmem.
  assert (Eo : (memory_pages vm * RUNE_PAGE_SIZE <=? offset) = false)
    by (apply Z.leb_gt; lia).
  rewrite Eo.
  set (avail := memory_pages vm * RUNE_PAGE_SIZE - offset).
  set (limit := if avail <? max_len then avail else max_len).
  assert (Hl : k < limit)
    by (unfold limit, avail; destruct (_ <? max_len); lia).
  destruct (readstr_loop_copies mem offset k (Z.to_nat limit) 0 dst)
    as (d1 & Hr & Hl1 & Hp); try lia; try assumption.
  rewrite Hr. exists d1. split; [reflexivity|].
  assert (Hlen1 : (Z.to_nat (k + 1) <= length d1)%nat) by (unfold zlen in *; lia).
  split.
  - apply list_eq. intros j. unfold mem_read_bytes. rewrite list_lookup_fmap.
    destruct (decide (j < Z.to_nat (k + 1))%nat) as [Hj|Hj].
    + rewrite lookup_take_lt by exact Hj. rewrite lookup_seq_lt by exact Hj. simpl.
      rewrite <- (Nat2Z.id j) at 1. rewrite (Hp (Z.of_nat j)) by lia.
      replace ((0 <=? Z.of_nat j) && (Z.of_nat j <=? k)) with true
        by (symmetry; apply andb_true_iff; split; apply Z.leb_le; lia).
      reflexivity.
    + rewrite lookup_take_ge by lia. rewrite lookup_seq_ge by lia. reflexivity.
  - apply list_eq. intros j. rewrite !lookup_drop.
    rewrite <- (Nat2Z.id (Z.to_nat (k + 1) + j)). rewrite Hp by lia.
    replace ((0 <=? Z.of_nat (Z.to_nat (k + 1) + j)) &&
             (Z.of_nat (Z.to_nat (k + 1) + j) <=? k)) with false
      by (symmetry; apply andb_false_iff; right; apply Z.leb_gt; lia).
    reflexivity.
Qed.

Lemma readstr_copies_the_string_witness :
  exists dst',
    rune_vm_mem_readstr
      (set_memory_pages 1 (set_memory (Some (mem_write_bytes mem_zero 0 [72; 105]))
                             (rune_vm_new Sample.abi None)))
      0 [9; 9; 9; 9] 4 = Some (RUNE_OK, dst') /\
    take (Z.to_nat (2 + 1)) dst'
    = mem_read_bytes (mem_write_bytes mem_zero 0 [72; 105]) 0 (Z.to_nat (2 + 1)) /\
    drop (Z.to_nat (2 + 1)) dst' = drop (Z.to_nat (2 + 1)) [9; 9; 9; 9].
Proof.
  apply (readstr_copies_the_string
           (set_memory_pages 1 (set_memory (Some (mem_write_bytes mem_zero 0 [72; 105]))
                                  (rune_vm_new Sample.abi None)))
           (mem_write_bytes mem_zero 0 [72; 105]) 0 [9; 9; 9; 9] 4 2).
  - reflexivity.
  - lia.
  - vm_compute. reflexivity.
  - lia.
  - vm_compute. reflexivity.
  - intros j Hj. assert (Hc : j = 0 \/ j = 1) by lia.
    destruct Hc as [-> | ->]; vm_compute; discriminate.
  - vm_compute. reflexivity.
Defined.
(** ** What the loader accepts of indices (C5) *)

Lemma existsb_Exists {A} (f : A -> bool) l : existsb f l = true -> Exists (fun x => f x = true) l.
Proof.
  induction l as [|x l IH]; simpl; [discriminate|].
  destruct (f x) eqn:E; simpl; intros H;
    [apply Exists_cons_hd; exact E|apply Exists_cons_tl; apply IH; exact H].
Qed.

Lemma Exists_not_Forall {A} (P Q : A -> Prop) l :
  (forall x, P x -> ~ Q x) -> Exists P l -> ~ Forall Q l.
Proof.
  intros H He Hf. induction He as [x l Hx|x l _ IH].
  - inversion Hf; subst. exact (H x Hx ltac:(assumption)).
  - inversion Hf; subst. apply IH. assumption.
Qed.

Lemma Exists_map {A B} (f : A -> B) (P : B -> Prop) l :
  Exists (fun x => P (f x)) l -> Exists P (map f l).
Proof.
  induction 1 as [x l Hx|x l _ IH]; simpl;
    [apply Exists_cons_hd; exact Hx|apply Exists_cons_tl; exact IH].
Qed.

(** A dangling index of the assembler is a dangling index of the
    module that is loaded from its file. *)
Lemma dangling_is_loaded abi a :
  asm_dangling a = true -> ~ indices_valid abi (loaded_module abi a).
Proof.
  unfold asm_dangling. rewrite !orb_true_iff. intros [[H|H]|H] (Hf & Hi & He).
  - (* an import *)
    apply existsb_Exists in H. revert Hi. simpl.
    apply (Exists_not_Forall (fun i => type_count (loaded_module abi a) <= imp_type_idx i)).
    { intros x Hx [_ Hlt]. lia. }
    apply Exists_map. eapply Exists_impl; [|exact H].
    intros im Him. apply Z.leb_le in Him. simpl.
    unfold type_count. simpl. rewrite zlen_map. exact Him.
  - (* a body *)
    apply existsb_Exists in H. revert Hf. simpl.
    apply (Exists_not_Forall (fun f => type_count (loaded_module abi a) <= type_idx f)).
    { intros x Hx [_ Hlt]. lia. }
    unfold loaded_funcs. destruct (asm_bodies a) as [|b bs] eqn:Eb; [inversion H|].
    apply Exists_app. right. apply Exists_map. eapply Exists_impl; [|exact H].
    intros f Hfb. apply Z.leb_le in Hfb. simpl.
    unfold type_count. simpl. rewrite zlen_map. exact Hfb.
  - (* an export *)
    apply existsb_Exists in H. revert He. simpl.
    apply (Exists_not_Forall
             (fun e => 0 < e_idx e /\ func_count (loaded_module abi a) <= e_idx e
                       /\ global_count (loaded_module abi a) <= e_idx e)).
    { intros x (H0 & H1 & H2) [(_ & _ & Hlt)|[(_ & Hz & _)|(_ & _ & Hlt)]]; lia. }
    apply Exists_map. eapply Exists_impl; [|exact H].
    intros e Hx. rewrite !andb_true_iff in Hx. destruct Hx as [[H0 H1] H2].
    apply Z.ltb_lt in H0. apply Z.leb_le in H1, H2. simpl.
    unfold func_count, global_count. simpl. rewrite zlen_map.
    repeat split; assumption.
Qed.

(** C5 (as amended).  When [rune_module_load] succeeds, every type has
    at most 16 parameters and at most one result, and the type index of
    every function and import and the kind and index of every export
    are bounded by the width of their fields (16, 8 and 32 bits); that
    is all the loader establishes about them.  No index is compared
    with the table it refers to: every file that the assembler writes
    from tables within its limits and the loader's is loaded, with the
    indices that the tables hold, whatever their values, and when one
    of them refers to no entry (the type index of an import or of a
    body is not below the number of types, or the index of an export is
    valid for no kind) the module that is loaded has the dangling
    index; the file is not rejected with [RUNE_ERR_BADMODULE]. *)
Theorem load_compares_no_index abi :
  (forall raw m, rune_module_load abi raw = Loaded m -> fields_in_range m) /\
  (forall sect_num a,
     numbering_ok abi sect_num = true -> asm_ok abi a = true ->
     exists raw,
       Asm.rune_asm_finalize abi sect_num a = Asm.AsmOk raw /\
       rune_module_load abi raw = Loaded (loaded_module abi a) /\
       (asm_dangling a = true -> ~ indices_valid abi (loaded_module abi a))).
Proof.
  split; [intros raw m; apply load_fields_in_range|].
  intros sect_num a Hnum Hok.
  destruct (rune_asm_sections abi sect_num a Hnum Hok) as (body & Hfin & n & r' & Hp).
  pose proof (numbering_ok_header _ _ Hnum) as [Hm _].
  exists (Asm.file_header abi (Asm.crc32_buf body) ++ body). split; [|split].
  - unfold Asm.rune_asm_finalize. rewrite Hfin. simpl.
    rewrite (proj2 (Z.ltb_ge _ _) Hm). reflexivity.
  - rewrite (load_finalized abi sect_num body _ n r' Hnum Hp). f_equal.
    unfold loaded_module. simpl.
    destruct (find_init abi (map loaded_export (Asm.exports a))); reflexivity.
  - apply dangling_is_loaded.
Qed.

(** The theorem at the assembler with the dangling indices, whose file
    is [Demo.dangling_indices]. *)
Lemma load_compares_no_index_witness :
  fields_in_range Demo.m_dangling /\
  exists raw,
    Asm.rune_asm_finalize Sample.abi Host.sect_num Dangling.state = Asm.AsmOk raw /\
    rune_module_load Sample.abi raw = Loaded (loaded_module Sample.abi Dangling.state) /\
    ~ indices_valid Sample.abi (loaded_module Sample.abi Dangling.state).
Proof.
  destruct (load_compares_no_index Sample.abi) as [Hw Ha]. split.
  - apply (Hw Demo.dangling_indices). vm_compute. reflexivity.
  - destruct (Ha Host.sect_num Dangling.state) as (raw & Hfin & Hload & Hd);
      [vm_compute; reflexivity | vm_compute; reflexivity |].
    exists raw. split; [exact Hfin|]. split; [exact Hload|].
    apply Hd. vm_compute. reflexivity.
Defined.
